(* ===== verification/_CoqProject ===== *)
-Q . S2P
Prelude.v
FastMemcpy.v
BipSearch.v
CHeap.v
BipBuf.v
Sink.v
FmtInt.v
AtoiTab.v
FmtFlt.v
Vsnprintf.v
VsnprintfSafe.v
VsnprintfText.v
SnprintfCall.v
TlsAlloc.v
PlatformUtil.v
MyUtil.v
Hostname.v
City.v
ObjectPool.v
AccountList.v
AccountManager.v
AccountSafety.v
MapOrder.v
ZoneManager.v
Fifo.v
Io.v
EvClient.v
UvClient.v
UvConn.v
UvIsolated.v
ConnManager.v
UvServer.v
Threads.v
SpscQueue.v
SpscInv.v
SpscThreads.v
SpscSpec.v
KjQueues.v
KjSafe.v
KjSpsc.v
TcpPacket.v
TcpPool.v
TcpPost.v
TcpDecode.v
TcpStream.v
TcpRoundtrip.v
