(* ===== verification/Prelude.v ===== *)
(** * NetSystem: a verification of the library's own code

    The library moves packets between processes: byte buffers and a formatter at the
    bottom, packet framing above them, connections, servers and factories over three event
    libraries (libevent, libuv, kj), and lobbies with accounts and zones on top.  The sources
    are under [src/src]; file names below are relative to it.

    ** The files and what they model

    The C machine.  [Prelude] (this file): undefined behaviour as a result, machine integers,
    byte ranges.  [CHeap]: malloc, free, memcpy on blocks.

    Buffers ([base/bip_buf.c], [base/snprintf/fast_memcpy.h]).  [FastMemcpy]: the copy
    routines.  [BipSearch]: capacity rounding, [fast_strstr].  [BipBuf]: the mirror buffer.
    [Fifo]: the part of its contract that the connections use, as the class [ByteFifo], which
    [BipBuf] implements.

    The formatter ([base/snprintf/mysnprintf.c]).  [Sink]: [OUTCHAR].  [FmtInt], [FmtFlt],
    [AtoiTab]: the conversions.  [Vsnprintf]: the state machine.  [VsnprintfSafe],
    [VsnprintfText]: its theorems.  [SnprintfCall]: its calls from the lobby.

    Utilities.  [PlatformUtil] ([base/platform_utilities.c]), [MyUtil] ([base/MyUtil.cpp]),
    [City] ([base/cityhash/city.cc]), [ObjectPool] ([base/ObjectPool.hpp]), [TlsAlloc]
    ([tcp/uv/uv_tls_alloc.c]), [Hostname] ([tcp/ev/openssl_hostname_validation.c]).

    Packets ([tcp/TcpInnerPacket.cpp], [tcp/TcpOuterPacket.cpp]).  [TcpPacket]: the two
    classes as one program over the packet kind.  [TcpPool]: the shared buffers.  [TcpPost],
    [TcpDecode]: the frame format and the run of a byte stream as specifications.
    [TcpStream]: the read callbacks of [tcp/uv/UvServer.cpp], from the bytes to the handler.
    [TcpRoundtrip]: both ends together.

    Connections in one thread.  [Io]: the heap of objects, the trace of library calls, a
    weakest precondition.  [EvClient], [UvClient]: connecting.  [UvConn]: event managers
    and the methods all connections share.  [UvIsolated]: connections that reconnect.
    [ConnManager]: maps of connections, recycler, factory.  [UvServer]: listening, accepting,
    the end of a client.  All of them run in the one [world] of [Io]; the gate's copies of
    the classes are a field of the object.

    Two threads.  [Threads]: a thread as a tree of atomic accesses, a logic for one thread and
    rely and guarantee for two.  [SpscQueue], [SpscInv], [SpscThreads], [SpscSpec]
    ([base/concurrent/readerwriterqueue.h]): the lock-free queue, its invariant, the accesses
    of its two threads, its theorems.  [KjQueues]: the queues between front end and back end,
    the worker, the connections over kj.  [KjSafe]: its theorems, for any queue with the laws
    of [RWQueue]; [KjSpsc]: the lock-free queue, used by one thread at a time, is an instance.  The connection record and the
    manager's record are those of [Io] and [ConnManager].

    The lobby.  [AccountList], [AccountManager], [AccountSafety] ([lobby/AccountStateList.cpp],
    [lobby/SimpleAccountManager.cpp]) over [ObjectPool], [City] and [SnprintfCall];
    [MapOrder], [ZoneManager] ([lobby/SimpleZoneManager.cpp]).

    ** How state and failure are modelled

    A function of the sources is a function on a record of the state it touches, in the
    [outcome] monad: [Ok], or the kind of undefined behaviour.  A theorem that ends in [Ok]
    therefore says that the code stays in its memory, copies no overlapping ranges, uses no
    freed block.  Integers are [Z] with their wrap-around written out ([u32], [s64], ..).
    Bytes are lists of [Z]; a pointer is an offset into an object, or a block's number.
    Code that is not part of the library is a class parameter: [Malloc] (what a new block
    contains), [Env] (widths and addresses), [Lib] (the answers of libevent and libuv),
    [X509Lib], [Conn] (the owner of a packet), [KjListen]; hash maps are walked in an order
    given by [MapOrder].  Nothing is assumed of [Lib] beyond what a theorem names.

    ** What the theorems show

    Refinement of an abstract state: the mirror buffer is a byte queue
    ([bip_buf_refines_queue], [bip_buf_fifo]); the allocators are stacks and sets
    ([tls_alloc_refines], [pool_refines]); decoding follows a run relation
    ([decode_refines]); a reconnecting connection is a small state machine,
    up to the failures that the theorem lists ([isolated_refines]); registration follows its
    contract ([Register_refines]); two threads on a lock-free queue exchange a list
    ([spsc_fifo]).

    Functional behaviour: what the formatter prints, for the items of a stated domain
    ([o_vsnprintf_prints]; what it does wrong outside it is [fast_path_defects];
    [fmtint_prints], [fmtflt_prints], [fast_itoa_decimal]); [memcpy]; framing
    ([post_frames]); accepting, releasing, opening, connecting
    ([on_connection_accepts], [client_released], [Open_listens],
    [uv_connect_all_or_nothing]); the verdict on a host name ([validate_hostname_verdict]);
    what the recycler deletes ([recycle_quiet]); the zone registry ([Register_replaces]); who
    the account lookups answer ([lookups_answer]); what the substring search reports
    ([fast_strstr_finds]); the methods of the queue in one thread, destructor included
    ([spsc_alone]), and when it takes another element ([spsc_capacity]).

    End to end: packets of the size the receiver takes arrive as posted, however the reads
    are cut ([tcp_roundtrip]), each read makes progress ([read_progress]), and no received
    bytes do harm ([receive_safe]).

    Invariants and safety: the formatter writes inside its buffer and reads inside its format,
    whatever the arguments ([o_vsnprintf_safe]); accounts ([manager_safe]); the listed
    operations of the connection manager ([manager_keeps]); the counters of front end and back
    end, for histories in which each operation runs to its end before the next begins
    ([counted_safe]).

    Termination: of the formatter ([o_vsnprintf_safe]), and of both threads on the queue, which
    never wait for each other ([spsc_wait_free]).

    Where the code fails, the theorem states the failure: [stranded_forever],
    [shutdown_hangs], [early_recycle_dangles], [close_callback_crashes],
    [missed_disconnect].  Further lemmas of the same files run the code into a fault at one
    concrete state: [recycle_race] (an interleaving inside the recycler, which [counted_safe]
    leaves out), [late_failure_dangles], [blocking_hangs], [stale_inner_uuid],
    [gate_disconnect_crashes] and others.

    ** Bounds and fuel

    A loop that is not structural takes fuel, computed from its arguments where the source
    calls it: lengths of texts ([Vsnprintf], [MyUtil], [BipSearch], [City]), sizes of the two
    heaps of free blocks ([TlsAlloc], [TcpPacket]), received and posted lengths ([page_fuel],
    [post_fuel]), the bound of 99 on the exponent ([FmtFlt]), the number of blocks of a queue
    ([SpscQueue]).  Running out is the result [NoFuel], which the theorems exclude along with
    the other faults, so termination is part of what they say.  Loops that wait for something outside ([wait_recycle],
    [wait_server_closed], [work_loop]) take any amount of fuel and report when it was not
    enough; the theorems about them hold for every amount.

    The numeric limits in the statements are those of the code: buffers of up to [2^31] bytes
    in [BipBuf], connection ids between the two constants, queues shorter than the range of
    the 32-bit counters.

    ** Not modelled

    Console output and log lines, [errno], failing malloc (the code never tests for it
    either, but for the queue), assertions (compiled out in a release build; those of the queue
    are modelled, and hold).  Handlers of the application are events of a trace and do not
    call back into the library.  The peer's address, the custom id, and messages of protobuf ([SendPBMessage]).  [split2d], the comparisons of
    floats in [MyUtil], and the hashes of [city.cc] that nothing calls.

    The servers and connections over libevent ([tcp/ev/EvServer.cpp] and its neighbours) and
    the streams over kj ([tcp/kj/KjTcpConnection.cpp]); the parts they share with the modelled
    ones are covered there.  HTTP ([http/]), the lobbies that wire the objects together
    ([lobby/UvLobby.cpp] ..), the process ([netsystem/]): glue to other libraries.

    Of [base/concurrent/readerwriterqueue.h] the blocking variant, which nothing uses, and the
    fences: a store is visible to the other thread at once and in order, so what the theorems
    say of the queue is said of interleavings, not of weaker memory models. *)

From stdpp Require Export base list numbers strings.
From Stdlib Require Export Ascii.
#[local] Open Scope Z_scope.

(** ** Undefined behaviour and the outcome monad *)

(** The ways an execution of the C code can leave the language's contract. *)
Inductive ub :=
  | OobRead      (* a load outside its object *)
  | OobWrite     (* a store outside its object *)
  | Dangling     (* an access to, or a free of, a block that is not allocated *)
  | NullDeref    (* an access through a null pointer *)
  | Overlap      (* memcpy between overlapping ranges *)
  | Misaligned   (* an aligned vector access to an unaligned address *)
  | Uninit       (* use of an indeterminate pointer value *)
  | BadArg       (* a library function called outside its domain *)
  | VaMismatch   (* va_arg with a type the caller did not pass *)
  | NoFuel.      (* the fuel of a modelled loop ran out: proved unreachable *)

(** The result of running C code: a value, or the undefined behaviour it ran into. *)
Inductive outcome (A : Type) :=
  | Ok (a : A)
  | Ub (u : ub).
Arguments Ok {A} a.
Arguments Ub {A} u.

#[export] Instance outcome_ret : MRet outcome := @Ok.
#[export] Instance outcome_bind : MBind outcome := λ A B f m,
  match m with Ok a => f a | Ub u => Ub u end.
#[export] Instance outcome_fmap : FMap outcome := λ A B f m,
  match m with Ok a => Ok (f a) | Ub u => Ub u end.

#[export] Instance ub_eq_dec : EqDecision ub.
Proof. solve_decision. Defined.
#[export] Instance outcome_eq_dec {A} `{EqDecision A} : EqDecision (outcome A).
Proof. solve_decision. Defined.

(** [check b u m] runs [m] when the side condition [b] of the access holds. *)
Definition check {A} (b : bool) (u : ub) (m : outcome A) : outcome A :=
  if b then m else Ub u.

Definition from_option_ub {A} (u : ub) (o : option A) : outcome A :=
  match o with Some a => Ok a | None => Ub u end.

(** ** Machine integers *)

(** Unsigned and signed wrap-around at width [w]. *)
Definition wrapu (w z : Z) : Z := z `mod` 2 ^ w.
Definition wraps (w z : Z) : Z := (z + 2 ^ (w - 1)) `mod` 2 ^ w - 2 ^ (w - 1).

Abbreviation u8 := (wrapu 8).
Abbreviation u16 := (wrapu 16).
Abbreviation u32 := (wrapu 32).
Abbreviation u64 := (wrapu 64).
Abbreviation s8 := (wraps 8).
Abbreviation s16 := (wraps 16).
Abbreviation s32 := (wraps 32).
Abbreviation s64 := (wraps 64).

Definition INT_MAX : Z := 2147483647.

(** ** Bytes and text *)

(** A byte of memory is an integer in [0, 256); a text is a list of bytes. *)
Abbreviation bytes := (list Z).

Definition byte_ok (c : Z) : Prop := 0 ≤ c < 256.

(** The byte of a character literal. *)
Definition chr (a : ascii) : Z := Z.of_N (N_of_ascii a).
Arguments chr a%_char_scope.

(** The bytes of a string literal, without the terminating NUL. *)
Fixpoint txt (s : string) : bytes :=
  match s with
  | EmptyString => []
  | String a s => chr a :: txt s
  end.
Arguments txt s%_string_scope.

(** The object a string literal denotes: its bytes and the terminating NUL. *)
Definition cstr (s : string) : bytes := txt s ++ [0].
Arguments cstr s%_string_scope.

(** ** Byte ranges of an object *)

(** The length of an object, as an integer. *)
Abbreviation zlen l := (Z.of_nat (length l)) (only parsing).

(** The [n] bytes of [l] at offset [off]. *)
Definition sub_at {A} (off n : Z) (l : list A) : list A :=
  take (Z.to_nat n) (drop (Z.to_nat off) l).

(** [l] with the bytes at offset [off] replaced by [d]. *)
Definition put_at {A} (off : Z) (d l : list A) : list A :=
  take (Z.to_nat off) l ++ d ++ drop (Z.to_nat off + length d) l.

Definition in_range (off n len : Z) : bool :=
  (0 <=? off) && (0 <=? n) && (off + n <=? len).

(** Checked accesses to an object. *)
Definition load {A} (off n : Z) (l : list A) : outcome (list A) :=
  check (in_range off n (zlen l)) OobRead (Ok (sub_at off n l)).
Definition store {A} (off : Z) (d l : list A) : outcome (list A) :=
  check (in_range off (zlen d) (zlen l)) OobWrite (Ok (put_at off d l)).
Definition load1 {A} (off : Z) (l : list A) : outcome A :=
  if off <? 0 then Ub OobRead else from_option_ub OobRead (l !! Z.to_nat off).

(** ** Automation *)

Create HintDb csem.

(** Destruct the scrutinee of a match or an if of the goal or of a hypothesis. *)
Ltac split_match :=
  match goal with
  | |- context [match ?x with _ => _ end] => destruct x eqn:?
  | H : context [match ?x with _ => _ end] |- _ => destruct x eqn:?
  end.

(** Turn boolean integer tests of the context into propositions. *)
Ltac zbool :=
  repeat match goal with
  | H : (_ <? _) = true |- _ => apply Z.ltb_lt in H
  | H : (_ <? _) = false |- _ => apply Z.ltb_ge in H
  | H : (_ <=? _) = true |- _ => apply Z.leb_le in H
  | H : (_ <=? _) = false |- _ => apply Z.leb_gt in H
  | H : (_ =? _) = true |- _ => apply Z.eqb_eq in H
  | H : (_ =? _) = false |- _ => apply Z.eqb_neq in H
  | H : (_ && _) = true |- _ => apply andb_true_iff in H; destruct H
  | H : (_ && _) = false |- _ => apply andb_false_iff in H
  | H : (_ || _) = true |- _ => apply orb_true_iff in H
  | H : (_ || _) = false |- _ => apply orb_false_iff in H; destruct H
  | H : negb _ = true |- _ => apply negb_true_iff in H
  | H : negb _ = false |- _ => apply negb_false_iff in H
  end.

(** Case on an integer test of the goal and keep its meaning. *)
Ltac ztest :=
  match goal with
  | |- context [?a <? ?b] => destruct (Z.ltb_spec a b)
  | |- context [?a <=? ?b] => destruct (Z.leb_spec a b)
  | |- context [?a =? ?b] => destruct (Z.eqb_spec a b)
  end.

(** ** Outcomes *)

Lemma bind_Ok {A B} (f : A → outcome B) (m : outcome A) b :
  m ≫= f = Ok b ↔ ∃ a, m = Ok a ∧ f a = Ok b.
Proof. destruct m; cbn; naive_solver. Qed.

Lemma bind_Ok_l {A B} (f : A → outcome B) (m : outcome A) a :
  m = Ok a → m ≫= f = f a.
Proof. intros ->. reflexivity. Qed.

Lemma bind_assoc {A B C} (f : A → outcome B) (g : B → outcome C) (m : outcome A) :
  (m ≫= f) ≫= g = m ≫= (λ a, f a ≫= g).
Proof. by destruct m. Qed.

Lemma bind_ext {A B} (f g : A → outcome B) (m : outcome A) :
  (∀ a, f a = g a) → m ≫= f = m ≫= g.
Proof. destruct m; cbn; auto. Qed.

Lemma check_true {A} b u (m : outcome A) : b = true → check b u m = m.
Proof. by intros ->. Qed.

Lemma check_Ok {A} b u (m : outcome A) a : check b u m = Ok a ↔ b = true ∧ m = Ok a.
Proof. destruct b; cbn; naive_solver. Qed.

(** Invert every successful bind and check of the context. *)
Ltac inv_ok :=
  repeat match goal with
  | H : Ub _ = Ok _ |- _ => discriminate H
  | H : Ok _ = Ub _ |- _ => discriminate H
  | H : Ok ?a = Ok ?b |- _ => injection H; clear H; intros; try subst
  | H : mret _ = Ok _ |- _ => unfold mret, outcome_ret in H
  | H : _ ≫= _ = Ok _ |- _ =>
      let a := fresh "a" in let E := fresh "E" in
      apply bind_Ok in H; destruct H as (a & E & H)
  | H : check _ _ _ = Ok _ |- _ =>
      let E := fresh "E" in apply check_Ok in H; destruct H as [E H]
  | H : (_, _) = (_, _) |- _ => injection H; clear H; intros; try subst
  end.

(** [faults_in T m P]: [m] returns a value that satisfies [P], or it ran into one of the
    faults [T]. *)
Definition faults_in (T : ub → Prop) {A} (m : outcome A) (P : A → Prop) : Prop :=
  match m with Ok a => P a | Ub u => T u end.

Lemma faults_in_bind T {A B} (m : outcome A) (f : A → outcome B) P Q :
  faults_in T m P → (∀ a, P a → faults_in T (f a) Q) → faults_in T (m ≫= f) Q.
Proof. destruct m; cbn; auto. Qed.

Lemma faults_in_mono T {A} (m : outcome A) (P Q : A → Prop) :
  faults_in T m P → (∀ a, P a → Q a) → faults_in T m Q.
Proof. destruct m; cbn; auto. Qed.

(** A read that is in range, or may fail. *)
Lemma faults_in_load1 (T : ub → Prop) {A} off (l : list A) :
  0 ≤ off < zlen l ∨ T OobRead →
  faults_in T (load1 off l) (λ x, 0 ≤ off < zlen l ∧ l !! Z.to_nat off = Some x).
Proof.
  intros H. unfold load1. destruct (Z.ltb_spec off 0); [destruct H; [lia|done]|].
  destruct (l !! Z.to_nat off) eqn:E; cbn.
  - pose proof (lookup_lt_Some _ _ _ E). split; [lia|done].
  - apply lookup_ge_None in E. destruct H; [lia|done].
Qed.

(** ** Machine integers: lemmas *)

Lemma wrapu_bound w z : 0 ≤ w → 0 ≤ wrapu w z < 2 ^ w.
Proof. intros. apply Z.mod_pos_bound. lia. Qed.

Lemma wrapu_small w z : 0 ≤ z < 2 ^ w → wrapu w z = z.
Proof. apply Z.mod_small. Qed.

Lemma wraps_small w z :
  0 < w → - 2 ^ (w - 1) ≤ z < 2 ^ (w - 1) → wraps w z = z.
Proof.
  intros ? ?. unfold wraps. assert (2 ^ w = 2 * 2 ^ (w - 1)).
  { rewrite <- Z.pow_succ_r by lia. f_equal. lia. }
  rewrite Z.mod_small; lia.
Qed.

Lemma wraps_bound w z : 0 < w → - 2 ^ (w - 1) ≤ wraps w z < 2 ^ (w - 1).
Proof.
  intros ?. unfold wraps. assert (2 ^ w = 2 * 2 ^ (w - 1)).
  { rewrite <- Z.pow_succ_r by lia. f_equal. lia. }
  assert (0 < 2 ^ (w - 1)) by lia.
  pose proof (Z.mod_pos_bound (z + 2 ^ (w - 1)) (2 ^ w)). lia.
Qed.

Lemma u32_small z : 0 ≤ z < 4294967296 → u32 z = z.
Proof. intros. apply wrapu_small. lia. Qed.
Lemma u64_small z : 0 ≤ z < 18446744073709551616 → u64 z = z.
Proof. intros. apply wrapu_small. lia. Qed.
Lemma s32_small z : -2147483648 ≤ z < 2147483648 → s32 z = z.
Proof. intros. apply wraps_small; lia. Qed.
Lemma s64_small z : -9223372036854775808 ≤ z < 9223372036854775808 → s64 z = z.
Proof. intros. apply wraps_small; lia. Qed.

(** ** Byte ranges: lemmas *)

Section ranges.
Context {A : Type}.
Implicit Types l d : list A.

Lemma in_range_true off n len :
  in_range off n len = true ↔ 0 ≤ off ∧ 0 ≤ n ∧ off + n ≤ len.
Proof. unfold in_range. rewrite !andb_true_iff, !Z.leb_le. lia. Qed.

Lemma load_Ok off n l :
  0 ≤ off → 0 ≤ n → off + n ≤ zlen l → load off n l = Ok (sub_at off n l).
Proof. intros. apply check_true, in_range_true. lia. Qed.

Lemma store_Ok off d l :
  0 ≤ off → off + zlen d ≤ zlen l → store off d l = Ok (put_at off d l).
Proof. intros. apply check_true, in_range_true. lia. Qed.

Lemma load1_Ok off l x :
  0 ≤ off → l !! Z.to_nat off = Some x → load1 off l = Ok x.
Proof. intros ? Hl. unfold load1. destruct (Z.ltb_spec off 0); [lia|]. by rewrite Hl. Qed.

Lemma length_sub_at off n l :
  0 ≤ off → 0 ≤ n → off + n ≤ zlen l → zlen (sub_at off n l) = n.
Proof. intros. unfold sub_at. rewrite length_take, length_drop. lia. Qed.

Lemma length_put_at off d l :
  0 ≤ off → off + zlen d ≤ zlen l → length (put_at off d l) = length l.
Proof.
  intros. unfold put_at. rewrite !length_app, length_take, length_drop. lia.
Qed.

Lemma length_put_at1 off x l :
  0 ≤ off < zlen l → length (put_at off [x] l) = length l.
Proof. intros. apply length_put_at; cbn; lia. Qed.

Lemma store1_Ok off x l : 0 ≤ off < zlen l → store off [x] l = Ok (put_at off [x] l).
Proof. intros. apply store_Ok; cbn; lia. Qed.

Lemma lookup_sub_at off n l (i : nat) :
  Z.of_nat i < n → sub_at off n l !! i = l !! (Z.to_nat off + i)%nat.
Proof.
  intros. unfold sub_at. rewrite lookup_take_lt by lia. by rewrite lookup_drop.
Qed.

Lemma lookup_put_at off d l (i : nat) :
  0 ≤ off → off + zlen d ≤ zlen l →
  put_at off d l !! i =
    if decide (off ≤ Z.of_nat i < off + zlen d)
    then d !! (i - Z.to_nat off)%nat else l !! i.
Proof.
  intros. unfold put_at. case_decide.
  - rewrite lookup_app_r by (rewrite length_take; lia).
    rewrite lookup_app_l by (rewrite length_take; lia).
    f_equal. rewrite length_take. lia.
  - destruct (decide (Z.of_nat i < off)).
    + rewrite lookup_app_l by (rewrite length_take; lia).
      by rewrite lookup_take_lt by lia.
    + rewrite lookup_app_r by (rewrite length_take; lia).
      rewrite lookup_app_r by (rewrite length_take; lia).
      rewrite lookup_drop. f_equal. rewrite length_take. lia.
Qed.

Lemma sub_at_put_at_same off d l :
  0 ≤ off → off + zlen d ≤ zlen l → sub_at off (zlen d) (put_at off d l) = d.
Proof.
  intros. unfold sub_at, put_at. rewrite drop_app_length' by (rewrite length_take; lia).
  by rewrite take_app_length' by lia.
Qed.

Lemma sub_at_put_at_disjoint o n off d l :
  0 ≤ o → 0 ≤ n → 0 ≤ off → off + zlen d ≤ zlen l → o + n ≤ zlen l →
  o + n ≤ off ∨ off + zlen d ≤ o →
  sub_at o n (put_at off d l) = sub_at o n l.
Proof.
  intros. apply list_eq_same_length with (n := Z.to_nat n).
  - pose proof (length_sub_at o n l). lia.
  - pose proof (length_sub_at o n (put_at off d l)).
    rewrite length_put_at in * by lia. lia.
  - intros i x y Hi. rewrite !lookup_sub_at, lookup_put_at by lia.
    case_decide; [lia|]. naive_solver.
Qed.

(** Updating inside a range is updating the range. *)
Lemma sub_at_put_at_inside o n off d l :
  0 ≤ o → 0 ≤ off → off + zlen d ≤ n → o + n ≤ zlen l →
  sub_at o n (put_at (o + off) d l) = put_at off d (sub_at o n l).
Proof.
  intros. pose proof (length_sub_at o n l).
  assert (length (put_at (o + off) d l) = length l) as Hl by (apply length_put_at; lia).
  pose proof (length_sub_at o n (put_at (o + off) d l)).
  apply list_eq_same_length with (n := Z.to_nat n).
  - rewrite length_put_at; lia.
  - lia.
  - intros i x y Hi. rewrite lookup_sub_at, !lookup_put_at by lia.
    rewrite lookup_sub_at by lia.
    repeat case_decide; try lia; intros Hx Hy; [|congruence].
    replace (Z.to_nat o + i - Z.to_nat (o + off))%nat with (i - Z.to_nat off)%nat in Hx by lia.
    congruence.
Qed.

Lemma sub_at_app off n m l :
  0 ≤ off → 0 ≤ n → 0 ≤ m →
  sub_at off (n + m) l = sub_at off n l ++ sub_at (off + n) m l.
Proof.
  intros. unfold sub_at.
  replace (Z.to_nat (n + m)) with (Z.to_nat n + Z.to_nat m)%nat by lia.
  rewrite <- take_take_drop. rewrite drop_drop. do 3 f_equal. lia.
Qed.

Lemma put_at_put_at_next off a b l :
  0 ≤ off → off + zlen a + zlen b ≤ zlen l →
  put_at (off + zlen a) b (put_at off a l) = put_at off (a ++ b) l.
Proof.
  intros. apply list_eq. intros i.
  rewrite !lookup_put_at by (rewrite ?length_put_at, ?length_app; lia).
  rewrite length_app. repeat case_decide; try lia; try done.
  - rewrite lookup_app_r by lia. f_equal. lia.
  - by rewrite lookup_app_l by lia.
Qed.

Lemma put_at_put_at_prev off a b l :
  0 ≤ off → off + zlen a + zlen b ≤ zlen l →
  put_at off a (put_at (off + zlen a) b l) = put_at off (a ++ b) l.
Proof.
  intros. apply list_eq. intros i.
  rewrite !lookup_put_at by (rewrite ?length_put_at, ?length_app; lia).
  rewrite length_app. repeat case_decide; try lia; try done.
  - by rewrite lookup_app_l by lia.
  - rewrite lookup_app_r by lia. f_equal. lia.
Qed.

Lemma take_put_at off d l :
  0 ≤ off ≤ zlen l →
  take (Z.to_nat off + length d) (put_at off d l) = take (Z.to_nat off) l ++ d.
Proof.
  intros. unfold put_at. rewrite app_assoc. apply take_app_length'.
  rewrite length_app, length_take. lia.
Qed.

Lemma put_at_nil off l : put_at off [] l = l.
Proof. unfold put_at. cbn. rewrite Nat.add_0_r. apply take_drop. Qed.

Lemma sub_at_cons off n l x :
  0 ≤ off → 0 < n → l !! Z.to_nat off = Some x →
  sub_at off n l = x :: sub_at (off + 1) (n - 1) l.
Proof.
  intros ?? Hx. unfold sub_at. rewrite (drop_S _ x) by done.
  replace (Z.to_nat n) with (S (Z.to_nat (n - 1))) by lia. cbn.
  by replace (S (Z.to_nat off)) with (Z.to_nat (off + 1)) by lia.
Qed.

Lemma sub_at_0 off l : sub_at off 0 l = [].
Proof. reflexivity. Qed.

Lemma sub_at_neg off n l : n ≤ 0 → sub_at off n l = [].
Proof. intros. unfold sub_at. by replace (Z.to_nat n) with 0%nat by lia. Qed.

Lemma sub_at_all l : sub_at 0 (zlen l) l = l.
Proof. unfold sub_at. rewrite drop_0, Nat2Z.id. by apply take_ge. Qed.

Lemma take_sub_at (k : nat) off n l :
  Z.of_nat k ≤ n → take k (sub_at off n l) = sub_at off (Z.of_nat k) l.
Proof. intros. unfold sub_at. rewrite take_take. f_equal. lia. Qed.

Lemma drop_sub_at (k : nat) off n l :
  0 ≤ off → drop k (sub_at off n l) = sub_at (off + Z.of_nat k) (n - Z.of_nat k) l.
Proof.
  intros. unfold sub_at. rewrite skipn_firstn_comm, drop_drop.
  replace (Z.to_nat n - k)%nat with (Z.to_nat (n - Z.of_nat k)) by lia.
  by replace (Z.to_nat off + k)%nat with (Z.to_nat (off + Z.of_nat k)) by lia.
Qed.
End ranges.

(** The first index of [[i, i + n)] that satisfies [p]. *)
Fixpoint find_from (p : Z → bool) (i : Z) (n : nat) : option Z :=
  match n with
  | O => None
  | S n => if p i then Some i else find_from p (i + 1) n
  end.

Lemma find_from_Some p i n j :
  find_from p i n = Some j ↔
  i ≤ j < i + Z.of_nat n ∧ p j = true ∧ ∀ k, i ≤ k < j → p k = false.
Proof.
  revert i. induction n as [|n IH]; intros i; cbn [find_from].
  { split; [done|]. lia. }
  destruct (p i) eqn:Hp.
  - split; [|intros (Hj & Hpj & Hk)].
    + intros [= <-]. split; [lia|]. split; [done|]. intros. lia.
    + destruct (decide (i = j)); [by subst|]. rewrite Hk in Hp by lia. done.
  - rewrite IH. split; intros (Hj & Hpj & Hk).
    + split; [lia|]. split; [done|]. intros k ?.
      destruct (decide (k = i)); [by subst|]. apply Hk. lia.
    + assert (i ≠ j) by (intros ->; congruence).
      split; [lia|]. split; [done|]. intros k ?. apply Hk. lia.
Qed.

Lemma find_from_None p i n :
  find_from p i n = None ↔ ∀ k, i ≤ k < i + Z.of_nat n → p k = false.
Proof.
  revert i. induction n as [|n IH]; intros i; cbn [find_from].
  { split; [|done]. intros _ k ?. lia. }
  destruct (p i) eqn:Hp.
  - split; [done|]. intros H. specialize (H i ltac:(lia)). congruence.
  - rewrite IH. split; intros H k ?; [|apply H; lia].
    destruct (decide (k = i)); [by subst|]. apply H. lia.
Qed.

(** ** Text: lemmas *)

Lemma txt_app s1 s2 : txt (s1 ++ s2)%string = txt s1 ++ txt s2.
Proof. induction s1 as [|a s1 IH]; [done|]. change (chr a :: txt (s1 ++ s2)%string = chr a :: txt s1 ++ txt s2). by rewrite IH. Qed.

Lemma chr_byte a : byte_ok (chr a).
Proof.
  unfold byte_ok, chr. split; [lia|]. pose proof (N_ascii_bounded a). lia.
Qed.

Lemma txt_byte s : Forall byte_ok (txt s).
Proof. induction s; cbn; constructor; auto using chr_byte. Qed.

#[export] Hint Resolve chr_byte txt_byte : csem.

(** ** Integers in memory *)

(** The integer of some bytes, least significant first. *)
Fixpoint le_val (b : bytes) : Z := match b with [] => 0 | c :: b => c + 256 * le_val b end.

(** The bytes of an integer, least significant first. *)
Fixpoint le_bytes (n : nat) (v : Z) : bytes :=
  match n with O => [] | S n => v `mod` 256 :: le_bytes n (v / 256) end.

Lemma le_bytes_byte n v : Forall byte_ok (le_bytes n v).
Proof.
  revert v. induction n as [|n IH]; intros v; constructor; [|apply IH].
  apply Z.mod_pos_bound. lia.
Qed.

Lemma le_val_bytes n v : 0 ≤ v < 256 ^ Z.of_nat n → le_val (le_bytes n v) = v.
Proof.
  revert v. induction n as [|n IH]; intros v Hv; cbn [le_bytes le_val]; [lia|].
  rewrite IH.
  - pose proof (Z.div_mod v 256). lia.
  - rewrite Nat2Z.inj_succ, Z.pow_succ_r in Hv by lia.
    split; [apply Z.div_pos; lia|]. apply Z.div_lt_upper_bound; lia.
Qed.

Lemma length_le_bytes n v : length (le_bytes n v) = n.
Proof. revert v. induction n as [|n IH]; intros; cbn; [done|]. by rewrite IH. Qed.

(** ** C strings *)

(** [strlen]: the scan for NUL, in memory. *)
Fixpoint strlen_from (fuel : nat) (v : bytes) (i : Z) : outcome Z :=
  match fuel with
  | O => Ub NoFuel
  | S fuel => c ← load1 i v; if c =? 0 then Ok i else strlen_from fuel v (i + 1)
  end.
Definition strlen (v : bytes) : outcome Z := strlen_from (S (length v)) v 0.

Lemma strlen_from_Ok fuel v i n :
  strlen_from fuel v i = Ok n → v !! Z.to_nat n = Some 0 ∧ i ≤ n.
Proof.
  revert i. induction fuel as [|fuel IH]; intros i H; [done|]. cbn in H.
  apply bind_Ok in H as (c & Hc & H). destruct (Z.eqb_spec c 0) as [->|].
  - injection H as <-. split; [|lia]. unfold load1 in Hc. destruct (i <? 0); [done|].
    destruct (v !! Z.to_nat i); cbn in Hc; congruence.
  - apply IH in H as [? ?]. split; [done|lia].
Qed.

Lemma strlen_terminated pre v fuel :
  In 0 v → (length v < fuel)%nat → ∃ n, strlen_from fuel (pre ++ v) (zlen pre) = Ok n.
Proof.
  revert pre fuel. induction v as [|c v IH]; intros pre fuel Hin Hf; [done|].
  destruct fuel as [|fuel]; [lia|]. cbn [strlen_from length] in *.
  rewrite (load1_Ok _ _ c); [|lia|rewrite Nat2Z.id; by apply list_lookup_middle].
  cbn. destruct (Z.eqb_spec c 0) as [|Hc]; [by eexists|].
  destruct Hin as [?|Hin]; [done|].
  destruct (IH (pre ++ [c]) fuel Hin ltac:(lia)) as (n & E). exists n.
  rewrite <- app_assoc, length_app in E. cbn in E. by rewrite Nat2Z.inj_add in E.
Qed.

(** A text without a NUL, in memory behind [pre], ends where its NUL is. *)
Lemma strlen_from_text pre s r fuel :
  Forall (λ c, c ≠ 0) s → (length s < fuel)%nat →
  strlen_from fuel (pre ++ s ++ 0 :: r) (zlen pre) = Ok (zlen pre + zlen s).
Proof.
  revert pre fuel. induction s as [|c s IH]; intros pre fuel Hs Hf;
    (destruct fuel as [|fuel]; [cbn in Hf; lia|]); cbn [strlen_from].
  - rewrite (load1_Ok _ _ 0); [|lia|rewrite Nat2Z.id; by apply list_lookup_middle]. cbn. f_equal. lia.
  - apply Forall_cons_1 in Hs as [Hc Hs].
    rewrite (load1_Ok _ _ c); [|lia|rewrite Nat2Z.id; by apply list_lookup_middle].
    cbn [mbind outcome_bind]. rewrite (proj2 (Z.eqb_neq c 0)) by done.
    specialize (IH (pre ++ [c]) fuel Hs ltac:(cbn in Hf; lia)).
    rewrite <- app_assoc, length_app in IH. cbn in IH.
    replace (zlen pre + 1) with (Z.of_nat (length pre + 1)) by lia.
    cbn [app]. rewrite IH. f_equal. cbn. lia.
Qed.
