(* ===== verification/FastMemcpy.v ===== *)
(** * fast_memcpy: the SSE2 copy routines of [base/snprintf/fast_memcpy.h]

    The destination and the source are two objects (lists of bytes) with an offset
    into each; every load and store of the C code is a checked access, and the
    aligned vector accesses also check the numeric address, so a result [Ok] says
    that the copy read and wrote in bounds and aligned.  [memcpy_tiny]'s jump table
    is data ([mop], the statements of one case), executed by [exec_mops]; the cases
    [64 + k] fall through into case [k] as in the source.  Prefetches and the fence
    have no effect on memory and are not modelled.  [fast_memcpy_correct] is the
    contract the rest of the library uses: the routine is [memcpy]. *)

From S2P Require Import Prelude.

#[local] Open Scope Z_scope.

(** ** Vector copies *)

Definition memcpy_sse2_16 (dst : bytes) (doff : Z) (src : bytes) (soff : Z) : outcome bytes :=
  m0 ← load (soff + 16 * 0) 16 src;
  store (doff + 16 * 0) m0 dst.

Definition memcpy_sse2_32 (dst : bytes) (doff : Z) (src : bytes) (soff : Z) : outcome bytes :=
  m0 ← load (soff + 16 * 0) 16 src;
  m1 ← load (soff + 16 * 1) 16 src;
  dst ← store (doff + 16 * 0) m0 dst;
  store (doff + 16 * 1) m1 dst.

Definition memcpy_sse2_64 (dst : bytes) (doff : Z) (src : bytes) (soff : Z) : outcome bytes :=
  m0 ← load (soff + 16 * 0) 16 src;
  m1 ← load (soff + 16 * 1) 16 src;
  m2 ← load (soff + 16 * 2) 16 src;
  m3 ← load (soff + 16 * 3) 16 src;
  dst ← store (doff + 16 * 0) m0 dst;
  dst ← store (doff + 16 * 1) m1 dst;
  dst ← store (doff + 16 * 2) m2 dst;
  store (doff + 16 * 3) m3 dst.

(** Eight loads through [ld] and then eight stores through [st], each given the
    offset of its vector: the body of [memcpy_sse2_128] and of the copy loops. *)
Definition copy_block128 (ld : Z → outcome bytes) (st : Z → bytes → bytes → outcome bytes)
    (dst : bytes) : outcome bytes :=
  c0 ← ld (16 * 0); c1 ← ld (16 * 1); c2 ← ld (16 * 2); c3 ← ld (16 * 3);
  c4 ← ld (16 * 4); c5 ← ld (16 * 5); c6 ← ld (16 * 6); c7 ← ld (16 * 7);
  dst ← st (16 * 0) c0 dst; dst ← st (16 * 1) c1 dst;
  dst ← st (16 * 2) c2 dst; dst ← st (16 * 3) c3 dst;
  dst ← st (16 * 4) c4 dst; dst ← st (16 * 5) c5 dst;
  dst ← st (16 * 6) c6 dst; st (16 * 7) c7 dst.

Definition memcpy_sse2_128 (dst : bytes) (doff : Z) (src : bytes) (soff : Z) : outcome bytes :=
  copy_block128 (λ o, load (soff + o) 16 src) (λ o, store (doff + o)) dst.

(** ** The jump table of [memcpy_tiny] *)

(** One statement of a case: the argument [k] is the distance of the accessed bytes
    from the end of the copied range, [*(dd - k) = *(ss - k)]. *)
Inductive mop :=
  | U8 (k : Z)
  | U16 (k : Z)
  | U32 (k : Z)
  | U64 (k : Z)
  | Sse16 (k : Z)
  | Sse32 (k : Z)
  | Sse64 (k : Z)
  | Sse128 (k : Z).

(** [case 0] to [case 15]. *)
Definition tiny_case_00 (n : Z) : list mop :=
  match n with
  | 0 => []
  | 1 => [U8 1]
  | 2 => [U16 2]
  | 3 => [U16 3; U8 1]
  | 4 => [U32 4]
  | 5 => [U32 5; U8 1]
  | 6 => [U32 6; U16 2]
  | 7 => [U32 7; U32 4]
  | 8 => [U64 8]
  | 9 => [U64 9; U8 1]
  | 10 => [U64 10; U16 2]
  | 11 => [U64 11; U32 4]
  | 12 => [U64 12; U32 4]
  | 13 => [U64 13; U32 5; U8 1]
  | 14 => [U64 14; U64 8]
  | 15 => [U64 15; U64 8]
  | _ => []
  end.

(** [case 16] to [case 31]. *)
Definition tiny_case_16 (n : Z) : list mop :=
  match n with
  | 16 => [Sse16 16]
  | 17 => [Sse16 17; U8 1]
  | 18 => [Sse16 18; U16 2]
  | 19 => [Sse16 19; U16 3; U8 1]
  | 20 => [Sse16 20; U32 4]
  | 21 => [Sse16 21; U32 5; U8 1]
  | 22 => [Sse16 22; U32 6; U16 2]
  | 23 => [Sse16 23; U32 7; U32 4]
  | 24 => [Sse16 24; Sse16 16]
  | 25 => [Sse16 25; Sse16 16]
  | 26 => [Sse16 26; Sse16 16]
  | 27 => [Sse16 27; Sse16 16]
  | 28 => [Sse16 28; Sse16 16]
  | 29 => [Sse16 29; Sse16 16]
  | 30 => [Sse16 30; Sse16 16]
  | 31 => [Sse16 31; Sse16 16]
  | _ => []
  end.

(** [case 32] to [case 47]. *)
Definition tiny_case_32 (n : Z) : list mop :=
  match n with
  | 32 => [Sse32 32]
  | 33 => [Sse32 33; U8 1]
  | 34 => [Sse32 34; U16 2]
  | 35 => [Sse32 35; U16 3; U8 1]
  | 36 => [Sse32 36; U32 4]
  | 37 => [Sse32 37; U32 5; U8 1]
  | 38 => [Sse32 38; U32 6; U16 2]
  | 39 => [Sse32 39; U32 7; U32 4]
  | 40 => [Sse32 40; U64 8]
  | 41 => [Sse32 41; U64 9; U8 1]
  | 42 => [Sse32 42; U64 10; U16 2]
  | 43 => [Sse32 43; U64 11; U32 4]
  | 44 => [Sse32 44; U64 12; U32 4]
  | 45 => [Sse32 45; U64 13; U32 5; U8 1]
  | 46 => [Sse32 46; U64 14; U64 8]
  | 47 => [Sse32 47; U64 15; U64 8]
  | _ => []
  end.

(** [case 48] to [case 63]. *)
Definition tiny_case_48 (n : Z) : list mop :=
  match n with
  | 48 => [Sse32 48; Sse16 16]
  | 49 => [Sse32 49; Sse16 17; U8 1]
  | 50 => [Sse32 50; Sse16 18; U16 2]
  | 51 => [Sse32 51; Sse16 19; U16 3; U8 1]
  | 52 => [Sse32 52; Sse16 20; U32 4]
  | 53 => [Sse32 53; Sse16 21; U32 5; U8 1]
  | 54 => [Sse32 54; Sse16 22; U32 6; U16 2]
  | 55 => [Sse32 55; Sse16 23; U32 7; U32 4]
  | 56 => [Sse32 56; Sse16 24; Sse16 16]
  | 57 => [Sse32 57; Sse16 25; Sse16 16]
  | 58 => [Sse32 58; Sse16 26; Sse16 16]
  | 59 => [Sse32 59; Sse16 27; Sse16 16]
  | 60 => [Sse32 60; Sse16 28; Sse16 16]
  | 61 => [Sse32 61; Sse16 29; Sse16 16]
  | 62 => [Sse32 62; Sse16 30; Sse16 16]
  | 63 => [Sse32 63; Sse16 31; Sse16 16]
  | _ => []
  end.

Definition tiny_case_low (n : Z) : list mop :=
  if n <? 16 then tiny_case_00 n
  else if n <? 32 then tiny_case_16 n
  else if n <? 48 then tiny_case_32 n
  else tiny_case_48 n.

(** The whole switch: [case 64 + k] copies the first 64 bytes and falls through into
    [case k]; sizes above 128 match no case. *)
Definition tiny_case (n : Z) : list mop :=
  if n <? 64 then tiny_case_low n
  else if n <? 128 then Sse64 n :: tiny_case_low (n - 64)
  else if n =? 128 then [Sse128 128]
  else [].

(** A scalar assignment of [w] bytes. *)
Definition copy_scalar (w : Z) (dst : bytes) (doff : Z) (src : bytes) (soff : Z) : outcome bytes :=
  v ← load soff w src; store doff v dst.

Definition exec_mop (dst : bytes) (dd : Z) (src : bytes) (ss : Z) (o : mop) : outcome bytes :=
  match o with
  | U8 k => copy_scalar 1 dst (dd - k) src (ss - k)
  | U16 k => copy_scalar 2 dst (dd - k) src (ss - k)
  | U32 k => copy_scalar 4 dst (dd - k) src (ss - k)
  | U64 k => copy_scalar 8 dst (dd - k) src (ss - k)
  | Sse16 k => memcpy_sse2_16 dst (dd - k) src (ss - k)
  | Sse32 k => memcpy_sse2_32 dst (dd - k) src (ss - k)
  | Sse64 k => memcpy_sse2_64 dst (dd - k) src (ss - k)
  | Sse128 k => memcpy_sse2_128 dst (dd - k) src (ss - k)
  end.

Fixpoint exec_mops (dst : bytes) (dd : Z) (src : bytes) (ss : Z) (os : list mop) : outcome bytes :=
  match os with
  | [] => Ok dst
  | o :: os => dst ← exec_mop dst dd src ss o; exec_mops dst dd src ss os
  end.

Definition memcpy_tiny (dst : bytes) (doff : Z) (src : bytes) (soff size : Z) : outcome bytes :=
  exec_mops dst (doff + size) src (soff + size) (tiny_case size).

(** ** The main routine *)

(** L2-cache size *)
Definition cachesize : Z := 0x200000.

(** Aligned vector accesses: [base] is the address of the object. *)
Definition load_si128 (base off : Z) (src : bytes) : outcome bytes :=
  check ((base + off) `mod` 16 =? 0) Misaligned (load off 16 src).
Definition store_si128 (base off : Z) (m dst : bytes) : outcome bytes :=
  check ((base + off) `mod` 16 =? 0) Misaligned (store off m dst).

(** [for (; size >= 128; size -= 128) { ... }] with the loads [ld] and stores [st];
    it returns the destination and the remaining [dst], [src] and [size]. *)
Fixpoint copy_loop (ld : Z → outcome bytes) (st : Z → bytes → bytes → outcome bytes)
    (fuel : nat) (dst : bytes) (doff soff size : Z) : outcome (bytes * Z * Z * Z) :=
  match fuel with
  | O => Ub NoFuel
  | S fuel =>
      if 128 <=? size then
        dst ← copy_block128 (λ o, ld (soff + o)) (λ o, st (doff + o)) dst;
        copy_loop ld st fuel dst (doff + 128) (soff + 128) (size - 128)
      else Ok (dst, doff, soff, size)
  end.

Definition loop_fuel (size : Z) : nat := S (Z.to_nat (size / 128)).

Definition fast_memcpy (dbase : Z) (dst : bytes) (doff : Z)
    (sbase : Z) (src : bytes) (soff size : Z) : outcome bytes :=
  if size <=? 128 then memcpy_tiny dst doff src soff size
  else
    (* align destination to 16 bytes boundary *)
    let padding := Z.land (16 - Z.land (dbase + doff) 15) 15 in
    '(dst, doff, soff, size) ←
      (if 0 <? padding then
        head ← load soff 16 src;
        dst ← store doff head dst;
        Ok (dst, doff + padding, soff + padding, size - padding)
      else Ok (dst, doff, soff, size));
    '(dst, doff, soff, size) ←
      (if size <=? cachesize then
        (* medium size copy *)
        copy_loop (λ o, load o 16 src) (λ o, store_si128 dbase o)
          (loop_fuel size) dst doff soff size
      else if Z.land (sbase + soff) 15 =? 0 then
        (* big memory copy, source aligned *)
        copy_loop (λ o, load_si128 sbase o src) (λ o, store_si128 dbase o)
          (loop_fuel size) dst doff soff size
      else
        (* source unaligned *)
        copy_loop (λ o, load o 16 src) (λ o, store_si128 dbase o)
          (loop_fuel size) dst doff soff size);
    memcpy_tiny dst doff src soff size.

(** ** Correctness *)

Section correctness.
Context (src : bytes).
Implicit Types dst : bytes.

(** [copied] is the effect of [memcpy] on the destination object. *)
Definition copied (dst : bytes) (doff soff n : Z) : bytes :=
  put_at doff (sub_at soff n src) dst.

Definition fits (dst : bytes) (doff soff n : Z) : Prop :=
  0 ≤ doff ∧ 0 ≤ soff ∧ 0 ≤ n ∧ doff + n ≤ zlen dst ∧ soff + n ≤ zlen src.

Lemma length_copied dst doff soff n :
  fits dst doff soff n → length (copied dst doff soff n) = length dst.
Proof.
  intros (?&?&?&?&?). unfold copied. apply length_put_at; [done|].
  by rewrite length_sub_at.
Qed.

Lemma copied_next dst doff soff n m :
  fits dst doff soff (n + m) → 0 ≤ n → 0 ≤ m →
  copied (copied dst doff soff n) (doff + n) (soff + n) m = copied dst doff soff (n + m).
Proof.
  intros (?&?&?&?&?) ??. unfold copied. rewrite sub_at_app by lia.
  rewrite <- put_at_put_at_next by (rewrite ?length_sub_at; lia).
  by rewrite length_sub_at by lia.
Qed.

Lemma copied_0 dst doff soff : copied dst doff soff 0 = dst.
Proof. apply put_at_nil. Qed.

Lemma load_fits dst doff soff n o w :
  fits dst doff soff n → 0 ≤ o → 0 ≤ w → o + w ≤ n →
  load (soff + o) w src = Ok (sub_at (soff + o) w src).
Proof. intros (?&?&?&?&?) ???. apply load_Ok; lia. Qed.

(** The store of a vector that was loaded at the same relative offset extends the
    copied prefix. *)
Lemma store_copied dst doff soff n o w :
  fits dst doff soff n → 0 ≤ o → 0 ≤ w → o + w ≤ n →
  store (doff + o) (sub_at (soff + o) w src) (copied dst doff soff o) =
  Ok (copied dst doff soff (o + w)).
Proof.
  intros H ???. pose proof H as (?&?&?&?&?).
  assert (fits dst doff soff (o + w)) by (unfold fits; lia).
  rewrite store_Ok.
  - f_equal. by apply copied_next.
  - lia.
  - rewrite length_sub_at, length_copied by (unfold fits in *; lia). lia.
Qed.

Lemma lookup_copied dst doff soff n (i : nat) :
  fits dst doff soff n →
  copied dst doff soff n !! i =
    if decide (doff ≤ Z.of_nat i < doff + n)
    then src !! (Z.to_nat soff + (i - Z.to_nat doff))%nat else dst !! i.
Proof.
  intros (?&?&?&?&?). unfold copied.
  rewrite lookup_put_at by (rewrite ?length_sub_at; lia).
  rewrite length_sub_at by lia. case_decide; [|done]. apply lookup_sub_at. lia.
Qed.

(** The 128-byte block, for any loads and stores that act as plain ones. *)
Lemma copy_block128_ok ld st dst doff soff :
  fits dst doff soff 128 →
  (∀ o, 0 ≤ o ≤ 112 → o `mod` 16 = 0 → ld o = Ok (sub_at (soff + o) 16 src)) →
  (∀ o v d, 0 ≤ o ≤ 112 → o `mod` 16 = 0 → st o v d = store (doff + o) v d) →
  copy_block128 ld st dst = Ok (copied dst doff soff 128).
Proof.
  intros H Hld Hst. unfold copy_block128.
  rewrite !Hld by done. cbn [mbind outcome_bind].
  rewrite <- (copied_0 dst doff soff) at 1.
  repeat (rewrite Hst by done;
          rewrite (store_copied dst doff soff 128) by (done || lia);
          cbn [mbind outcome_bind]).
  done.
Qed.

Lemma copy_scalar_ok w dst doff soff :
  fits dst doff soff w → copy_scalar w dst doff src soff = Ok (copied dst doff soff w).
Proof.
  intros H. pose proof H as (?&?&?&?&?). unfold copy_scalar.
  rewrite load_Ok by lia. apply store_Ok; [lia|]. rewrite length_sub_at; lia.
Qed.

Ltac sse_copy n :=
  intros H;
  rewrite !(load_fits _ _ _ n _ _ H) by lia; cbn [mbind outcome_bind];
  match goal with |- context [store _ _ ?dst] =>
    match type of H with fits _ ?doff ?soff _ => rewrite <- (copied_0 dst doff soff) at 1 end
  end;
  repeat (rewrite (store_copied _ _ _ n) by (done || lia); cbn [mbind outcome_bind]);
  done.

Lemma memcpy_sse2_16_ok dst doff soff :
  fits dst doff soff 16 → memcpy_sse2_16 dst doff src soff = Ok (copied dst doff soff 16).
Proof. unfold memcpy_sse2_16. sse_copy 16. Qed.

Lemma memcpy_sse2_32_ok dst doff soff :
  fits dst doff soff 32 → memcpy_sse2_32 dst doff src soff = Ok (copied dst doff soff 32).
Proof. unfold memcpy_sse2_32. sse_copy 32. Qed.

Lemma memcpy_sse2_64_ok dst doff soff :
  fits dst doff soff 64 → memcpy_sse2_64 dst doff src soff = Ok (copied dst doff soff 64).
Proof. unfold memcpy_sse2_64. sse_copy 64. Qed.

Lemma memcpy_sse2_128_ok dst doff soff :
  fits dst doff soff 128 → memcpy_sse2_128 dst doff src soff = Ok (copied dst doff soff 128).
Proof.
  intros H. apply copy_block128_ok; [done| |done].
  intros o ??. apply (load_fits _ _ _ 128 _ _ H); lia.
Qed.

(** *** The jump table *)

(** Distance from the end and width of the bytes a statement copies. *)
Definition mop_range (o : mop) : Z * Z :=
  match o with
  | U8 k => (k, 1) | U16 k => (k, 2) | U32 k => (k, 4) | U64 k => (k, 8)
  | Sse16 k => (k, 16) | Sse32 k => (k, 32) | Sse64 k => (k, 64) | Sse128 k => (k, 128)
  end.

Definition mop_in (n : Z) (o : mop) : bool :=
  let '(k, w) := mop_range o in (k <=? n) && (w <=? k).

Definition mop_covers (n i : Z) (o : mop) : bool :=
  let '(k, w) := mop_range o in (n - k <=? i) && (i <? n - k + w).

Lemma exec_mop_ok dst doff soff n o :
  fits dst doff soff n → mop_in n o = true →
  exec_mop dst (doff + n) src (soff + n) o =
  Ok (copied dst (doff + n - (mop_range o).1) (soff + n - (mop_range o).1) (mop_range o).2).
Proof.
  intros (?&?&?&?&?) Hin.
  destruct o as [k|k|k|k|k|k|k|k]; cbn in Hin |- *; zbool;
    first [apply copy_scalar_ok | apply memcpy_sse2_16_ok | apply memcpy_sse2_32_ok
          | apply memcpy_sse2_64_ok | apply memcpy_sse2_128_ok]; unfold fits; lia.
Qed.

(** The effect of a list of in-bounds statements, byte by byte. *)
Lemma exec_mops_lookup os dst doff soff n :
  fits dst doff soff n → forallb (mop_in n) os = true →
  ∃ dst', exec_mops dst (doff + n) src (soff + n) os = Ok dst' ∧
    length dst' = length dst ∧
    ∀ i : nat, dst' !! i =
      if existsb (mop_covers n (Z.of_nat i - doff)) os
      then src !! (Z.to_nat soff + (i - Z.to_nat doff))%nat else dst !! i.
Proof.
  revert dst. induction os as [|o os IH]; intros dst Hf Hin; cbn in Hin |- *.
  { exists dst. auto. }
  apply andb_true_iff in Hin as [Ho Hos].
  rewrite (exec_mop_ok _ _ _ _ _ Hf Ho). cbn.
  set (d1 := copied _ _ _ _).
  assert (fits dst (doff + n - (mop_range o).1) (soff + n - (mop_range o).1) (mop_range o).2).
  { unfold fits in *. destruct o; cbn in Ho |- *; zbool; lia. }
  assert (length d1 = length dst) as Hd1 by by apply length_copied.
  destruct (IH d1) as (dst' & E & Hl & Hi); [|done|].
  { unfold fits in *. rewrite Hd1. lia. }
  exists dst'. split; [done|]. split; [by rewrite Hl|]. intros i. rewrite Hi.
  destruct (existsb _ os); [by rewrite orb_true_r|]. rewrite orb_false_r.
  unfold d1. rewrite lookup_copied by done.
  unfold mop_covers, mop_in in *. destruct (mop_range o) as [k w] eqn:Hr; cbn.
  zbool. unfold fits in *. case_decide.
  - rewrite (proj2 (andb_true_iff _ _)) by (split; [apply Z.leb_le | apply Z.ltb_lt]; lia).
    f_equal. lia.
  - rewrite (proj2 (andb_false_iff _ _)); [done|]. rewrite Z.leb_gt, Z.ltb_ge. lia.
Qed.

(** Every entry of the table is in bounds and its statements cover exactly the
    copied range: a finite check of the 129 cases. *)
Definition tiny_case_ok (n : Z) : bool :=
  forallb (mop_in n) (tiny_case n) &&
  forallb (λ i, existsb (mop_covers n (Z.of_nat i)) (tiny_case n)) (seq 0 (Z.to_nat n)).

Lemma tiny_cases_ok : forallb (λ i, tiny_case_ok (Z.of_nat i)) (seq 0 129) = true.
Proof. vm_compute. reflexivity. Qed.

Lemma tiny_case_in_covers n i :
  0 ≤ n ≤ 128 →
  forallb (mop_in n) (tiny_case n) = true ∧
  (existsb (mop_covers n i) (tiny_case n) = bool_decide (0 ≤ i < n)).
Proof.
  intros Hn. pose proof tiny_cases_ok as H. rewrite forallb_forall in H.
  specialize (H (Z.to_nat n)). rewrite in_seq, Z2Nat.id in H by lia.
  specialize (H ltac:(lia)). unfold tiny_case_ok in H.
  apply andb_true_iff in H as [Hin Hcov]. split; [done|].
  case_bool_decide as Hi.
  - rewrite forallb_forall in Hcov. specialize (Hcov (Z.to_nat i)).
    rewrite in_seq, Z2Nat.id in Hcov by lia. apply Hcov. lia.
  - apply not_true_iff_false. rewrite existsb_exists. intros (o & Ho & Hc).
    rewrite forallb_forall in Hin. specialize (Hin o Ho).
    unfold mop_in, mop_covers in *. destruct (mop_range o). zbool. lia.
Qed.

Lemma memcpy_tiny_ok dst doff soff n :
  fits dst doff soff n → n ≤ 128 →
  memcpy_tiny dst doff src soff n = Ok (copied dst doff soff n).
Proof.
  intros Hf Hn. pose proof Hf as (?&?&?&?&?).
  destruct (exec_mops_lookup (tiny_case n) dst doff soff n Hf) as (dst' & E & Hl & Hi).
  { by apply (tiny_case_in_covers n 0). }
  unfold memcpy_tiny. rewrite E. f_equal. apply list_eq. intros i.
  rewrite Hi, lookup_copied by done.
  rewrite (proj2 (tiny_case_in_covers n (Z.of_nat i - doff) ltac:(lia))).
  repeat case_decide; case_bool_decide; done || lia.
Qed.

(** *** The copy loops and the routine *)

(** Copying a block and then the rest is copying everything. *)
Lemma copied_copied dst doff soff n m :
  fits dst doff soff (n + m) → 0 ≤ n → 0 ≤ m →
  fits (copied dst doff soff n) (doff + n) (soff + n) m ∧
  copied (copied dst doff soff n) (doff + n) (soff + n) m = copied dst doff soff (n + m).
Proof.
  intros Hf ??. split; [|by apply copied_next].
  unfold fits in *. rewrite length_copied by (unfold fits; lia). lia.
Qed.

Section loop.
Context (dbase : Z) (ld : Z → outcome bytes).

Lemma copy_loop_ok fuel dst doff soff size :
  (∀ o, soff ≤ o → o + 16 ≤ soff + size → (o - soff) `mod` 16 = 0 →
     ld o = load o 16 src) →
  fits dst doff soff size → (dbase + doff) `mod` 16 = 0 →
  size < 128 * Z.of_nat fuel →
  ∃ n, 0 ≤ n ≤ size ∧ size - n < 128 ∧
    copy_loop ld (λ o, store_si128 dbase o) fuel dst doff soff size =
    Ok (copied dst doff soff n, doff + n, soff + n, size - n).
Proof.
  revert dst doff soff size. induction fuel as [|fuel IH]; intros dst doff soff size Hld Hf Hal Hfuel.
  { unfold fits in Hf. lia. }
  cbn [copy_loop]. destruct (Z.leb_spec 128 size) as [Hs|Hs].
  2:{ exists 0. unfold fits in Hf. rewrite copied_0, !Z.add_0_r, Z.sub_0_r. auto with lia. }
  rewrite (copy_block128_ok _ _ dst doff soff).
  2:{ unfold fits in *. lia. }
  2:{ intros o ? Ho. rewrite Hld; [|lia|lia|].
      - apply load_Ok; unfold fits in *; lia.
      - rewrite <- Ho. f_equal. lia. }
  2:{ intros o v d ? Ho. apply check_true. rewrite Z.add_assoc, Z.add_mod, Hal, Ho by lia. done. }
  cbn [mbind outcome_bind].
  destruct (copied_copied dst doff soff 128 (size - 128)) as [Hf' Hc].
  { by replace (128 + (size - 128)) with size by lia. } { lia. } { lia. }
  destruct (IH (copied dst doff soff 128) (doff + 128) (soff + 128) (size - 128))
    as (n & Hn & Hlt & E); [|done| |lia|].
  - intros o ?? Ho. apply Hld; [lia|lia|].
    replace (o - soff) with (o - (soff + 128) + 8 * 16) by lia. by rewrite Z_mod_plus_full.
  - replace (dbase + (doff + 128)) with (dbase + doff + 8 * 16) by lia. by rewrite Z_mod_plus_full.
  - exists (128 + n). rewrite E, <- copied_next by (unfold fits in *; lia).
    split; [lia|]. split; [lia|].
    replace (doff + (128 + n)) with (doff + 128 + n) by lia.
    replace (soff + (128 + n)) with (soff + 128 + n) by lia.
    by replace (size - (128 + n)) with (size - 128 - n) by lia.
Qed.
End loop.

Lemma land15 x : Z.land x 15 = x `mod` 16.
Proof. change 15 with (Z.ones 4). by rewrite Z.land_ones by lia. Qed.

Lemma loop_fuel_enough size : 0 ≤ size → size < 128 * Z.of_nat (loop_fuel size).
Proof. intros. unfold loop_fuel. pose proof (Z.mod_pos_bound size 128). pose proof (Z.div_mod size 128). lia. Qed.

(** A copy that starts inside an already copied prefix absorbs it. *)
Lemma copied_absorb dst doff soff p m n :
  fits dst doff soff n → 0 ≤ p ≤ m → m ≤ n →
  copied (copied dst doff soff m) (doff + p) (soff + p) (n - p) = copied dst doff soff n.
Proof.
  intros Hf ??. pose proof Hf as (?&?&?&?&?).
  assert (fits dst doff soff m) by (unfold fits; lia).
  apply list_eq. intros i.
  rewrite !lookup_copied by (unfold fits in *; rewrite ?length_copied by done; lia).
  repeat case_decide; try lia; try done. f_equal. lia.
Qed.

(** The tail of the routine: the loop and then [memcpy_tiny] on what is left. *)
Lemma loop_then_tiny dbase ld dst doff soff size :
  (∀ o, soff ≤ o → o + 16 ≤ soff + size → (o - soff) `mod` 16 = 0 →
     ld o = load o 16 src) →
  fits dst doff soff size → (dbase + doff) `mod` 16 = 0 →
  ('(dst, doff, soff, size) ←
     copy_loop ld (λ o, store_si128 dbase o) (loop_fuel size) dst doff soff size;
   memcpy_tiny dst doff src soff size) = Ok (copied dst doff soff size).
Proof.
  intros Hld Hf Hal.
  destruct (copy_loop_ok dbase ld (loop_fuel size) dst doff soff size)
    as (n & Hn & Hlt & E); [done..| |].
  { apply loop_fuel_enough. unfold fits in Hf. lia. }
  rewrite E. cbn [mbind outcome_bind].
  destruct (copied_copied dst doff soff n (size - n)) as [Hf' Hc].
  { by replace (n + (size - n)) with size by lia. } { lia. } { lia. }
  rewrite memcpy_tiny_ok by (done || lia). rewrite Hc. do 2 f_equal. lia.
Qed.

Lemma fast_memcpy_eq dbase dst doff sbase soff size :
  fits dst doff soff size →
  fast_memcpy dbase dst doff sbase src soff size = Ok (copied dst doff soff size).
Proof.
  intros Hf. unfold fast_memcpy. destruct (Z.leb_spec size 128) as [|Hbig].
  { by apply memcpy_tiny_ok. }
  rewrite !land15. set (p := (16 - (dbase + doff) `mod` 16) `mod` 16).
  assert (0 ≤ p < 16) by (apply Z.mod_pos_bound; lia).
  assert ((dbase + (doff + p)) `mod` 16 = 0) as Hal.
  { unfold p. rewrite Z.add_assoc, Zplus_mod_idemp_r.
    replace (dbase + doff + (16 - (dbase + doff) `mod` 16))
      with (dbase + doff - (dbase + doff) `mod` 16 + 1 * 16) by lia.
    rewrite Z_mod_plus_full, Zminus_mod_idemp_r. by rewrite Z.sub_diag. }
  set (d1 := if 0 <? p then copied dst doff soff 16 else dst).
  assert ((if 0 <? p then
        head ← load soff 16 src; dst ← store doff head dst;
        Ok (dst, doff + p, soff + p, size - p)
      else Ok (dst, doff, soff, size)) = Ok (d1, doff + p, soff + p, size - p)) as ->.
  { unfold d1. destruct (Z.ltb_spec 0 p).
    - rewrite load_Ok by (unfold fits in Hf; lia). cbn.
      rewrite store_Ok; [done|unfold fits in Hf; lia|].
      rewrite length_sub_at; unfold fits in Hf; lia.
    - replace p with 0 by lia. by rewrite !Z.add_0_r, Z.sub_0_r. }
  cbn [mbind outcome_bind].
  assert (fits d1 (doff + p) (soff + p) (size - p)) as Hf1.
  { unfold d1, fits in *. destruct (0 <? p); rewrite ?length_copied by (unfold fits; lia); lia. }
  assert (copied d1 (doff + p) (soff + p) (size - p) = copied dst doff soff size) as Hc.
  { unfold d1. destruct (Z.ltb_spec 0 p).
    - apply copied_absorb; [done|lia|lia].
    - replace p with 0 by lia. by rewrite !Z.add_0_r, Z.sub_0_r. }
  rewrite <- Hc.
  destruct (size - p <=? cachesize); [by apply loop_then_tiny|].
  rewrite land15. destruct (Z.eqb_spec ((sbase + (soff + p)) `mod` 16) 0) as [Hs|Hs];
    (apply loop_then_tiny; [|done|done]); [|done].
  intros o ?? Ho. apply check_true, Z.eqb_eq.
  replace (sbase + o) with (sbase + (soff + p) + (o - (soff + p))) by lia.
  by rewrite Z.add_mod, Hs, Ho by lia.
Qed.
End correctness.

(** C21: for every size, offset and alignment of the two (distinct) objects,
    [fast_memcpy] has the effect of [memcpy]: it replaces exactly [size] bytes of the
    destination by the source bytes, with every access in bounds and every aligned
    vector access aligned. *)
Theorem fast_memcpy_correct (dbase : Z) (dst : bytes) (doff sbase : Z) (src : bytes)
    (soff size : Z)
    (Hd : 0 ≤ doff) (Hs : 0 ≤ soff) (Hn : 0 ≤ size)
    (Hdst : doff + size ≤ zlen dst) (Hsrc : soff + size ≤ zlen src) :
  fast_memcpy dbase dst doff sbase src soff size =
  Ok (put_at doff (sub_at soff size src) dst).
Proof. by apply fast_memcpy_eq. Qed.

Lemma fast_memcpy_correct_witness :
  fast_memcpy 1003 (replicate 300 0) 5 2000 (Z.of_nat <$> seq 0 300) 1 290 =
  Ok (put_at 5 (sub_at 1 290 (Z.of_nat <$> seq 0 300)) (replicate 300 0)).
Proof. apply fast_memcpy_correct; vm_compute; discriminate. Defined.
