(* ===== verification/BipSearch.v ===== *)
(** * The static helpers of [base/bip_buf.c]: [next_power_of_two] and [fast_strstr]

    [next_power_of_two] works on 32-bit unsigned integers, wrap-around included.
    [fast_strstr] is modelled over the two objects its pointers point into (each the
    memory from the pointer on); its pointers are offsets, its result is the offset
    of the match, and every dereference is a checked access.  The main results are
    that [next_power_of_two] returns the least power of two above its argument, with
    its behaviour on the boundary values, and that [fast_strstr] stays inside the two
    ranges and ends, but finds an occurrence only where the needle's first character
    occurs first: the rolling sum starts off by that character, so later occurrences are
    missed, and other offsets may be reported ([fast_strstr_finds]). *)

From S2P Require Import Prelude.

#[local] Open Scope Z_scope.

(** ** next_power_of_two *)

(** Round up to the next power of two *)
Definition next_power_of_two (x : Z) : Z :=
  let x := u32 (x - 1) in
  let x := Z.lor x (Z.shiftr x 1) in (* handle 2 bit numbers *)
  let x := Z.lor x (Z.shiftr x 2) in (* handle 4 bit numbers *)
  let x := Z.lor x (Z.shiftr x 4) in (* handle 8 bit numbers *)
  let x := Z.lor x (Z.shiftr x 8) in (* handle 16 bit numbers *)
  let x := Z.lor x (Z.shiftr x 16) in (* handle 32 bit numbers *)
  u32 (x + 1).

(** ** fast_strstr *)

(** [*p] for a [char *p] at offset [i] of an object: [char] is signed. *)
Definition char_at (l : bytes) (i : Z) : outcome Z :=
  c ← load1 i l; Ok (s8 c).

(** [memchr (l + i, c, n)]: the offset of the first of the [n] bytes at [i] that is
    [c] converted to [unsigned char]; it reads no byte past the match. *)
Fixpoint memchr (l : bytes) (i : Z) (c : Z) (n : nat) : outcome (option Z) :=
  match n with
  | O => Ok None
  | S n =>
      b ← load1 i l;
      if b =? u8 c then Ok (Some i) else memchr l (i + 1) c n
  end.

(** [0 == memcmp (a + i, b, n)]. *)
Definition memcmp_eq (a : bytes) (i : Z) (b : bytes) (n : Z) : outcome bool :=
  x ← load i n a;
  y ← load 0 n b;
  Ok (bool_decide (x = y)).

(** The first loop: it returns [i_haystack], [i_needle], [sums_diff] and [identical]. *)
Fixpoint strstr_head (hay : bytes) (haylen : Z) (ndl : bytes) (ndllen : Z)
    (fuel : nat) (ih in_ sums : Z) (identical : bool) : outcome (Z * Z * Z * bool) :=
  match fuel with
  | O => Ub NoFuel
  | S fuel =>
      if (ih <? haylen) && (in_ <? ndllen) then
        a ← char_at hay ih;
        b ← char_at ndl in_;
        strstr_head hay haylen ndl ndllen fuel (ih + 1) (in_ + 1)
          (u32 (u32 (sums + a) - b)) (identical && (a =? b))
      else Ok (ih, in_, sums, identical)
  end.

(** The second loop, which updates the sum iteratively; [first] is [needle_first] and
    [n1] is [needle_len_1]. *)
Fixpoint strstr_roll (hay : bytes) (haylen : Z) (ndl : bytes) (first n1 : Z)
    (fuel : nat) (sub_start ih sums : Z) : outcome (option Z) :=
  match fuel with
  | O => Ub NoFuel
  | S fuel =>
      if ih <? haylen then
        a ← char_at hay sub_start;
        let sub_start := sub_start + 1 in
        b ← char_at hay ih;
        let sums := u32 (u32 (sums - a) + b) in
        hit ← (if sums =? 0 then
                 c ← char_at hay sub_start;
                 if first =? c then memcmp_eq hay sub_start ndl n1 else Ok false
               else Ok false);
        if hit : bool then Ok (Some sub_start)
        else strstr_roll hay haylen ndl first n1 fuel sub_start (ih + 1) sums
      else Ok None
  end.

(** [needle = None] is the null pointer. *)
Definition fast_strstr (hay : bytes) (haylen : Z) (needle : option bytes) (ndllen : Z) :
    outcome (option Z) :=
  match needle with
  | None => Ok (Some 0)
  | Some ndl =>
      if ndllen =? 0 then Ok (Some 0) (* Empty needle. *)
      else
        needle_first ← char_at ndl 0;
        first_match ← memchr hay 0 needle_first (Z.to_nat haylen);
        match first_match with
        | None => Ok None
        | Some fm =>
            c ← char_at hay fm;
            '(ih, in_, sums_diff, identical) ←
              strstr_head hay haylen ndl ndllen (S (Z.to_nat ndllen)) (fm + 1) 1
                (u32 c) true;
            if in_ <? ndllen then Ok None (* haystack is smaller than needle. *)
            else if identical : bool then Ok (Some fm)
            else
              strstr_roll hay haylen ndl needle_first (in_ - 1)
                (S (Z.to_nat haylen)) fm ih sums_diff
        end
  end.

(** *** References *)

(** The naive search: the first position at which [ndl] is a prefix of what follows. *)
Fixpoint find_sub (hay ndl : bytes) : option Z :=
  if bool_decide (ndl `prefix_of` hay) then Some 0
  else match hay with
       | [] => None
       | _ :: hay => Z.succ <$> find_sub hay ndl
       end.

(** [ndl] occurs in [hay] at offset [i]. *)
Definition occurs_at (hay ndl : bytes) (i : Z) : Prop :=
  0 ≤ i ∧ i + zlen ndl ≤ zlen hay ∧ sub_at i (zlen ndl) hay = ndl.

(** The first offset of the byte [c]. *)
Definition first_char (hay : bytes) (c : Z) : option Z :=
  find_from (λ j, hay !!! Z.to_nat j =? c) 0 (length hay).

(** What the rolling loop accepts at offset [i]: all the characters of the needle but
    the last, and a last character that is the needle's last minus its first. *)
Definition roll_hit (hay ndl : bytes) (i : Z) : bool :=
  let n := zlen ndl in
  bool_decide (sub_at i (n - 1) hay = sub_at 0 (n - 1) ndl) &&
  (s8 (hay !!! Z.to_nat (i + n - 1)) =?
   s8 (ndl !!! Z.to_nat (n - 1)) - s8 (ndl !!! 0%nat)).

(** What the code's two loops find, without pointers: with the sum as the code starts it,
    which is not the first occurrence of the needle ([find_sub]). *)
Definition strstr_found (hay ndl : bytes) : option Z :=
  match ndl with
  | [] => Some 0
  | c :: _ =>
      match first_char hay c with
      | None => None
      | Some fm =>
          if zlen hay <? fm + zlen ndl then None
          else if bool_decide (sub_at fm (zlen ndl) hay = ndl) then Some fm
          else find_from (roll_hit hay ndl) (fm + 1)
                 (Z.to_nat (zlen hay - zlen ndl - fm))
      end
  end.

(** ** Correctness of next_power_of_two *)

(** [smeared x m y]: bit [i] of [y] is set when one of the bits [i .. i+m-1] of [x] is. *)
Definition smeared (x m y : Z) : Prop :=
  ∀ i, 0 ≤ i → Z.testbit y i = true ↔ ∃ j, i ≤ j < i + m ∧ Z.testbit x j = true.

Lemma smeared_1 x : smeared x 1 x.
Proof.
  intros i ?. split; [intros; exists i; auto with lia|].
  intros (j & ? & ?). by replace i with j by lia.
Qed.

Lemma smeared_step x m y :
  0 < m → smeared x m y → smeared x (m + m) (Z.lor y (Z.shiftr y m)).
Proof.
  unfold smeared. intros ? H i ?. rewrite Z.lor_spec, Z.shiftr_spec, orb_true_iff, !H by lia.
  split.
  - intros [(j & ? & ?)|(j & ? & ?)]; exists j; auto with lia.
  - intros (j & ? & ?). destruct (decide (j < i + m)); [left|right]; exists j; auto with lia.
Qed.

(** Smearing over the whole width fills every bit below the leading one. *)
Lemma smeared_ones w x y :
  0 < x < 2 ^ w → 0 ≤ y → smeared x w y → y = Z.ones (Z.log2 x + 1).
Proof.
  unfold smeared. intros Hx Hy H. pose proof (Z.log2_nonneg x).
  assert (Z.log2 x < w) by (apply Z.log2_lt_pow2; lia).
  apply Z.bits_inj'. intros i ?.
  rewrite Z.testbit_ones_nonneg by lia. apply Bool.eq_true_iff_eq. rewrite H by done.
  rewrite Z.ltb_lt. split.
  - intros (j & ? & Hj). destruct (decide (j ≤ Z.log2 x)); [lia|].
    rewrite Z.bits_above_log2 in Hj by lia. done.
  - intros. exists (Z.log2 x). split; [lia|]. apply Z.bit_log2. lia.
Qed.

Lemma smear_ones x :
  0 < x < 2 ^ 32 →
  let x1 := Z.lor x (Z.shiftr x 1) in
  let x2 := Z.lor x1 (Z.shiftr x1 2) in
  let x3 := Z.lor x2 (Z.shiftr x2 4) in
  let x4 := Z.lor x3 (Z.shiftr x3 8) in
  Z.lor x4 (Z.shiftr x4 16) = Z.ones (Z.log2 x + 1).
Proof.
  intros Hx x1 x2 x3 x4.
  assert (∀ y m, 0 ≤ y → 0 ≤ Z.lor y (Z.shiftr y m)) as Hpos.
  { intros. apply Z.lor_nonneg. split; [done|]. by apply Z.shiftr_nonneg. }
  apply (smeared_ones 32); [done|repeat apply Hpos; lia|].
  apply (smeared_step x 16); [lia|]. apply (smeared_step x 8); [lia|].
  apply (smeared_step x 4); [lia|]. apply (smeared_step x 2); [lia|].
  apply (smeared_step x 1); [lia|]. apply smeared_1.
Qed.

Lemma next_power_of_two_cases (x : Z) :
  0 ≤ x < 2 ^ 32 →
  (1 ≤ x ≤ 2 ^ 31 →
     ∃ k, 0 ≤ k ≤ 31 ∧ next_power_of_two x = 2 ^ k ∧ x ≤ 2 ^ k ∧
          ∀ j, 0 ≤ j → x ≤ 2 ^ j → 2 ^ k ≤ 2 ^ j) ∧
  (x = 0 ∨ 2 ^ 31 < x → next_power_of_two x = 0).
Proof.
  intros Hx. unfold next_power_of_two. destruct (decide (x = 0)) as [->|Hx0].
  { split; [lia|]. intros _. reflexivity. }
  rewrite (u32_small (x - 1)) by lia.
  destruct (decide (x = 1)) as [->|Hx1].
  { split; [|lia]. intros _. exists 0. by split_and!. }
  rewrite smear_ones by lia. set (k := Z.log2 (x - 1) + 1).
  rewrite Z.ones_equiv, <- Z.sub_1_r, Z.sub_add.
  assert (2 ^ (k - 1) < x ≤ 2 ^ k) as [Hlo Hhi].
  { pose proof (Z.log2_spec (x - 1) ltac:(lia)). unfold k.
    rewrite Z.add_simpl_r, <- Z.add_1_r in *. lia. }
  assert (0 < k) by (unfold k; pose proof (Z.log2_nonneg (x - 1)); lia).
  split.
  - intros Hr. exists k.
    assert (k ≤ 31).
    { destruct (decide (k ≤ 31)) as [|Hk]; [done|].
      assert (2 ^ 31 ≤ 2 ^ (k - 1)) by (apply Z.pow_le_mono_r; lia). lia. }
    assert (2 ^ k ≤ 2 ^ 31) by (apply Z.pow_le_mono_r; lia).
    split; [lia|]. split; [apply u32_small; lia|]. split; [done|]. intros j Hj Hxj.
    apply Z.pow_le_mono_r; [lia|]. apply Z.lt_pred_le, Z.pow_lt_mono_r_iff with (a := 2); lia.
  - intros [->|Hr]; [done|].
    assert (k = 32) as ->; [|reflexivity].
    assert (31 < k) by (apply Z.pow_lt_mono_r_iff with (a := 2); lia).
    assert (k - 1 < 32) by (apply Z.pow_lt_mono_r_iff with (a := 2); lia). lia.
Qed.

(** The rounded capacity holds what was asked for and stays within 32 bits. *)
Lemma next_power_of_two_ge x :
  1 ≤ x ≤ 2 ^ 31 → x ≤ next_power_of_two x ≤ 2 ^ 31.
Proof.
  intros Hx. destruct (next_power_of_two_cases x) as [H _]; [lia|].
  destruct (H Hx) as (k & Hk & -> & ? & _). split; [done|]. apply Z.pow_le_mono_r; lia.
Qed.

(** for [1 <= x <= 2^31], [next_power_of_two x] is the least power of two that is
    at least [x]; the two remaining cases, 0 and everything above 2^31, wrap to 0. *)
Theorem next_power_of_two_spec (x : Z) (Hx : 0 ≤ x < 2 ^ 32) :
  (1 ≤ x ≤ 2 ^ 31 →
     ∃ k, 0 ≤ k ∧ next_power_of_two x = 2 ^ k ∧ x ≤ 2 ^ k ∧
          ∀ j, 0 ≤ j → x ≤ 2 ^ j → 2 ^ k ≤ 2 ^ j) ∧
  (x = 0 ∨ 2 ^ 31 < x → next_power_of_two x = 0).
Proof.
  destruct (next_power_of_two_cases x Hx) as [Hin Hout]. split; [|done].
  intros Hr. destruct (Hin Hr) as (k & Hk & Hrest). exists k. split; [lia|done].
Qed.

Lemma next_power_of_two_spec_witness :
  0 ≤ 100 < 2 ^ 32 ∧
  (1 ≤ 100 ≤ 2 ^ 31 →
     ∃ k, 0 ≤ k ∧ next_power_of_two 100 = 2 ^ k ∧ 100 ≤ 2 ^ k ∧
          ∀ j, 0 ≤ j → 100 ≤ 2 ^ j → 2 ^ k ≤ 2 ^ j).
Proof. split; [lia|]. apply (next_power_of_two_spec 100). lia. Defined.

(** ** Correctness of fast_strstr *)

Definition csum (l : bytes) : Z := foldr (λ c a, s8 c + a) 0 l.

Lemma csum_app l k : csum (l ++ k) = csum l + csum k.
Proof. unfold csum. induction l as [|c l IH]; cbn; [done|]. rewrite IH. lia. Qed.

Lemma s8_inj a b : byte_ok a → byte_ok b → s8 a = s8 b → a = b.
Proof.
  unfold byte_ok, wraps. intros ??. change (2 ^ (8 - 1)) with 128. change (2 ^ 8) with 256.
  intros Heq. assert ((a + 128) `mod` 256 = (b + 128) `mod` 256) as Hm by lia.
  pose proof (Z.div_mod (a + 128) 256). pose proof (Z.div_mod (b + 128) 256). nia.
Qed.

Lemma s8_u8 c : byte_ok c → u8 (s8 c) = c.
Proof.
  unfold byte_ok, wrapu, wraps. intros ?. change (2 ^ (8 - 1)) with 128. change (2 ^ 8) with 256.
  rewrite Zminus_mod, Z.mod_mod, <- Zminus_mod, Z.add_simpl_r by lia. by apply Z.mod_small.
Qed.

Lemma s8_range c : -128 ≤ s8 c < 128.
Proof. apply (wraps_bound 8). lia. Qed.

(** Accesses to an object through a prefix of it. *)
Section prefixes.
Context (h hay : bytes) (Hpre : h `prefix_of` hay).

Lemma load1_prefix i : 0 ≤ i < zlen h → load1 i hay = Ok (h !!! Z.to_nat i).
Proof.
  intros ?. destruct Hpre as [r ->]. apply load1_Ok; [lia|].
  rewrite lookup_app_l by lia. apply list_lookup_lookup_total_lt. lia.
Qed.

Lemma char_at_prefix i : 0 ≤ i < zlen h → char_at hay i = Ok (s8 (h !!! Z.to_nat i)).
Proof. intros. unfold char_at. by rewrite load1_prefix. Qed.

Lemma load_prefix i n : 0 ≤ i → 0 ≤ n → i + n ≤ zlen h → load i n hay = Ok (sub_at i n h).
Proof.
  intros. destruct Hpre as [r ->]. rewrite load_Ok by (rewrite ?length_app; lia).
  f_equal. unfold sub_at. rewrite drop_app_le by lia.
  by rewrite take_app_le by (rewrite length_drop; lia).
Qed.

Lemma memchr_prefix c i n :
  0 ≤ i → i + Z.of_nat n ≤ zlen h →
  memchr hay i c n = Ok (find_from (λ j, h !!! Z.to_nat j =? u8 c) i n).
Proof.
  revert i. induction n as [|n IH]; intros i ??; cbn [memchr find_from]; [done|].
  rewrite load1_prefix by lia. cbn. destruct (_ =? _); [done|]. apply IH; lia.
Qed.
End prefixes.

Lemma sub_at_cons_total off n (l : bytes) :
  0 ≤ off → 0 < n → off + n ≤ zlen l →
  sub_at off n l = l !!! Z.to_nat off :: sub_at (off + 1) (n - 1) l.
Proof.
  intros. apply sub_at_cons; [done..|]. apply list_lookup_lookup_total_lt. lia.
Qed.

(** A window's sum, by its first or by its last character. *)
Lemma csum_cons off m (l : bytes) :
  0 ≤ off → 0 < m → off + m ≤ zlen l →
  csum (sub_at off m l) = s8 (l !!! Z.to_nat off) + csum (sub_at (off + 1) (m - 1) l).
Proof. intros. by rewrite sub_at_cons_total. Qed.

Lemma csum_snoc off m (l : bytes) :
  0 ≤ off → 0 < m → off + m ≤ zlen l →
  csum (sub_at off m l) = csum (sub_at off (m - 1) l) + s8 (l !!! Z.to_nat (off + m - 1)).
Proof.
  intros. replace m with ((m - 1) + 1) at 1 by lia. rewrite sub_at_app, csum_app by lia.
  f_equal. rewrite csum_cons by lia. rewrite sub_at_0. cbn. rewrite Z.add_0_r.
  by replace (off + (m - 1)) with (off + m - 1) by lia.
Qed.

Lemma strstr_found_nonempty h n :
  n ≠ [] →
  strstr_found h n =
    match first_char h (n !!! 0%nat) with
    | None => None
    | Some fm =>
        if zlen h <? fm + zlen n then None
        else if bool_decide (sub_at fm (zlen n) h = n) then Some fm
        else find_from (roll_hit h n) (fm + 1) (Z.to_nat (zlen h - zlen n - fm))
    end.
Proof. by destruct n. Qed.

Section strstr.
Context (h hay n ndl : bytes).
Context (Hh : h `prefix_of` hay) (Hn : n `prefix_of` ndl).
Context (Hhb : Forall byte_ok h) (Hnb : Forall byte_ok n).

Abbreviation hl := (zlen h) (only parsing).
Abbreviation nl := (zlen n) (only parsing).

Lemma h_byte i : 0 ≤ i < hl → byte_ok (h !!! Z.to_nat i).
Proof. intros. apply (Forall_lookup_total_1 _ _ _ Hhb). lia. Qed.

Lemma n_byte i : 0 ≤ i < nl → byte_ok (n !!! Z.to_nat i).
Proof. intros. apply (Forall_lookup_total_1 _ _ _ Hnb). lia. Qed.

(** The first loop compares and sums the overlap of the two ranges. *)
Lemma strstr_head_ok fuel ih in_ sums identical m :
  0 ≤ ih → 0 ≤ in_ → m = Z.min (nl - in_) (hl - ih) → 0 ≤ m → m < Z.of_nat fuel →
  strstr_head hay hl ndl nl fuel ih in_ (u32 sums) identical =
  Ok (ih + m, in_ + m, u32 (sums + csum (sub_at ih m h) - csum (sub_at in_ m n)),
      identical && bool_decide (sub_at ih m h = sub_at in_ m n)).
Proof.
  revert ih in_ sums identical m.
  induction fuel as [|fuel IH]; intros ih in_ sums identical m ?? Hm ??; [lia|].
  cbn [strstr_head]. destruct (decide (m = 0)) as [->|Hm0].
  { rewrite (proj2 (andb_false_iff _ _)) by (rewrite !Z.ltb_ge; lia).
    rewrite !sub_at_0, !Z.add_0_r. cbn. rewrite Z.sub_0_r. by destruct identical. }
  rewrite (proj2 (andb_true_iff _ _)) by (rewrite !Z.ltb_lt; lia).
  rewrite (char_at_prefix h hay Hh), (char_at_prefix n ndl Hn) by lia. cbn [mbind outcome_bind].
  set (a := h !!! Z.to_nat ih). set (b := n !!! Z.to_nat in_).
  assert (u32 (u32 (u32 sums + s8 a) - s8 b) = u32 (sums + s8 a - s8 b)) as ->.
  { unfold wrapu. rewrite Zminus_mod_idemp_l, <- (Zminus_mod_idemp_l (_ + _) (s8 b)).
    by rewrite Zplus_mod_idemp_l, Zminus_mod_idemp_l. }
  rewrite (IH _ _ _ _ (m - 1)) by lia.
  rewrite (sub_at_cons_total ih m h), (sub_at_cons_total in_ m n) by lia.
  fold a b. cbn [csum foldr].
  assert ((s8 a =? s8 b) = bool_decide (a = b)) as ->.
  { apply Bool.eq_true_iff_eq. rewrite Z.eqb_eq, bool_decide_eq_true.
    split; [|by intros ->]. apply s8_inj; [apply h_byte | apply n_byte]; lia. }
  rewrite <- andb_assoc, <- bool_decide_and.
  replace (ih + 1 + (m - 1)) with (ih + m) by lia.
  replace (in_ + 1 + (m - 1)) with (in_ + m) by lia.
  assert (∀ x y z w, x = y → z = w → Ok (ih + m, in_ + m, u32 x, identical && z) =
            Ok (ih + m, in_ + m, u32 y, identical && w)) as Hcong by naive_solver.
  apply Hcong; [unfold csum; lia|]. apply bool_decide_ext.
  clearbody a b. split; [by intros [-> ->]|by intros [= -> ->]].
Qed.

(** At a window whose characters but the last agree with the needle, the rolling sum
    is zero exactly when the last character is the needle's last minus its first. *)
Lemma roll_sum_zero i :
  2 ≤ nl → 0 ≤ i → i + nl ≤ hl → sub_at i (nl - 1) h = sub_at 0 (nl - 1) n →
  (u32 (csum (sub_at i nl h) - csum (sub_at 1 (nl - 1) n)) =? 0) =
  (s8 (h !!! Z.to_nat (i + nl - 1)) =?
   s8 (n !!! Z.to_nat (nl - 1)) - s8 (n !!! 0%nat)).
Proof.
  intros ??? Hw.
  rewrite (csum_snoc i), Hw by lia.
  assert (csum (sub_at 0 (nl - 1) n) + s8 (n !!! Z.to_nat (nl - 1)) =
          s8 (n !!! 0%nat) + csum (sub_at 1 (nl - 1) n)) as Hn'.
  { rewrite <- (csum_snoc 0 nl), csum_cons by lia. done. }
  apply Bool.eq_true_iff_eq. rewrite !Z.eqb_eq.
  pose proof (s8_range (h !!! Z.to_nat (i + nl - 1))).
  pose proof (s8_range (n !!! Z.to_nat (nl - 1))).
  pose proof (s8_range (n !!! 0%nat)).
  match goal with |- u32 ?x = 0 ↔ _ => assert (u32 x = 0 ↔ x = 0) as -> end; [|lia].
  unfold wrapu. change (2 ^ 32) with 4294967296. split; [|by intros ->].
  intros Hz. apply Z.mod_divide in Hz as [k Hk]; lia.
Qed.

(** The second loop finds the first accepted offset. *)
Lemma strstr_roll_ok fuel s sums :
  2 ≤ nl → 0 ≤ s → s + nl ≤ hl → hl - (s + nl) < Z.of_nat fuel →
  sums = u32 (csum (sub_at s nl h) - csum (sub_at 1 (nl - 1) n)) →
  strstr_roll hay hl ndl (s8 (n !!! 0%nat)) (nl - 1) fuel s (s + nl) sums =
  Ok (find_from (roll_hit h n) (s + 1) (Z.to_nat (hl - nl - s))).
Proof.
  intros Hnl. revert s sums. induction fuel as [|fuel IH]; intros s sums ??? ->; [lia|].
  cbn [strstr_roll]. destruct (Z.ltb_spec (s + nl) hl) as [Hlt|Hge].
  2:{ by replace (Z.to_nat (hl - nl - s)) with 0%nat by lia. }
  rewrite !(char_at_prefix h hay Hh) by lia. cbn [mbind outcome_bind].
  set (sums := u32 (u32 _ + _)).
  assert (sums = u32 (csum (sub_at (s + 1) nl h) - csum (sub_at 1 (nl - 1) n))) as ->.
  { unfold sums, wrapu. rewrite Zplus_mod_idemp_l.
    rewrite <- Z.sub_sub_distr, Zminus_mod_idemp_l. f_equal.
    rewrite (csum_cons s), (csum_snoc (s + 1) nl) by lia.
    replace (s + 1 + nl - 1) with (s + nl) by lia. lia. }
  replace (Z.to_nat (hl - nl - s)) with (S (Z.to_nat (hl - nl - (s + 1)))) by lia.
  cbn [find_from].
  assert (∀ b, roll_hit h n (s + 1) = b →
    (if u32 (csum (sub_at (s + 1) nl h) - csum (sub_at 1 (nl - 1) n)) =? 0 then
       if s8 (n !!! 0%nat) =? s8 (h !!! Z.to_nat (s + 1))
       then memcmp_eq hay (s + 1) ndl (nl - 1) else Ok false
     else Ok false) = Ok b) as Hhit.
  { intros b <-. unfold roll_hit, memcmp_eq.
    rewrite (load_prefix h hay Hh), (load_prefix n ndl Hn) by lia. cbn [mbind outcome_bind].
    case_bool_decide as Hw.
    - rewrite roll_sum_zero by (done || lia). replace (s + 1 + nl - 1) with (s + nl) by lia.
      rewrite (sub_at_cons_total (s + 1)), (sub_at_cons_total 0) in Hw by lia.
      injection Hw as Hc Hw. cbn [andb] in *. change (Z.to_nat 0) with 0%nat in Hc.
      rewrite Hc, Z.eqb_refl. by destruct (_ =? _).
    - cbn [andb]. by repeat destruct (_ =? _). }
  rewrite (Hhit _ eq_refl). cbn [mbind outcome_bind].
  destruct (roll_hit h n (s + 1)); [done|].
  replace (s + nl + 1) with (s + 1 + nl) by lia. apply IH; lia || done.
Qed.

Lemma Hn_cons : n ≠ [] → n = (n !!! 0%nat) :: sub_at 1 (nl - 1) n.
Proof.
  intros Hne. rewrite <- (sub_at_all n) at 1. assert (0 < nl) by (destruct n; cbn; done || lia).
  by rewrite sub_at_cons_total by lia.
Qed.

Lemma fast_strstr_eq : fast_strstr hay hl (Some ndl) nl = Ok (strstr_found h n).
Proof.
  unfold fast_strstr. destruct (Z.eqb_spec nl 0) as [H0|H0].
  { destruct n; done. }
  rewrite (char_at_prefix n ndl Hn) by lia. cbn [mbind outcome_bind].
  rewrite (memchr_prefix h hay Hh) by lia. rewrite s8_u8 by (apply n_byte; lia).
  rewrite Nat2Z.id. cbn [mbind outcome_bind]. change (Z.to_nat 0) with 0%nat.
  assert (n ≠ []) as Hne by (intros E; rewrite E in H0; done).
  rewrite (strstr_found_nonempty h n Hne). set (c := n !!! 0%nat). fold (first_char h c).
  destruct (first_char h c) as [fm|] eqn:Hfm; [|done].
  apply find_from_Some in Hfm as (Hr & Hfc & _). apply Z.eqb_eq in Hfc.
  rewrite (char_at_prefix h hay Hh), Hfc by lia. cbn [mbind outcome_bind].
  rewrite (strstr_head_ok _ _ _ _ _ (Z.min (nl - 1) (hl - (fm + 1)))) by lia.
  cbn [mbind outcome_bind andb].
  destruct (Z.ltb_spec hl (fm + nl)).
  { rewrite (proj2 (Z.ltb_lt _ _)) by lia. done. }
  rewrite Z.min_l by lia. rewrite (proj2 (Z.ltb_ge _ _)) by lia.
  assert (∀ P : Prop, P ↔ sub_at fm nl h = n →
            ∀ D : Decision P, bool_decide P = bool_decide (sub_at fm nl h = n)) as Hdec
    by (intros; by apply bool_decide_ext).
  rewrite (Hdec (sub_at (fm + 1) (nl - 1) h = sub_at 1 (nl - 1) n)).
  2:{ rewrite (sub_at_cons_total fm) by lia. rewrite Hfc.
      pose proof (Hn_cons Hne) as Hnc. fold c in Hnc. split; [by intros ->|].
      intros Heq. pose proof (eq_trans Heq Hnc) as Ht. by injection Ht. }
  case_bool_decide as Hw; [done|].
  assert (2 ≤ nl).
  { destruct (decide (nl = 1)) as [H1|]; [|lia]. destruct Hw.
    rewrite (Hn_cons Hne) at 2. rewrite (sub_at_cons_total fm), Hfc, H1 by lia. done. }
  replace (1 + (nl - 1) - 1) with (nl - 1) by lia.
  replace (fm + 1 + (nl - 1)) with (fm + nl) by lia.
  apply strstr_roll_ok; [lia..|]. f_equal.
  rewrite (csum_cons fm) by lia. rewrite Hfc. lia.
Qed.
End strstr.

Lemma occurs_at_prefix h n : occurs_at h n 0 ↔ n `prefix_of` h.
Proof.
  unfold occurs_at. split.
  - intros (_ & _ & Hs). exists (drop (length n) h). rewrite <- Hs at 1.
    unfold sub_at. by rewrite drop_0, Nat2Z.id, take_drop.
  - intros [r ->]. rewrite length_app. split_and!; [lia|lia|].
    unfold sub_at. by rewrite drop_0, Nat2Z.id, take_app_length.
Qed.

Lemma occurs_at_cons x h n i : 0 ≤ i → occurs_at (x :: h) n (Z.succ i) ↔ occurs_at h n i.
Proof.
  intros. unfold occurs_at, sub_at. rewrite Z2Nat.inj_succ by lia. cbn. split; naive_solver lia.
Qed.

(** The naive search returns the first occurrence, if there is one. *)
Lemma find_sub_Some h n i :
  find_sub h n = Some i ↔ occurs_at h n i ∧ ∀ j, j < i → ¬ occurs_at h n j.
Proof.
  revert i. induction h as [|x h IH]; intros i; cbn [find_sub]; case_bool_decide as Hp.
  1, 3: apply occurs_at_prefix in Hp; split;
    [intros [= <-]; split; [done|]; intros j ? [? _]; lia
    |intros [Ho Hj]; destruct (decide (0 < i)); [by destruct (Hj 0)|];
     destruct Ho; f_equal; lia].
  - split; [done|]. intros [Ho _]. destruct Hp. apply occurs_at_prefix.
    destruct Ho as (? & Hl & ?). destruct n; [by apply occurs_at_prefix, prefix_nil|]. cbn in Hl. lia.
  - rewrite fmap_Some. setoid_rewrite IH. split.
    + intros (i' & [Ho Hj] & ->). pose proof Ho as [? _]. split; [by apply occurs_at_cons|].
      intros j ? Ho'. pose proof Ho' as [? _]. destruct (decide (j = 0)) as [->|].
      { by apply Hp, occurs_at_prefix. }
      apply (Hj (Z.pred j)); [lia|]. apply (occurs_at_cons x); [lia|]. by rewrite Z.succ_pred.
    + intros [Ho Hj]. pose proof Ho as [? _]. destruct (decide (i = 0)) as [->|].
      { by destruct Hp; apply occurs_at_prefix. }
      exists (Z.pred i). rewrite Z.succ_pred. split; [|done]. split.
      * apply (occurs_at_cons x); [lia|]. by rewrite Z.succ_pred.
      * intros j ? Ho'. pose proof Ho' as [? _]. apply (Hj (Z.succ j)); [lia|].
        by apply occurs_at_cons.
Qed.

Lemma occurs_at_first_char h n i :
  occurs_at h n i → n ≠ [] → h !!! Z.to_nat i = n !!! 0%nat ∧ i < zlen h.
Proof.
  intros (? & ? & Hs) Hne. assert (0 < zlen n) by (destruct n; cbn; done || lia).
  split; [|lia]. rewrite (sub_at_cons_total i) in Hs by lia. by rewrite <- Hs.
Qed.

(** The offsets found, against the occurrences of the needle. *)
Lemma strstr_found_spec (h n : bytes) (Hnb : Forall byte_ok n) (Hne : n ≠ []) (Hc : n !!! 0%nat ≠ 0) (i : Z) :
  (occurs_at h n i → strstr_found h n = Some i ↔ first_char h (n !!! 0%nat) = Some i) ∧
  (strstr_found h n = Some i → ¬ occurs_at h n i →
    0 < i ∧ i + zlen n ≤ zlen h ∧ roll_hit h n i = true ∧ ∃ j, j < i ∧ first_char h (n !!! 0%nat) = Some j).
Proof.
  rewrite strstr_found_nonempty by done.
  destruct (first_char h _) as [fm|] eqn:Hfm; [|done]. pose proof Hfm as (Hf & _ & _)%find_from_Some.
  assert (0 < zlen n) as Hn by (destruct n; cbn; done || lia).
  destruct (Z.ltb_spec (zlen h) (fm + zlen n)) as [Hs|Hs].
  { split; [|done]. intros (_ & Hl & _). split; [done|]. intros [= ->]. lia. }
  case_bool_decide as Hw.
  { split; [done|]. intros [= <-] Ho. destruct Ho. split_and!; [lia|lia|done]. }
  split.
  - intros (Hi & Hl & Hsub). split; [|intros [= ->]; done]. intros (Hr & Hhit & _)%find_from_Some. exfalso.
    unfold roll_hit in Hhit. apply andb_true_iff in Hhit as [_ Hlast%Z.eqb_eq].
    assert (h !!! Z.to_nat (i + zlen n - 1) = n !!! Z.to_nat (zlen n - 1)) as E.
    { assert (sub_at i (zlen n) h !! Z.to_nat (zlen n - 1) = n !! Z.to_nat (zlen n - 1)) as Hlk by by rewrite Hsub.
      rewrite lookup_sub_at in Hlk by lia. rewrite !list_lookup_total_alt. rewrite <- Hlk. do 2 f_equal. lia. }
    rewrite E in Hlast. assert (s8 (n !!! 0%nat) = s8 0) as Hz by (change (s8 0) with 0; lia).
    apply s8_inj in Hz; [done| |by unfold byte_ok]. apply (Forall_lookup_total_1 _ _ _ Hnb). lia.
  - intros (Hr & Hhit & _)%find_from_Some _. split_and!; [lia|lia|done|]. exists fm. split; [lia|done].
Qed.



(** the search is not [strstr]: it misses an occurrence that the naive search
    finds, and it reports a position at which the needle does not occur. *)
Theorem fast_strstr_not_strstr :
  (find_sub (txt "aXab") (txt "ab") = Some 2 ∧
   fast_strstr (txt "aXab") 4 (Some (txt "ab")) 2 = Ok None) ∧
  (find_sub [97; 120; 97; 1] (txt "ab") = None ∧
   fast_strstr [97; 120; 97; 1] 4 (Some (txt "ab")) 2 = Ok (Some 2)).
Proof. vm_compute. auto. Qed.
