(* ===== verification/CHeap.v ===== *)
(** * The C heap: blocks of bytes, malloc, free and memcpy

    A block is a list of bytes under an integer name; a pointer into a block is the
    block's name and an offset.  Every access is checked: a block that is not
    allocated, a range outside its block and a [memcpy] between overlapping ranges
    are undefined behaviour.  What malloc leaves in a new block is not determined by
    the program, so it is a parameter ([Malloc]), of which only the length is known;
    allocation is assumed to succeed, as the code does, which never tests for NULL. *)

From stdpp Require Export gmap.
From S2P Require Import Prelude.

#[local] Open Scope Z_scope.

(** The contents of the [n] bytes that malloc returns as block [b]. *)
Class Malloc := {
  junk : Z → nat → bytes;
  junk_length : ∀ b n, length (junk b n) = n
}.

(** A malloc that fills with the byte [c] (a debug allocator): the instance the
    examples run with. *)
Definition malloc_fill (c : Z) : Malloc :=
  {| junk _ n := replicate n c; junk_length _ n := length_replicate n c |}.

Record heap := Heap { h_next : Z; h_blocks : gmap Z bytes }.

Definition empty_heap : heap := Heap 1 ∅.

(** Names above [h_next] are unused. *)
Definition heap_ok (h : heap) : Prop := ∀ b, is_Some (h_blocks h !! b) → b < h_next h.

Definition malloc `{!Malloc} (n : Z) (h : heap) : heap * Z :=
  let b := h_next h in
  (Heap (b + 1) (<[b := junk b (Z.to_nat n)]> (h_blocks h)), b).

Definition block (h : heap) (b : Z) : outcome bytes :=
  from_option_ub Dangling (h_blocks h !! b).

Definition free (b : Z) (h : heap) : outcome heap :=
  _ ← block h b; Ok (Heap (h_next h) (delete b (h_blocks h))).

Definition hload (b off n : Z) (h : heap) : outcome bytes :=
  m ← block h b; load off n m.

Definition hstore (b off : Z) (d : bytes) (h : heap) : outcome heap :=
  m ← block h b;
  m ← store off d m;
  Ok (Heap (h_next h) (<[b := m]> (h_blocks h))).

(** [memcpy (db + doff, sb + soff, n)]. *)
Definition hmemcpy (db doff sb soff n : Z) (h : heap) : outcome heap :=
  check (negb ((db =? sb) && (doff <? soff + n) && (soff <? doff + n))) Overlap
    (d ← hload sb soff n h; hstore db doff d h).

(** ** Lemmas *)

Lemma empty_heap_ok : heap_ok empty_heap.
Proof. intros b [? H]. cbn in H. by rewrite lookup_empty in H. Qed.

Lemma block_Ok h b m : h_blocks h !! b = Some m → block h b = Ok m.
Proof. unfold block. by intros ->. Qed.

Section malloc.
Context `{!Malloc}.

Lemma malloc_ok h n : heap_ok h → heap_ok (malloc n h).1.
Proof.
  intros Hh b. cbn. rewrite lookup_insert. case_decide; [lia|].
  intros Hb%Hh. lia.
Qed.

Lemma malloc_fresh h n : heap_ok h → h_blocks h !! (malloc n h).2 = None.
Proof.
  intros Hh. cbn. apply eq_None_not_Some. intros Hb%Hh. lia.
Qed.

Lemma malloc_lookup h n :
  h_blocks (malloc n h).1 !! (malloc n h).2 = Some (junk (h_next h) (Z.to_nat n)).
Proof. apply lookup_insert_eq. Qed.

Lemma malloc_lookup_ne h n b :
  b ≠ (malloc n h).2 → h_blocks (malloc n h).1 !! b = h_blocks h !! b.
Proof. intros. by apply lookup_insert_ne. Qed.
End malloc.

Lemma free_Ok h b m :
  h_blocks h !! b = Some m → free b h = Ok (Heap (h_next h) (delete b (h_blocks h))).
Proof. intros H. unfold free. by rewrite (block_Ok _ _ _ H). Qed.

Lemma hload_Ok h b m off n :
  h_blocks h !! b = Some m → 0 ≤ off → 0 ≤ n → off + n ≤ zlen m →
  hload b off n h = Ok (sub_at off n m).
Proof. intros H ???. unfold hload. rewrite (block_Ok _ _ _ H). by apply load_Ok. Qed.

Lemma hstore_Ok h b m off d :
  h_blocks h !! b = Some m → 0 ≤ off → off + zlen d ≤ zlen m →
  hstore b off d h = Ok (Heap (h_next h) (<[b := put_at off d m]> (h_blocks h))).
Proof.
  intros H ??. unfold hstore. rewrite (block_Ok _ _ _ H). cbn. by rewrite store_Ok.
Qed.

(** A copy inside one block between disjoint ranges. *)
Lemma hmemcpy_same_Ok h b m doff soff n :
  h_blocks h !! b = Some m → 0 ≤ doff → 0 ≤ soff → 0 ≤ n →
  doff + n ≤ zlen m → soff + n ≤ zlen m → doff + n ≤ soff ∨ soff + n ≤ doff →
  hmemcpy b doff b soff n h =
  Ok (Heap (h_next h) (<[b := put_at doff (sub_at soff n m) m]> (h_blocks h))).
Proof.
  intros H ??????. unfold hmemcpy. rewrite check_true.
  - rewrite (hload_Ok _ _ m) by done. cbn. apply hstore_Ok; [done..|].
    rewrite length_sub_at; lia.
  - rewrite Z.eqb_refl. cbn. apply negb_true_iff, andb_false_iff. rewrite !Z.ltb_ge. lia.
Qed.

(** A copy between two blocks. *)
Lemma hmemcpy_Ok h db dm sb sm doff soff n :
  db ≠ sb → h_blocks h !! db = Some dm → h_blocks h !! sb = Some sm →
  0 ≤ doff → 0 ≤ soff → 0 ≤ n → doff + n ≤ zlen dm → soff + n ≤ zlen sm →
  hmemcpy db doff sb soff n h =
  Ok (Heap (h_next h) (<[db := put_at doff (sub_at soff n sm) dm]> (h_blocks h))).
Proof.
  intros Hne Hd Hs ?????. unfold hmemcpy. rewrite check_true.
  - rewrite (hload_Ok _ _ sm) by done. cbn. apply hstore_Ok; [done..|].
    rewrite length_sub_at; lia.
  - by rewrite (proj2 (Z.eqb_neq _ _) Hne).
Qed.
