(* ===== verification/BipBuf.v ===== *)
(** * The mirror buffer of [base/bip_buf.c]

    [struct bip_buf_s] is the record [bip_buf]; its [_buffer] is a block of the heap
    of twice the usable capacity.  A [bip_buf_t *] is modelled by the record itself,
    which every operation takes and returns; pointers into the buffer are offsets.
    [size_t] arithmetic wraps at 64 bits and the [int] counter at 32.

    The contract: [ring_ok] is the representation invariant, [contents] the bytes
    that are committed and not yet decommitted.  Reserve never changes the contents
    (even when it moves them), commit appends what was written in the reserved block,
    decommit drops from the front; [bip_buf_refines_queue] states that against an abstract byte
    queue with one reserved block. *)

From S2P Require Import Prelude CHeap BipSearch.

#[local] Open Scope Z_scope.

Record bip_buf := BipBuf {
  (* the mirror buffer, its real size is the double of the available capacity *)
  _buffer : Z;
  (* user usable capacity *)
  _available_capacity : Z;
  (* stats for commit *)
  _committed_sum : Z;
  (* region A *)
  _a_start : Z; _a_end : Z;
  (* region Reserve *)
  _r_start : Z; _r_end : Z
}.

Definition set_a (a_start a_end : Z) (bb : bip_buf) : bip_buf :=
  BipBuf (_buffer bb) (_available_capacity bb) (_committed_sum bb)
    a_start a_end (_r_start bb) (_r_end bb).
Definition set_r (r_start r_end : Z) (bb : bip_buf) : bip_buf :=
  BipBuf (_buffer bb) (_available_capacity bb) (_committed_sum bb)
    (_a_start bb) (_a_end bb) r_start r_end.
Definition set_sum (sum : Z) (bb : bip_buf) : bip_buf :=
  BipBuf (_buffer bb) (_available_capacity bb) sum
    (_a_start bb) (_a_end bb) (_r_start bb) (_r_end bb).
Definition set_buffer (buffer capacity : Z) (bb : bip_buf) : bip_buf :=
  BipBuf buffer capacity (_committed_sum bb)
    (_a_start bb) (_a_end bb) (_r_start bb) (_r_end bb).

(** ** Accessors *)

Definition bip_buf_get_capacity (bb : bip_buf) : Z := _available_capacity bb.

Definition bip_buf_get_committed_size (bb : bip_buf) : Z :=
  u64 (_a_end bb - _a_start bb).

Definition bip_buf_get_reservation_size (bb : bip_buf) : Z :=
  u64 (_r_end bb - _r_start bb).

Definition bip_buf_is_empty (bb : bip_buf) : bool := 0 =? bip_buf_get_committed_size bb.

Definition bip_buf_is_full (bb : bip_buf) : bool :=
  bip_buf_get_capacity bb =? bip_buf_get_committed_size bb.

Definition bip_buf_get_committed_sum (bb : bip_buf) (reset : Z) : bip_buf * Z :=
  (set_sum (if 0 <? reset then 0 else _committed_sum bb) bb, _committed_sum bb).

(** The offset of the contiguous block in [_buffer]. *)
Definition bip_buf_get_contiguous_block (bb : bip_buf) : Z := _a_start bb.

(** ** Life cycle *)

Definition bip_buf_reset (bb : bip_buf) : bip_buf := set_r 0 0 (set_a 0 0 bb).

Definition bip_buf_create `{!Malloc} (capacity : Z) (h : heap) : heap * bip_buf :=
  let '(h, buffer) := malloc (u64 (capacity * 2)) h in
  (h, bip_buf_reset (BipBuf buffer capacity 0 0 0 0 0)).

Definition bip_buf_destroy (h : heap) (bb : bip_buf) : outcome heap :=
  free (_buffer bb) h.

(** ** Searching *)

(** The result is an offset from the contiguous block. *)
Definition bip_buf_find_str (h : heap) (bb : bip_buf) (str : option bytes) (str_len : Z) :
    outcome (option Z) :=
  m ← block h (_buffer bb);
  let buf_start := drop (Z.to_nat (bip_buf_get_contiguous_block bb)) m in
  let buf_size := bip_buf_get_committed_size bb in
  fast_strstr buf_start buf_size str str_len.

(** ** Reserving, committing, decommitting *)

(** wrap A: move the committed bytes to the front of the buffer. *)
Definition wrap_a (h : heap) (bb : bip_buf) (region_a_size : Z) : outcome (heap * bip_buf) :=
  h ← hmemcpy (_buffer bb) 0 (_buffer bb) (_a_start bb) region_a_size h;
  Ok (h, set_a 0 region_a_size bb).

(** The room behind region A: [cap + cap - a_end], in [size_t]. *)
Definition tail_room (bb : bip_buf) : Z :=
  u64 (_available_capacity bb + _available_capacity bb - _a_end bb).

(** It returns the pointer (an offset into the buffer, or NULL) and [*size]. *)
Definition bip_buf_reserve (h : heap) (bb : bip_buf) :
    outcome (heap * bip_buf * option Z * Z) :=
  if 0 <? bip_buf_get_reservation_size bb then Ok (h, bb, None, 0)
  else
    let region_a_size := bip_buf_get_committed_size bb in
    let freespace := u64 (_available_capacity bb - region_a_size) in
    if freespace =? 0 then Ok (h, bb, None, 0)
    else
      (* all freespace would be reserved *)
      let size := freespace in
      '(h, bb) ←
        (if region_a_size =? 0 then Ok (h, set_a 0 0 bb)
         else if tail_room bb <? size then wrap_a h bb region_a_size
         else Ok (h, bb));
      let bb := set_r (_a_end bb) (u64 (_a_end bb + size)) bb in
      Ok (h, bb, Some (_r_start bb), size).

Section grow.
Context `{!Malloc}.

(** The two branches that expand the buffer. *)
Definition expand (h : heap) (bb : bip_buf) (size : Z) : outcome (heap * bip_buf) :=
  let buf_size := bip_buf_get_committed_size bb in
  let capacity := next_power_of_two (u32 (_available_capacity bb + size)) in
  let '(h, buffer) := malloc (u64 (capacity + capacity)) h in
  if buf_size =? 0 then Ok (h, set_a 0 0 (set_buffer buffer capacity bb))
  else
    let tmp := _buffer bb in
    h ← hmemcpy buffer 0 tmp (_a_start bb) buf_size h;
    h ← free tmp h;
    Ok (h, set_a 0 buf_size (set_buffer buffer capacity bb)).

Definition bip_buf_force_reserve (h : heap) (bb : bip_buf) (size : Z) :
    outcome (heap * bip_buf * option Z) :=
  if (0 <? bip_buf_get_reservation_size bb) || (0 =? size) then Ok (h, bb, None)
  else
    let region_a_size := bip_buf_get_committed_size bb in
    let freespace := u64 (_available_capacity bb - region_a_size) in
    if freespace =? 0 then Ok (h, bb, None)
    else
      '(h, bb) ←
        (if freespace <? size then expand h bb size
         else if region_a_size =? 0 then Ok (h, set_a 0 0 bb)
         else if tail_room bb <? size then wrap_a h bb region_a_size
         else Ok (h, bb));
      let bb := set_r (_a_end bb) (u64 (_a_end bb + size)) bb in
      Ok (h, bb, Some (_r_start bb)).
End grow.

Definition bip_buf_commit (bb : bip_buf) (size : Z) : bip_buf :=
  let reservation_size := bip_buf_get_reservation_size bb in
  let '(bb, size) :=
    if 0 <? reservation_size then
      (* if we try to commit more space than we asked for, clip to the size we asked for *)
      let size := if reservation_size <? size then reservation_size else size in
      (set_a (_a_start bb) (u64 (_r_start bb + size)) bb, size)
    else (bb, size) in
  (* release reservation *)
  let bb := set_r 0 0 bb in
  set_sum (s32 (_committed_sum bb + size)) bb.

Definition bip_buf_decommit (bb : bip_buf) (size : Z) : bip_buf * Z :=
  let committed_size := bip_buf_get_committed_size bb in
  let bytes := if committed_size <=? size then committed_size else size in
  (set_a (u64 (_a_start bb + bytes)) (_a_end bb) bb, bytes).

(** ** Representation invariant *)

(** [ring_ok h bb m]: the buffer is the block [m]; without a reservation at most half
    of it is committed; a reservation starts where region A ends, and together they
    fit in the capacity. *)
Record ring_ok (h : heap) (bb : bip_buf) (m : bytes) : Prop := {
  ring_block : h_blocks h !! _buffer bb = Some m;
  ring_len : zlen m = 2 * _available_capacity bb;
  ring_cap : 0 ≤ _available_capacity bb < 2 ^ 63;
  ring_a : 0 ≤ _a_start bb ≤ _a_end bb;
  ring_r :
    (_r_start bb = 0 ∧ _r_end bb = 0 ∧ _a_end bb ≤ 2 * _available_capacity bb ∧
     _a_end bb - _a_start bb ≤ _available_capacity bb) ∨
    (_r_start bb = _a_end bb ∧ _r_start bb < _r_end bb ∧
     _r_end bb ≤ 2 * _available_capacity bb ∧
     _r_end bb - _a_start bb ≤ _available_capacity bb)
}.

(** The committed bytes, and the bytes of the reserved block. *)
Definition contents (m : bytes) (bb : bip_buf) : bytes :=
  sub_at (_a_start bb) (_a_end bb - _a_start bb) m.
Definition reserved (m : bytes) (bb : bip_buf) : bytes :=
  sub_at (_r_start bb) (_r_end bb - _r_start bb) m.

(** ** The abstract queue *)

Record aq := AQ { q_cap : Z; q_data : bytes; q_resv : option bytes }.

Definition abs (m : bytes) (bb : bip_buf) : aq :=
  AQ (_available_capacity bb) (contents m bb)
    (if _r_start bb <? _r_end bb then Some (reserved m bb) else None).

(** What a client does with a buffer: the calls, and writing [d] at offset [off] of
    the reserved block it was given. *)
Inductive op :=
  | OReserve
  | OForceReserve (n : Z)
  | OWrite (off : Z) (d : bytes)
  | OCommit (n : Z)
  | ODecommit (n : Z)
  | OReset.

(** What it gets back: whether the pointer is not NULL, and a size. *)
Inductive ret := RUnit | RPtr (ok : bool) (size : Z) | RSize (n : Z).

Definition exec `{!Malloc} (o : op) (h : heap) (bb : bip_buf) :
    outcome (heap * bip_buf * ret) :=
  match o with
  | OReserve =>
      '(h, bb, p, n) ← bip_buf_reserve h bb; Ok (h, bb, RPtr (bool_decide (is_Some p)) n)
  | OForceReserve n =>
      '(h, bb, p) ← bip_buf_force_reserve h bb n;
      Ok (h, bb, RPtr (bool_decide (is_Some p)) n)
  | OWrite off d => h ← hstore (_buffer bb) (_r_start bb + off) d h; Ok (h, bb, RUnit)
  | OCommit n => Ok (h, bip_buf_commit bb n, RUnit)
  | ODecommit n => let '(bb, k) := bip_buf_decommit bb n in Ok (h, bb, RSize k)
  | OReset => Ok (h, bip_buf_reset bb, RUnit)
  end.

(** The specification of each call on the abstract queue.  The bytes [w] of a freshly
    reserved block are not determined. *)
Inductive aq_step : aq → op → aq → ret → Prop :=
  | step_reserve_null q :
      is_Some (q_resv q) ∨ zlen (q_data q) = q_cap q →
      aq_step q OReserve q (RPtr false 0)
  | step_reserve c d w :
      zlen d < c → zlen w = c - zlen d →
      aq_step (AQ c d None) OReserve (AQ c d (Some w)) (RPtr true (c - zlen d))
  | step_force_null q n :
      is_Some (q_resv q) ∨ n = 0 ∨ zlen (q_data q) = q_cap q →
      aq_step q (OForceReserve n) q (RPtr false n)
  | step_force_fit c d n w :
      0 < n → n ≤ c - zlen d → zlen w = n →
      aq_step (AQ c d None) (OForceReserve n) (AQ c d (Some w)) (RPtr true n)
  | step_force_grow c d n w :
      zlen d < c → c - zlen d < n → zlen w = n →
      aq_step (AQ c d None) (OForceReserve n)
        (AQ (next_power_of_two (c + n)) d (Some w)) (RPtr true n)
  | step_write c d w off x :
      0 ≤ off → off + zlen x ≤ zlen w →
      aq_step (AQ c d (Some w)) (OWrite off x) (AQ c d (Some (put_at off x w))) RUnit
  | step_commit c d w n :
      aq_step (AQ c d (Some w)) (OCommit n) (AQ c (d ++ take (Z.to_nat n) w) None) RUnit
  | step_commit_none c d n :
      aq_step (AQ c d None) (OCommit n) (AQ c d None) RUnit
  | step_decommit c d r n :
      aq_step (AQ c d r) (ODecommit n) (AQ c (drop (Z.to_nat n) d) r)
        (RSize (Z.min n (zlen d)))
  | step_reset q : aq_step q OReset (AQ (q_cap q) [] None) RUnit.

(** What the client may do: write inside the reserved block, pass sizes that are
    [size_t], and not force the capacity above [2^31], where the 32-bit rounding of
    the capacity wraps. *)
Definition allowed (q : aq) (o : op) : Prop :=
  match o with
  | OReserve | OReset => True
  | OForceReserve n => 0 ≤ n ∧ (n ≤ q_cap q - zlen (q_data q) ∨ q_cap q + n ≤ 2 ^ 31)
  | OWrite off d =>
      match q_resv q with Some w => 0 ≤ off ∧ off + zlen d ≤ zlen w | None => False end
  | OCommit n | ODecommit n => 0 ≤ n < 2 ^ 64
  end.

(** ** Lemmas on the invariant *)

Section ring.
Context {h : heap} {bb : bip_buf} {m : bytes} (Hok : ring_ok h bb m).

Lemma ring_bounds :
  0 ≤ _a_start bb ≤ _a_end bb ∧ _a_end bb ≤ 2 * _available_capacity bb ∧
  _a_end bb - _a_start bb ≤ _available_capacity bb ∧
  0 ≤ _r_start bb ≤ _r_end bb ∧ _r_end bb ≤ 2 * _available_capacity bb ∧
  0 ≤ _available_capacity bb < 9223372036854775808 ∧
  zlen m = 2 * _available_capacity bb.
Proof. destruct Hok as [_ ? ? ? ?]. lia. Qed.

Lemma committed_size_eq : bip_buf_get_committed_size bb = _a_end bb - _a_start bb.
Proof. pose proof ring_bounds. apply u64_small. lia. Qed.

Lemma reservation_size_eq : bip_buf_get_reservation_size bb = _r_end bb - _r_start bb.
Proof. pose proof ring_bounds. apply u64_small. lia. Qed.

Lemma tail_room_eq : tail_room bb = 2 * _available_capacity bb - _a_end bb.
Proof.
  pose proof ring_bounds. unfold tail_room. rewrite u64_small; lia.
Qed.

Lemma length_contents : zlen (contents m bb) = _a_end bb - _a_start bb.
Proof. pose proof ring_bounds. apply length_sub_at; lia. Qed.

Lemma length_reserved : zlen (reserved m bb) = _r_end bb - _r_start bb.
Proof. pose proof ring_bounds. apply length_sub_at; lia. Qed.
End ring.

(** The state after the reservation of [n] bytes behind a region A of [s] bytes. *)
Lemma ring_reserve h bb m n :
  ring_ok h bb m → _r_start bb = _r_end bb → 0 < n →
  n ≤ 2 * _available_capacity bb - _a_end bb →
  n ≤ _available_capacity bb - (_a_end bb - _a_start bb) →
  let bb' := set_r (_a_end bb) (u64 (_a_end bb + n)) bb in
  ring_ok h bb' m ∧ contents m bb' = contents m bb ∧ zlen (reserved m bb') = n ∧
  abs m bb' = AQ (_available_capacity bb) (contents m bb) (Some (reserved m bb')).
Proof.
  intros Hok Hr ??? bb'. pose proof (ring_bounds Hok). destruct Hok as [Hb ? ? ? ?].
  assert (u64 (_a_end bb + n) = _a_end bb + n) as Hu by (apply u64_small; lia).
  assert (ring_ok h bb' m) as Hok' by (split; cbn; rewrite ?Hu; done || lia).
  split; [done|]. split; [done|]. split.
  - rewrite (length_reserved Hok'). cbn. rewrite Hu. lia.
  - unfold abs. cbn. rewrite Hu. rewrite (proj2 (Z.ltb_lt _ _)) by lia. done.
Qed.

Lemma abs_unreserved h bb m :
  ring_ok h bb m → bip_buf_get_reservation_size bb ≤ 0 →
  _r_start bb = _r_end bb ∧
  abs m bb = AQ (_available_capacity bb) (contents m bb) None.
Proof.
  intros Hok Hr. rewrite (reservation_size_eq Hok) in Hr. pose proof (ring_bounds Hok).
  unfold abs. rewrite (proj2 (Z.ltb_ge _ _)) by lia. split; [lia|done].
Qed.

Lemma abs_reserved h bb m :
  ring_ok h bb m → 0 < bip_buf_get_reservation_size bb →
  abs m bb = AQ (_available_capacity bb) (contents m bb) (Some (reserved m bb)).
Proof.
  intros Hok Hr. rewrite (reservation_size_eq Hok) in Hr.
  unfold abs. by rewrite (proj2 (Z.ltb_lt _ _)) by lia.
Qed.

(** [relocated]: the ring was moved within its heap; it shows the same bytes, has no
    reservation and has room for [n] more bytes behind region A. *)
Record relocated (h : heap) (bb : bip_buf) (m : bytes) (n cap : Z)
    (h' : heap) (bb' : bip_buf) (m' : bytes) : Prop := {
  rel_ring : ring_ok h' bb' m';
  rel_heap : heap_ok h → heap_ok h';
  rel_contents : contents m' bb' = contents m bb;
  rel_unreserved : _r_start bb' = _r_end bb';
  rel_cap : _available_capacity bb' = cap;
  rel_room : n ≤ 2 * cap - _a_end bb';
  rel_total : n ≤ cap - (_a_end bb' - _a_start bb')
}.

(** Storing in the ring's block outside the committed bytes does not change them. *)
Lemma ring_store h bb m off d :
  ring_ok h bb m → 0 ≤ off → off + zlen d ≤ zlen m →
  ring_ok (Heap (h_next h) (<[_buffer bb := put_at off d m]> (h_blocks h))) bb
    (put_at off d m).
Proof.
  intros [? ? ? ? ?] ??. split; [apply lookup_insert_eq|by rewrite length_put_at| |..]; done.
Qed.

Lemma heap_ok_store h b m d :
  heap_ok h → h_blocks h !! b = Some m →
  heap_ok (Heap (h_next h) (<[b := d]> (h_blocks h))).
Proof.
  intros Hh Hb b'. cbn. rewrite lookup_insert. case_decide as He; [|apply Hh].
  subst. intros _. apply Hh. eauto.
Qed.

Lemma contents_nil m bb : _a_end bb - _a_start bb ≤ 0 → contents m bb = [].
Proof. apply sub_at_neg. Qed.

(** An empty region A is moved to the front by resetting its indices. *)
Lemma relocate_empty h bb m n :
  ring_ok h bb m → _r_start bb = _r_end bb → bip_buf_get_committed_size bb = 0 →
  n ≤ _available_capacity bb →
  relocated h bb m n (_available_capacity bb) h (set_a 0 0 bb) m.
Proof.
  intros Hok Hr He ?. rewrite (committed_size_eq Hok) in He.
  pose proof (ring_bounds Hok). destruct Hok as [? ? ? ? ?].
  split; cbn; try done; try lia.
  - split; cbn; done || lia.
  - by rewrite !contents_nil by (cbn; lia).
Qed.

(** [wrap A]: its [memcpy] never overlaps when region A starts above the middle. *)
Lemma relocate_wrap h bb m n :
  ring_ok h bb m → _r_start bb = _r_end bb →
  n ≤ _available_capacity bb - (_a_end bb - _a_start bb) →
  2 * _available_capacity bb - _a_end bb < n →
  ∃ h' m', wrap_a h bb (bip_buf_get_committed_size bb) =
      Ok (h', set_a 0 (bip_buf_get_committed_size bb) bb) ∧
    relocated h bb m n (_available_capacity bb)
      h' (set_a 0 (bip_buf_get_committed_size bb) bb) m'.
Proof.
  intros Hok Hr ??. pose proof (ring_bounds Hok). rewrite (committed_size_eq Hok).
  set (s := _a_end bb - _a_start bb).
  unfold wrap_a. rewrite (hmemcpy_same_Ok _ _ m) by (apply (ring_block _ _ _ Hok) || lia).
  cbn. fold (contents m bb). do 2 eexists. split; [done|].
  assert (ring_ok (Heap (h_next h)
      (<[_buffer bb := put_at 0 (contents m bb) m]> (h_blocks h)))
      (set_a 0 s bb) (put_at 0 (contents m bb) m)) as Hok'.
  { pose proof (length_contents Hok).
    pose proof (ring_store h bb m 0 (contents m bb) Hok ltac:(lia) ltac:(lia)) as [? ? ? ? ?].
    split; cbn in *; done || lia. }
  split; cbn; try done; try lia.
  - intros Hh. apply (heap_ok_store _ _ m); [done|apply (ring_block _ _ _ Hok)].
  - pose proof (length_contents Hok) as Hl. fold s in Hl. unfold contents at 1. cbn.
    rewrite Z.sub_0_r, <- Hl. apply sub_at_put_at_same; lia.
Qed.

(** ** The calls refine the abstract queue *)

Section refinement.
Context `{!Malloc}.

(** The result of a call: it does not run into undefined behaviour, it keeps the
    invariants, and it is a step of the abstract queue. *)
Definition refines (o : op) (h : heap) (bb : bip_buf) (m : bytes) : Prop :=
  ∃ h' bb' m' r,
    exec o h bb = Ok (h', bb', r) ∧ ring_ok h' bb' m' ∧ (heap_ok h → heap_ok h') ∧
    aq_step (abs m bb) o (abs m' bb') r.

(** Reserving [n] bytes after a relocation. *)
Lemma reserve_relocated h bb m n cap h' bb' m' :
  relocated h bb m n cap h' bb' m' → 0 < n →
  let bb'' := set_r (_a_end bb') (u64 (_a_end bb' + n)) bb' in
  ring_ok h' bb'' m' ∧ ∃ w, zlen w = n ∧ abs m' bb'' = AQ cap (contents m bb) (Some w).
Proof.
  intros [Hok' _ <- Hr <- ? ?] Hn bb''.
  destruct (ring_reserve h' bb' m' n) as (Hok'' & Hc & Hl & Ha); [done..|].
  split; [done|]. eauto.
Qed.

Lemma refines_null_reserve h bb m :
  ring_ok h bb m →
  is_Some (q_resv (abs m bb)) ∨ zlen (q_data (abs m bb)) = q_cap (abs m bb) →
  bip_buf_reserve h bb = Ok (h, bb, None, 0) → refines OReserve h bb m.
Proof.
  intros Hok Hq E. exists h, bb, m, (RPtr false 0). cbn [exec]. rewrite E.
  split; [done|]. split; [done|]. split; [done|]. by apply step_reserve_null.
Qed.

Lemma freespace_eq h bb m :
  ring_ok h bb m →
  u64 (_available_capacity bb - bip_buf_get_committed_size bb) =
  _available_capacity bb - (_a_end bb - _a_start bb).
Proof.
  intros Hok. pose proof (ring_bounds Hok). rewrite (committed_size_eq Hok).
  apply u64_small. lia.
Qed.

Lemma refines_reserve h bb m : ring_ok h bb m → refines OReserve h bb m.
Proof.
  intros Hok. pose proof (ring_bounds Hok). pose proof (length_contents Hok) as Hlc.
  destruct (Z.ltb_spec 0 (bip_buf_get_reservation_size bb)) as [Hres|Hres].
  { apply refines_null_reserve; [done| |].
    - left. rewrite (abs_reserved h) by done. eauto.
    - unfold bip_buf_reserve. by rewrite (proj2 (Z.ltb_lt _ _)). }
  destruct (abs_unreserved h bb m Hok Hres) as [Hr Habs].
  pose proof (freespace_eq h bb m Hok) as Hfree.
  unfold refines. cbn [exec]. unfold bip_buf_reserve.
  rewrite (proj2 (Z.ltb_ge _ _) Hres), Hfree.
  destruct (Z.eqb_spec (_available_capacity bb - (_a_end bb - _a_start bb)) 0) as [Hz|Hz].
  { exists h, bb, m, (RPtr false 0). split; [done|]. split; [done|]. split; [done|].
    rewrite Habs. apply step_reserve_null. right. cbn. lia. }
  set (n := _available_capacity bb - (_a_end bb - _a_start bb)).
  assert (∃ h' bb' m',
    (if bip_buf_get_committed_size bb =? 0 then Ok (h, set_a 0 0 bb)
     else if tail_room bb <? n then wrap_a h bb (bip_buf_get_committed_size bb)
     else Ok (h, bb)) = Ok (h', bb') ∧
    relocated h bb m n (_available_capacity bb) h' bb' m') as (h' & bb' & m' & E & Hrel).
  { destruct (Z.eqb_spec (bip_buf_get_committed_size bb) 0) as [He|He].
    { do 3 eexists. split; [done|]. apply relocate_empty; try done. unfold n. lia. }
    rewrite (tail_room_eq Hok). destruct (Z.ltb_spec (2 * _available_capacity bb - _a_end bb) n).
    - destruct (relocate_wrap h bb m n) as (h' & m' & E & Hrel); [done|done|lia|done|eauto].
    - exists h, bb, m. split; [done|]. split; try done; lia. }
  rewrite E. cbn [mbind outcome_bind].
  destruct (reserve_relocated _ _ _ _ _ _ _ _ Hrel) as (Hok' & w & Hw & Ha); [lia|].
  do 4 eexists. split; [done|]. split; [exact Hok'|]. split; [by apply Hrel|].
  rewrite Habs, Ha. replace n with (_available_capacity bb - zlen (contents m bb)) by lia.
  apply step_reserve; lia.
Qed.

Lemma malloc_store_ok h n d :
  heap_ok h → heap_ok (Heap (h_next (malloc n h).1)
    (<[(malloc n h).2 := d]> (h_blocks (malloc n h).1))).
Proof. intros Hh. apply (heap_ok_store _ _ (junk (h_next h) (Z.to_nat n))); [by apply malloc_ok|]. apply malloc_lookup. Qed.

(** Expanding: region A is copied to the front of a larger buffer. *)
Lemma relocate_expand h bb m n :
  ring_ok h bb m → heap_ok h → _r_start bb = _r_end bb → 0 < n →
  _available_capacity bb + n ≤ 2 ^ 31 →
  ∃ h' bb' m', expand h bb n = Ok (h', bb') ∧
    relocated h bb m n (next_power_of_two (_available_capacity bb + n)) h' bb' m'.
Proof.
  intros Hok Hh Hr Hn Hmax. pose proof (ring_bounds Hok).
  pose proof (next_power_of_two_ge (_available_capacity bb + n)) as Hcap.
  unfold expand. rewrite (u32_small (_ + n)) by lia.
  set (cap := next_power_of_two _) in *. rewrite (committed_size_eq Hok).
  rewrite (u64_small (cap + cap)) by lia.
  pose proof (malloc_fresh h (cap + cap) Hh) as Hfresh.
  pose proof (malloc_lookup h (cap + cap)) as Hnew.
  pose proof (malloc_ok h (cap + cap) Hh) as Hmok.
  pose proof (malloc_store_ok h (cap + cap)) as Hsok.
  assert (_buffer bb ≠ (malloc (cap + cap) h).2) as Hne.
  { intros E. rewrite <- E, (ring_block _ _ _ Hok) in Hfresh. done. }
  pose proof (malloc_lookup_ne h (cap + cap) _ Hne) as Hold.
  rewrite (ring_block _ _ _ Hok) in Hold.
  destruct (malloc (cap + cap) h) as [h1 b1]. cbn [fst snd] in *.
  set (m1 := junk _ _) in *. assert (zlen m1 = 2 * cap) as Hm1 by (unfold m1; rewrite junk_length; lia).
  destruct (Z.eqb_spec (_a_end bb - _a_start bb) 0) as [He|He].
  - exists h1, (set_a 0 0 (set_buffer b1 cap bb)), m1. split; [done|].
    destruct Hok as [? ? ? ? ?]. split; cbn; try done; try lia.
    + split; cbn; done || lia.
    + by rewrite !contents_nil by (cbn; lia).
  - rewrite (hmemcpy_Ok _ _ m1 _ m) by (done || lia). cbn [mbind outcome_bind].
    pose proof (length_contents Hok) as Hl. fold (contents m bb).
    rewrite (free_Ok _ _ m) by (cbn; by rewrite lookup_insert_ne). cbn [mbind outcome_bind].
    do 3 eexists. split; [done|].
    assert (ring_ok (Heap (h_next h1) (delete (_buffer bb)
        (<[b1 := put_at 0 (contents m bb) m1]> (h_blocks h1))))
      (set_a 0 (_a_end bb - _a_start bb) (set_buffer b1 cap bb))
      (put_at 0 (contents m bb) m1)) as Hok'.
    { destruct Hok as [? ? ? ? ?]. split; cbn; try lia.
      - rewrite lookup_delete_ne, lookup_insert_eq by done. done.
      - rewrite length_put_at; lia. }
    split; try exact Hok'; cbn; try done; try lia.
    + intros _ b. cbn. rewrite lookup_delete. case_decide; [by intros [? ?]|].
      apply (Hsok _ Hh).
    + rewrite <- Hl. unfold contents at 1. cbn. rewrite Z.sub_0_r.
      apply sub_at_put_at_same; lia.
Qed.

Lemma refines_null_force h bb m n :
  ring_ok h bb m →
  is_Some (q_resv (abs m bb)) ∨ n = 0 ∨ zlen (q_data (abs m bb)) = q_cap (abs m bb) →
  bip_buf_force_reserve h bb n = Ok (h, bb, None) → refines (OForceReserve n) h bb m.
Proof.
  intros Hok Hq E. exists h, bb, m, (RPtr false n). cbn [exec]. rewrite E.
  split; [done|]. split; [done|]. split; [done|]. by apply step_force_null.
Qed.

Lemma refines_force_reserve h bb m n :
  ring_ok h bb m → heap_ok h → allowed (abs m bb) (OForceReserve n) →
  refines (OForceReserve n) h bb m.
Proof.
  intros Hok Hh Hal. cbn in Hal.
  pose proof (ring_bounds Hok). pose proof (length_contents Hok) as Hlc. rewrite Hlc in Hal.
  pose proof (freespace_eq h bb m Hok) as Hfree.
  set (free := _available_capacity bb - (_a_end bb - _a_start bb)) in *.
  destruct (Z.ltb_spec 0 (bip_buf_get_reservation_size bb)) as [Hres|Hres].
  { apply refines_null_force; [done| |].
    - left. rewrite (abs_reserved h) by done. eauto.
    - unfold bip_buf_force_reserve. by rewrite (proj2 (Z.ltb_lt _ _)). }
  destruct (abs_unreserved h bb m Hok Hres) as [Hr Habs]. apply Z.ltb_ge in Hres.
  destruct (decide (n = 0 ∨ free = 0)) as [Hz|Hz].
  { apply refines_null_force; [done|rewrite Habs; cbn; lia|].
    unfold bip_buf_force_reserve. rewrite Hres, Hfree. cbn [orb].
    destruct Hz as [->| ->]; [done|]. by destruct (0 =? n). }
  unfold refines. cbn [exec]. unfold bip_buf_force_reserve. rewrite Hres, Hfree. cbn [orb].
  rewrite (proj2 (Z.eqb_neq 0 n)), (proj2 (Z.eqb_neq free 0)) by lia.
  assert (∃ h' bb' m' cap,
    (if free <? n then expand h bb n
     else if bip_buf_get_committed_size bb =? 0 then Ok (h, set_a 0 0 bb)
     else if tail_room bb <? n then wrap_a h bb (bip_buf_get_committed_size bb)
     else Ok (h, bb)) = Ok (h', bb') ∧
    relocated h bb m n cap h' bb' m' ∧
    cap = (if free <? n then next_power_of_two (_available_capacity bb + n)
           else _available_capacity bb)) as (h' & bb' & m' & cap & E & Hrel & ->).
  { destruct (Z.ltb_spec free n).
    { destruct (relocate_expand h bb m n) as (h' & bb' & m' & E & Hrel); try done; try lia. eauto 10. }
    destruct (Z.eqb_spec (bip_buf_get_committed_size bb) 0) as [He|He].
    { do 4 eexists. split; [done|]. split; [|done]. apply relocate_empty; try done. lia. }
    rewrite (tail_room_eq Hok). destruct (Z.ltb_spec (2 * _available_capacity bb - _a_end bb) n).
    - destruct (relocate_wrap h bb m n) as (h' & m' & E & Hrel); [done|done|lia|done|eauto 10].
    - exists h, bb, m. eexists. split; [done|]. split; [|done]. split; try done; lia. }
  rewrite E. cbn [mbind outcome_bind].
  destruct (reserve_relocated _ _ _ _ _ _ _ _ Hrel) as (Hok' & w & Hw & Ha); [lia|].
  do 4 eexists. split; [done|]. split; [exact Hok'|]. split; [by apply Hrel|].
  rewrite Habs, Ha. destruct (Z.ltb_spec free n).
  - apply step_force_grow; lia.
  - apply step_force_fit; lia.
Qed.

Lemma refines_write h bb m off d :
  ring_ok h bb m → allowed (abs m bb) (OWrite off d) → refines (OWrite off d) h bb m.
Proof.
  intros Hok Hal. pose proof (ring_bounds Hok). pose proof (length_reserved Hok) as Hlr.
  destruct (Z.ltb_spec 0 (bip_buf_get_reservation_size bb)) as [Hres|Hres].
  2:{ destruct (abs_unreserved h bb m Hok Hres) as [_ Habs]. by rewrite Habs in Hal. }
  rewrite (abs_reserved h) in Hal by done. cbn in Hal.
  pose proof (ring_store h bb m (_r_start bb + off) d Hok ltac:(lia) ltac:(lia)) as Hok'.
  exists (Heap (h_next h) (<[_buffer bb := put_at (_r_start bb + off) d m]> (h_blocks h))),
    bb, (put_at (_r_start bb + off) d m), RUnit.
  cbn [exec]. rewrite (hstore_Ok _ _ m) by (apply (ring_block _ _ _ Hok) || lia).
  split; [done|]. split; [done|]. split.
  { intros Hh. apply (heap_ok_store _ _ m); [done|apply (ring_block _ _ _ Hok)]. }
  rewrite (abs_reserved h bb m), (abs_reserved _ bb _ Hok') by done.
  rewrite (reservation_size_eq Hok) in Hres. destruct (ring_r _ _ _ Hok) as [|(? & ? & ? & ?)]; [lia|].
  assert (contents (put_at (_r_start bb + off) d m) bb = contents m bb) as ->.
  { apply sub_at_put_at_disjoint; lia. }
  assert (reserved (put_at (_r_start bb + off) d m) bb = put_at off d (reserved m bb)) as ->.
  { apply sub_at_put_at_inside; lia. }
  apply step_write; lia.
Qed.

Lemma refines_commit h bb m n :
  ring_ok h bb m → 0 ≤ n → refines (OCommit n) h bb m.
Proof.
  intros Hok Hn. pose proof (ring_bounds Hok). pose proof (length_reserved Hok) as Hlr.
  unfold refines. cbn [exec]. unfold bip_buf_commit.
  destruct (Z.ltb_spec 0 (bip_buf_get_reservation_size bb)) as [Hres|Hres].
  - rewrite (abs_reserved h) by done. rewrite reservation_size_eq in * by done.
    destruct (ring_r _ _ _ Hok) as [|(Hra & ? & ? & ?)]; [lia|].
    set (k := if _r_end bb - _r_start bb <? n then _r_end bb - _r_start bb else n).
    assert (k = Z.min n (_r_end bb - _r_start bb)) as Hk.
    { unfold k. destruct (Z.ltb_spec (_r_end bb - _r_start bb) n); lia. }
    assert (u64 (_r_start bb + k) = _a_end bb + k) as Hu by (rewrite u64_small; lia).
    rewrite Hu. do 4 eexists. split; [done|].
    split; [destruct Hok; split; cbn; done || lia|]. split; [done|].
    assert (contents m bb ++ take (Z.to_nat n) (reserved m bb) =
            sub_at (_a_start bb) (_a_end bb + k - _a_start bb) m) as Hc.
    { replace (take (Z.to_nat n) (reserved m bb)) with (take (Z.to_nat k) (reserved m bb)).
      - unfold contents, reserved. rewrite take_sub_at, Z2Nat.id by lia.
        replace (_a_end bb + k - _a_start bb) with (_a_end bb - _a_start bb + k) by lia.
        rewrite sub_at_app by lia.
        by replace (_a_start bb + (_a_end bb - _a_start bb)) with (_r_start bb) by lia.
      - destruct (decide (n ≤ _r_end bb - _r_start bb)); [by rewrite Hk, Z.min_l by lia|].
        rewrite !take_ge by lia. done. }
    unfold abs. cbn. unfold contents at 2. cbn. rewrite <- Hc. apply step_commit.
  - destruct (abs_unreserved h bb m Hok Hres) as [Hr Habs]. rewrite Habs.
    do 4 eexists. split; [done|].
    split; [destruct Hok; split; cbn; done || lia|]. split; [done|]. apply step_commit_none.
Qed.

Lemma refines_decommit h bb m n :
  ring_ok h bb m → 0 ≤ n → refines (ODecommit n) h bb m.
Proof.
  intros Hok Hn. pose proof (ring_bounds Hok). pose proof (length_contents Hok) as Hlc.
  unfold refines. cbn [exec]. unfold bip_buf_decommit. rewrite (committed_size_eq Hok).
  set (k := if _ <=? n then _ else n).
  assert (k = Z.min n (_a_end bb - _a_start bb)) as Hk.
  { unfold k. destruct (Z.leb_spec (_a_end bb - _a_start bb) n); lia. }
  assert (u64 (_a_start bb + k) = _a_start bb + k) as -> by (apply u64_small; lia).
  do 4 eexists. split; [done|].
  split; [destruct Hok as [? ? ? ? Hr]; split; cbn; done || lia|]. split; [done|].
  assert (sub_at (_a_start bb + k) (_a_end bb - (_a_start bb + k)) m =
          drop (Z.to_nat n) (contents m bb)) as Hc.
  { unfold contents. destruct (decide (n ≤ _a_end bb - _a_start bb)).
    - rewrite drop_sub_at, Z2Nat.id by lia. by rewrite Hk, Z.min_l, Z.sub_add_distr by lia.
    - rewrite sub_at_neg by lia. symmetry. apply drop_ge.
      unfold contents in Hlc. lia. }
  unfold abs. cbn. unfold contents at 2. cbn. rewrite Hc, Hk, <- Hlc. apply step_decommit.
Qed.

Lemma refines_reset h bb m : ring_ok h bb m → refines OReset h bb m.
Proof.
  intros Hok. pose proof (ring_bounds Hok). unfold refines. cbn [exec].
  exists h, (bip_buf_reset bb), m, RUnit. split; [done|].
  split; [destruct Hok; split; cbn; done || lia|]. split; [done|].
  apply (step_reset (abs m bb)).
Qed.

Lemma refines_op o h bb m :
  ring_ok h bb m → heap_ok h → allowed (abs m bb) o → refines o h bb m.
Proof.
  intros Hok Hh Hal. destruct o.
  - by apply refines_reserve.
  - by apply refines_force_reserve.
  - by apply refines_write.
  - apply refines_commit; [done|apply Hal].
  - apply refines_decommit; [done|apply Hal].
  - by apply refines_reset.
Qed.

Lemma create_ok cap h :
  heap_ok h → 0 ≤ cap < 2 ^ 63 →
  ∃ m, ring_ok (bip_buf_create cap h).1 (bip_buf_create cap h).2 m ∧
    heap_ok (bip_buf_create cap h).1 ∧
    abs m (bip_buf_create cap h).2 = AQ cap [] None.
Proof.
  intros Hh Hcap. unfold bip_buf_create. pose proof (malloc_ok h (u64 (cap * 2)) Hh).
  pose proof (malloc_lookup h (u64 (cap * 2))) as Hl.
  destruct (malloc _ h) as [h' b]. cbn [fst snd] in *. eexists. split; [|split; [done|done]].
  split; cbn; try exact Hl; try lia. rewrite junk_length, u64_small; lia.
Qed.
End refinement.

(** ** Sessions: every byte that goes in comes out once and in order *)

Section sessions.
Context `{!Malloc}.

(** The bytes a call moves into the queue, and the bytes it takes out of it. *)
Definition taken_in (o : op) (m : bytes) (bb : bip_buf) : bytes :=
  match o with
  | OCommit n => if _r_start bb <? _r_end bb then take (Z.to_nat n) (reserved m bb) else []
  | _ => []
  end.
Definition taken_out (o : op) (m : bytes) (bb : bip_buf) : bytes :=
  match o with ODecommit n => take (Z.to_nat n) (contents m bb) | _ => [] end.

(** [session h bb i o]: the buffer was created and used by allowed calls other than
    reset; [i] is everything that was committed and [o] everything decommitted. *)
Inductive session : heap → bip_buf → bytes → bytes → Prop :=
  | session_create h cap :
      heap_ok h → 0 ≤ cap < 2 ^ 63 →
      session (bip_buf_create cap h).1 (bip_buf_create cap h).2 [] []
  | session_op h bb m i o c h' bb' r :
      session h bb i o → h_blocks h !! _buffer bb = Some m →
      allowed (abs m bb) c → c ≠ OReset → exec c h bb = Ok (h', bb', r) →
      session h' bb' (i ++ taken_in c m bb) (o ++ taken_out c m bb).

(** The abstract queue moves the same bytes. *)
Lemma aq_step_data q c q' r m bb :
  aq_step q c q' r → q = abs m bb → c ≠ OReset →
  q_data q ++ taken_in c m bb = taken_out c m bb ++ q_data q'.
Proof.
  intros Hs Hq Hc. pose proof (f_equal q_data Hq) as Hd. pose proof (f_equal q_resv Hq) as Hr.
  cbn in Hd, Hr. destruct Hs; cbn in *; rewrite ?app_nil_r; try done.
  - revert Hr. destruct (_ <? _); [by intros [= ->]|done].
  - revert Hr. destruct (_ <? _); [done|]. by rewrite !app_nil_r.
  - rewrite <- Hd. by rewrite take_drop.
Qed.

Lemma session_inv h bb i o :
  session h bb i o → ∃ m, ring_ok h bb m ∧ heap_ok h ∧ i = o ++ contents m bb.
Proof.
  induction 1 as [h cap Hh Hcap|h bb m i o c h' bb' r _ IH Hm Hal Hc E].
  - destruct (create_ok cap h Hh Hcap) as (m & Hok & Hh' & Ha).
    exists m. split; [done|]. split; [done|]. symmetry. exact (f_equal q_data Ha).
  - destruct IH as (m0 & Hok & Hh & Hi).
    assert (m0 = m) as -> by (pose proof (ring_block _ _ _ Hok); congruence).
    destruct (refines_op c h bb m Hok Hh Hal) as (h1 & bb1 & m1 & r1 & E1 & Hok1 & Hh1 & Hs).
    rewrite E in E1. injection E1 as -> -> ->.
    exists m1. split; [done|]. split; [auto|].
    pose proof (aq_step_data _ _ _ _ m bb Hs eq_refl Hc) as Hd. cbn in Hd.
    rewrite Hi, <- !app_assoc. by rewrite Hd.
Qed.
End sessions.

(** ** Properties *)

(** C3: in every state that satisfies the representation invariant, every allowed call
    runs without undefined behaviour (its copies stay in bounds and never overlap),
    re-establishes the invariant and is a step of the abstract byte queue. *)
Theorem bip_buf_refines_queue `{!Malloc} (o : op) (h : heap) (bb : bip_buf) (m : bytes)
    (Hok : ring_ok h bb m) (Hh : heap_ok h) (Hal : allowed (abs m bb) o) :
  ∃ h' bb' m' r,
    exec o h bb = Ok (h', bb', r) ∧ ring_ok h' bb' m' ∧ heap_ok h' ∧
    aq_step (abs m bb) o (abs m' bb') r.
Proof.
  destruct (refines_op o h bb m Hok Hh Hal) as (h' & bb' & m' & r & ? & ? & ? & ?).
  exists h', bb', m', r. auto.
Qed.

(** A buffer of capacity 4 with two committed bytes that start above the middle. *)
Definition ex_mem : bytes := [1; 2; 3; 4; 5; 6; 7; 8].
Definition ex_heap : heap := Heap 2 {[1 := ex_mem]}.
Definition ex_ring : bip_buf := BipBuf 1 4 8 5 7 0 0.

Lemma ex_ring_ok : ring_ok ex_heap ex_ring ex_mem.
Proof. split; cbn; try lia. apply lookup_singleton_eq. Qed.

Lemma ex_heap_ok : heap_ok ex_heap.
Proof.
  intros b [x Hx]. cbn in *. apply lookup_singleton_Some in Hx as [<- _]. lia.
Qed.

Lemma bip_buf_refines_queue_witness :
  ∃ h' bb' m' r,
    @exec (malloc_fill 0) OReserve ex_heap ex_ring = Ok (h', bb', r) ∧
    ring_ok h' bb' m' ∧ heap_ok h' ∧ aq_step (abs ex_mem ex_ring) OReserve (abs m' bb') r.
Proof.
  apply (@bip_buf_refines_queue (malloc_fill 0) OReserve ex_heap ex_ring ex_mem).
  - exact ex_ring_ok.
  - exact ex_heap_ok.
  - exact I.
Defined.

(** C4: whatever the calls, what was committed is what was decommitted followed by
    what the buffer still holds: no byte is lost, duplicated or reordered, across
    wraps and expansions. *)
Theorem bip_buf_fifo `{!Malloc} (h : heap) (bb : bip_buf) (i o : bytes)
    (Hs : session h bb i o) :
  ∃ m, h_blocks h !! _buffer bb = Some m ∧ i = o ++ contents m bb.
Proof.
  destruct (session_inv h bb i o Hs) as (m & Hok & _ & Hi).
  exists m. split; [apply (ring_block _ _ _ Hok)|done].
Qed.

(** A session: reserve, write two bytes, commit them, take one out. *)
Definition run_ops `{!Malloc} (os : list op) (h : heap) (bb : bip_buf) :
    outcome (heap * bip_buf) :=
  foldr (λ o k s, '(h, bb, _) ← exec o s.1 s.2; k (h, bb)) (λ s, Ok s) os (h, bb).

Definition ex_ops : list op := [OReserve; OWrite 0 (txt "hi"); OCommit 2; ODecommit 1].

Definition ex_final : heap * bip_buf :=
  match @run_ops (malloc_fill 0) ex_ops (@bip_buf_create (malloc_fill 0) 4 empty_heap).1
          (@bip_buf_create (malloc_fill 0) 4 empty_heap).2 with
  | Ok s => s | Ub _ => (empty_heap, ex_ring) end.

Lemma ex_session :
  @session (malloc_fill 0) ex_final.1 ex_final.2 (txt "hi") (txt "h").
Proof.
  change (txt "hi") with ((([] ++ []) ++ []) ++ txt "hi" ++ []).
  change (txt "h") with ((([] ++ []) ++ []) ++ [] ++ txt "h").
  assert (∀ c h bb m i o h' bb' r i' o',
    @session (malloc_fill 0) h bb i o → h_blocks h !! _buffer bb = Some m →
    allowed (abs m bb) c → c ≠ OReset → @exec (malloc_fill 0) c h bb = Ok (h', bb', r) →
    i ++ taken_in c m bb = i' → o ++ taken_out c m bb = o' →
    @session (malloc_fill 0) h' bb' i' o') as Hop
    by (intros; subst; by eapply session_op).
  pose proof (@session_create (malloc_fill 0) empty_heap 4 empty_heap_ok ltac:(lia)) as H0.
  eapply (Hop (ODecommit 1)); [eapply (Hop (OCommit 2));
    [eapply (Hop (OWrite 0 (txt "hi"))); [eapply (Hop OReserve); [exact H0|..]|..]|..]|..];
    first [reflexivity | discriminate | exact I | vm_compute; split; discriminate
          | vm_compute; split; [discriminate|reflexivity]].
Qed.

Lemma bip_buf_fifo_witness :
  ∃ m, h_blocks ex_final.1 !! _buffer ex_final.2 = Some m ∧
       txt "hi" = txt "h" ++ contents m ex_final.2.
Proof.
  apply (@bip_buf_fifo (malloc_fill 0)). exact ex_session.
Defined.

(** *** bip_buf_force_reserve *)

Lemma force_reserve_entry `{!Malloc} h bb m n :
  ring_ok h bb m → _r_start bb = _r_end bb → 0 < n →
  zlen (contents m bb) < _available_capacity bb →
  _available_capacity bb - zlen (contents m bb) < n →
  bip_buf_force_reserve h bb n =
  '(h, bb) ← expand h bb n;
  let bb := set_r (_a_end bb) (u64 (_a_end bb + n)) bb in
  Ok (h, bb, Some (_r_start bb)).
Proof.
  intros Hok Hr Hn Hlt Hgt. rewrite (length_contents Hok) in *.
  unfold bip_buf_force_reserve. rewrite (reservation_size_eq Hok), (freespace_eq h bb m Hok).
  rewrite (proj2 (Z.ltb_ge _ _)), (proj2 (Z.eqb_neq 0 n)) by lia. cbn [orb].
  rewrite (proj2 (Z.eqb_neq _ 0)), (proj2 (Z.ltb_lt _ _)) by lia. done.
Qed.

(** expanding replaces the buffer, and the old block is released exactly when it
    held data: on an empty buffer the old block stays allocated with no pointer to it. *)
Theorem force_reserve_leak `{!Malloc} (h : heap) (bb : bip_buf) (m : bytes) (n : Z)
    (Hok : ring_ok h bb m) (Hh : heap_ok h) (Hr : _r_start bb = _r_end bb)
    (Hfull : zlen (contents m bb) < _available_capacity bb)
    (Hgrow : _available_capacity bb - zlen (contents m bb) < n)
    (Hmax : _available_capacity bb + n ≤ 2 ^ 31) :
  ∃ h' bb' p, bip_buf_force_reserve h bb n = Ok (h', bb', Some p) ∧
    _buffer bb' ≠ _buffer bb ∧
    (h_blocks h' !! _buffer bb = if decide (contents m bb = []) then Some m else None).
Proof.
  pose proof (ring_bounds Hok). pose proof (length_contents Hok) as Hl.
  rewrite (force_reserve_entry h bb m n) by (done || lia).
  pose proof (next_power_of_two_ge (_available_capacity bb + n)) as Hcap.
  unfold expand. rewrite (u32_small (_ + n)) by lia.
  set (cap := next_power_of_two _) in *. rewrite (committed_size_eq Hok).
  rewrite (u64_small (cap + cap)) by lia.
  pose proof (malloc_fresh h (cap + cap) Hh) as Hfresh.
  pose proof (malloc_lookup h (cap + cap)) as Hnew.
  assert (_buffer bb ≠ (malloc (cap + cap) h).2) as Hne.
  { intros E. rewrite <- E, (ring_block _ _ _ Hok) in Hfresh. done. }
  pose proof (malloc_lookup_ne h (cap + cap) _ Hne) as Hold.
  rewrite (ring_block _ _ _ Hok) in Hold.
  destruct (malloc (cap + cap) h) as [h1 b1]. cbn [fst snd] in *.
  set (m1 := junk _ _) in *. assert (zlen m1 = 2 * cap) as Hm1 by (unfold m1; rewrite junk_length; lia).
  destruct (Z.eqb_spec (_a_end bb - _a_start bb) 0) as [He|He].
  - do 3 eexists. split; [done|]. cbn. split; [done|].
    rewrite decide_True; [done|]. apply contents_nil. lia.
  - rewrite (hmemcpy_Ok _ _ m1 _ m) by (done || lia). cbn [mbind outcome_bind].
    rewrite (free_Ok _ _ m) by (cbn; by rewrite lookup_insert_ne). cbn [mbind outcome_bind].
    do 3 eexists. split; [done|]. cbn. split; [done|].
    rewrite decide_False; [apply lookup_delete_eq|]. intros E. rewrite E in Hl. cbn in Hl. lia.
Qed.

Lemma force_reserve_leak_witness :
  ∃ h' bb' p,
    @bip_buf_force_reserve (malloc_fill 0) ex_heap (bip_buf_reset ex_ring) 10 =
      Ok (h', bb', Some p) ∧
    _buffer bb' ≠ 1 ∧ h_blocks h' !! 1 = Some ex_mem.
Proof.
  apply (@force_reserve_leak (malloc_fill 0) ex_heap (bip_buf_reset ex_ring) ex_mem 10);
    [split; cbn; lia || apply lookup_singleton_eq|exact ex_heap_ok|reflexivity|reflexivity|reflexivity
    |vm_compute; discriminate].
Defined.

(** Although the header promises to expand the buffer when there is not enough
    free space, a full buffer is never expanded: the call returns NULL and changes
    nothing. *)
Theorem force_reserve_full `{!Malloc} (h : heap) (bb : bip_buf) (m : bytes) (n : Z)
    (Hok : ring_ok h bb m) (Hfull : zlen (contents m bb) = _available_capacity bb) :
  bip_buf_force_reserve h bb n = Ok (h, bb, None).
Proof.
  rewrite (length_contents Hok) in Hfull.
  unfold bip_buf_force_reserve. rewrite (freespace_eq h bb m Hok), Hfull, Z.sub_diag. cbn.
  by destruct (_ || _).
Qed.

Lemma force_reserve_full_witness :
  @bip_buf_force_reserve (malloc_fill 0) ex_heap (BipBuf 1 4 4 2 6 0 0) 100 =
  Ok (ex_heap, BipBuf 1 4 4 2 6 0 0, None).
Proof.
  apply (@force_reserve_full (malloc_fill 0) ex_heap _ ex_mem 100); [|reflexivity].
  split; cbn; lia || apply lookup_singleton_eq.
Defined.

(** forcing the capacity of a non-empty buffer above [2^31] rounds it to zero in
    32 bits, and the copy into the new block is out of bounds. *)
Theorem force_reserve_overflow `{!Malloc} (h : heap) (bb : bip_buf) (m : bytes) (n : Z)
    (Hok : ring_ok h bb m) (Hh : heap_ok h) (Hr : _r_start bb = _r_end bb)
    (Hne : contents m bb ≠ [])
    (Hfull : zlen (contents m bb) < _available_capacity bb)
    (Hgrow : _available_capacity bb - zlen (contents m bb) < n)
    (Hbig : 2 ^ 31 < _available_capacity bb + n < 2 ^ 32) :
  bip_buf_force_reserve h bb n = Ub OobWrite.
Proof.
  pose proof (ring_bounds Hok). pose proof (length_contents Hok) as Hl.
  assert (0 < zlen (contents m bb)) by (destruct (contents m bb); cbn; done || lia).
  rewrite (force_reserve_entry h bb m n) by (done || lia).
  unfold expand. rewrite (u32_small (_ + n)) by lia.
  rewrite (proj2 (next_power_of_two_cases (_available_capacity bb + n) ltac:(lia))) by lia.
  rewrite (committed_size_eq Hok), (proj2 (Z.eqb_neq _ 0)) by lia.
  change (u64 (0 + 0)) with 0.
  pose proof (malloc_fresh h 0 Hh) as Hfresh. pose proof (malloc_lookup h 0) as Hnew.
  assert (_buffer bb ≠ (malloc 0 h).2) as Hneq.
  { intros E. rewrite <- E, (ring_block _ _ _ Hok) in Hfresh. done. }
  pose proof (malloc_lookup_ne h 0 _ Hneq) as Hold. rewrite (ring_block _ _ _ Hok) in Hold.
  destruct (malloc 0 h) as [h1 b1]. cbn [fst snd] in *.
  unfold hmemcpy. rewrite check_true.
  2:{ rewrite (proj2 (Z.eqb_neq _ _)); [done|congruence]. }
  rewrite (hload_Ok _ _ m) by (done || lia). cbn. unfold hstore.
  rewrite (block_Ok _ _ _ Hnew). cbn. unfold store, check, in_range.
  rewrite junk_length, length_sub_at by lia. cbn.
  rewrite (proj2 (Z.leb_gt _ 0)) by lia. by rewrite !andb_false_r.
Qed.

Lemma force_reserve_overflow_witness :
  @bip_buf_force_reserve (malloc_fill 0) ex_heap ex_ring 2147483645 = Ub OobWrite.
Proof.
  apply (@force_reserve_overflow (malloc_fill 0) ex_heap ex_ring ex_mem);
    [exact ex_ring_ok|exact ex_heap_ok|reflexivity|discriminate|reflexivity|reflexivity
    |split; reflexivity].
Defined.

(** *** bip_buf_find_str *)

(** searching a buffer is searching its contents, wherever they are in the block:
    bytes before and after region A are never read. *)
Theorem bip_buf_find_str_contents (h : heap) (bb : bip_buf) (m n str : bytes)
    (Hok : ring_ok h bb m) (Hb : Forall byte_ok m)
    (Hn : n `prefix_of` str) (Hnb : Forall byte_ok n) :
  bip_buf_find_str h bb (Some str) (zlen n) = Ok (strstr_found (contents m bb) n).
Proof.
  pose proof (length_contents Hok) as Hl.
  unfold bip_buf_find_str. rewrite (block_Ok _ _ _ (ring_block _ _ _ Hok)). cbn.
  rewrite (committed_size_eq Hok), <- Hl. apply fast_strstr_eq; [|done| |done].
  - unfold contents, sub_at. eexists. symmetry. apply take_drop.
  - by apply Forall_take, Forall_drop.
Qed.

Lemma bip_buf_find_str_contents_witness :
  bip_buf_find_str ex_heap ex_ring (Some [7; 9]) 1 = Ok (strstr_found [6; 7] [7]).
Proof.
  apply (bip_buf_find_str_contents ex_heap ex_ring ex_mem [7] [7; 9]).
  - exact ex_ring_ok.
  - repeat constructor; vm_compute; discriminate.
  - by exists [9].
  - repeat constructor; vm_compute; discriminate.
Defined.
