(* ===== verification/Sink.v ===== *)
(** * The output side of [base/snprintf/mysnprintf.c]: [OUTCHAR] and truncation

    The formatter writes into a caller's buffer of [size] bytes and counts in [len]
    the characters it would have written.  [sink] holds the buffer and [len];
    [OUTCHAR] is the macro.  [sink_ok size buf0 text s] is the invariant of the whole
    formatter: the bytes below [size - 1] of the buffer are those of the ideal,
    untruncated [text], nothing at or behind [size] has been touched, and [len] is the
    length of [text] as long as that fits.  [len] is not wrapped at 64 bits: a run that
    emits [2^64] characters does not end. *)

From S2P Require Import Prelude.

#[local] Open Scope Z_scope.

Record sink := Sink { s_buf : bytes; s_len : Z }.

(** [#define OUTCHAR(str, len, size, ch)] *)
Definition OUTCHAR (size : Z) (s : sink) (ch : Z) : outcome sink :=
  if s_len s + 1 <? size then
    buf ← store (s_len s) [ch] (s_buf s);
    Ok (Sink buf (s_len s + 1))
  else Ok (Sink (s_buf s) (s_len s + 1)).

(** [while (n > 0) { OUTCHAR (..., ch); n--; }] *)
Fixpoint out_fill (size : Z) (s : sink) (ch : Z) (n : nat) : outcome sink :=
  match n with
  | O => Ok s
  | S n => s ← OUTCHAR size s ch; out_fill size s ch n
  end.

(** [OUTCHAR] for each character of a text. *)
Fixpoint out_text (size : Z) (s : sink) (l : bytes) : outcome sink :=
  match l with
  | [] => Ok s
  | c :: l => s ← OUTCHAR size s c; out_text size s l
  end.

(** ** The truncation invariant *)

Record sink_ok (size : Z) (buf0 text : bytes) (s : sink) : Prop := {
  sk_size : 0 < size ≤ zlen buf0;
  sk_buf : length (s_buf s) = length buf0;
  sk_text : sub_at 0 (Z.min (size - 1) (zlen text)) (s_buf s) =
            take (Z.to_nat (size - 1)) text;
  sk_rest : drop (Z.to_nat size) (s_buf s) = drop (Z.to_nat size) buf0;
  sk_len : if zlen text <? size then s_len s = zlen text else size - 1 ≤ s_len s
}.

(** [emits size f l]: the call [f] appends [l] to the ideal text. *)
Definition emits (size : Z) (f : sink → outcome sink) (l : bytes) : Prop :=
  ∀ buf0 text s, sink_ok size buf0 text s →
    ∃ s', f s = Ok s' ∧ sink_ok size buf0 (text ++ l) s' ∧ s_len s' = s_len s + zlen l.

Lemma sink_ok_init size buf :
  0 < size ≤ zlen buf → sink_ok size buf [] (Sink buf 0).
Proof.
  intros. split; try done.
  - rewrite Z.min_r by (cbn; lia). by rewrite take_nil.
  - cbn. by rewrite (proj2 (Z.ltb_lt _ _)) by lia.
Qed.

Lemma sk_len_bound size buf0 text s :
  sink_ok size buf0 text s → Z.min (size - 1) (zlen text) ≤ s_len s ∧ 0 ≤ s_len s.
Proof. intros [? ? ? ? Hl]. destruct (Z.ltb_spec (zlen text) size); lia. Qed.

(** Once [len + 1 >= size], whatever the text continues with does not matter. *)
Lemma sink_ok_full size buf0 text s l :
  sink_ok size buf0 text s → size ≤ s_len s + 1 → sink_ok size buf0 (text ++ l) s.
Proof.
  intros [Hs Hb Ht Hr Hl] Hfull. split; try done.
  - assert (size - 1 ≤ zlen text) by (destruct (Z.ltb_spec (zlen text) size); lia).
    rewrite length_app. rewrite Z.min_l in * by lia. rewrite Ht.
    by rewrite take_app_le by lia.
  - rewrite length_app.
    destruct (Z.ltb_spec (zlen text) size), (Z.ltb_spec (Z.of_nat (length text + length l)) size); lia.
Qed.

(** Counting more characters in a full sink changes nothing. *)
Lemma sink_ok_count size buf0 text s n :
  sink_ok size buf0 text s → size ≤ s_len s + 1 → zlen text ≠ s_len s ∨ size ≤ zlen text →
  0 ≤ n → sink_ok size buf0 text (Sink (s_buf s) (s_len s + n)).
Proof.
  intros [Hs Hb Ht Hr Hl] ???. split; try done. cbn.
  destruct (Z.ltb_spec (zlen text) size); lia.
Qed.

(** Storing a chunk behind the text; the byte at [size - 1] may be overwritten too. *)
Lemma sink_ok_store size buf0 text s d :
  sink_ok size buf0 text s → s_len s = zlen text → zlen text + zlen d ≤ size →
  ∃ buf, store (s_len s) d (s_buf s) = Ok buf ∧
    ∀ l len, (if zlen text + zlen d <? size then l = [] ∧ len = zlen text + zlen d
              else size - 1 ≤ len) →
      sink_ok size buf0 (text ++ d ++ l) (Sink buf len).
Proof.
  intros [Hs Hb Ht Hr Hl] Hlen Hfit. exists (put_at (s_len s) d (s_buf s)).
  split; [apply store_Ok; lia|]. intros l len Hcase.
  set (n := Z.min (size - 1) (zlen text)) in *.
  split; cbn; try done.
  - rewrite length_put_at by lia. done.
  - apply list_eq_same_length with (n := Z.to_nat (Z.min (size - 1) (zlen (text ++ d ++ l)))).
    + rewrite length_take. lia.
    + rewrite length_app in *. rewrite (proj1 (Nat2Z.inj_iff _ _)
        (eq_sym (Z2Nat.id _ (Zle_0_nat _)))).
      apply Nat2Z.inj. rewrite length_sub_at; rewrite ?length_put_at, ?length_app by lia; lia.
    + intros i x y Hi Hx Hy.
      rewrite lookup_sub_at, lookup_put_at in Hx by lia.
      rewrite lookup_take_lt in Hy by lia.
      case_decide.
      * rewrite lookup_app_r, lookup_app_l in Hy by lia.
        replace (Z.to_nat 0 + i - Z.to_nat (s_len s))%nat with (i - length text)%nat in Hx by lia.
        congruence.
      * destruct (decide (Z.of_nat i < zlen text)) as [Hit|Hit].
        -- rewrite lookup_app_l in Hy by lia.
           assert (sub_at 0 n (s_buf s) !! i = take (Z.to_nat (size - 1)) text !! i) as Heq
             by by rewrite Ht.
           rewrite lookup_sub_at, lookup_take_lt in Heq by lia. congruence.
        -- exfalso. rewrite !length_app in Hi. destruct (Z.ltb_spec (zlen text + zlen d) size);
             [destruct Hcase as [-> _]; cbn in Hi|]; lia.
  - rewrite <- Hr. apply list_eq. intros i. rewrite !lookup_drop, lookup_put_at by lia.
    case_decide; [lia|done].
  - rewrite !length_app. destruct (Z.ltb_spec (zlen text + zlen d) size).
    + destruct Hcase as [-> ->]. cbn. rewrite (proj2 (Z.ltb_lt _ _)); lia.
    + rewrite (proj2 (Z.ltb_ge _ _)) by lia. done.
Qed.

(** ** Calls that emit *)

Lemma emits_OUTCHAR size c : emits size (λ s, OUTCHAR size s c) [c].
Proof.
  intros buf0 text s Hok. unfold OUTCHAR. pose proof Hok as [Hs Hb Ht Hr Hl].
  destruct (Z.ltb_spec (s_len s + 1) size).
  - assert (s_len s = zlen text) as Hlen by (destruct (Z.ltb_spec (zlen text) size); lia).
    destruct (sink_ok_store size buf0 text s [c] Hok Hlen) as (buf & -> & Hk); [cbn; lia|].
    eexists. split; [done|]. split; [|done].
    rewrite <- (app_nil_r [c]). apply Hk. cbn. rewrite (proj2 (Z.ltb_lt _ _)); auto with lia.
  - eexists. split; [done|]. split; [|done].
    apply sink_ok_count; [by apply sink_ok_full|done| |lia].
    rewrite length_app. cbn. destruct (Z.ltb_spec (zlen text) size); lia.
Qed.

Lemma emits_nil size : emits size Ok [].
Proof. intros buf0 text s ?. exists s. rewrite app_nil_r. cbn. auto with lia. Qed.

Lemma emits_bind size f g l k :
  emits size f l → emits size g k → emits size (λ s, f s ≫= g) (l ++ k).
Proof.
  intros Hf Hg buf0 text s Hok. destruct (Hf buf0 text s Hok) as (s1 & E & Hok1 & Hl1).
  destruct (Hg buf0 (text ++ l) s1 Hok1) as (s2 & E2 & Hok2 & Hl2).
  exists s2. rewrite E. cbn. rewrite length_app. rewrite app_assoc. split; [done|].
  split; [done|lia].
Qed.

Lemma emits_fill size c n : emits size (λ s, out_fill size s c n) (replicate n c).
Proof.
  induction n as [|n IH]; [apply emits_nil|].
  change (replicate (S n) c) with ([c] ++ replicate n c).
  apply (emits_bind size (λ s, OUTCHAR size s c)); [apply emits_OUTCHAR|done].
Qed.

Lemma emits_text size l : emits size (λ s, out_text size s l) l.
Proof.
  induction l as [|c l IH]; [apply emits_nil|].
  change (c :: l) with ([c] ++ l).
  apply (emits_bind size (λ s, OUTCHAR size s c)); [apply emits_OUTCHAR|done].
Qed.

Lemma emits_if size (b : bool) f l :
  emits size f l → emits size (λ s, if b then f s else Ok s) (if b then l else []).
Proof. destruct b; [done|]. intros _. apply emits_nil. Qed.

Lemma emits_ext size f g l : (∀ s, f s = g s) → emits size f l → emits size g l.
Proof.
  intros Hfg Hf buf0 text s Hok. destruct (Hf _ _ _ Hok) as (s' & E & ?).
  exists s'. by rewrite <- Hfg.
Qed.

#[export] Hint Resolve emits_OUTCHAR emits_nil emits_fill emits_text emits_if : csem.
