(* ===== verification/FmtInt.v ===== *)
(** * String and integer conversions of [base/snprintf/mysnprintf.c]

    [fmtstr], [convert], [getnumsep], [printsep] and [fmtint] as written, over the
    sink of [Sink].  The build defines none of the locale macros, so the thousands
    separator is [','].  [fmtstr_text] and [fmtint_text] say, without loops, what a
    call appends to the output; [convert] is shown to be the positional notation of
    its argument. *)

From S2P Require Import Prelude Sink.

#[local] Open Scope Z_scope.

(** ** Constants *)

(** Buffer size to hold the octal string representation of UINT128_MAX. *)
Definition MAX_CONVERT_LENGTH : Z := 43.

(** Format flags. *)
Definition PRINT_F_MINUS : Z := Z.shiftl 1 0.
Definition PRINT_F_PLUS : Z := Z.shiftl 1 1.
Definition PRINT_F_SPACE : Z := Z.shiftl 1 2.
Definition PRINT_F_NUM : Z := Z.shiftl 1 3.
Definition PRINT_F_ZERO : Z := Z.shiftl 1 4.
Definition PRINT_F_QUOTE : Z := Z.shiftl 1 5.
Definition PRINT_F_UP : Z := Z.shiftl 1 6.
Definition PRINT_F_UNSIGNED : Z := Z.shiftl 1 7.
Definition PRINT_F_TYPE_G : Z := Z.shiftl 1 8.
Definition PRINT_F_TYPE_E : Z := Z.shiftl 1 9.

(** [flags & f], as a condition. *)
Definition has (flags f : Z) : bool := negb (Z.land flags f =? 0).

Definition MAX (x y : Z) : Z := if y <=? x then x else y.

(** ** fmtstr *)

(** [for (strln = 0; value[strln] != '\0' && (noprecision || strln < precision); strln++)] *)
Fixpoint fmtstr_len (value : bytes) (noprecision : bool) (precision : Z)
    (fuel : nat) (strln : Z) : outcome Z :=
  match fuel with
  | O => Ub NoFuel
  | S fuel =>
      c ← load1 strln value;
      if negb (c =? 0) && (noprecision || (strln <? precision))
      then fmtstr_len value noprecision precision fuel (strln + 1)
      else Ok strln
  end.

(** [while ( *value != '\0' && (noprecision || precision-- > 0)) { ...; value++; }] *)
Fixpoint fmtstr_copy (size : Z) (s : sink) (value : bytes) (noprecision : bool)
    (fuel : nat) (i precision : Z) : outcome sink :=
  match fuel with
  | O => Ub NoFuel
  | S fuel =>
      c ← load1 i value;
      if negb (c =? 0) && (noprecision || (0 <? precision)) then
        s ← OUTCHAR size s c;
        fmtstr_copy size s value noprecision fuel (i + 1)
          (if noprecision then precision else precision - 1)
      else Ok s
  end.

(** [value = None] is the null pointer. *)
Definition fmtstr (size : Z) (s : sink) (value : option bytes) (width precision flags : Z) :
    outcome sink :=
  let noprecision := precision =? -1 in
  let value := match value with Some v => v | None => cstr "(null)" end in
  strln ← fmtstr_len value noprecision precision (S (length value)) 0;
  let padlen := if width - strln <? 0 then 0 else width - strln in
  let padlen := if has flags PRINT_F_MINUS then - padlen else padlen in
  s ← out_fill size s (chr " ") (Z.to_nat padlen);
  s ← fmtstr_copy size s value noprecision (S (length value)) 0 precision;
  out_fill size s (chr " ") (Z.to_nat (- padlen)).

(** ** convert, getnumsep, printsep *)

(** [convert] stores the digits in reverse order from the start of a buffer of [size]
    bytes; the result is the stored part of the buffer, so its length is the return
    value. *)
Fixpoint convert_loop (value base : Z) (digits : bytes) (size : Z) (fuel : nat) (pos : Z) :
    outcome bytes :=
  match fuel with
  | O => Ub NoFuel
  | S fuel =>
      c ← load1 (value `mod` base) digits;
      let value := value / base in
      if negb (value =? 0) && (pos + 1 <? size) then
        rest ← convert_loop value base digits size fuel (pos + 1);
        Ok (c :: rest)
      else Ok [c]
  end.

Definition convert (value size base : Z) (caps : bool) : outcome bytes :=
  let digits := if caps then txt "0123456789ABCDEF" else txt "0123456789abcdef" in
  convert_loop value base digits size (Z.to_nat size) 0.

Definition getnumsep (digits : Z) : Z :=
  (digits - (if digits `mod` 3 =? 0 then 1 else 0)) / 3.

Definition printsep (size : Z) (s : sink) : outcome sink := OUTCHAR size s (chr ",").

(** ** fmtint *)

(** [while (pos > 0) { pos--; ... }]: the digits, with their group separators. *)
Fixpoint out_digits (size : Z) (s : sink) (iconvert : bytes) (separators : Z) (pos : nat) :
    outcome sink :=
  match pos with
  | O => Ok s
  | S pos =>
      c ← load1 (Z.of_nat pos) iconvert;
      s ← OUTCHAR size s c;
      s ← (if (0 <? separators) && (0 <? Z.of_nat pos) && (Z.of_nat pos `mod` 3 =? 0)
           then printsep size s else Ok s);
      out_digits size s iconvert separators pos
  end.

(** The sign character, 0 for none. *)
Definition int_sign (value flags : Z) : Z :=
  if has flags PRINT_F_UNSIGNED then 0
  else if value <? 0 then chr "-"
  else if has flags PRINT_F_PLUS then chr "+"
  else if has flags PRINT_F_SPACE then chr " "
  else 0.

Definition int_uvalue (value flags : Z) : Z :=
  if has flags PRINT_F_UNSIGNED then u64 value
  else u64 (if 0 <=? value then value else s64 (- value)).

(** The part that writes: from the leading spaces to the end. *)
Definition fmtint_out (size : Z) (s : sink) (sign hexprefix : Z) (iconvert : bytes)
    (separators spadlen zpadlen : Z) : outcome sink :=
  s ← out_fill size s (chr " ") (Z.to_nat spadlen); (* Leading spaces. *)
  s ← (if negb (sign =? 0) then OUTCHAR size s sign else Ok s); (* Sign. *)
  s ← (if negb (hexprefix =? 0) then (* A "0x" or "0X" prefix. *)
         s ← OUTCHAR size s (chr "0"); OUTCHAR size s hexprefix
       else Ok s);
  s ← out_fill size s (chr "0") (Z.to_nat zpadlen); (* Leading zeros. *)
  s ← out_digits size s iconvert separators (length iconvert); (* The actual digits. *)
  out_fill size s (chr " ") (Z.to_nat (- spadlen)). (* Trailing spaces. *)

Definition fmtint (size : Z) (s : sink) (value base width precision flags : Z) : outcome sink :=
  let separators := Z.land flags PRINT_F_QUOTE in
  let noprecision := precision =? -1 in
  let uvalue := int_uvalue value flags in
  let sign := int_sign value flags in
  iconvert ← convert uvalue MAX_CONVERT_LENGTH base (has flags PRINT_F_UP);
  let pos := zlen iconvert in
  let '(precision, hexprefix) :=
    if has flags PRINT_F_NUM && negb (uvalue =? 0) then
      if base =? 8 then (if precision <=? pos then pos + 1 else precision, 0)
      else if base =? 16 then
        (precision, if has flags PRINT_F_UP then chr "X" else chr "x")
      else (precision, 0)
    else (precision, 0) in
  (* Get the number of group separators we'll print. *)
  let separators := if negb (separators =? 0) then getnumsep pos else separators in
  let zpadlen := s32 (precision - pos - separators) in
  let spadlen := s32 (width - separators - MAX precision pos
                      - (if negb (sign =? 0) then 1 else 0)
                      - (if negb (hexprefix =? 0) then 2 else 0)) in
  let zpadlen := if zpadlen <? 0 then 0 else zpadlen in
  let spadlen := if spadlen <? 0 then 0 else spadlen in
  let '(spadlen, zpadlen) :=
    if has flags PRINT_F_MINUS then (- spadlen, zpadlen) (* Left justify. *)
    else if has flags PRINT_F_ZERO && noprecision then (0, s32 (zpadlen + spadlen))
    else (spadlen, zpadlen) in
  fmtint_out size s sign hexprefix iconvert separators spadlen zpadlen.

(** ** What the calls append to the output *)

(** The characters of the C string stored in [v], up to the NUL or the end. *)
Fixpoint until_nul (v : bytes) : bytes :=
  match v with
  | [] => []
  | c :: v => if c =? 0 then [] else c :: until_nul v
  end.

Definition spaces (n : Z) : bytes := replicate (Z.to_nat n) (chr " ").

(** A body in a field of [width] characters. *)
Definition in_field (left : bool) (width : Z) (body : bytes) : bytes :=
  if left then body ++ spaces (width - zlen body) else spaces (width - zlen body) ++ body.

Definition fmtstr_text (value : bytes) (width precision flags : Z) : bytes :=
  in_field (has flags PRINT_F_MINUS) width
    (if precision =? -1 then until_nul value
     else take (Z.to_nat precision) (until_nul value)).

(** The character of a digit, and its value. *)
Definition digit_char (caps : bool) (d : Z) : Z :=
  if d <? 10 then chr "0" + d else (if caps then chr "A" else chr "a") + (d - 10).

Definition digit_val (c : Z) : Z :=
  if c <? chr "A" then c - chr "0"
  else if c <? chr "a" then c - chr "A" + 10 else c - chr "a" + 10.

(** The value of digits that are stored in reverse order. *)
Definition digits_val (base : Z) (ds : bytes) : Z :=
  foldr (λ c a, digit_val c + base * a) 0 ds.

(** [ds], stored in reverse order, is the numeral of [v]: digits of the base and the
    case, of that value, and no leading zero unless it is the numeral "0". *)
Record is_numeral (base : Z) (caps : bool) (v : Z) (ds : bytes) : Prop := {
  num_digits : Forall (λ c, ∃ d, 0 ≤ d < base ∧ c = digit_char caps d) ds;
  num_value : digits_val base ds = v;
  num_nonempty : ds ≠ [];
  num_leading : last ds = Some (chr "0") → ds = [chr "0"]
}.

(** Digits, most significant first, with a comma before every full group of three. *)
Fixpoint grouped (quote : bool) (ds : bytes) : bytes :=
  match ds with
  | [] => []
  | c :: ds =>
      c :: (if quote && (0 <? zlen ds) && (zlen ds `mod` 3 =? 0) then [chr ","] else [])
        ++ grouped quote ds
  end.

Definition zeros (n : Z) : bytes := replicate (Z.to_nat n) (chr "0").

(** The precision, as the alternative form raises it. *)
Definition int_precision (uvalue base precision flags len : Z) : Z :=
  if has flags PRINT_F_NUM && negb (uvalue =? 0) && (base =? 8) && (precision <=? len)
  then len + 1 else precision.

(** The sign and the "0x" prefix. *)
Definition int_prefix (value base flags : Z) : bytes :=
  (if int_sign value flags =? 0 then [] else [int_sign value flags]) ++
  (if has flags PRINT_F_NUM && negb (int_uvalue value flags =? 0) && (base =? 16)
   then [chr "0"; if has flags PRINT_F_UP then chr "X" else chr "x"] else []).

(** What an integer conversion prints for the numeral [ds] (stored in reverse order).
    [lost] is what the group separators take away from the field when zeros are
    printed in front of a grouped number. *)
Definition fmtint_text (ds : bytes) (value base width precision flags : Z) : bytes :=
  let quote := has flags PRINT_F_QUOTE in
  let len := zlen ds in
  let prec := int_precision (int_uvalue value flags) base precision flags len in
  let seps := if quote then (len - 1) / 3 else 0 in
  let prefix := int_prefix value base flags in
  let number := zeros (prec - len - seps) ++ grouped quote (rev ds) in
  let lost := Z.max 0 (Z.min seps (prec - len)) in
  if negb (has flags PRINT_F_MINUS) && has flags PRINT_F_ZERO && (precision =? -1)
  then prefix ++ zeros (width - lost - zlen (prefix ++ number)) ++ number
  else in_field (has flags PRINT_F_MINUS) (width - lost) (prefix ++ number).

(** ** fmtstr: lemmas *)

Lemma until_nul_length v : zlen (until_nul v) ≤ zlen v.
Proof. induction v as [|c v IH]; cbn; [lia|]. destruct (c =? 0); cbn; lia. Qed.

Lemma until_nul_all v : ¬ In 0 v → until_nul v = v.
Proof.
  induction v as [|c v IH]; cbn; [done|]. intros H.
  destruct (Z.eqb_spec c 0); [by destruct H; left|]. rewrite IH; tauto.
Qed.

(** The string is readable as far as the call looks: it has a NUL, or there is a
    precision and the byte behind it can be read. *)
Definition readable (value : bytes) (precision : Z) : Prop :=
  In 0 value ∨ 0 ≤ precision < zlen value.

Definition shown (value : bytes) (noprecision : bool) (precision : Z) : bytes :=
  if noprecision then until_nul value else take (Z.to_nat precision) (until_nul value).

Lemma fmtstr_len_ok v noprec prec pre fuel :
  (In 0 v ∨ noprec = false ∧ zlen pre ≤ prec < zlen (pre ++ v)) → (length v < fuel)%nat →
  fmtstr_len (pre ++ v) noprec prec fuel (zlen pre) =
    Ok (zlen pre + zlen (shown v noprec (prec - zlen pre))).
Proof.
  revert pre fuel. induction v as [|c v IH]; intros pre fuel Hr Hf.
  { rewrite app_nil_r in Hr. destruct Hr as [[]|]. lia. }
  destruct fuel as [|fuel]; [lia|]. cbn [fmtstr_len].
  rewrite (load1_Ok _ _ c) by (rewrite ?Nat2Z.id, ?lookup_app_r, ?Nat.sub_diag by lia; done || lia).
  cbn [mbind outcome_bind]. unfold shown. cbn [until_nul].
  destruct (Z.eqb_spec c 0) as [->|Hc]; cbn [negb andb].
  { f_equal. destruct noprec; cbn; rewrite ?take_nil; cbn; lia. }
  destruct noprec; cbn [orb].
  - replace (pre ++ c :: v) with ((pre ++ [c]) ++ v) by by rewrite <- app_assoc.
    replace (zlen pre + 1) with (zlen (pre ++ [c])) by (rewrite length_app; cbn; lia).
    rewrite IH; [|destruct Hr as [[]|[]]; [done|auto|done]|cbn in Hf; lia].
    f_equal. rewrite length_app. unfold shown. cbn. lia.
  - destruct (Z.ltb_spec (zlen pre) prec).
    2:{ replace (Z.to_nat (prec - zlen pre)) with 0%nat by lia. cbn. f_equal. lia. }
    replace (pre ++ c :: v) with ((pre ++ [c]) ++ v) by by rewrite <- app_assoc.
    replace (zlen pre + 1) with (zlen (pre ++ [c])) by (rewrite length_app; cbn; lia).
    rewrite IH; [| |cbn in Hf; lia].
    + f_equal. rewrite length_app. unfold shown. cbn [length].
      replace (Z.to_nat (prec - zlen pre)) with (S (Z.to_nat (prec - Z.of_nat (length pre + 1)))) by lia.
      cbn [take length]. lia.
    + rewrite <- app_assoc, length_app. cbn in *.
      destruct Hr as [[]|[_ Hr]]; [done|auto|]. right. split; [done|]. lia.
Qed.

Lemma fmtstr_copy_ok size v noprec prec pre fuel :
  (In 0 v ∨ noprec = false ∧ 0 ≤ prec < zlen v) → (length v < fuel)%nat →
  emits size (λ s, fmtstr_copy size s (pre ++ v) noprec fuel (zlen pre) prec)
    (shown v noprec prec).
Proof.
  revert pre fuel prec. induction v as [|c v IH]; intros pre fuel prec Hr Hf.
  { cbn in Hr. destruct Hr as [[]|]. lia. }
  destruct fuel as [|fuel]; [lia|]. cbn [fmtstr_copy].
  rewrite (load1_Ok _ _ c) by (rewrite ?Nat2Z.id, ?lookup_app_r, ?Nat.sub_diag by lia; done || lia).
  cbn [mbind outcome_bind]. unfold shown. cbn [until_nul].
  destruct (Z.eqb_spec c 0) as [->|Hc]; cbn [negb andb].
  { rewrite take_nil. destruct noprec; apply emits_nil. }
  assert (Hstep : ∀ prec', (In 0 v ∨ noprec = false ∧ 0 ≤ prec' < zlen v) →
    emits size (λ s, s ← OUTCHAR size s c;
      fmtstr_copy size s (pre ++ c :: v) noprec fuel (zlen pre + 1) prec')
      (c :: shown v noprec prec')).
  { intros prec' Hr'. change (c :: shown v noprec prec') with ([c] ++ shown v noprec prec').
    apply (emits_bind size (λ s, OUTCHAR size s c)); [apply emits_OUTCHAR|].
    replace (pre ++ c :: v) with ((pre ++ [c]) ++ v) by by rewrite <- app_assoc.
    replace (zlen pre + 1) with (zlen (pre ++ [c])) by (rewrite length_app; cbn; lia).
    apply IH; [done|cbn in Hf; lia]. }
  destruct noprec; cbn [orb].
  - apply (Hstep prec). destruct Hr as [[]|[]]; [done|auto|done].
  - destruct (Z.ltb_spec 0 prec).
    2:{ replace (Z.to_nat prec) with 0%nat by lia. apply emits_nil. }
    replace (Z.to_nat prec) with (S (Z.to_nat (prec - 1))) by lia. cbn [take].
    apply (Hstep (prec - 1)). cbn in Hr. destruct Hr as [[]|[_ Hr]]; [done|auto|]. right. lia.
Qed.

(** The padding around a body, as both [fmtstr] and [fmtint] do it. *)
Lemma emits_field size f body (left : bool) width p :
  emits size f body → p = Z.max 0 (width - zlen body) →
  emits size (λ s,
    s ← out_fill size s (chr " ") (Z.to_nat (if left then - p else p));
    s ← f s;
    out_fill size s (chr " ") (Z.to_nat (- (if left then - p else p))))
    (in_field left width body).
Proof.
  intros Hf ->. set (p := width - zlen body).
  replace (in_field left width body) with
    (spaces (if left then - Z.max 0 p else Z.max 0 p) ++ body ++
     spaces (- (if left then - Z.max 0 p else Z.max 0 p))).
  - apply (emits_bind size (λ s, out_fill size s _ _)); [apply emits_fill|].
    apply (emits_bind size f); [done|]. apply emits_fill.
  - unfold in_field, spaces. fold p. destruct left.
    + replace (Z.to_nat (- Z.max 0 p)) with 0%nat by lia.
      by replace (Z.to_nat (- - Z.max 0 p)) with (Z.to_nat p) by lia.
    + replace (Z.to_nat (- Z.max 0 p)) with 0%nat by lia. rewrite app_nil_r.
      by replace (Z.to_nat (Z.max 0 p)) with (Z.to_nat p) by lia.
Qed.

Lemma fmtstr_ok size value width precision flags :
  -1 ≤ precision → readable value precision →
  emits size (λ s, fmtstr size s (Some value) width precision flags)
    (fmtstr_text value width precision flags).
Proof.
  intros Hp Hr. unfold fmtstr, fmtstr_text.
  set (nop := precision =? -1).
  assert (Hr' : In 0 value ∨ nop = false ∧ 0 ≤ precision < zlen value).
  { destruct Hr as [|]; [by left|]. right. subst nop. rewrite (proj2 (Z.eqb_neq _ _)) by lia. done. }
  pose proof (fmtstr_len_ok value nop precision ([] : bytes) (S (length value))) as Hlen.
  change (zlen ([] : bytes)) with 0 in Hlen. rewrite Z.sub_0_r in Hlen.
  cbn [app] in Hlen. rewrite Z.add_0_l in Hlen.
  fold (shown value nop precision).
  eapply emits_ext; [|apply (emits_field size
    (λ s, fmtstr_copy size s value nop (S (length value)) 0 precision) _
    (has flags PRINT_F_MINUS) width
    (let n := zlen (shown value nop precision) in if width - n <? 0 then 0 else width - n))].
  - intros s. rewrite Hlen by (done || lia). reflexivity.
  - apply (fmtstr_copy_ok size value nop precision []); [done|lia].
  - cbv zeta. destruct (Z.ltb_spec (width - zlen (shown value nop precision)) 0); lia.
Qed.

(** ** convert: lemmas *)

Definition digit_table (caps : bool) : bytes :=
  if caps then txt "0123456789ABCDEF" else txt "0123456789abcdef".

(** A statement about the sixteen digits, by cases. *)
Lemma for_digits (P : Z → bool) :
  forallb P (Z.of_nat <$> seq 0 16) = true → ∀ d, 0 ≤ d < 16 → P d = true.
Proof.
  intros H d Hd. rewrite forallb_forall in H. apply H, list_elem_of_In, list_elem_of_fmap.
  exists (Z.to_nat d). split; [lia|]. apply elem_of_seq. lia.
Qed.

Lemma digits_val_app base a b :
  digits_val base (a ++ b) = digits_val base a + base ^ zlen a * digits_val base b.
Proof.
  induction a as [|c a IH].
  { cbn [app length Z.of_nat]. rewrite Z.pow_0_r. change (digits_val base []) with 0. lia. }
  cbn [app digits_val foldr length].
  fold (digits_val base (a ++ b)) (digits_val base a). rewrite IH, Nat2Z.inj_succ, Z.pow_succ_r by lia.
  ring.
Qed.

Lemma digit_table_load caps d :
  0 ≤ d < 16 → load1 d (digit_table caps) = Ok (digit_char caps d).
Proof.
  intros Hd. apply load1_Ok; [lia|]. apply (bool_decide_eq_true_1 _).
  revert d Hd. apply (for_digits (λ d, bool_decide
    (digit_table caps !! Z.to_nat d = Some (digit_char caps d)))). by destruct caps.
Qed.

Lemma digit_val_char caps d : 0 ≤ d < 16 → digit_val (digit_char caps d) = d.
Proof.
  intros Hd. apply Z.eqb_eq. revert d Hd.
  apply (for_digits (λ d, digit_val (digit_char caps d) =? d)). by destruct caps.
Qed.

Lemma digit_char_0 caps d : 0 ≤ d < 16 → digit_char caps d = chr "0" → d = 0.
Proof. intros Hd E. rewrite <- (digit_val_char caps d Hd), E. reflexivity. Qed.

Lemma convert_loop_ok base caps size fuel v pos :
  2 ≤ base ≤ 16 → 0 ≤ v < base ^ Z.of_nat fuel → (0 < fuel)%nat → size = pos + Z.of_nat fuel →
  ∃ ds, convert_loop v base (digit_table caps) size fuel pos = Ok ds ∧
    is_numeral base caps v ds ∧ (length ds ≤ fuel)%nat.
Proof.
  intros Hb. revert v pos. induction fuel as [|fuel IH]; intros v pos Hv Hf ->; [lia|].
  cbn [convert_loop]. pose proof (Z.mod_pos_bound v base). pose proof (Z.div_mod v base ltac:(lia)) as Hdm.
  rewrite digit_table_load by lia. cbn [mbind outcome_bind].
  assert (0 ≤ v / base) by (apply Z.div_pos; lia).
  assert (∃ d, 0 ≤ d < base ∧ digit_char caps (v `mod` base) = digit_char caps d) as Hd
    by (exists (v `mod` base); split; [lia|done]).
  destruct (Z.eqb_spec (v / base) 0) as [Hz|Hz]; cbn [negb andb].
  - eexists. split; [done|]. split; [|cbn; lia]. split; cbn.
    + by constructor.
    + rewrite digit_val_char by lia. nia.
    + done.
    + by intros [= ->].
  - assert (v / base < base ^ Z.of_nat fuel).
    { apply Z.div_lt_upper_bound; [lia|]. rewrite <- Z.pow_succ_r by lia.
      rewrite <- Nat2Z.inj_succ. apply Hv. }
    destruct fuel as [|fuel]; [cbn in *; lia|].
    rewrite (proj2 (Z.ltb_lt _ _)) by lia.
    destruct (IH (v / base) (pos + 1)) as (ds & -> & Hnum & Hlen); [lia..|].
    eexists. split; [done|]. split; [|cbn [length]; lia]. destruct Hnum as [Hds Hval Hne Hlead].
    split; [by constructor| |done|].
    + cbn. fold (digits_val base ds). rewrite Hval, digit_val_char by lia. lia.
    + intros Hl. destruct ds as [|x ds]; [done|]. change (last (x :: ds) = Some (chr "0")) in Hl.
      apply Hlead in Hl. injection Hl as -> ->. cbn [digits_val foldr] in Hval.
      change (digit_val (chr "0")) with 0 in Hval. lia.
Qed.

Lemma convert_ok v base caps :
  8 ≤ base ≤ 16 → 0 ≤ v < 2 ^ 64 →
  ∃ ds, convert v MAX_CONVERT_LENGTH base caps = Ok ds ∧
    is_numeral base caps v ds ∧ zlen ds ≤ MAX_CONVERT_LENGTH.
Proof.
  intros Hb Hv. unfold convert. fold (digit_table caps).
  destruct (convert_loop_ok base caps MAX_CONVERT_LENGTH 43 v 0) as (ds & E & Hn & Hl);
    [lia| |lia|reflexivity|].
  - split; [lia|]. apply Z.lt_le_trans with (8 ^ 43); [lia|]. apply Z.pow_le_mono_l. lia.
  - exists ds. split; [done|]. split; [done|]. unfold MAX_CONVERT_LENGTH. lia.
Qed.

(** ** fmtint: lemmas *)

Lemma getnumsep_eq len : 0 < len → getnumsep len = (len - 1) / 3.
Proof.
  intros. unfold getnumsep. destruct (Z.eqb_spec (len `mod` 3) 0);
    Z.to_euclidean_division_equations; lia.
Qed.

Lemma grouped_short q ds : zlen ds ≤ 3 → grouped q ds = ds.
Proof.
  intros H. destruct ds as [|a [|b [|c [|d ds]]]]; [..|cbn in H; lia]; by destruct q.
Qed.

Lemma grouped_length ds : zlen (grouped true ds) = zlen ds + (zlen ds - 1) / 3 ∨ ds = [].
Proof.
  induction ds as [|c ds IH]; [by right|]. left. cbn [grouped andb length].
  destruct ds as [|x ds]; [reflexivity|]. destruct IH as [IH|]; [|done].
  set (l := x :: ds) in *. assert (0 < zlen l) by (cbn; lia).
  rewrite (proj2 (Z.ltb_lt _ _)) by lia. cbn [andb].
  destruct (Z.eqb_spec (zlen l `mod` 3) 0); rewrite ?length_app; cbn [app length];
    Z.to_euclidean_division_equations; lia.
Qed.

Lemma grouped_false ds : grouped false ds = ds.
Proof. induction ds as [|c ds IH]; [done|]. cbn. by rewrite IH. Qed.

Lemma out_digits_ok size ds seps pos :
  (pos ≤ length ds)%nat →
  emits size (λ s, out_digits size s ds seps pos) (grouped (0 <? seps) (rev (take pos ds))).
Proof.
  induction pos as [|pos IH]; intros Hp; [apply emits_nil|].
  destruct (lookup_lt_is_Some_2 ds pos) as [c Hc]; [lia|].
  rewrite (take_S_r _ _ c), rev_app_distr by done.
  cbn [rev app grouped]. assert (zlen (rev (take pos ds)) = Z.of_nat pos) as ->.
  { rewrite length_rev, length_take. lia. }
  cbn [out_digits]. rewrite (load1_Ok _ _ c) by (rewrite ?Nat2Z.id; done || lia).
  cbn [mbind outcome_bind].
  apply (emits_bind size (λ s, OUTCHAR size s c) _ [c]); [apply emits_OUTCHAR|].
  apply (emits_bind size (λ s, if (_ : bool) then printsep size s else Ok s)); [|apply IH; lia].
  apply emits_if, emits_OUTCHAR.
Qed.

Lemma fmtint_output size sign hexprefix ds seps spad zpad :
  emits size (λ s, fmtint_out size s sign hexprefix ds seps spad zpad)
  (spaces spad ++ (if negb (sign =? 0) then [sign] else []) ++
   (if negb (hexprefix =? 0) then [chr "0"; hexprefix] else []) ++
   zeros zpad ++ grouped (0 <? seps) (rev ds) ++ spaces (- spad)).
Proof.
  unfold fmtint_out.
  apply (emits_bind size (λ s, out_fill size s _ _)); [apply emits_fill|].
  apply (emits_bind size (λ s, if (_ : bool) then OUTCHAR size s sign else Ok s));
    [apply emits_if, emits_OUTCHAR|].
  apply (emits_bind size (λ s, if (_ : bool) then s ← OUTCHAR size s _; OUTCHAR size s _ else Ok s)).
  { apply (emits_if size _ (λ s, s ← OUTCHAR size s _; OUTCHAR size s _)).
    apply (emits_bind size (λ s, OUTCHAR size s _) _ [_]); apply emits_OUTCHAR. }
  apply (emits_bind size (λ s, out_fill size s _ _)); [apply emits_fill|].
  apply (emits_bind size (λ s, out_digits size s _ _ _)); [|apply emits_fill].
  pose proof (out_digits_ok size ds seps (length ds) ltac:(lia)) as H.
  by rewrite take_ge in H by done.
Qed.

Lemma spaces_nonpos n : n ≤ 0 → spaces n = [].
Proof. intros. unfold spaces. by replace (Z.to_nat n) with 0%nat by lia. Qed.

Lemma zeros_nonpos n : n ≤ 0 → zeros n = [].
Proof. intros. unfold zeros. by replace (Z.to_nat n) with 0%nat by lia. Qed.

Lemma zeros_add n m : 0 ≤ n → 0 ≤ m → zeros (n + m) = zeros n ++ zeros m.
Proof. intros. unfold zeros. rewrite Z2Nat.inj_add by done. apply replicate_add. Qed.

Lemma length_zeros n : zlen (zeros n) = Z.max 0 n.
Proof. unfold zeros. rewrite length_replicate. lia. Qed.

Lemma length_spaces n : zlen (spaces n) = Z.max 0 n.
Proof. unfold spaces. rewrite length_replicate. lia. Qed.

Definition base_ok (base : Z) : Prop := 8 ≤ base ≤ 16.

(** The arguments the formatter can pass. *)
Record int_args_ok (value base width precision : Z) : Prop := {
  ia_base : base_ok base;
  ia_width : 0 ≤ width ≤ INT_MAX;
  ia_precision : -1 ≤ precision ≤ INT_MAX - 64
}.

Lemma int_uvalue_range value flags : 0 ≤ int_uvalue value flags < 2 ^ 64.
Proof. unfold int_uvalue. destruct (has _ _); apply wrapu_bound; lia. Qed.

Lemma MAX_eq x y : MAX x y = Z.max x y.
Proof. unfold MAX. destruct (Z.leb_spec y x); lia. Qed.

(** The alternative form: the precision and the prefix character. *)
Lemma alternative_form uvalue base precision flags pos :
  (if has flags PRINT_F_NUM && negb (uvalue =? 0) then
     if base =? 8 then (if precision <=? pos then pos + 1 else precision, 0)
     else if base =? 16 then (precision, if has flags PRINT_F_UP then chr "X" else chr "x")
     else (precision, 0)
   else (precision, 0)) =
  (int_precision uvalue base precision flags pos,
   if has flags PRINT_F_NUM && negb (uvalue =? 0) && (base =? 16)
   then if has flags PRINT_F_UP then chr "X" else chr "x" else 0).
Proof.
  unfold int_precision. destruct (has flags PRINT_F_NUM && negb (uvalue =? 0)); [|done].
  cbn [andb]. destruct (Z.eqb_spec base 8) as [->|]; [done|]. cbn [andb].
  by destruct (Z.eqb_spec base 16).
Qed.

Lemma int_precision_range uvalue base precision flags pos :
  precision ≤ int_precision uvalue base precision flags pos ≤ Z.max precision (pos + 1).
Proof. unfold int_precision. repeat case_match; zbool; try lia. Qed.

(** The separators that are printed, and the two amounts of padding before the flags. *)
Definition int_seps (flags len : Z) : Z :=
  if has flags PRINT_F_QUOTE then (len - 1) / 3 else 0.
Definition int_zpad (prec len seps : Z) : Z := Z.max 0 (prec - len - seps).
Definition int_spad (width prec len seps sign hex : Z) : Z :=
  Z.max 0 (width - seps - Z.max prec len - (if negb (sign =? 0) then 1 else 0)
           - (if negb (hex =? 0) then 2 else 0)).
Definition int_hex (uvalue base flags : Z) : Z :=
  if has flags PRINT_F_NUM && negb (uvalue =? 0) && (base =? 16)
  then if has flags PRINT_F_UP then chr "X" else chr "x" else 0.

(** [fmtint] is its output part at those amounts: the [int] arithmetic does not wrap. *)
Lemma fmtint_amounts size s value base width precision flags ds :
  int_args_ok value base width precision →
  convert (int_uvalue value flags) MAX_CONVERT_LENGTH base (has flags PRINT_F_UP) = Ok ds →
  0 < zlen ds ≤ MAX_CONVERT_LENGTH →
  let prec := int_precision (int_uvalue value flags) base precision flags (zlen ds) in
  let hex := int_hex (int_uvalue value flags) base flags in
  let seps := int_seps flags (zlen ds) in
  let zp := int_zpad prec (zlen ds) seps in
  let sp := int_spad width prec (zlen ds) seps (int_sign value flags) hex in
  let zero := has flags PRINT_F_ZERO && (precision =? -1) in
  fmtint size s value base width precision flags =
  fmtint_out size s (int_sign value flags) hex ds seps
    (if has flags PRINT_F_MINUS then - sp else if zero then 0 else sp)
    (if negb (has flags PRINT_F_MINUS) && zero then zp + sp else zp).
Proof.
  intros [Hb Hw Hp] E Hl. unfold fmtint. rewrite E. cbn [mbind outcome_bind].
  unfold INT_MAX, MAX_CONVERT_LENGTH in *.
  rewrite alternative_form. fold (int_hex (int_uvalue value flags) base flags). cbv zeta beta iota.
  pose proof (int_precision_range (int_uvalue value flags) base precision flags (zlen ds)).
  set (prec := int_precision _ _ _ _ _) in *. set (hex := int_hex _ _ _).
  change (negb (Z.land flags PRINT_F_QUOTE =? 0)) with (has flags PRINT_F_QUOTE).
  assert ((if has flags PRINT_F_QUOTE then getnumsep (zlen ds) else Z.land flags PRINT_F_QUOTE) =
          int_seps flags (zlen ds)) as ->.
  { unfold int_seps. destruct (has flags PRINT_F_QUOTE) eqn:Hq.
    - apply getnumsep_eq. lia.
    - unfold has in Hq. by apply negb_false_iff, Z.eqb_eq in Hq. }
  assert (0 ≤ int_seps flags (zlen ds) ≤ zlen ds) as Hs.
  { unfold int_seps. destruct (has flags PRINT_F_QUOTE); [|lia].
    Z.to_euclidean_division_equations; lia. }
  set (seps := int_seps _ _) in *. rewrite MAX_eq.
  set (sg := if negb (int_sign value flags =? 0) then 1 else 0) in *.
  set (hx := if negb (hex =? 0) then 2 else 0) in *.
  assert (0 ≤ sg ≤ 1 ∧ 0 ≤ hx ≤ 2) as [??] by (unfold sg, hx; repeat case_match; lia).
  rewrite !(s32_small (_ - _)) by lia.
  replace (if prec - zlen ds - seps <? 0 then 0 else prec - zlen ds - seps)
    with (int_zpad prec (zlen ds) seps) by (unfold int_zpad; ztest; lia).
  replace (if _ <? 0 then 0 else width - seps - Z.max prec (zlen ds) - sg - hx)
    with (int_spad width prec (zlen ds) seps (int_sign value flags) hex)
    by (unfold int_spad; fold sg hx; ztest; lia).
  destruct (has flags PRINT_F_MINUS); [done|]. cbn [negb andb].
  destruct (has flags PRINT_F_ZERO && (precision =? -1)) eqn:Hz; [|done].
  apply andb_true_iff in Hz. destruct Hz as [_ Hz]. zbool.
  rewrite s32_small; [done|]. unfold int_zpad, int_spad. fold sg hx. lia.
Qed.

(** The output of [fmtint_out] at those amounts is the declared text. *)
Lemma fmtint_text_eq ds value base width precision flags :
  0 < zlen ds →
  let prec := int_precision (int_uvalue value flags) base precision flags (zlen ds) in
  let hex := int_hex (int_uvalue value flags) base flags in
  let seps := int_seps flags (zlen ds) in
  let zp := int_zpad prec (zlen ds) seps in
  let sp := int_spad width prec (zlen ds) seps (int_sign value flags) hex in
  let zero := has flags PRINT_F_ZERO && (precision =? -1) in
  let spad := if has flags PRINT_F_MINUS then - sp else if zero then 0 else sp in
  spaces spad ++
  (if negb (int_sign value flags =? 0) then [int_sign value flags] else []) ++
  (if negb (hex =? 0) then [chr "0"; hex] else []) ++
  zeros (if negb (has flags PRINT_F_MINUS) && zero then zp + sp else zp) ++
  grouped (0 <? seps) (rev ds) ++ spaces (- spad) =
  fmtint_text ds value base width precision flags.
Proof.
  intros Hpos prec hex seps zp sp zero spad.
  set (sgn := if negb (int_sign value flags =? 0) then [int_sign value flags] else []).
  set (pre := if negb (hex =? 0) then [chr "0"; hex] else []).
  assert (int_prefix value base flags = sgn ++ pre) as Hprefix.
  { unfold int_prefix, sgn, pre, hex, int_hex. f_equal; [by destruct (_ =? 0)|].
    destruct (_ && (base =? 16)); [|done]. by destruct (has flags PRINT_F_UP). }
  assert (grouped (0 <? seps) (rev ds) = grouped (has flags PRINT_F_QUOTE) (rev ds)) as Hgr.
  { unfold seps, int_seps. destruct (has flags PRINT_F_QUOTE); [|done].
    destruct (Z.ltb_spec 0 ((zlen ds - 1) / 3)) as [|Hs]; [done|].
    rewrite !grouped_short; rewrite ?length_rev; try done;
      Z.to_euclidean_division_equations; lia. }
  assert (zlen (grouped (has flags PRINT_F_QUOTE) (rev ds)) = zlen ds + seps) as Hglen.
  { unfold seps, int_seps. destruct (has flags PRINT_F_QUOTE).
    - destruct (grouped_length (rev ds)) as [->|Hnil]; [by rewrite length_rev|].
      apply (f_equal length) in Hnil. rewrite length_rev in Hnil. cbn in Hnil. lia.
    - rewrite grouped_false, length_rev. lia. }
  rewrite Hgr. unfold fmtint_text. fold prec. fold (int_seps flags (zlen ds)). fold seps zero.
  rewrite Hprefix. set (g := grouped (has flags PRINT_F_QUOTE) (rev ds)) in *.
  assert (zeros zp = zeros (prec - zlen ds - seps)) as Hzp.
  { unfold zp, int_zpad, zeros. f_equal. lia. }
  set (n := zlen sgn + zlen pre).
  assert (zlen sgn = (if negb (int_sign value flags =? 0) then 1 else 0)) as Hls
    by (unfold sgn; by destruct (negb (int_sign value flags =? 0))).
  assert (zlen pre = (if negb (hex =? 0) then 2 else 0)) as Hlp
    by (unfold pre; by destruct (negb (hex =? 0))).
  set (number := zeros (prec - zlen ds - seps) ++ g).
  assert (zlen ((sgn ++ pre) ++ number) = n + zp + zlen ds + seps) as Hbody.
  { unfold number, n. rewrite !length_app, <- Hzp.
    pose proof (length_zeros zp). unfold zp, int_zpad in *. lia. }
  assert (sp = Z.max 0 (width - Z.max 0 (Z.min seps (prec - zlen ds))
                        - zlen ((sgn ++ pre) ++ number))) as Hsp.
  { assert (0 ≤ seps).
    { unfold seps, int_seps. destruct (has flags PRINT_F_QUOTE); [|lia]. Z.to_euclidean_division_equations; lia. }
    rewrite Hbody. unfold sp, int_spad, n, zp, int_zpad. rewrite Hls, Hlp. lia. }
  assert (∀ room, sp = Z.max 0 room → spaces sp = spaces room ∧ zeros sp = zeros room) as Hroom.
  { intros room ->. unfold spaces, zeros. split; f_equal; lia. }
  destruct (Hroom _ Hsp) as [Hrs Hrz]. unfold in_field. rewrite <- Hrs, <- Hrz.
  assert (0 ≤ sp ∧ 0 ≤ zp) as [??] by (unfold sp, int_spad, zp, int_zpad; lia).
  unfold spad, number. rewrite <- Hzp. destruct (has flags PRINT_F_MINUS); cbn [negb andb].
  - rewrite (spaces_nonpos (- sp)), Z.opp_involutive by lia. by rewrite <- !app_assoc.
  - fold zero. destruct zero; rewrite (spaces_nonpos (- _)), app_nil_r by lia.
    + rewrite Z.add_comm, zeros_add by done. cbn [app spaces replicate Z.to_nat].
      by rewrite <- !app_assoc.
    + by rewrite <- !app_assoc.
Qed.

Lemma fmtint_ok size value base width precision flags :
  int_args_ok value base width precision →
  ∃ ds, is_numeral base (has flags PRINT_F_UP) (int_uvalue value flags) ds ∧
    emits size (λ s, fmtint size s value base width precision flags)
      (fmtint_text ds value base width precision flags).
Proof.
  intros Ha. pose proof (ia_base _ _ _ _ Ha).
  destruct (convert_ok (int_uvalue value flags) base (has flags PRINT_F_UP))
    as (ds & E & Hn & Hl); [done|apply int_uvalue_range|].
  exists ds. split; [done|].
  assert (0 < zlen ds) by (destruct Hn as [_ _ Hne _]; destruct ds; cbn; done || lia).
  rewrite <- fmtint_text_eq by done.
  eapply emits_ext; [|apply fmtint_output]. intros s. symmetry. by apply fmtint_amounts.
Qed.

Lemma in_field_width left width body : width ≤ zlen (in_field left width body).
Proof.
  unfold in_field. pose proof (length_spaces (width - zlen body)).
  destruct left; rewrite length_app; lia.
Qed.

Lemma fmtint_text_width ds value base width precision flags :
  has flags PRINT_F_QUOTE = false →
  width ≤ zlen (fmtint_text ds value base width precision flags).
Proof.
  intros Hq. unfold fmtint_text. rewrite Hq, Z.sub_0_r.
  set (prefix := int_prefix _ _ _). set (prec := int_precision _ _ _ _ _).
  set (number := zeros (prec - zlen ds) ++ _).
  replace (Z.max 0 (Z.min 0 (prec - zlen ds))) with 0 by lia. rewrite Z.sub_0_r.
  destruct (_ && _ && _); [|apply in_field_width].
  pose proof (length_zeros (width - zlen (prefix ++ number))) as Hz.
  rewrite !length_app in Hz. rewrite !length_app. lia.
Qed.

(** ** Numerals are unique *)

Lemma digits_val_0_last base ds :
  2 ≤ base ≤ 16 → Forall (λ c, ∃ d, 0 ≤ d < base ∧ c = digit_char false d) ds →
  ds ≠ [] → digits_val base ds = 0 → last ds = Some (chr "0").
Proof.
  intros Hb Hds. induction Hds as [|c ds (d & Hd & ->) Hds IH]; [done|]. intros _ Hv.
  cbn [digits_val foldr] in Hv. fold (digits_val base ds) in Hv.
  rewrite digit_val_char in Hv by lia.
  assert (0 ≤ digits_val base ds) as Hnn.
  { clear IH Hv. induction Hds as [|c' ds (d' & Hd' & ->) _ IH]; [done|].
    cbn [digits_val foldr]. fold (digits_val base ds). rewrite digit_val_char by lia. nia. }
  assert (d = 0 ∧ digits_val base ds = 0) as [-> Hv0] by nia.
  destruct ds as [|x ds]; [done|]. change (last (x :: ds) = Some (chr "0")). by apply IH.
Qed.

Lemma numeral_unique base v ds ds' :
  2 ≤ base ≤ 16 → is_numeral base false v ds → is_numeral base false v ds' → ds = ds'.
Proof.
  intros Hb. revert v ds'. induction ds as [|c ds IH]; intros v ds' H H'.
  { by destruct H as [_ _ Hne _]. }
  destruct ds' as [|c' ds']; [by destruct H' as [_ _ Hne _]|].
  destruct H as [Hd Hv _ Hl], H' as [Hd' Hv' _ Hl'].
  inversion Hd as [|? ? (d & Hdr & ->) Hds]; subst.
  inversion Hd' as [|? ? (d' & Hdr' & ->) Hds']; subst.
  cbn [digits_val foldr] in Hv'. fold (digits_val base ds) (digits_val base ds') in Hv'.
  rewrite !digit_val_char in Hv' by lia.
  destruct (Z.div_mod_unique base (digits_val base ds') (digits_val base ds) d' d)
    as [Hrest ->]; [lia|lia|lia|].
  assert (∀ l c, (last (c :: l) = Some (chr "0") → c :: l = [chr "0"]) → l ≠ [] →
    (last l = Some (chr "0") → l = [chr "0"]) ∧ last l ≠ Some (chr "0")) as Hlast.
  { intros l c Hc Hne. destruct l as [|x l]; [done|].
    change (last (c :: x :: l)) with (last (x :: l)) in Hc. split; intros E; specialize (Hc E); discriminate. }
  destruct ds as [|x ds], ds' as [|x' ds']; [done|..].
  - destruct (Hlast (x' :: ds') _ Hl' ltac:(done)) as [_ Hn].
    by apply (digits_val_0_last base) in Hrest.
  - destruct (Hlast (x :: ds) _ Hl ltac:(done)) as [_ Hn]. symmetry in Hrest.
    by apply (digits_val_0_last base) in Hrest.
  - destruct (Hlast (x :: ds) _ Hl ltac:(done)) as [Hl1 _].
    destruct (Hlast (x' :: ds') _ Hl' ltac:(done)) as [Hl1' _].
    f_equal. apply (IH (digits_val base (x :: ds))); split; done.
Qed.

(** The numeral of a value, most significant digit first. *)
Definition numeral (base v : Z) (caps : bool) : bytes :=
  match convert v MAX_CONVERT_LENGTH base caps with Ok ds => rev ds | Ub _ => [] end.

Lemma numeral_spec base v caps :
  8 ≤ base ≤ 16 → 0 ≤ v < 2 ^ 64 →
  convert v MAX_CONVERT_LENGTH base caps = Ok (rev (numeral base v caps)) ∧
  is_numeral base caps v (rev (numeral base v caps)).
Proof.
  intros Hb Hv. destruct (convert_ok v base caps Hb Hv) as (ds & E & Hn & _).
  unfold numeral. rewrite E, rev_involutive. done.
Qed.

(** The same text whichever numeral [fmtint] was shown to print. *)
Lemma fmtint_emits size value base width precision flags :
  int_args_ok value base width precision →
  emits size (λ s, fmtint size s value base width precision flags)
    (fmtint_text (rev (numeral base (int_uvalue value flags) (has flags PRINT_F_UP)))
       value base width precision flags).
Proof.
  intros Ha. pose proof (ia_base _ _ _ _ Ha) as Hb.
  destruct (numeral_spec base (int_uvalue value flags) (has flags PRINT_F_UP) Hb
    (int_uvalue_range value flags)) as [E Hn].
  set (ds := rev (numeral _ _ _)) in *.
  assert (0 < zlen ds) by (destruct Hn as [_ _ Hne _]; destruct ds; cbn; done || lia).
  destruct (convert_ok (int_uvalue value flags) base (has flags PRINT_F_UP) Hb
    (int_uvalue_range value flags)) as (ds' & E' & _ & Hl).
  assert (ds' = ds) as -> by congruence.
  rewrite <- fmtint_text_eq by done.
  eapply emits_ext; [|apply fmtint_output]. intros s. symmetry. by apply fmtint_amounts.
Qed.

(** ** Properties *)

(** [fmtstr] appends the string, cut at the precision and padded with spaces to the
    field width on the side the [-] flag says, and reads nothing outside a string that
    is NUL-terminated or longer than the precision. *)
Theorem fmtstr_prints (size : Z) (value : bytes) (width precision flags : Z)
    (Hp : -1 ≤ precision) (Hr : readable value precision) :
  emits size (λ s, fmtstr size s (Some value) width precision flags)
    (fmtstr_text value width precision flags).
Proof. by apply fmtstr_ok. Qed.

Lemma fmtstr_prints_witness :
  emits 16 (λ s, fmtstr 16 s (Some (cstr "tcp")) 5 2 PRINT_F_MINUS) (txt "tc   ").
Proof.
  apply (fmtstr_prints 16 (cstr "tcp") 5 2 PRINT_F_MINUS).
  - lia.
  - left. vm_compute. auto.
Defined.

(** With a precision, [fmtstr] still reads one byte past it: a field of exactly
    [precision] characters without a NUL is read out of bounds, although the comment
    promises that the string is not read past the precision. *)
Theorem fmtstr_overread (size : Z) (s : sink) (value : bytes) (width flags : Z)
    (Hnul : ¬ In 0 value) :
  fmtstr size s (Some value) width (zlen value) flags = Ub OobRead.
Proof.
  unfold fmtstr. rewrite (proj2 (Z.eqb_neq _ _)) by lia.
  enough (∀ v pre fuel, ¬ In 0 v → (length v < fuel)%nat →
    fmtstr_len (pre ++ v) false (zlen (pre ++ v)) fuel (zlen pre) = Ub OobRead) as H.
  { pose proof (H value [] (S (length value)) Hnul ltac:(lia)) as E. cbn [app] in E.
    change (zlen ([] : bytes)) with 0 in E. by rewrite E. }
  induction v as [|c v IH]; intros pre fuel Hz Hf; (destruct fuel as [|fuel]; [lia|]).
  - rewrite app_nil_r. cbn [fmtstr_len]. unfold load1.
    rewrite (proj2 (Z.ltb_ge (zlen pre) 0)), Nat2Z.id by lia.
    by rewrite lookup_ge_None_2 by lia.
  - cbn [fmtstr_len]. cbn [In length] in Hz, Hf.
    rewrite (load1_Ok _ _ c) by (rewrite ?Nat2Z.id, ?lookup_app_r, ?Nat.sub_diag by lia; done || lia).
    cbn [mbind outcome_bind]. rewrite (proj2 (Z.eqb_neq _ _)) by (intros ->; auto).
    rewrite (proj2 (Z.ltb_lt _ _)) by (rewrite length_app; cbn; lia). cbn [negb andb orb].
    replace (pre ++ c :: v) with ((pre ++ [c]) ++ v) by by rewrite <- app_assoc.
    replace (zlen pre + 1) with (zlen (pre ++ [c])) by (rewrite length_app; cbn; lia).
    apply IH; [tauto|lia].
Qed.

Lemma fmtstr_overread_witness :
  fmtstr 16 (Sink (replicate 16 0) 0) (Some (txt "abcd")) 0 4 0 = Ub OobRead.
Proof.
  apply (fmtstr_overread 16 (Sink (replicate 16 0) 0) (txt "abcd") 0 0).
  vm_compute. intuition discriminate.
Defined.

(** C27: for every 64-bit value, base, width, precision and flags, [fmtint] appends the
    declared text for the positional numeral of the value (digits of the base, no
    leading zero): sign, [0x] prefix, zeros up to the precision, digits in groups of
    three, padding on the side the flags say.  The loops terminate, the digits fit in
    the 43-byte buffer and the [int] arithmetic does not wrap. *)
Theorem fmtint_prints (size value base width precision flags : Z)
    (Ha : int_args_ok value base width precision) :
  ∃ ds, is_numeral base (has flags PRINT_F_UP) (int_uvalue value flags) ds ∧
    emits size (λ s, fmtint size s value base width precision flags)
      (fmtint_text ds value base width precision flags).
Proof. by apply fmtint_ok. Qed.

Lemma fmtint_prints_witness :
  int_args_ok (-1234567) 10 12 (-1) ∧
  ∃ ds, is_numeral 10 false 1234567 ds ∧
    emits 32 (λ s, fmtint 32 s (-1234567) 10 12 (-1) PRINT_F_QUOTE)
      (fmtint_text ds (-1234567) 10 12 (-1) PRINT_F_QUOTE).
Proof.
  assert (int_args_ok (-1234567) 10 12 (-1)) as H by (split; vm_compute; split; discriminate).
  split; [exact H|]. exact (fmtint_prints 32 (-1234567) 10 12 (-1) PRINT_F_QUOTE H).
Defined.

(** without the quote flag the field that [fmtint] prints is never narrower than
    the width; with it, zeros that the precision asks for and separators are counted
    against each other, and the field comes out too narrow. *)
Theorem fmtint_field :
  (∀ size value base width precision flags,
     int_args_ok value base width precision → has flags PRINT_F_QUOTE = false →
     ∃ text, emits size (λ s, fmtint size s value base width precision flags) text ∧
       width ≤ zlen text) ∧
  fmap s_len (fmtint 64 (Sink (replicate 64 0) 0) 1234567 10 20 10 PRINT_F_QUOTE) = Ok 18.
Proof.
  split; [|vm_compute; reflexivity]. intros * Ha Hq.
  destruct (fmtint_ok size value base width precision flags Ha) as (ds & _ & He).
  eexists. split; [exact He|]. by apply fmtint_text_width.
Qed.

Lemma fmtint_field_witness :
  ∃ text, emits 32 (λ s, fmtint 32 s 255 16 8 (-1) PRINT_F_NUM) text ∧ 8 ≤ zlen text.
Proof.
  apply (proj1 fmtint_field 32 255 16 8 (-1) PRINT_F_NUM).
  - split; vm_compute; split; discriminate.
  - reflexivity.
Defined.

(** Concrete outputs. *)
Definition fmtint_out_of (value base width precision flags : Z) : outcome bytes :=
  (λ s, sub_at 0 (s_len s) (s_buf s)) <$>
    fmtint 64 (Sink (replicate 64 0) 0) value base width precision flags.

Example fmtint_hex : fmtint_out_of 255 16 8 (-1) (PRINT_F_NUM + PRINT_F_ZERO) = Ok (txt "0x0000ff").
Proof. vm_compute. reflexivity. Qed.
Example fmtint_quote : fmtint_out_of (-1234567) 10 12 (-1) PRINT_F_QUOTE = Ok (txt "  -1,234,567").
Proof. vm_compute. reflexivity. Qed.
Example fmtint_octal : fmtint_out_of 8 8 0 (-1) PRINT_F_NUM = Ok (txt "010").
Proof. vm_compute. reflexivity. Qed.
Example fmtint_left : fmtint_out_of 7 10 4 2 (PRINT_F_MINUS + PRINT_F_PLUS) = Ok (txt "+07 ").
Proof. vm_compute. reflexivity. Qed.
