(* ===== verification/AtoiTab.v ===== *)
(** * The three-digit table and the fast decimal conversion of [mysnprintf.c]

    [atoi_tab] is transcribed from the source, four bytes per entry (three digits and
    a NUL).  The fast paths of the formatter print an integer in groups of three
    digits, from the end of a static 32-byte scratch buffer towards its start, then
    skip the leading zeros and copy the rest with [fast_memcpy].  The scratch buffer
    is part of the state.  The main lemma is that what is copied is the decimal
    numeral of the value; the most negative value is the exception. *)

From S2P Require Import Prelude FastMemcpy Sink FmtInt.

#[local] Open Scope Z_scope.

(** Entries 0 to 499 and 500 to 999, each followed by a NUL in the table. *)
Definition atoi_rows_lo : list string := [
    "000"; "001"; "002"; "003"; "004"; "005"; "006"; "007"; "008"; "009";
    "010"; "011"; "012"; "013"; "014"; "015"; "016"; "017"; "018"; "019";
    "020"; "021"; "022"; "023"; "024"; "025"; "026"; "027"; "028"; "029";
    "030"; "031"; "032"; "033"; "034"; "035"; "036"; "037"; "038"; "039";
    "040"; "041"; "042"; "043"; "044"; "045"; "046"; "047"; "048"; "049";
    "050"; "051"; "052"; "053"; "054"; "055"; "056"; "057"; "058"; "059";
    "060"; "061"; "062"; "063"; "064"; "065"; "066"; "067"; "068"; "069";
    "070"; "071"; "072"; "073"; "074"; "075"; "076"; "077"; "078"; "079";
    "080"; "081"; "082"; "083"; "084"; "085"; "086"; "087"; "088"; "089";
    "090"; "091"; "092"; "093"; "094"; "095"; "096"; "097"; "098"; "099";
    "100"; "101"; "102"; "103"; "104"; "105"; "106"; "107"; "108"; "109";
    "110"; "111"; "112"; "113"; "114"; "115"; "116"; "117"; "118"; "119";
    "120"; "121"; "122"; "123"; "124"; "125"; "126"; "127"; "128"; "129";
    "130"; "131"; "132"; "133"; "134"; "135"; "136"; "137"; "138"; "139";
    "140"; "141"; "142"; "143"; "144"; "145"; "146"; "147"; "148"; "149";
    "150"; "151"; "152"; "153"; "154"; "155"; "156"; "157"; "158"; "159";
    "160"; "161"; "162"; "163"; "164"; "165"; "166"; "167"; "168"; "169";
    "170"; "171"; "172"; "173"; "174"; "175"; "176"; "177"; "178"; "179";
    "180"; "181"; "182"; "183"; "184"; "185"; "186"; "187"; "188"; "189";
    "190"; "191"; "192"; "193"; "194"; "195"; "196"; "197"; "198"; "199";
    "200"; "201"; "202"; "203"; "204"; "205"; "206"; "207"; "208"; "209";
    "210"; "211"; "212"; "213"; "214"; "215"; "216"; "217"; "218"; "219";
    "220"; "221"; "222"; "223"; "224"; "225"; "226"; "227"; "228"; "229";
    "230"; "231"; "232"; "233"; "234"; "235"; "236"; "237"; "238"; "239";
    "240"; "241"; "242"; "243"; "244"; "245"; "246"; "247"; "248"; "249";
    "250"; "251"; "252"; "253"; "254"; "255"; "256"; "257"; "258"; "259";
    "260"; "261"; "262"; "263"; "264"; "265"; "266"; "267"; "268"; "269";
    "270"; "271"; "272"; "273"; "274"; "275"; "276"; "277"; "278"; "279";
    "280"; "281"; "282"; "283"; "284"; "285"; "286"; "287"; "288"; "289";
    "290"; "291"; "292"; "293"; "294"; "295"; "296"; "297"; "298"; "299";
    "300"; "301"; "302"; "303"; "304"; "305"; "306"; "307"; "308"; "309";
    "310"; "311"; "312"; "313"; "314"; "315"; "316"; "317"; "318"; "319";
    "320"; "321"; "322"; "323"; "324"; "325"; "326"; "327"; "328"; "329";
    "330"; "331"; "332"; "333"; "334"; "335"; "336"; "337"; "338"; "339";
    "340"; "341"; "342"; "343"; "344"; "345"; "346"; "347"; "348"; "349";
    "350"; "351"; "352"; "353"; "354"; "355"; "356"; "357"; "358"; "359";
    "360"; "361"; "362"; "363"; "364"; "365"; "366"; "367"; "368"; "369";
    "370"; "371"; "372"; "373"; "374"; "375"; "376"; "377"; "378"; "379";
    "380"; "381"; "382"; "383"; "384"; "385"; "386"; "387"; "388"; "389";
    "390"; "391"; "392"; "393"; "394"; "395"; "396"; "397"; "398"; "399";
    "400"; "401"; "402"; "403"; "404"; "405"; "406"; "407"; "408"; "409";
    "410"; "411"; "412"; "413"; "414"; "415"; "416"; "417"; "418"; "419";
    "420"; "421"; "422"; "423"; "424"; "425"; "426"; "427"; "428"; "429";
    "430"; "431"; "432"; "433"; "434"; "435"; "436"; "437"; "438"; "439";
    "440"; "441"; "442"; "443"; "444"; "445"; "446"; "447"; "448"; "449";
    "450"; "451"; "452"; "453"; "454"; "455"; "456"; "457"; "458"; "459";
    "460"; "461"; "462"; "463"; "464"; "465"; "466"; "467"; "468"; "469";
    "470"; "471"; "472"; "473"; "474"; "475"; "476"; "477"; "478"; "479";
    "480"; "481"; "482"; "483"; "484"; "485"; "486"; "487"; "488"; "489";
    "490"; "491"; "492"; "493"; "494"; "495"; "496"; "497"; "498"; "499"
  ]%string.

Definition atoi_rows_hi : list string := [
    "500"; "501"; "502"; "503"; "504"; "505"; "506"; "507"; "508"; "509";
    "510"; "511"; "512"; "513"; "514"; "515"; "516"; "517"; "518"; "519";
    "520"; "521"; "522"; "523"; "524"; "525"; "526"; "527"; "528"; "529";
    "530"; "531"; "532"; "533"; "534"; "535"; "536"; "537"; "538"; "539";
    "540"; "541"; "542"; "543"; "544"; "545"; "546"; "547"; "548"; "549";
    "550"; "551"; "552"; "553"; "554"; "555"; "556"; "557"; "558"; "559";
    "560"; "561"; "562"; "563"; "564"; "565"; "566"; "567"; "568"; "569";
    "570"; "571"; "572"; "573"; "574"; "575"; "576"; "577"; "578"; "579";
    "580"; "581"; "582"; "583"; "584"; "585"; "586"; "587"; "588"; "589";
    "590"; "591"; "592"; "593"; "594"; "595"; "596"; "597"; "598"; "599";
    "600"; "601"; "602"; "603"; "604"; "605"; "606"; "607"; "608"; "609";
    "610"; "611"; "612"; "613"; "614"; "615"; "616"; "617"; "618"; "619";
    "620"; "621"; "622"; "623"; "624"; "625"; "626"; "627"; "628"; "629";
    "630"; "631"; "632"; "633"; "634"; "635"; "636"; "637"; "638"; "639";
    "640"; "641"; "642"; "643"; "644"; "645"; "646"; "647"; "648"; "649";
    "650"; "651"; "652"; "653"; "654"; "655"; "656"; "657"; "658"; "659";
    "660"; "661"; "662"; "663"; "664"; "665"; "666"; "667"; "668"; "669";
    "670"; "671"; "672"; "673"; "674"; "675"; "676"; "677"; "678"; "679";
    "680"; "681"; "682"; "683"; "684"; "685"; "686"; "687"; "688"; "689";
    "690"; "691"; "692"; "693"; "694"; "695"; "696"; "697"; "698"; "699";
    "700"; "701"; "702"; "703"; "704"; "705"; "706"; "707"; "708"; "709";
    "710"; "711"; "712"; "713"; "714"; "715"; "716"; "717"; "718"; "719";
    "720"; "721"; "722"; "723"; "724"; "725"; "726"; "727"; "728"; "729";
    "730"; "731"; "732"; "733"; "734"; "735"; "736"; "737"; "738"; "739";
    "740"; "741"; "742"; "743"; "744"; "745"; "746"; "747"; "748"; "749";
    "750"; "751"; "752"; "753"; "754"; "755"; "756"; "757"; "758"; "759";
    "760"; "761"; "762"; "763"; "764"; "765"; "766"; "767"; "768"; "769";
    "770"; "771"; "772"; "773"; "774"; "775"; "776"; "777"; "778"; "779";
    "780"; "781"; "782"; "783"; "784"; "785"; "786"; "787"; "788"; "789";
    "790"; "791"; "792"; "793"; "794"; "795"; "796"; "797"; "798"; "799";
    "800"; "801"; "802"; "803"; "804"; "805"; "806"; "807"; "808"; "809";
    "810"; "811"; "812"; "813"; "814"; "815"; "816"; "817"; "818"; "819";
    "820"; "821"; "822"; "823"; "824"; "825"; "826"; "827"; "828"; "829";
    "830"; "831"; "832"; "833"; "834"; "835"; "836"; "837"; "838"; "839";
    "840"; "841"; "842"; "843"; "844"; "845"; "846"; "847"; "848"; "849";
    "850"; "851"; "852"; "853"; "854"; "855"; "856"; "857"; "858"; "859";
    "860"; "861"; "862"; "863"; "864"; "865"; "866"; "867"; "868"; "869";
    "870"; "871"; "872"; "873"; "874"; "875"; "876"; "877"; "878"; "879";
    "880"; "881"; "882"; "883"; "884"; "885"; "886"; "887"; "888"; "889";
    "890"; "891"; "892"; "893"; "894"; "895"; "896"; "897"; "898"; "899";
    "900"; "901"; "902"; "903"; "904"; "905"; "906"; "907"; "908"; "909";
    "910"; "911"; "912"; "913"; "914"; "915"; "916"; "917"; "918"; "919";
    "920"; "921"; "922"; "923"; "924"; "925"; "926"; "927"; "928"; "929";
    "930"; "931"; "932"; "933"; "934"; "935"; "936"; "937"; "938"; "939";
    "940"; "941"; "942"; "943"; "944"; "945"; "946"; "947"; "948"; "949";
    "950"; "951"; "952"; "953"; "954"; "955"; "956"; "957"; "958"; "959";
    "960"; "961"; "962"; "963"; "964"; "965"; "966"; "967"; "968"; "969";
    "970"; "971"; "972"; "973"; "974"; "975"; "976"; "977"; "978"; "979";
    "980"; "981"; "982"; "983"; "984"; "985"; "986"; "987"; "988"; "989";
    "990"; "991"; "992"; "993"; "994"; "995"; "996"; "997"; "998"; "999"
  ]%string.

Definition atoi_tab : bytes :=
  concat (map (λ e, txt e ++ [0]) (atoi_rows_lo ++ atoi_rows_hi)).

(** The initial contents of the static scratch buffer. *)
Definition scratch_buffer : bytes := [
    31; 30; 29; 28; 27; 26; 25; 24;
    23; 22; 21; 20; 19; 18; 17; 16;
    15; 14; 13; 12; 11; 10; 9; 8;
    7; 6; 5; 4; 3; 2; 1; 0].

(** ** The conversion *)

Section itoa.
(** [norm] brings a result back to the type of [v1]: [wraps w] for the signed types,
    [wrapu w] for the unsigned ones.  [Z.quot] is the division of C. *)
Context (norm : Z → Z).

(** [do { v2 = v1 / 1000; ap = ...; *s-- = *ap--; ... } while ((v1 = v2) > 0);] *)
Fixpoint itoa_loop (fuel : nat) (scratch : bytes) (s v1 : Z) : outcome (bytes * Z) :=
  match fuel with
  | O => Ub NoFuel
  | S fuel =>
      let v2 := norm (Z.quot v1 1000) in
      let ap := 2 + Z.shiftl (norm (v1 - norm (1000 * v2))) 2 in
      c ← load1 ap atoi_tab;
      scratch ← store s [c] scratch;
      c ← load1 (ap - 1) atoi_tab;
      scratch ← store (s - 1) [c] scratch;
      c ← load1 (ap - 2) atoi_tab;
      scratch ← store (s - 2) [c] scratch;
      if 0 <? v2 then itoa_loop fuel scratch (s - 3) v2 else Ok (scratch, s - 3)
  end.

(** [while ('0' == *++s);] *)
Fixpoint skip_zeros (fuel : nat) (scratch : bytes) (s : Z) : outcome Z :=
  match fuel with
  | O => Ub NoFuel
  | S fuel =>
      c ← load1 (s + 1) scratch;
      if c =? chr "0" then skip_zeros fuel scratch (s + 1) else Ok (s + 1)
  end.

(** The digits of [v1], at the end of the scratch buffer, and where they start. *)
Definition fast_itoa (scratch : bytes) (v1 : Z) : outcome (bytes * Z) :=
  '(scratch, s) ← itoa_loop 11 scratch (32 - 1) v1;
  s ← skip_zeros 33 scratch s;
  Ok (scratch, s).
End itoa.

(** [n = (scratch_buffer - s) + sizeof(scratch_buffer); n = (len + n < size) ? n : size - len;
    fast_memcpy(out + len, s, n); len += n;] with the addresses of the two buffers. *)
Definition put_scratch (out_base scratch_base size : Z) (o : sink) (scratch : bytes) (s : Z) :
    outcome sink :=
  let len := s_len o in
  let n := - s + 32 in
  let n := if len + n <? size then n else s32 (size - len) in
  buf ← fast_memcpy out_base (s_buf o) len scratch_base scratch s n;
  Ok (Sink buf (len + n)).

(** ** Lemmas *)

Lemma atoi_tab_entry v :
  0 ≤ v < 1000 →
  load1 (4 * v) atoi_tab = Ok (digit_char false (v / 100)) ∧
  load1 (4 * v + 1) atoi_tab = Ok (digit_char false ((v / 10) `mod` 10)) ∧
  load1 (4 * v + 2) atoi_tab = Ok (digit_char false (v `mod` 10)).
Proof.
  assert (forallb (λ k, let v := Z.of_nat k in
    bool_decide (atoi_tab !! Z.to_nat (4 * v) = Some (digit_char false (v / 100))) &&
    bool_decide (atoi_tab !! Z.to_nat (4 * v + 1) = Some (digit_char false ((v / 10) `mod` 10))) &&
    bool_decide (atoi_tab !! Z.to_nat (4 * v + 2) = Some (digit_char false (v `mod` 10))))
    (seq 0 1000) = true) as H by (vm_compute; reflexivity).
  intros Hv. rewrite forallb_forall in H.
  specialize (H (Z.to_nat v) ltac:(apply in_seq; lia)). cbv beta zeta in H.
  rewrite Z2Nat.id in H by lia. rewrite !andb_true_iff in H. destruct H as [[H1 H2] H3].
  apply bool_decide_eq_true_1 in H1, H2, H3.
  split_and!; (apply load1_Ok; [lia|assumption]).
Qed.

(** The three digits of a table entry. *)
Definition tri (v : Z) : bytes :=
  [digit_char false (v / 100); digit_char false ((v / 10) `mod` 10); digit_char false (v `mod` 10)].

Definition is_digit (c : Z) : Prop := ∃ d, 0 ≤ d < 10 ∧ c = digit_char false d.

Lemma tri_ranges v :
  0 ≤ v < 1000 → 0 ≤ v / 100 < 10 ∧ 0 ≤ (v / 10) `mod` 10 < 10 ∧ 0 ≤ v `mod` 10 < 10.
Proof.
  intros. split_and!; try apply Z.mod_pos_bound; try lia.
  - apply Z.div_pos; lia.
  - apply Z.div_lt_upper_bound; lia.
Qed.

Lemma tri_digits v : 0 ≤ v < 1000 → Forall is_digit (tri v).
Proof. intros H%tri_ranges. unfold tri. repeat constructor; eexists; (split; [|done]); lia. Qed.

Lemma tri_val v : 0 ≤ v < 1000 → digits_val 10 (rev (tri v)) = v.
Proof.
  intros H. pose proof (tri_ranges v H). cbn [tri rev app digits_val foldr].
  rewrite !digit_val_char by lia.
  pose proof (Z.div_mod v 10 ltac:(lia)). pose proof (Z.div_mod (v / 10) 10 ltac:(lia)) as Hq.
  rewrite Z.div_div in Hq by lia. change (10 * 10) with 100 in Hq. lia.
Qed.

(** A group of three digits behind higher digits. *)
Lemma digits_val_group D r v :
  0 ≤ r < 1000 → digits_val 10 (rev D) = v → digits_val 10 (rev (D ++ tri r)) = 1000 * v + r.
Proof.
  intros Hr HD. rewrite rev_app_distr, digits_val_app, tri_val, HD by done.
  change (10 ^ zlen (rev (tri r))) with 1000. lia.
Qed.

Lemma digits_val_nonneg ds : Forall is_digit ds → 0 ≤ digits_val 10 ds.
Proof.
  induction 1 as [|c ds (d & Hd & ->) _ IH]; [cbn; lia|]. cbn [digits_val foldr].
  fold (digits_val 10 ds). rewrite digit_val_char by lia. lia.
Qed.

Section correct.
Context (norm : Z → Z) (vmax : Z) (Hnorm : ∀ x, 0 ≤ x ≤ vmax → norm x = x).

(** One round of the loop stores the three digits of [v mod 1000] below [s]. *)
Lemma itoa_round scratch s v (k : bytes → outcome (bytes * Z)) :
  0 ≤ v ≤ vmax → 2 ≤ s < zlen scratch →
  (let v2 := norm (Z.quot v 1000) in
   let ap := 2 + Z.shiftl (norm (v - norm (1000 * v2))) 2 in
   c ← load1 ap atoi_tab;
   scratch ← store s [c] scratch;
   c ← load1 (ap - 1) atoi_tab;
   scratch ← store (s - 1) [c] scratch;
   c ← load1 (ap - 2) atoi_tab;
   scratch ← store (s - 2) [c] scratch;
   k scratch) = k (put_at (s - 2) (tri (v `mod` 1000)) scratch).
Proof.
  intros Hv Hs. cbv zeta. rewrite Z.quot_div_nonneg by lia.
  assert (0 ≤ v / 1000 ≤ v) by (Z.to_euclidean_division_equations; lia).
  assert (1000 * (v / 1000) ≤ v) by (Z.to_euclidean_division_equations; lia).
  rewrite (Hnorm (v / 1000)), (Hnorm (1000 * _)) by lia.
  replace (v - 1000 * (v / 1000)) with (v `mod` 1000) by (rewrite Z.mod_eq; lia).
  assert (0 ≤ v `mod` 1000 ≤ v ∧ v `mod` 1000 < 1000) as [Hr1 Hr2]
    by (Z.to_euclidean_division_equations; lia).
  rewrite Hnorm, Z.shiftl_mul_pow2 by lia. set (r := v `mod` 1000) in *.
  destruct (atoi_tab_entry r) as (E0 & E1 & E2); [lia|].
  replace (2 + r * 2 ^ 2) with (4 * r + 2) by lia.
  replace (4 * r + 2 - 1) with (4 * r + 1) by lia.
  replace (4 * r + 2 - 2) with (4 * r) by lia. rewrite E2, E1, E0.
  cbn [mbind outcome_bind]. rewrite store_Ok by (cbn; lia). cbn [mbind outcome_bind].
  rewrite store_Ok by (rewrite ?length_put_at by (cbn; lia); cbn; lia). cbn [mbind outcome_bind].
  rewrite store_Ok by (rewrite ?length_put_at by (rewrite ?length_put_at; cbn; lia); cbn; lia).
  cbn [mbind outcome_bind]. f_equal. unfold tri.
  pose proof (put_at_put_at_prev (s - 1) [digit_char false ((r / 10) `mod` 10)]
    [digit_char false (r `mod` 10)] scratch) as P1.
  cbn [length app] in P1. replace (s - 1 + Z.of_nat 1) with s in P1 by lia. rewrite P1 by lia.
  pose proof (put_at_put_at_prev (s - 2) [digit_char false (r / 100)]
    [digit_char false ((r / 10) `mod` 10); digit_char false (r `mod` 10)] scratch) as P2.
  cbn [length app] in P2. replace (s - 2 + Z.of_nat 1) with (s - 1) in P2 by lia.
  apply P2; lia.
Qed.

Lemma itoa_loop_ok (k : nat) fuel scratch s v :
  0 < v ≤ vmax → v < 1000 ^ Z.of_nat k → (k ≤ fuel)%nat → 3 * Z.of_nat k ≤ s + 1 →
  s < zlen scratch →
  ∃ D, itoa_loop norm fuel scratch s v = Ok (put_at (s + 1 - zlen D) D scratch, s - zlen D) ∧
    zlen D ≤ 3 * Z.of_nat k ∧ Forall is_digit D ∧ digits_val 10 (rev D) = v.
Proof.
  revert fuel scratch s v. induction k as [|k IH]; intros fuel scratch s v Hv Hlt Hf Hs Hl;
    [cbn in Hlt; lia|].
  destruct fuel as [|fuel]; [lia|].
  pose proof (itoa_round scratch s v (λ scratch, if 0 <? norm (Z.quot v 1000)
    then itoa_loop norm fuel scratch (s - 3) (norm (Z.quot v 1000)) else Ok (scratch, s - 3))
    ltac:(lia) ltac:(lia)) as Hround.
  change (itoa_loop norm (S fuel) scratch s v =
    (λ scratch, if 0 <? norm (Z.quot v 1000)
     then itoa_loop norm fuel scratch (s - 3) (norm (Z.quot v 1000)) else Ok (scratch, s - 3))
      (put_at (s - 2) (tri (v `mod` 1000)) scratch)) in Hround.
  rewrite Hround. clear Hround. cbv beta.
  assert (0 ≤ v / 1000 ≤ v) by (Z.to_euclidean_division_equations; lia).
  rewrite Z.quot_div_nonneg, (Hnorm (v / 1000)) by lia.
  assert (0 ≤ v `mod` 1000 < 1000) by (apply Z.mod_pos_bound; lia).
  pose proof (Z.div_mod v 1000 ltac:(lia)) as Hdm. set (r := v `mod` 1000) in *.
  destruct (Z.ltb_spec 0 (v / 1000)).
  - assert (length (put_at (s - 2) (tri r) scratch) = length scratch) as Hlen
      by (apply length_put_at; cbn; lia).
    destruct (IH fuel (put_at (s - 2) (tri r) scratch) (s - 3) (v / 1000))
      as (D & E & HD & Hd & Hval); [lia| |lia|lia|lia|].
    { apply Z.div_lt_upper_bound; [lia|].
      rewrite Nat2Z.inj_succ, Z.pow_succ_r in Hlt by lia. lia. }
    exists (D ++ tri r). rewrite E, length_app. cbn [tri length].
    split; [|split; [lia|split]].
    + replace (s - 2) with (s - 3 + 1 - zlen D + zlen D) by lia.
      rewrite put_at_put_at_prev by (cbn; lia).
      replace (s + 1 - Z.of_nat (length D + 3)) with (s - 3 + 1 - zlen D) by lia.
      by replace (s - Z.of_nat (length D + 3)) with (s - 3 - zlen D) by lia.
    + apply Forall_app. split; [done|]. by apply tri_digits.
    + rewrite (digits_val_group D r (v / 1000)) by done. lia.
  - exists (tri r). cbn [tri length].
    split; [by replace (s + 1 - Z.of_nat 3) with (s - 2) by lia|]. split; [lia|].
    split; [by apply tri_digits|]. rewrite tri_val by done. lia.
Qed.

Lemma skip_zeros_ok fuel pre D v :
  Forall is_digit D → digits_val 10 (rev D) = v → 0 < v → (length D < fuel)%nat →
  ∃ Z' D', D = Z' ++ D' ∧ is_numeral 10 false v (rev D') ∧
    skip_zeros fuel (pre ++ D) (zlen pre - 1) = Ok (zlen pre + zlen Z').
Proof.
  intros HD. revert pre fuel. induction HD as [|c D (d & Hd & Hc) HD IH]; intros pre fuel Hval Hv Hf.
  { cbn in Hval. lia. }
  destruct fuel as [|fuel]; [lia|]. cbn [skip_zeros length] in *.
  rewrite (load1_Ok _ _ c).
  2:{ lia. }
  2:{ rewrite lookup_app_r by lia. by replace (Z.to_nat (zlen pre - 1 + 1) - length pre)%nat with 0%nat by lia. }
  cbn [mbind outcome_bind]. cbn [rev] in Hval. rewrite digits_val_app in Hval.
  destruct (Z.eqb_spec c (chr "0")) as [E|E].
  - rewrite E in Hval. change (digits_val 10 [chr "0"]) with 0 in Hval.
    rewrite Z.mul_0_r, Z.add_0_r in Hval.
    destruct (IH (pre ++ [c]) fuel Hval Hv ltac:(lia)) as (Z' & D' & -> & Hn & Es).
    exists (c :: Z'), D'. split; [done|]. split; [done|].
    rewrite <- app_assoc in Es. cbn [app] in Es.
    rewrite length_app in Es. cbn [length] in *.
    replace (zlen pre - 1 + 1) with (Z.of_nat (length pre + 1) - 1) by lia.
    rewrite Es. f_equal. lia.
  - exists [], (c :: D). split; [done|]. split; [|cbn [length]; f_equal; lia].
    split.
    + apply Forall_rev. constructor; [|exact HD]. by exists d.
    + cbn [rev]. by rewrite digits_val_app.
    + intros Hnil. apply (f_equal length) in Hnil. rewrite length_rev in Hnil. done.
    + cbn [rev]. rewrite last_snoc. congruence.
Qed.

(** What [fast_itoa] leaves in the scratch buffer: the decimal numeral at its end. *)
Lemma fast_itoa_ok scratch v :
  zlen scratch = 32 → 0 < v ≤ vmax → v < 1000 ^ 10 →
  ∃ pre D, fast_itoa norm scratch v = Ok (pre ++ D, zlen pre) ∧
    zlen pre + zlen D = 32 ∧ is_numeral 10 false v (rev D).
Proof.
  intros Hs Hv Hlt. unfold fast_itoa.
  destruct (itoa_loop_ok 10 11 scratch (32 - 1) v) as (D & -> & Hl & Hd & Hval); try done; try lia.
  cbn [mbind outcome_bind].
  assert (put_at (32 - 1 + 1 - zlen D) D scratch = take (Z.to_nat (32 - zlen D)) scratch ++ D) as ->.
  { unfold put_at. replace (32 - 1 + 1 - zlen D) with (32 - zlen D) by lia.
    by rewrite (drop_ge scratch), app_nil_r by lia. }
  set (pre := take _ scratch). assert (zlen pre = 32 - zlen D) as Hpre
    by (unfold pre; rewrite length_take; lia).
  destruct (skip_zeros_ok 33 pre D v) as (Z' & D' & -> & Hn & E); try done; try lia.
  replace (32 - 1 - zlen (Z' ++ D')) with (zlen pre - 1) by lia.
  rewrite E. cbn [mbind outcome_bind]. exists (pre ++ Z'), D'.
  rewrite length_app in Hpre. rewrite <- app_assoc, !length_app. split; [|split; [lia|done]].
  do 2 f_equal. lia.
Qed.
End correct.

(** Copying the numeral behind the text: the call is made with room for at least one
    character, and may overwrite the byte at [size - 1]. *)
Lemma put_scratch_ok out_base scratch_base size buf0 text o pre D :
  sink_ok size buf0 text o → s_len o < size → s_len o = zlen text →
  zlen pre + zlen D = 32 → D ≠ [] →
  ∃ o', put_scratch out_base scratch_base size o (pre ++ D) (zlen pre) = Ok o' ∧
    sink_ok size buf0 (text ++ D) o' ∧ s_len o < s_len o'.
Proof.
  intros Hok Hlt Hlen Hl HD. pose proof Hok as [Hs Hb _ _ _].
  assert (0 < zlen D) by (destruct D; cbn; done || lia).
  unfold put_scratch. replace (- zlen pre + 32) with (zlen D) by lia.
  set (n := if s_len o + zlen D <? size then zlen D else s32 (size - s_len o)).
  assert (n = Z.min (zlen D) (size - s_len o)) as Hn.
  { unfold n. destruct (Z.ltb_spec (s_len o + zlen D) size); [lia|].
    rewrite s32_small by lia. lia. }
  assert (sub_at (zlen pre) n (pre ++ D) = take (Z.to_nat n) D) as Hsub.
  { unfold sub_at. by rewrite Nat2Z.id, drop_app_length. }
  rewrite fast_memcpy_eq; [|unfold fits; rewrite length_app; lia].
  cbn [mbind outcome_bind]. eexists. split; [done|]. split; [|cbn; lia].
  unfold copied. rewrite Hsub.
  destruct (sink_ok_store size buf0 text o (take (Z.to_nat n) D) Hok Hlen) as (buf & E & Hk).
  { rewrite length_take. lia. }
  rewrite store_Ok in E by (rewrite ?length_take; lia). injection E as E.
  rewrite E. rewrite <- (take_drop (Z.to_nat n) D) at 1. apply Hk.
  rewrite length_take.
  destruct (Z.ltb_spec (zlen text + Z.of_nat (Z.to_nat n `min` length D)) size); [|lia].
  split; [apply drop_ge; lia|lia].
Qed.

(** ** Properties *)

(** C29: for every positive value of a 32- or 64-bit type, signed or unsigned, the fast
    conversion terminates, stays inside the 4000-byte table and the 32-byte scratch
    buffer, and leaves at the end of the scratch buffer exactly the decimal numeral of
    the value, without leading zeros. *)
Theorem fast_itoa_decimal (w : Z) (signed : bool) (scratch : bytes) (v : Z)
    (Hw : w = 32 ∨ w = 64) (Hs : zlen scratch = 32)
    (Hv : 0 < v < 2 ^ (if signed then w - 1 else w)) :
  ∃ pre D, fast_itoa (if signed then wraps w else wrapu w) scratch v = Ok (pre ++ D, zlen pre) ∧
    zlen pre + zlen D = 32 ∧ is_numeral 10 false v (rev D).
Proof.
  apply (fast_itoa_ok _ (2 ^ (if signed then w - 1 else w) - 1)); [|done|lia|].
  - intros x Hx. destruct signed; [apply wraps_small|apply wrapu_small]; destruct Hw; subst; lia.
  - apply Z.lt_le_trans with (2 ^ (if signed then w - 1 else w)); [lia|].
    destruct signed, Hw; subst; vm_compute; discriminate.
Qed.

Lemma fast_itoa_decimal_witness :
  ∃ pre D, fast_itoa (wraps 32) scratch_buffer 65535 = Ok (pre ++ D, zlen pre) ∧
    zlen pre + zlen D = 32 ∧ is_numeral 10 false 65535 (rev D).
Proof.
  apply (fast_itoa_decimal 32 true scratch_buffer 65535).
  - by left.
  - reflexivity.
  - vm_compute. split; reflexivity.
Defined.

(** The most negative [int] (and [long long]) stays negative when the fast path
    negates it: the remainder indexes the table below its start. *)
Theorem fast_itoa_min (scratch : bytes) :
  fast_itoa (wraps 32) scratch (wraps 32 (- -2147483648)) = Ub OobRead ∧
  fast_itoa (wraps 64) scratch (wraps 64 (- -9223372036854775808)) = Ub OobRead.
Proof. split; reflexivity. Qed.
