(* ===== verification/FmtFlt.v ===== *)
(** * Floating point conversions of [base/snprintf/mysnprintf.c]

    [getexponent], [cast], [myround], [mypow10] and [fmtflt] over the binary64 numbers
    of the Standard Library's [SpecFloat] (the build does not define HAVE_LONG_DOUBLE,
    so LDOUBLE is [double]; the decimal point is ['.'] and the separator [',']).
    [fmtflt] is split where the source has its labels and comments: [flt_sign] and
    [flt_infnan], [flt_parts] (from [again:] on), [flt_exponent], [flt_digits] and
    [flt_out].  A conversion of an out-of-range float to [unsigned long long] is
    undefined in C; [float_to_u64] is what the x86-64 instructions give. *)

From S2P Require Import Prelude Sink FmtInt.
From Stdlib Require Import SpecFloat.

#[local] Open Scope Z_scope.

(** ** binary64 *)

Abbreviation prec := 53.
Abbreviation emax := 1024.

Definition of_Z (z : Z) : spec_float := binary_normalize prec emax z 0 false.

Definition f_zero : spec_float := S754_zero false.
Definition f_one : spec_float := of_Z 1.
Definition f_ten : spec_float := of_Z 10.
Definition f_half : spec_float := binary_normalize prec emax 1 (-1) false.

(** Conversion to [unsigned long long]: towards zero, modulo [2^64]. *)
Definition float_to_u64 (x : spec_float) : Z :=
  match x with
  | S754_zero _ => 0
  | S754_finite s m e => u64 (if s then - Z.shiftl (Zpos m) e else Z.shiftl (Zpos m) e)
  | _ => 2 ^ 63
  end.

Definition ISNAN (x : spec_float) : bool := negb (SFeqb x x).
Definition ISINF (x : spec_float) : bool :=
  negb (SFeqb x f_zero) && SFeqb (SFadd prec emax x x) x.

Definition UINTMAX_MAX : Z := 18446744073709551615.

(** ** Helpers *)

(** [while (tmp < 1.0 && tmp > 0.0 && --exponent > -99) tmp *= 10;] *)
Fixpoint exponent_down (fuel : nat) (tmp : spec_float) (exponent : Z) : spec_float * Z :=
  match fuel with
  | O => (tmp, exponent)
  | S fuel =>
      if SFltb tmp f_one && SFltb f_zero tmp then
        let exponent := exponent - 1 in
        if -99 <? exponent then exponent_down fuel (SFmul prec emax tmp f_ten) exponent
        else (tmp, exponent)
      else (tmp, exponent)
  end.

(** [while (tmp >= 10.0 && ++exponent < 99) tmp /= 10;] *)
Fixpoint exponent_up (fuel : nat) (tmp : spec_float) (exponent : Z) : spec_float * Z :=
  match fuel with
  | O => (tmp, exponent)
  | S fuel =>
      if SFleb f_ten tmp then
        let exponent := exponent + 1 in
        if exponent <? 99 then exponent_up fuel (SFdiv prec emax tmp f_ten) exponent
        else (tmp, exponent)
      else (tmp, exponent)
  end.

(** The exponent moves by one per round and stops at -99 and 99, so 99 rounds of the
    first loop and 198 of the second are enough. *)
Definition getexponent (value : spec_float) : Z :=
  let tmp := if SFleb f_zero value then value else SFopp value in
  let '(tmp, exponent) := exponent_down 99 tmp 0 in
  (exponent_up 198 tmp exponent).2.

Definition cast (value : spec_float) : Z :=
  if SFleb (of_Z UINTMAX_MAX) value then UINTMAX_MAX
  else
    let result := float_to_u64 value in
    if SFleb (of_Z result) value then result else u64 (result - 1).

Definition myround (value : spec_float) : Z :=
  let intpart := cast value in
  let value := SFsub prec emax value (of_Z intpart) in
  if SFltb value f_half then intpart else u64 (intpart + 1).

Definition mypow10 (exponent : Z) : spec_float :=
  let up := Z.to_nat exponent in
  let down := Z.to_nat (- exponent) in
  let result := Nat.iter up (λ r, SFmul prec emax r f_ten) f_one in
  Nat.iter down (λ r, SFdiv prec emax r f_ten) result.

(** ** fmtflt *)

Definition flt_sign (fvalue : spec_float) (flags : Z) : Z :=
  if SFltb fvalue f_zero then chr "-"
  else if has flags PRINT_F_PLUS then chr "+"
  else if has flags PRINT_F_SPACE then chr " "
  else 0.

(** The text of a value that is not a number, or infinite. *)
Definition flt_infnan (fvalue : spec_float) (flags : Z) : option bytes :=
  if ISNAN fvalue then Some (if has flags PRINT_F_UP then txt "NAN" else txt "nan")
  else if ISINF fvalue then Some (if has flags PRINT_F_UP then txt "INF" else txt "inf")
  else None.

(** What the computation from [again:] on leaves. *)
Record parts := Parts {
  p_int : Z; p_frac : Z; p_exponent : Z; p_precision : Z; p_estyle : bool
}.

(** [again:]; the fuel counts the passes.  [None]: the overflow flag was set. *)
Fixpoint flt_parts (fuel : nat) (fvalue : spec_float) (flags precision exponent : Z)
    (estyle : bool) : outcome (option parts) :=
  match fuel with
  | O => Ub NoFuel
  | S fuel =>
      let precision := if 19 <? precision then 19 else precision in
      let ufvalue := if SFleb f_zero fvalue then fvalue else SFopp fvalue in
      let ufvalue := if estyle then SFdiv prec emax ufvalue (mypow10 exponent) else ufvalue in
      let intpart := cast ufvalue in
      if intpart =? UINTMAX_MAX then Ok None
      else
        let mask := float_to_u64 (mypow10 precision) in
        let fracpart :=
          myround (SFmul prec emax (of_Z mask) (SFsub prec emax ufvalue (of_Z intpart))) in
        let '(intpart, fracpart, exponent) :=
          if mask <=? fracpart then
            let intpart := u64 (intpart + 1) in
            if estyle && (intpart =? 10) then (1, 0, exponent + 1) else (intpart, 0, exponent)
          else (intpart, fracpart, exponent) in
        if has flags PRINT_F_TYPE_G && estyle && (exponent <? precision + 1) && (-4 <=? exponent)
        then flt_parts fuel fvalue flags (precision - exponent) exponent false
        else Ok (Some (Parts intpart fracpart exponent precision estyle))
  end.

(** The characters of [econvert[4]], in reverse order; a fifth store is out of bounds. *)
Definition flt_exponent (p : parts) (flags : Z) : outcome bytes :=
  if p_estyle p then
    let '(exponent, esign) :=
      if p_exponent p <? 0 then (- p_exponent p, chr "-") else (p_exponent p, chr "+") in
    econvert ← convert exponent 2 10 false;
    let econvert := if zlen econvert =? 1 then econvert ++ [chr "0"] else econvert in
    let econvert := econvert ++ [esign] in
    let econvert := econvert ++ [if has flags PRINT_F_UP then chr "E" else chr "e"] in
    check (zlen econvert <=? 4) OobWrite (Ok econvert)
  else Ok [].

(** [while (omitcount < fpos && fconvert[omitcount] == '0') omitcount++;] *)
Fixpoint count_zeros (fconvert : bytes) : Z :=
  match fconvert with
  | c :: fconvert => if c =? chr "0" then 1 + count_zeros fconvert else 0
  | [] => 0
  end.

(** The digits of the fractional part, how many of them are omitted, the zeros in front
    of them and the precision that remains. *)
Definition flt_digits (p : parts) (omitzeros : bool) : outcome (bytes * Z * Z * Z) :=
  fconvert ← (if negb (p_frac p =? 0) then convert (p_frac p) MAX_CONVERT_LENGTH 10 false
              else Ok []);
  let fpos := zlen fconvert in
  let leadfraczeros := p_precision p - fpos in
  if omitzeros then
    if 0 <? fpos then
      let omitcount := count_zeros fconvert in
      Ok (fconvert, omitcount, leadfraczeros, p_precision p - omitcount)
    else Ok (fconvert, p_precision p, 0, p_precision p - p_precision p)
  else Ok (fconvert, 0, leadfraczeros, p_precision p).

(** [while (fpos > omitcount) { fpos--; OUTCHAR(str, *len, size, fconvert[fpos]); }], and
    the same loop for the exponent. *)
Fixpoint out_rev (size : Z) (s : sink) (l : bytes) (omit : Z) (pos : nat) : outcome sink :=
  match pos with
  | O => Ok s
  | S pos' =>
      if omit <? Z.of_nat pos then
        c ← load1 (Z.of_nat pos') l;
        s ← OUTCHAR size s c;
        out_rev size s l omit pos'
      else Ok s
  end.

(** From the leading spaces on. *)
Definition flt_tail (size : Z) (s : sink) (padlen sign separators : Z) (emitpoint : bool)
    (iconvert fconvert econvert : bytes) (omitcount leadfraczeros : Z) : outcome sink :=
  s ← out_fill size s (chr " ") (Z.to_nat padlen); (* Leading spaces. *)
  s ← (if negb (sign =? 0) then OUTCHAR size s sign else Ok s); (* Sign. *)
  s ← out_digits size s iconvert separators (length iconvert); (* Integer part. *)
  s ← (if emitpoint then OUTCHAR size s (chr ".") else Ok s); (* Decimal point. *)
  s ← out_fill size s (chr "0") (Z.to_nat leadfraczeros); (* Leading fractional part zeros. *)
  s ← out_rev size s fconvert omitcount (length fconvert); (* The remaining fractional part. *)
  s ← out_rev size s econvert 0 (length econvert); (* Exponent. *)
  out_fill size s (chr " ") (Z.to_nat (- padlen)). (* Trailing spaces. *)

(** From the padding on. *)
Definition flt_out (size : Z) (s : sink) (width flags sign separators : Z) (emitpoint : bool)
    (iconvert fconvert econvert : bytes) (omitcount leadfraczeros precision : Z) :
    outcome sink :=
  let padlen := s32 (width - zlen iconvert - zlen econvert - precision - separators
                     - (if emitpoint then 1 else 0) - (if negb (sign =? 0) then 1 else 0)) in
  let padlen := if padlen <? 0 then 0 else padlen in
  '(s, padlen, sign) ←
    (if has flags PRINT_F_MINUS then Ok (s, - padlen, sign) (* Left justify. *)
     else if has flags PRINT_F_ZERO && (0 <? padlen) then
       s ← (if negb (sign =? 0) then OUTCHAR size s sign else Ok s);
       s ← out_fill size s (chr "0") (Z.to_nat padlen); (* Leading zeros. *)
       Ok (s, 0, 0)
     else Ok (s, padlen, sign));
  flt_tail size s padlen sign separators emitpoint iconvert fconvert econvert
    omitcount leadfraczeros.

(** The result is the sink and the overflow flag; [uninit] is the initial contents of
    [iconvert[MAX_CONVERT_LENGTH]]. *)
Definition fmtflt (uninit : bytes) (size : Z) (s : sink) (fvalue : spec_float)
    (width precision flags : Z) : outcome (sink * bool) :=
  let precision := if precision =? -1 then 6 else precision in
  let sign := flt_sign fvalue flags in
  match flt_infnan fvalue flags with
  | Some infnan =>
      let text := (if negb (sign =? 0) then [sign] else []) ++ infnan in
      iconvert ← store 0 text uninit;
      s ← fmtstr size s (Some iconvert) width (zlen text) flags;
      Ok (s, false)
  | None =>
      let type_g := has flags PRINT_F_TYPE_G in
      let type_eg := has flags PRINT_F_TYPE_E || type_g in
      let precision := if type_g then precision - 1 else precision in
      let omitzeros := type_g && negb (has flags PRINT_F_NUM) in
      let exponent := if type_eg then getexponent fvalue else 0 in
      r ← flt_parts 2 fvalue flags precision exponent type_eg;
      match r with
      | None => Ok (s, true)
      | Some p =>
          econvert ← flt_exponent p flags;
          iconvert ← convert (p_int p) MAX_CONVERT_LENGTH 10 false;
          '(fconvert, omitcount, leadfraczeros, precision) ← flt_digits p omitzeros;
          let emitpoint := (0 <? precision) || has flags PRINT_F_NUM in
          let separators := Z.land flags PRINT_F_QUOTE in
          let separators :=
            if negb (separators =? 0) then getnumsep (zlen iconvert) else separators in
          s ← flt_out size s width flags sign separators emitpoint iconvert fconvert econvert
                omitcount leadfraczeros precision;
          Ok (s, false)
      end
  end.

(** ** What a conversion appends to the output *)

(** The exponent as it is printed: the letter, the sign and the last two digits. *)
Definition exponent_text (up : bool) (e : Z) : bytes :=
  [if up then chr "E" else chr "e"; if e <? 0 then chr "-" else chr "+";
   digit_char false ((Z.abs e / 10) `mod` 10); digit_char false (Z.abs e `mod` 10)].

(** [body] is the number without its sign: the integer part as a (grouped) numeral, a
    point if there are decimals or the [#] flag, the decimals (the precision's worth,
    less [k] omitted zeros), the exponent. *)
Definition flt_body (flags : Z) (p : parts) (omitzeros : bool) (body : bytes) : Prop :=
  ∃ ids frac k,
    body = grouped (has flags PRINT_F_QUOTE) (rev ids) ++
           (if negb (zlen frac =? 0) || has flags PRINT_F_NUM then [chr "."] else []) ++
           frac ++
           (if p_estyle p then exponent_text (has flags PRINT_F_UP) (p_exponent p) else []) ∧
    is_numeral 10 false (p_int p) ids ∧
    Forall (λ c, ∃ d, 0 ≤ d < 10 ∧ c = digit_char false d) frac ∧
    0 ≤ k ∧ zlen frac + k = p_precision p ∧ (omitzeros = false → k = 0) ∧
    digits_val 10 (rev frac) * 10 ^ k = p_frac p.

(** The sign and the body in their field. *)
Definition flt_field (flags width sign : Z) (body : bytes) : bytes :=
  let sgn := if negb (sign =? 0) then [sign] else [] in
  if negb (has flags PRINT_F_MINUS) && has flags PRINT_F_ZERO
  then sgn ++ zeros (width - zlen (sgn ++ body)) ++ body
  else in_field (has flags PRINT_F_MINUS) width (sgn ++ body).

(** The parts are in the ranges the output relies on. *)
Record parts_ok (p : parts) : Prop := {
  po_int : 0 ≤ p_int p < 2 ^ 64;
  po_precision : 0 ≤ p_precision p ≤ 19;
  po_frac : 0 ≤ p_frac p < 10 ^ p_precision p;
  po_exponent : -100 ≤ p_exponent p ≤ 100
}.

(** ** Lemmas: the loops *)

Lemma exponent_down_range fuel tmp e :
  -98 ≤ e ≤ 0 → -99 ≤ (exponent_down fuel tmp e).2 ≤ 0.
Proof.
  revert tmp e. induction fuel as [|fuel IH]; intros tmp e He; cbn [exponent_down]; [cbn; lia|].
  destruct (_ && _); [|cbn; lia]. destruct (Z.ltb_spec (-99) (e - 1)); cbn; [apply IH; lia|lia].
Qed.

Lemma exponent_up_range fuel tmp e :
  -99 ≤ e ≤ 98 → -99 ≤ (exponent_up fuel tmp e).2 ≤ 99.
Proof.
  revert tmp e. induction fuel as [|fuel IH]; intros tmp e He; cbn [exponent_up]; [cbn; lia|].
  destruct (SFleb _ _); [|cbn; lia]. destruct (Z.ltb_spec (e + 1) 99) as [|].
  - apply IH. lia.
  - cbn. lia.
Qed.

(** More fuel changes nothing: the bounds end both loops. *)
Lemma exponent_down_fuel n fuel tmp e :
  -99 < e → e + 99 ≤ Z.of_nat fuel →
  exponent_down (fuel + n) tmp e = exponent_down fuel tmp e.
Proof.
  revert tmp e. induction fuel as [|fuel IH]; intros tmp e He Hf; [lia|].
  cbn [Nat.add exponent_down]. destruct (_ && _); [|done].
  destruct (Z.ltb_spec (-99) (e - 1)); [|done]. apply IH; lia.
Qed.

Lemma exponent_up_fuel n fuel tmp e :
  e < 99 → 99 - e ≤ Z.of_nat fuel →
  exponent_up (fuel + n) tmp e = exponent_up fuel tmp e.
Proof.
  revert tmp e. induction fuel as [|fuel IH]; intros tmp e He Hf; [lia|].
  cbn [Nat.add exponent_up]. destruct (SFleb _ _); [|done].
  destruct (Z.ltb_spec (e + 1) 99); [|done]. apply IH; lia.
Qed.

Lemma getexponent_range value : -99 ≤ getexponent value ≤ 99.
Proof.
  unfold getexponent. set (tmp := if SFleb _ _ then _ else _).
  pose proof (exponent_down_range 99 tmp 0) as H.
  destruct (exponent_down 99 tmp 0) as [tmp' e]. apply exponent_up_range. cbn in H. lia.
Qed.

Lemma mask_pow10 p : 0 ≤ p ≤ 19 → float_to_u64 (mypow10 p) = 10 ^ p.
Proof.
  intros Hp. assert (forallb (λ k, float_to_u64 (mypow10 (Z.of_nat k)) =? 10 ^ Z.of_nat k)
    (seq 0 20) = true) as H by (vm_compute; reflexivity).
  rewrite forallb_forall in H. specialize (H (Z.to_nat p) ltac:(apply in_seq; lia)).
  rewrite Z2Nat.id in H by lia. by apply Z.eqb_eq.
Qed.

Lemma float_to_u64_range x : 0 ≤ float_to_u64 x < 2 ^ 64.
Proof. destruct x; cbn -[Z.pow wrapu Z.shiftl]; try lia. destruct s; apply wrapu_bound; lia. Qed.

Lemma cast_range x : 0 ≤ cast x < 2 ^ 64.
Proof.
  unfold cast, UINTMAX_MAX. destruct (SFleb _ x); [lia|].
  destruct (SFleb _ x); [apply float_to_u64_range|apply wrapu_bound; lia].
Qed.

Lemma myround_range x : 0 ≤ myround x < 2 ^ 64.
Proof.
  unfold myround. destruct (SFltb _ _); [apply cast_range|apply wrapu_bound; lia].
Qed.

(** [goto again] is taken at most once, so two passes are enough. *)
Lemma flt_parts_ok fuel fvalue flags precision exponent (estyle : bool) :
  (if estyle then 2 else 1) ≤ Z.of_nat fuel → 0 ≤ precision → -99 ≤ exponent ≤ 99 →
  ∃ r, flt_parts fuel fvalue flags precision exponent estyle = Ok r ∧
    ∀ p, r = Some p → parts_ok p ∧
      (has flags PRINT_F_TYPE_G = false →
       p_estyle p = estyle ∧ p_precision p = Z.min 19 precision).
Proof.
  revert precision exponent estyle.
  induction fuel as [|fuel IH]; intros prc e est Hf Hp He; [destruct est; lia|].
  cbn [flt_parts].
  assert ((if 19 <? prc then 19 else prc) = Z.min 19 prc) as ->
    by (destruct (Z.ltb_spec 19 prc); lia).
  set (pr := Z.min 19 prc). assert (0 ≤ pr ≤ 19) by lia.
  set (uf := if est then _ else _).
  destruct (Z.eqb_spec (cast uf) UINTMAX_MAX) as [|Hmax]; [by exists None|].
  rewrite mask_pow10 by done. set (fr := myround _).
  pose proof (cast_range uf). pose proof (myround_range
    (SFmul prec emax (of_Z (10 ^ pr)) (SFsub prec emax uf (of_Z (cast uf))))) as Hfr.
  fold fr in Hfr. assert (0 < 10 ^ pr) by (apply Z.pow_pos_nonneg; lia).
  set (res := if 10 ^ pr <=? fr then _ else _).
  assert (∃ i f e', res = (i, f, e') ∧ 0 ≤ i < 2 ^ 64 ∧ 0 ≤ f < 10 ^ pr ∧ e ≤ e' ≤ e + 1)
    as (i & f & e' & Hres & Hi & Hfrac & He').
  { unfold res. destruct (Z.leb_spec (10 ^ pr) fr); [|do 3 eexists; split; [done|lia]].
    pose proof (wrapu_bound 64 (cast uf + 1)).
    destruct (est && _); do 3 eexists; (split; [done|]); lia. }
  rewrite Hres. cbv beta iota.
  destruct (has flags PRINT_F_TYPE_G && est && (e' <? pr + 1) && (-4 <=? e')) eqn:Hag.
  - apply andb_true_iff in Hag. destruct Hag as [Hag Hge].
    apply andb_true_iff in Hag. destruct Hag as [Hag Hlt].
    apply andb_true_iff in Hag. destruct Hag as [Hg ->]. zbool.
    destruct (IH (pr - e') e' false) as (r & E & Hr); try lia.
    exists r. split; [done|]. intros p Hrp. destruct (Hr p Hrp) as [Hok _].
    split; [done|]. congruence.
  - eexists. split; [done|]. intros p [= <-]. split; [split; cbn; lia|]. done.
Qed.

(** ** Lemmas: digits *)

Lemma digits_val_lower base ds :
  2 ≤ base ≤ 16 → Forall (λ c, ∃ d, 0 ≤ d < base ∧ c = digit_char false d) ds →
  0 ≤ digits_val base ds < base ^ zlen ds.
Proof.
  intros Hb. induction 1 as [|c ds (d & Hd & ->) _ IH]; [cbn; lia|].
  cbn [digits_val foldr length]. fold (digits_val base ds).
  rewrite digit_val_char, Nat2Z.inj_succ, Z.pow_succ_r by lia. nia.
Qed.

(** A numeral below [10^n] has at most [n] digits. *)
Lemma numeral_length v n ds :
  is_numeral 10 false v ds → 0 < v < 10 ^ n → 0 ≤ n → zlen ds ≤ n.
Proof.
  intros [Hd Hval Hne Hlead] Hv Hn.
  destruct (exists_last Hne) as (l & c & ->). rewrite last_snoc in Hlead.
  apply Forall_app in Hd. destruct Hd as [Hl Hc]. inversion Hc as [|? ? (d & Hd & ->) _]; subst.
  rewrite digits_val_app in Hv. cbn [digits_val foldr] in Hv. rewrite digit_val_char in Hv by lia.
  pose proof (digits_val_lower 10 l ltac:(lia) Hl).
  rewrite length_app. cbn [length].
  destruct (decide (d = 0)) as [->|].
  { specialize (Hlead eq_refl). apply (f_equal length) in Hlead.
    rewrite length_app in Hlead. cbn in Hlead. destruct l; [|cbn in Hlead; lia].
    cbn in Hv. lia. }
  destruct (decide (n < zlen l + 1)); [|lia].
  assert (10 ^ n ≤ 10 ^ zlen l) by (apply Z.pow_le_mono_r; lia).
  assert (10 ^ zlen l ≤ 10 ^ zlen l * (d + 10 * 0)) by nia. lia.
Qed.

Lemma count_zeros_spec l :
  0 ≤ count_zeros l ≤ zlen l ∧ take (Z.to_nat (count_zeros l)) l = zeros (count_zeros l).
Proof.
  induction l as [|c l [IH1 IH2]]; [done|]. cbn [count_zeros length].
  destruct (Z.eqb_spec c (chr "0")) as [->|]; [|split; [lia|done]].
  split; [lia|]. unfold zeros in *. replace (Z.to_nat (1 + count_zeros l))
    with (S (Z.to_nat (count_zeros l))) by lia. cbn. by rewrite IH2.
Qed.

Lemma digits_val_zeros base n : digits_val base (zeros n) = 0.
Proof.
  unfold zeros. induction (Z.to_nat n) as [|m IH]; [done|]. cbn [replicate digits_val foldr].
  fold (digits_val base (replicate m (chr "0"))). rewrite IH.
  change (digit_val (chr "0")) with 0. lia.
Qed.

Lemma zeros_digits n : Forall (λ c, ∃ d, 0 ≤ d < 10 ∧ c = digit_char false d) (zeros n).
Proof. apply Forall_replicate. exists 0. split; [lia|done]. Qed.

Lemma rev_zeros n : rev (zeros n) = zeros n.
Proof.
  unfold zeros. induction (Z.to_nat n) as [|m IH]; [done|].
  cbn [replicate rev]. rewrite IH. symmetry. apply (replicate_S_end m (chr "0")).
Qed.

(** The decimals that [flt_digits] prepares. *)
Lemma flt_digits_ok p oz :
  parts_ok p →
  ∃ fc omit lead prec', flt_digits p oz = Ok (fc, omit, lead, prec') ∧
    let frac := zeros lead ++ rev (drop (Z.to_nat omit) fc) in
    zlen frac = prec' ∧ Forall (λ c, ∃ d, 0 ≤ d < 10 ∧ c = digit_char false d) frac ∧
    ∃ k, 0 ≤ k ∧ prec' + k = p_precision p ∧ (oz = false → k = 0) ∧
      digits_val 10 (rev frac) * 10 ^ k = p_frac p.
Proof.
  intros [_ Hp Hf _]. unfold flt_digits.
  destruct (Z.eqb_spec (p_frac p) 0) as [E|E]; cbn [negb].
  { cbn [mbind outcome_bind length]. rewrite E. destruct oz.
    - do 4 eexists. split; [reflexivity|]. cbv zeta. rewrite drop_nil. cbn [rev app].
      change (zeros 0 ++ []) with ([] : bytes).
      split; [cbn; lia|]. split; [constructor|]. exists (p_precision p).
      split_and!; try done; cbn; lia.
    - do 4 eexists. split; [reflexivity|]. cbn [rev drop Z.to_nat]. rewrite app_nil_r.
      split; [rewrite length_zeros; cbn; lia|]. split; [apply zeros_digits|].
      exists 0. rewrite rev_zeros, digits_val_zeros.
      split_and!; try done; cbn; lia. }
  assert (10 ^ p_precision p ≤ 10 ^ 19) by (apply Z.pow_le_mono_r; lia).
  destruct (convert_ok (p_frac p) 10 false) as (fc & -> & Hn & _); [lia|lia|].
  cbn [mbind outcome_bind].
  pose proof (numeral_length (p_frac p) (p_precision p) fc Hn ltac:(lia) ltac:(lia)) as Hlen.
  destruct Hn as [Hd Hval Hne _].
  assert (0 < zlen fc) by (destruct fc; cbn; done || lia).
  assert (∀ omit, 0 ≤ omit ≤ zlen fc → take (Z.to_nat omit) fc = zeros omit →
    let frac := zeros (p_precision p - zlen fc) ++ rev (drop (Z.to_nat omit) fc) in
    zlen frac = p_precision p - omit ∧
    Forall (λ c, ∃ d, 0 ≤ d < 10 ∧ c = digit_char false d) frac ∧
    digits_val 10 (rev frac) * 10 ^ omit = p_frac p) as Hfrac.
  { intros omit Ho Hz frac. unfold frac. split; [|split].
    - rewrite length_app, length_rev, length_drop, Nat2Z.inj_add, length_zeros. lia.
    - apply Forall_app. split; [apply zeros_digits|]. apply Forall_rev, Forall_drop, Hd.
    - rewrite rev_app_distr, rev_involutive, rev_zeros, digits_val_app, digits_val_zeros.
      pose proof (digits_val_app 10 (take (Z.to_nat omit) fc) (drop (Z.to_nat omit) fc)) as Ha.
      rewrite take_drop, Hval, Hz, digits_val_zeros, length_zeros, Z.max_r in Ha by lia. lia. }
  destruct oz.
  - rewrite (proj2 (Z.ltb_lt _ _)) by lia. destruct (count_zeros_spec fc) as [Hc1 Hc2].
    do 4 eexists. split; [reflexivity|]. destruct (Hfrac _ Hc1 Hc2) as (H1 & H2 & H3).
    split; [exact H1|]. split; [exact H2|]. exists (count_zeros fc). split_and!; try done; lia.
  - do 4 eexists. split; [reflexivity|].
    destruct (Hfrac 0 ltac:(lia) eq_refl) as (H1 & H2 & H3). rewrite Z.sub_0_r in H1.
    split; [exact H1|]. split; [exact H2|]. exists 0. split_and!; try done; lia.
Qed.

Lemma flt_digits_omit p oz fc omit lead prec' :
  parts_ok p → flt_digits p oz = Ok (fc, omit, lead, prec') → 0 ≤ omit.
Proof.
  intros Hok. unfold flt_digits. pose proof (po_precision _ Hok). intros Hd. inv_ok.
  destruct oz; [|by inv_ok]. destruct (_ <? _); inv_ok; [apply count_zeros_spec|lia].
Qed.

Lemma flt_exponent_ok p flags :
  parts_ok p →
  flt_exponent p flags =
    Ok (if p_estyle p then rev (exponent_text (has flags PRINT_F_UP) (p_exponent p)) else []).
Proof.
  intros Hp. pose proof (po_exponent _ Hp) as He. unfold flt_exponent.
  destruct (p_estyle p); [|done]. generalize (has flags PRINT_F_UP). intros up.
  assert (forallb (λ k, let e := Z.of_nat k - 100 in
    bool_decide ((let '(exponent, esign) := if e <? 0 then (- e, chr "-") else (e, chr "+") in
      econvert ← convert exponent 2 10 false;
      let econvert := if zlen econvert =? 1 then econvert ++ [chr "0"] else econvert in
      let econvert := econvert ++ [esign] in
      let econvert := econvert ++ [if up then chr "E" else chr "e"] in
      check (zlen econvert <=? 4) OobWrite (Ok econvert)) = Ok (rev (exponent_text up e))))
    (seq 0 201) = true) as H by (destruct up; vm_compute; reflexivity).
  rewrite forallb_forall in H.
  specialize (H (Z.to_nat (p_exponent p + 100)) ltac:(apply in_seq; lia)). cbv zeta beta in H.
  rewrite Z2Nat.id in H by lia. replace (p_exponent p + 100 - 100) with (p_exponent p) in H by lia.
  by apply bool_decide_eq_true_1 in H.
Qed.

Lemma out_rev_ok size l omit pos :
  0 ≤ omit → (pos ≤ length l)%nat →
  emits size (λ s, out_rev size s l omit pos) (rev (drop (Z.to_nat omit) (take pos l))).
Proof.
  intros Ho. induction pos as [|pos IH]; intros Hp; [rewrite take_0, drop_nil; apply emits_nil|].
  destruct (lookup_lt_is_Some_2 l pos) as [c Hc]; [lia|].
  cbn [out_rev]. destruct (Z.ltb_spec omit (Z.of_nat (S pos))) as [Hlt|Hge].
  - rewrite (load1_Ok _ _ c) by (rewrite ?Nat2Z.id; done || lia). cbn [mbind outcome_bind].
    rewrite (take_S_r _ _ c), drop_app_le, rev_app_distr by (rewrite ?length_take; done || lia).
    apply (emits_bind size (λ s, OUTCHAR size s c) _ [c]); [apply emits_OUTCHAR|apply IH; lia].
  - rewrite drop_ge by (rewrite length_take; lia). apply emits_nil.
Qed.

(** ** Lemmas: the output *)

Definition sign_text (sign : Z) : bytes := if negb (sign =? 0) then [sign] else [].

Definition number_text (seps : Z) (emitpoint : bool) (ic fc ec : bytes) (omit lead : Z) : bytes :=
  grouped (0 <? seps) (rev ic) ++ (if emitpoint then [chr "."] else []) ++
  (zeros lead ++ rev (drop (Z.to_nat omit) fc)) ++ rev ec.

Lemma flt_tail_ok size pad sign seps emitpoint ic fc ec omit lead :
  0 ≤ omit →
  emits size (λ s, flt_tail size s pad sign seps emitpoint ic fc ec omit lead)
    (spaces pad ++ sign_text sign ++ number_text seps emitpoint ic fc ec omit lead ++
     spaces (- pad)).
Proof.
  intros Ho. unfold number_text. rewrite <- !app_assoc. unfold flt_tail.
  apply (emits_bind size (λ s, out_fill size s _ _)); [apply emits_fill|].
  apply (emits_bind size (λ s, if (_ : bool) then OUTCHAR size s sign else Ok s));
    [apply emits_if, emits_OUTCHAR|].
  apply (emits_bind size (λ s, out_digits size s _ _ _)).
  { pose proof (out_digits_ok size ic seps (length ic) ltac:(lia)) as H.
    by rewrite take_ge in H by done. }
  apply (emits_bind size (λ s, if (_ : bool) then OUTCHAR size s _ else Ok s));
    [apply emits_if, emits_OUTCHAR|].
  apply (emits_bind size (λ s, out_fill size s _ _)); [apply emits_fill|].
  apply (emits_bind size (λ s, out_rev size s _ _ _)).
  { pose proof (out_rev_ok size fc omit (length fc) Ho ltac:(lia)) as H.
    by rewrite take_ge in H by done. }
  apply (emits_bind size (λ s, out_rev size s _ _ _)); [|apply emits_fill].
  pose proof (out_rev_ok size ec 0 (length ec) ltac:(lia) ltac:(lia)) as H.
  by rewrite take_ge, drop_0 in H by done.
Qed.

Lemma flt_out_ok size width flags sign seps emitpoint ic fc ec omit lead prec' :
  let number := number_text seps emitpoint ic fc ec omit lead in
  0 ≤ omit → 0 ≤ width ≤ INT_MAX →
  zlen number = zlen ic + seps + (if emitpoint then 1 else 0) + prec' + zlen ec →
  zlen number ≤ 1000 →
  emits size (λ s, flt_out size s width flags sign seps emitpoint ic fc ec omit lead prec')
    (flt_field flags width sign number).
Proof.
  intros number Ho Hw Hlen Hmax. unfold INT_MAX in Hw.
  assert (zlen (sign_text sign) = (if negb (sign =? 0) then 1 else 0)) as Hsgn
    by (unfold sign_text; by destruct (negb (sign =? 0))).
  set (sg := if negb (sign =? 0) then 1 else 0) in *.
  assert (0 ≤ sg ≤ 1) by (unfold sg; destruct (negb _); lia).
  set (room := width - zlen (sign_text sign ++ number)).
  assert (s32 (width - zlen ic - zlen ec - prec' - seps - (if emitpoint then 1 else 0) - sg) = room)
    as Hpad.
  { unfold room. rewrite length_app, Nat2Z.inj_add, Hsgn, Hlen, s32_small; lia. }
  assert (emits size (λ s, flt_tail size s (Z.max 0 room) sign seps emitpoint ic fc ec omit lead)
            (spaces room ++ sign_text sign ++ number)) as Hright.
  { replace (spaces room) with (spaces (Z.max 0 room)) by (unfold spaces; f_equal; lia).
    pose proof (flt_tail_ok size (Z.max 0 room) sign seps emitpoint ic fc ec omit lead Ho) as Ht.
    by rewrite (spaces_nonpos (- _)), app_nil_r in Ht by lia. }
  unfold flt_field, in_field. fold (sign_text sign). fold room.
  unfold flt_out. fold sg. rewrite Hpad. cbv zeta.
  replace (if room <? 0 then 0 else room) with (Z.max 0 room) by (ztest; lia).
  destruct (has flags PRINT_F_MINUS); cbn [negb andb].
  - cbn [mbind outcome_bind].
    pose proof (flt_tail_ok size (- Z.max 0 room) sign seps emitpoint ic fc ec omit lead Ho) as Ht.
    rewrite (spaces_nonpos (- _)), Z.opp_involutive in Ht by lia. cbn [app] in Ht.
    replace (spaces room) with (spaces (Z.max 0 room)) by (unfold spaces; f_equal; lia).
    by rewrite <- app_assoc.
  - destruct (has flags PRINT_F_ZERO); cbn [andb]; [|exact Hright].
    destruct (Z.ltb_spec 0 (Z.max 0 room)); cbn [mbind outcome_bind].
    + replace (Z.max 0 room) with room by lia.
      apply (emits_ext size (λ s,
        s ← (if negb (sign =? 0) then OUTCHAR size s sign else Ok s);
        s ← out_fill size s (chr "0") (Z.to_nat room);
        flt_tail size s 0 0 seps emitpoint ic fc ec omit lead)).
      { intros s. rewrite bind_assoc. apply bind_ext. intros s'. by rewrite bind_assoc. }
      apply (emits_bind size (λ s, if (_ : bool) then OUTCHAR size s sign else Ok s));
        [apply emits_if, emits_OUTCHAR|].
      apply (emits_bind size (λ s, out_fill size s _ _)); [apply emits_fill|].
      pose proof (flt_tail_ok size 0 0 seps emitpoint ic fc ec omit lead Ho) as H'.
      by rewrite app_nil_r in H'.
    + rewrite (spaces_nonpos room) in Hright by lia.
      rewrite (zeros_nonpos room) by lia. exact Hright.
Qed.

(** The computation [fmtflt] starts: default precision, the [%g] adjustment and the
    first exponent. *)
Definition flt_start (fvalue : spec_float) (precision flags : Z) : outcome (option parts) :=
  let precision := if precision =? -1 then 6 else precision in
  let type_g := has flags PRINT_F_TYPE_G in
  let type_eg := has flags PRINT_F_TYPE_E || type_g in
  flt_parts 2 fvalue flags (if type_g then precision - 1 else precision)
    (if type_eg then getexponent fvalue else 0) type_eg.

(** The text of a conversion: "nan" or "inf" with a sign, or the number. *)
Definition flt_text (fvalue : spec_float) (width precision flags : Z) (text : bytes) : Prop :=
  match flt_infnan fvalue flags with
  | Some infnan =>
      text = in_field (has flags PRINT_F_MINUS) width
               (sign_text (flt_sign fvalue flags) ++ infnan)
  | None =>
      ∃ p body, flt_start fvalue precision flags = Ok (Some p) ∧ parts_ok p ∧
        flt_body flags p (has flags PRINT_F_TYPE_G && negb (has flags PRINT_F_NUM)) body ∧
        text = flt_field flags width (flt_sign fvalue flags) body
  end.

Record flt_args_ok (uninit : bytes) (width precision flags : Z) : Prop := {
  fa_uninit : zlen uninit = MAX_CONVERT_LENGTH;
  fa_width : 0 ≤ width ≤ INT_MAX;
  fa_precision : -1 ≤ precision ≤ INT_MAX;
  fa_type_g : has flags PRINT_F_TYPE_G = true → precision ≠ 0
}.

Lemma until_nul_app a b : ¬ In 0 a → until_nul (a ++ b) = a ++ until_nul b.
Proof.
  induction a as [|c a IH]; cbn; [done|]. intros H.
  destruct (Z.eqb_spec c 0); [by destruct H; left|]. rewrite IH; tauto.
Qed.

Lemma flt_sign_cases fvalue flags :
  flt_sign fvalue flags = 0 ∨ flt_sign fvalue flags = chr "-" ∨
  flt_sign fvalue flags = chr "+" ∨ flt_sign fvalue flags = chr " ".
Proof. unfold flt_sign. repeat case_match; auto. Qed.

Lemma infnan_text fvalue flags infnan :
  flt_infnan fvalue flags = Some infnan →
  let text := sign_text (flt_sign fvalue flags) ++ infnan in
  ¬ In 0 text ∧ 3 ≤ zlen text ≤ 4.
Proof.
  unfold flt_infnan. intros H.
  assert (infnan = txt "NAN" ∨ infnan = txt "nan" ∨ infnan = txt "INF" ∨ infnan = txt "inf") as Hin
    by (repeat case_match; simplify_eq; auto).
  cbv zeta. destruct (flt_sign_cases fvalue flags) as [-> | [-> | [-> | ->]]];
    destruct Hin as [-> | [-> | [-> | ->]]]; vm_compute; intuition discriminate.
Qed.

Lemma fmtflt_infnan uninit size fvalue width precision flags infnan :
  flt_args_ok uninit width precision flags → flt_infnan fvalue flags = Some infnan →
  ∃ f, (∀ s, fmtflt uninit size s fvalue width precision flags = s ← f s; Ok (s, false)) ∧
    emits size f (in_field (has flags PRINT_F_MINUS) width
                    (sign_text (flt_sign fvalue flags) ++ infnan)).
Proof.
  intros [Hu Hw Hp _] Hi. unfold MAX_CONVERT_LENGTH in Hu.
  destruct (infnan_text fvalue flags infnan Hi) as [Hnul Hlen].
  unfold fmtflt. rewrite Hi. fold (sign_text (flt_sign fvalue flags)). cbv zeta.
  set (text := sign_text (flt_sign fvalue flags) ++ infnan) in *.
  rewrite store_Ok by lia. cbn [mbind outcome_bind].
  eexists. split; [intros s; reflexivity|].
  assert (put_at 0 text uninit = text ++ drop (length text) uninit) as Hput.
  { unfold put_at. by rewrite take_0. }
  pose proof (fmtstr_ok size (put_at 0 text uninit) width (zlen text) flags ltac:(lia)) as H.
  assert (fmtstr_text (put_at 0 text uninit) width (zlen text) flags =
          in_field (has flags PRINT_F_MINUS) width text) as <-.
  { unfold fmtstr_text. rewrite (proj2 (Z.eqb_neq _ _)) by lia. f_equal.
    by rewrite Hput, until_nul_app, Nat2Z.id, take_app_length by done. }
  apply H. right. rewrite length_put_at by lia. lia.
Qed.

Lemma flt_start_ok uninit fvalue width precision flags :
  flt_args_ok uninit width precision flags →
  ∃ r, flt_start fvalue precision flags = Ok r ∧ ∀ p, r = Some p → parts_ok p.
Proof.
  intros [_ Hw Hp Hg]. unfold flt_start. set (pr := if precision =? -1 then 6 else precision).
  assert (0 ≤ pr ∧ (has flags PRINT_F_TYPE_G = true → 1 ≤ pr)) as [Hpr Hpg].
  { unfold pr. destruct (Z.eqb_spec precision (-1)); [lia|]. split; [lia|].
    intros Ht. specialize (Hg Ht). lia. }
  set (eg := has flags PRINT_F_TYPE_E || has flags PRINT_F_TYPE_G).
  destruct (flt_parts_ok 2 fvalue flags
    (if has flags PRINT_F_TYPE_G then pr - 1 else pr)
    (if eg then getexponent fvalue else 0) eg) as (r & E & Hr).
  - destruct eg; lia.
  - destruct (has flags PRINT_F_TYPE_G); [specialize (Hpg eq_refl)|]; lia.
  - pose proof (getexponent_range fvalue). destruct eg; lia.
  - exists r. split; [exact E|]. intros p Hrp. by apply (Hr p Hrp).
Qed.

Lemma separators_eq flags len :
  0 < len →
  (if negb (Z.land flags PRINT_F_QUOTE =? 0) then getnumsep len
   else Z.land flags PRINT_F_QUOTE) = int_seps flags len.
Proof.
  intros Hlen. unfold int_seps, has.
  destruct (Z.eqb_spec (Z.land flags PRINT_F_QUOTE) 0) as [->|]; [done|].
  by apply getnumsep_eq.
Qed.

Lemma grouped_seps flags ds :
  0 < zlen ds →
  grouped (0 <? int_seps flags (zlen ds)) ds = grouped (has flags PRINT_F_QUOTE) ds ∧
  zlen (grouped (has flags PRINT_F_QUOTE) ds) = zlen ds + int_seps flags (zlen ds) ∧
  0 ≤ int_seps flags (zlen ds) ≤ zlen ds.
Proof.
  intros Hd. unfold int_seps. destruct (has flags PRINT_F_QUOTE).
  - assert (0 ≤ (zlen ds - 1) / 3 ≤ zlen ds) by (Z.to_euclidean_division_equations; lia).
    split; [|split; [|done]].
    + destruct (Z.ltb_spec 0 ((zlen ds - 1) / 3)) as [|Hs]; [done|].
      rewrite !grouped_short; try done; Z.to_euclidean_division_equations; lia.
    + destruct (grouped_length ds) as [Hgl|Hnil]; [done|]. rewrite Hnil in Hd. cbn in Hd. lia.
  - change (0 <? 0) with false. rewrite grouped_false. split; [done|]. lia.
Qed.

Lemma fmtflt_number uninit size fvalue width precision flags p :
  flt_args_ok uninit width precision flags → flt_infnan fvalue flags = None →
  flt_start fvalue precision flags = Ok (Some p) → parts_ok p →
  ∃ f body, (∀ s, fmtflt uninit size s fvalue width precision flags = s ← f s; Ok (s, false)) ∧
    flt_body flags p (has flags PRINT_F_TYPE_G && negb (has flags PRINT_F_NUM)) body ∧
    emits size f (flt_field flags width (flt_sign fvalue flags) body).
Proof.
  intros Ha Hi Hst Hok. pose proof (fa_width _ _ _ _ Ha) as Hw.
  destruct (convert_ok (p_int p) 10 false) as (ids & Eint & Hn & Hil);
    [lia|apply (po_int _ Hok)|].
  set (oz := has flags PRINT_F_TYPE_G && negb (has flags PRINT_F_NUM)).
  destruct (flt_digits_ok p oz Hok) as (fc & omit & lead & prec' & Ed & Hfl & Hfd & k & Hk).
  assert (0 < zlen ids) as Hids by (destruct Hn as [_ _ Hne _]; destruct ids; cbn; done || lia).
  set (ec := if p_estyle p then rev (exponent_text (has flags PRINT_F_UP) (p_exponent p)) else []).
  set (point := (0 <? prec') || has flags PRINT_F_NUM).
  set (seps := int_seps flags (zlen ids)).
  assert (0 ≤ omit) as Homit by (eapply flt_digits_omit; [exact Hok|exact Ed]).
  destruct (grouped_seps flags (rev ids)) as (Hg & Hgl & Hgs); [by rewrite length_rev|].
  rewrite length_rev in Hg, Hgl, Hgs. fold seps in Hg, Hgl, Hgs.
  assert (number_text seps point ids fc ec omit lead =
    grouped (has flags PRINT_F_QUOTE) (rev ids) ++ (if point then [chr "."] else []) ++
    (zeros lead ++ rev (drop (Z.to_nat omit) fc)) ++ rev ec) as Hnum
    by (unfold number_text; by rewrite Hg).
  exists (λ s, flt_out size s width flags (flt_sign fvalue flags) seps point ids fc ec omit lead prec'),
    (number_text seps point ids fc ec omit lead).
  split; [|split].
  - intros s. unfold fmtflt, flt_start in *. rewrite Hi. cbv zeta in Hst |- *. rewrite Hst.
    cbn [mbind outcome_bind]. rewrite (flt_exponent_ok p flags Hok). cbn [mbind outcome_bind].
    rewrite Eint. cbn [mbind outcome_bind]. fold oz. rewrite Ed. cbn [mbind outcome_bind].
    fold point. by rewrite separators_eq.
  - set (frac := zeros lead ++ rev (drop (Z.to_nat omit) fc)) in *.
    destruct Hk as (Hk0 & Hkp & Hkz & Hkv).
    exists ids, frac, k. split_and!; try done; try lia.
    rewrite Hnum. assert (point = negb (zlen frac =? 0) || has flags PRINT_F_NUM) as <-.
    { unfold point. rewrite <- Hfl. f_equal. ztest; ztest; done || lia. }
    do 3 f_equal. unfold ec. destruct (p_estyle p); [by rewrite rev_involutive|done].
  - set (frac := zeros lead ++ rev (drop (Z.to_nat omit) fc)) in *.
    assert (0 ≤ zlen ec ≤ 4) by (unfold ec; destruct (p_estyle p); cbn; lia).
    assert (zlen (number_text seps point ids fc ec omit lead) =
      zlen ids + seps + (if point then 1 else 0) + prec' + zlen ec) as Hl.
    { rewrite Hnum, !length_app, length_rev. destruct point; cbn [length]; lia. }
    apply flt_out_ok; [done|done|done|]. rewrite Hl.
    pose proof (po_precision _ Hok). unfold MAX_CONVERT_LENGTH in Hil. destruct point; lia.
Qed.

Lemma flt_text_width fvalue width precision flags text :
  flt_text fvalue width precision flags text → width ≤ zlen text.
Proof.
  unfold flt_text. destruct (flt_infnan _ _); [intros ->; apply in_field_width|].
  intros (p & body & _ & _ & _ & ->). unfold flt_field. fold (sign_text (flt_sign fvalue flags)).
  destruct (_ && _); [|apply in_field_width].
  pose proof (length_zeros (width - zlen (sign_text (flt_sign fvalue flags) ++ body))) as Hz.
  rewrite length_app in Hz. rewrite !length_app. lia.
Qed.

(** The two outcomes of [fmtflt]: a text, or the overflow flag and no output. *)
Definition flt_printed (uninit : bytes) (size : Z) (fvalue : spec_float)
    (width precision flags : Z) : Prop :=
  ∃ f text, (∀ s, fmtflt uninit size s fvalue width precision flags = s ← f s; Ok (s, false)) ∧
    emits size f text ∧ flt_text fvalue width precision flags text ∧ width ≤ zlen text.

Definition flt_overflowed (uninit : bytes) (size : Z) (fvalue : spec_float)
    (width precision flags : Z) : Prop :=
  flt_infnan fvalue flags = None ∧ flt_start fvalue precision flags = Ok None ∧
  ∀ s, fmtflt uninit size s fvalue width precision flags = Ok (s, true).

Lemma fmtflt_ok uninit size fvalue width precision flags :
  flt_args_ok uninit width precision flags →
  flt_printed uninit size fvalue width precision flags ∨
  flt_overflowed uninit size fvalue width precision flags.
Proof.
  intros Ha. destruct (flt_infnan fvalue flags) as [infnan|] eqn:Hi.
  { left. destruct (fmtflt_infnan uninit size fvalue width precision flags infnan Ha Hi)
      as (f & Hf & He). exists f. eexists. split; [exact Hf|]. split; [exact He|].
    split; [unfold flt_text; by rewrite Hi|apply in_field_width]. }
  destruct (flt_start_ok uninit fvalue width precision flags Ha) as ([p|] & Hst & Hok).
  - specialize (Hok p eq_refl). left.
    destruct (fmtflt_number uninit size fvalue width precision flags p Ha Hi Hst Hok)
      as (f & body & Hf & Hb & He).
    assert (flt_text fvalue width precision flags
      (flt_field flags width (flt_sign fvalue flags) body)) as Htext.
    { unfold flt_text. rewrite Hi. by exists p, body. }
    exists f, (flt_field flags width (flt_sign fvalue flags) body).
    split_and!; try done. by apply flt_text_width in Htext.
  - right. split_and!; try done. intros s. unfold fmtflt, flt_start in *. rewrite Hi.
    cbv zeta in Hst |- *. by rewrite Hst.
Qed.

(** ** Properties *)

(** C28: for every double (zeros, infinities and NaN included) and every width,
    precision and flags, [fmtflt] either sets the overflow flag without writing
    anything, or appends one text of at least the width: the sign, the integer part as
    a numeral, the point, exactly the decimals of the scaled and rounded fraction,
    with only zeros omitted, and the exponent.  It terminates, the exponent fits in
    its four bytes and no digit buffer is overrun. *)
Theorem fmtflt_prints (uninit : bytes) (size : Z) (fvalue : spec_float)
    (width precision flags : Z) (Ha : flt_args_ok uninit width precision flags) :
  flt_printed uninit size fvalue width precision flags ∨
  flt_overflowed uninit size fvalue width precision flags.
Proof. by apply fmtflt_ok. Qed.

(** 3.14159, -1234.5 and 9.9999999e99. *)
Definition ex_pi : spec_float := S754_finite false 7074231776675438 (-51).
Definition ex_neg : spec_float := S754_finite true 5429388417957888 (-42).
Definition ex_googol : spec_float := S754_finite false 5147557537992453 280.

Definition fmtflt_out_of (fvalue : spec_float) (width precision flags : Z) : outcome bytes :=
  '(s, o) ← fmtflt (replicate 43 0) 64 (Sink (replicate 64 0) 0) fvalue width precision flags;
  if o : bool then Ok (txt "overflow") else Ok (sub_at 0 (s_len s) (s_buf s)).

Example fmtflt_fixed : fmtflt_out_of ex_pi 10 2 0 = Ok (txt "      3.14").
Proof. vm_compute. reflexivity. Qed.
Example fmtflt_zero : fmtflt_out_of ex_neg 12 2 (PRINT_F_ZERO + PRINT_F_QUOTE) = Ok (txt "-0001,234.50").
Proof. vm_compute. reflexivity. Qed.
Example fmtflt_g : fmtflt_out_of ex_neg 0 (-1) PRINT_F_TYPE_G = Ok (txt "-1234.5").
Proof. vm_compute. reflexivity. Qed.
Example fmtflt_inf : fmtflt_out_of (S754_infinity true) 6 3 PRINT_F_ZERO = Ok (txt "  -inf").
Proof. vm_compute. reflexivity. Qed.
Example fmtflt_big : fmtflt_out_of ex_googol 0 2 0 = Ok (txt "overflow").
Proof. vm_compute. reflexivity. Qed.

Lemma fmtflt_prints_witness :
  flt_args_ok (replicate 43 0) 10 2 0 ∧
  (flt_printed (replicate 43 0) 32 ex_pi 10 2 0 ∨ flt_overflowed (replicate 43 0) 32 ex_pi 10 2 0).
Proof.
  assert (flt_args_ok (replicate 43 0) 10 2 0) as Ha
    by (split; [reflexivity|split; discriminate|split; discriminate|discriminate]).
  split; [exact Ha|]. exact (fmtflt_prints (replicate 43 0) 32 ex_pi 10 2 0 Ha).
Defined.

(** [getexponent] stays within two decimal digits, and the loop bounds are real:
    its two loops stop within 99 and 198 rounds on every input, infinities included. *)
Theorem getexponent_bounded (value tmp : spec_float) (exponent : Z) (n : nat)
    (He : -99 < exponent < 99) :
  -99 ≤ getexponent value ≤ 99 ∧
  exponent_down (Z.to_nat (exponent + 99) + n) tmp exponent =
    exponent_down (Z.to_nat (exponent + 99)) tmp exponent ∧
  exponent_up (Z.to_nat (99 - exponent) + n) tmp exponent =
    exponent_up (Z.to_nat (99 - exponent)) tmp exponent.
Proof.
  split; [apply getexponent_range|].
  split; [apply exponent_down_fuel|apply exponent_up_fuel]; lia.
Qed.

Lemma getexponent_bounded_witness :
  -99 ≤ getexponent (S754_infinity false) ≤ 99 ∧
  exponent_down (Z.to_nat (0 + 99) + 5) ex_pi 0 = exponent_down (Z.to_nat (0 + 99)) ex_pi 0 ∧
  exponent_up (Z.to_nat (99 - 0) + 5) ex_pi 0 = exponent_up (Z.to_nat (99 - 0)) ex_pi 0.
Proof. apply (getexponent_bounded (S754_infinity false) ex_pi 0 5). split; reflexivity. Defined.

(** when rounding carries an [e]-style value to ten, the exponent is incremented
    past the 99 that [econvert] has room for, and its first digit is dropped:
    9.9999999e99 is printed as 1.00e+00. *)
Theorem fmtflt_exponent_lost :
  fmtflt_out_of ex_googol 0 2 PRINT_F_TYPE_E = Ok (txt "1.00e+00") ∧
  flt_start ex_googol 2 PRINT_F_TYPE_E = Ok (Some (Parts 1 0 100 2 true)).
Proof. split; vm_compute; reflexivity. Qed.
