(* ===== verification/Vsnprintf.v ===== *)
(** * The format interpreter: [o_vsnprintf] and [o_snprintf]

    The loop of [o_vsnprintf] is a step function on [vst], the function's local
    variables together with the output buffer ([sink]), the static scratch buffer, the
    arguments that are left and the stores made through [%n].  One step is one
    iteration of [while (ch != '\0') switch (state)]; it continues, or leaves through
    [goto over].  There is one definition per state, and one per case label where a
    state is large.  [format] is an offset into the format string.

    The interpreter's environment is the class [Env]: the width of [long], the
    addresses of the two buffers (for [fast_memcpy]) and the indeterminate contents of
    [iconvert].  [va_arg] checks the type of the argument it is asked for. *)

From S2P Require Import Prelude FastMemcpy Sink FmtInt AtoiTab FmtFlt.
From Stdlib Require Import SpecFloat.

#[local] Open Scope Z_scope.

(** ** Environment and arguments *)

Class Env := {
  long_width : Z;
  long_width_ok : long_width = 32 ∨ long_width = 64;
  out_base : Z;
  scratch_base : Z;
  uninit : bytes;
  uninit_ok : zlen uninit = MAX_CONVERT_LENGTH
}.

(** The integer types of the arguments ([TChar] and [TShort] only behind pointers). *)
Inductive ity := TChar | TShort | TInt | TUInt | TLong | TULong | TLLong | TULLong.

#[export] Instance ity_eq_dec : EqDecision ity.
Proof. solve_decision. Defined.

Definition ity_unsigned (t : ity) : ity :=
  match t with TInt => TUInt | TLong => TULong | TLLong => TULLong | t => t end.

Section env.
Context `{!Env}.

Definition ity_width (t : ity) : Z :=
  match t with
  | TChar => 8 | TShort => 16 | TInt | TUInt => 32 | TLong | TULong => long_width | _ => 64
  end.

(** [size_t], [ptrdiff_t] (the build falls back to [long int]), [intmax_t]. *)
Definition TSize : ity := if long_width =? 64 then TULong else TULLong.
Definition TPtrdiff : ity := TLong.
Definition TIntmax : ity := TLLong.
Definition TUIntmax : ity := TULLong.

(** An argument of the call: an integer, a double, a pointer and the object it points
    to (the null pointer has address 0), the address of an integer for [%n]. *)
Inductive arg :=
  | AInt (t : ity) (v : Z)
  | ADouble (x : spec_float)
  | APtr (addr : Z) (obj : bytes)
  | AOut (t : ity).

(** [va_arg] with an integer type: the same type, or the other signedness of it with a
    value both can represent. *)
Definition va_int (t : ity) (args : list arg) : outcome (Z * list arg) :=
  match args with
  | AInt t' v :: args =>
      check (bool_decide (t = t') ||
             (bool_decide (ity_unsigned t = ity_unsigned t') &&
              (0 <=? v) && (v <? 2 ^ (ity_width t - 1)))) VaMismatch (Ok (v, args))
  | _ => Ub VaMismatch
  end.

Definition va_double (args : list arg) : outcome (spec_float * list arg) :=
  match args with ADouble x :: args => Ok (x, args) | _ => Ub VaMismatch end.

Definition va_ptr (args : list arg) : outcome (Z * bytes * list arg) :=
  match args with APtr a o :: args => Ok (a, o, args) | _ => Ub VaMismatch end.

Definition va_out (t : ity) (args : list arg) : outcome (list arg) :=
  match args with
  | AOut t' :: args => check (bool_decide (t = t')) VaMismatch (Ok args)
  | _ => Ub VaMismatch
  end.

(** ** State *)

(** Format read states. *)
Inductive pstate :=
  | PRINT_S_DEFAULT
  | PRINT_S_FLAGS
  | PRINT_S_WIDTH
  | PRINT_S_DOT
  | PRINT_S_PRECISION
  | PRINT_S_MOD
  | PRINT_S_CONV.

(** Conversion flags. *)
Definition PRINT_C_CHAR : Z := 1.
Definition PRINT_C_SHORT : Z := 2.
Definition PRINT_C_LONG : Z := 3.
Definition PRINT_C_LLONG : Z := 4.
Definition PRINT_C_LDOUBLE : Z := 5.
Definition PRINT_C_SIZE : Z := 6.
Definition PRINT_C_PTRDIFF : Z := 7.
Definition PRINT_C_INTMAX : Z := 8.

Record vst := Vst {
  v_out : sink;              (* out and len *)
  v_scratch : bytes;         (* scratch_buffer *)
  v_stores : list (ity * Z); (* what was stored through %n, latest first *)
  v_args : list arg;
  v_format : Z;
  v_state : pstate;
  v_ch : Z;
  v_overflow : bool;
  v_base : Z; v_cflags : Z; v_flags : Z; v_width : Z; v_precision : Z
}.

Definition set_out (o : sink) (s : vst) : vst :=
  Vst o (v_scratch s) (v_stores s) (v_args s) (v_format s) (v_state s) (v_ch s)
    (v_overflow s) (v_base s) (v_cflags s) (v_flags s) (v_width s) (v_precision s).
Definition set_scratch (x : bytes) (s : vst) : vst :=
  Vst (v_out s) x (v_stores s) (v_args s) (v_format s) (v_state s) (v_ch s)
    (v_overflow s) (v_base s) (v_cflags s) (v_flags s) (v_width s) (v_precision s).
Definition add_store (t : ity) (v : Z) (s : vst) : vst :=
  Vst (v_out s) (v_scratch s) ((t, v) :: v_stores s) (v_args s) (v_format s) (v_state s)
    (v_ch s) (v_overflow s) (v_base s) (v_cflags s) (v_flags s) (v_width s) (v_precision s).
Definition set_args (a : list arg) (s : vst) : vst :=
  Vst (v_out s) (v_scratch s) (v_stores s) a (v_format s) (v_state s) (v_ch s)
    (v_overflow s) (v_base s) (v_cflags s) (v_flags s) (v_width s) (v_precision s).
Definition set_format (f : Z) (s : vst) : vst :=
  Vst (v_out s) (v_scratch s) (v_stores s) (v_args s) f (v_state s) (v_ch s)
    (v_overflow s) (v_base s) (v_cflags s) (v_flags s) (v_width s) (v_precision s).
Definition set_state (p : pstate) (s : vst) : vst :=
  Vst (v_out s) (v_scratch s) (v_stores s) (v_args s) (v_format s) p (v_ch s)
    (v_overflow s) (v_base s) (v_cflags s) (v_flags s) (v_width s) (v_precision s).
Definition set_ch (c : Z) (s : vst) : vst :=
  Vst (v_out s) (v_scratch s) (v_stores s) (v_args s) (v_format s) (v_state s) c
    (v_overflow s) (v_base s) (v_cflags s) (v_flags s) (v_width s) (v_precision s).
Definition set_overflow (b : bool) (s : vst) : vst :=
  Vst (v_out s) (v_scratch s) (v_stores s) (v_args s) (v_format s) (v_state s) (v_ch s)
    b (v_base s) (v_cflags s) (v_flags s) (v_width s) (v_precision s).
Definition set_base (b : Z) (s : vst) : vst :=
  Vst (v_out s) (v_scratch s) (v_stores s) (v_args s) (v_format s) (v_state s) (v_ch s)
    (v_overflow s) b (v_cflags s) (v_flags s) (v_width s) (v_precision s).
Definition set_cflags (c : Z) (s : vst) : vst :=
  Vst (v_out s) (v_scratch s) (v_stores s) (v_args s) (v_format s) (v_state s) (v_ch s)
    (v_overflow s) (v_base s) c (v_flags s) (v_width s) (v_precision s).
Definition add_flags (f : Z) (s : vst) : vst :=
  Vst (v_out s) (v_scratch s) (v_stores s) (v_args s) (v_format s) (v_state s) (v_ch s)
    (v_overflow s) (v_base s) (v_cflags s) (Z.lor (v_flags s) f) (v_width s) (v_precision s).
Definition set_width (w : Z) (s : vst) : vst :=
  Vst (v_out s) (v_scratch s) (v_stores s) (v_args s) (v_format s) (v_state s) (v_ch s)
    (v_overflow s) (v_base s) (v_cflags s) (v_flags s) w (v_precision s).
Definition set_precision (p : Z) (s : vst) : vst :=
  Vst (v_out s) (v_scratch s) (v_stores s) (v_args s) (v_format s) (v_state s) (v_ch s)
    (v_overflow s) (v_base s) (v_cflags s) (v_flags s) (v_width s) p.
(** [base = cflags = flags = width = 0; precision = -1;] *)
Definition reset_spec (s : vst) : vst :=
  Vst (v_out s) (v_scratch s) (v_stores s) (v_args s) (v_format s) (v_state s) (v_ch s)
    (v_overflow s) 0 0 0 0 (-1).

(** An iteration of the loop continues with the next one, or jumps to [over]. *)
Inductive next := Continue (s : vst) | Over (s : vst).

(** ** The steps *)

Context (format : bytes) (size : Z).

(** [ch = *format++;] *)
Definition advance (s : vst) : outcome vst :=
  c ← load1 (v_format s) format;
  Ok (set_format (v_format s + 1) (set_ch c s)).

Definition continue (m : outcome vst) : outcome next := s ← m; Ok (Continue s).

(** [state = PRINT_S_DEFAULT; ch = *format++; break;] *)
Definition to_default (s : vst) : outcome next :=
  continue (advance (set_state PRINT_S_DEFAULT s)).

Definition s_outchar (ch : Z) (s : vst) : outcome vst :=
  o ← OUTCHAR size (v_out s) ch; Ok (set_out o s).

Definition step_default (s : vst) : outcome next :=
  s ← (if v_ch s =? chr "%" then Ok (set_state PRINT_S_FLAGS s) else s_outchar (v_ch s) s);
  continue (advance s).

(** *** The fast paths of PRINT_S_FLAGS *)

(** [out[len++] = c;] *)
Definition put_char (c : Z) (o : sink) : outcome sink :=
  buf ← store (s_len o) [c] (s_buf o); Ok (Sink buf (s_len o + 1)).

(** [case 'c':] *)
Definition case_c (s : vst) : outcome next :=
  '(v, args) ← va_int TInt (v_args s);
  let s := set_args args s in
  o ← (if s_len (v_out s) + 1 <? size then put_char (u8 v) (v_out s) else Ok (v_out s));
  to_default (set_out o s).

(** [while ('\0' != *v && len + 1 < size) { out[len++] = *v++; }] *)
Fixpoint copy_str (fuel : nat) (v : bytes) (i : Z) (o : sink) : outcome sink :=
  match fuel with
  | O => Ub NoFuel
  | S fuel =>
      c ← load1 i v;
      if negb (c =? 0) && (s_len o + 1 <? size) then
        o ← put_char c o; copy_str fuel v (i + 1) o
      else Ok o
  end.

(** [case 's':] *)
Definition case_s (s : vst) : outcome next :=
  '(addr, obj, args) ← va_ptr (v_args s);
  let s := set_args args s in
  check (negb (addr =? 0)) NullDeref (
    o ← copy_str (S (length obj)) obj 0 (v_out s);
    to_default (set_out o s)).

(** The part that the six decimal paths have in common, for the type [t] of [v1].
    [skip] is how far [format] is moved behind the conversion; the path of the value 0
    does not move it. *)
Definition norm_of (t : ity) : Z → Z :=
  match t with
  | TChar | TShort | TInt | TLong | TLLong => wraps (ity_width t)
  | _ => wrapu (ity_width t)
  end.

Definition fast_decimal (t : ity) (skip : Z) (s : vst) : outcome next :=
  '(v1, args) ← va_int t (v_args s);
  let s := set_args args s in
  let v1 := norm_of t v1 in
  if size <=? s_len (v_out s) + 1 then Ok (Over s)
  else if v1 =? 0 then
    o ← put_char (chr "0") (v_out s);
    to_default (set_out o s)
  else
    '(o, v1) ← (if v1 <? 0 then
                  o ← put_char (chr "-") (v_out s); Ok (o, norm_of t (- v1))
                else Ok (v_out s, v1));
    '(scratch, p) ← fast_itoa (norm_of t) (v_scratch s) v1;
    o ← put_scratch out_base scratch_base size o scratch p;
    to_default (set_format (v_format s + skip) (set_scratch scratch (set_out o s))).

Definition case_d (s : vst) : outcome next := fast_decimal TInt 0 s.
Definition case_u (s : vst) : outcome next := fast_decimal TUInt 0 s.
Definition case_ld (s : vst) : outcome next := fast_decimal TLong 1 s.
Definition case_lu (s : vst) : outcome next := fast_decimal TULong 1 s.
Definition case_lld (s : vst) : outcome next := fast_decimal TLLong 2 s.
Definition case_llu (s : vst) : outcome next := fast_decimal TULLong 2 s.

Definition is_di (c : Z) : bool := (c =? chr "d") || (c =? chr "i").

(** [case 'l':] looks ahead; the second character is read only behind an [l]. *)
Definition case_l (s : vst) : outcome next :=
  c0 ← load1 (v_format s) format;
  if is_di c0 then case_ld s
  else if c0 =? chr "u" then case_lu s
  else
    c1 ← (if c0 =? chr "l" then load1 (v_format s + 1) format else Ok 0);
    if (c0 =? chr "l") && is_di c1 then case_lld s
    else if (c0 =? chr "l") && (c1 =? chr "u") then case_llu s
    else Ok (Continue (set_state PRINT_S_WIDTH s)).

(** [case 'N':] *)
Definition case_N (s : vst) : outcome next :=
  '(v1, args) ← va_int TUInt (v_args s);
  let s := set_args args s in
  let ap := u32 (Z.shiftl (u32 v1) 2) in
  o ← (if s_len (v_out s) + 3 <? size then
         c ← load1 ap atoi_tab; o ← put_char c (v_out s);
         c ← load1 (ap + 1) atoi_tab; o ← put_char c o;
         c ← load1 (ap + 2) atoi_tab; put_char c o
       else Ok (v_out s));
  to_default (set_out o s).

Definition step_flags (s : vst) : outcome next :=
  let ch := v_ch s in
  if ch =? chr "-" then continue (advance (add_flags PRINT_F_MINUS s))
  else if ch =? chr "+" then continue (advance (add_flags PRINT_F_PLUS s))
  else if ch =? chr " " then continue (advance (add_flags PRINT_F_SPACE s))
  else if ch =? chr "#" then continue (advance (add_flags PRINT_F_NUM s))
  else if ch =? chr "0" then continue (advance (add_flags PRINT_F_ZERO s))
  else if ch =? chr "'" then continue (advance (add_flags PRINT_F_QUOTE s))
  else if ch =? chr "c" then case_c s
  else if ch =? chr "s" then case_s s
  else if is_di ch then case_d s
  else if ch =? chr "u" then case_u s
  else if ch =? chr "l" then case_l s
  else if ch =? chr "N" then case_N s
  else Ok (Continue (set_state PRINT_S_WIDTH s)).

(** *** Width, precision, modifier *)

Definition ISDIGIT (ch : Z) : bool := (chr "0" <=? ch) && (ch <=? chr "9").
Definition CHARTOINT (ch : Z) : Z := ch - chr "0".

Definition step_width (s : vst) : outcome next :=
  if ISDIGIT (v_ch s) then
    let ch := CHARTOINT (v_ch s) in
    if (INT_MAX - ch) / 10 <? v_width s then Ok (Over (set_overflow true (set_ch ch s)))
    else continue (advance (set_width (10 * v_width s + ch) (set_ch ch s)))
  else if v_ch s =? chr "*" then
    '(w, args) ← va_int TInt (v_args s);
    let s := set_args args s in
    let s := if w <? 0 then set_width (s32 (- w)) (add_flags PRINT_F_MINUS s)
             else set_width w s in
    s ← advance s;
    Ok (Continue (set_state PRINT_S_DOT s))
  else Ok (Continue (set_state PRINT_S_DOT s)).

Definition step_dot (s : vst) : outcome next :=
  if v_ch s =? chr "." then continue (advance (set_state PRINT_S_PRECISION s))
  else Ok (Continue (set_state PRINT_S_MOD s)).

Definition step_precision (s : vst) : outcome next :=
  let s := if v_precision s =? -1 then set_precision 0 s else s in
  if ISDIGIT (v_ch s) then
    let ch := CHARTOINT (v_ch s) in
    if (INT_MAX - ch) / 10 <? v_precision s then Ok (Over (set_overflow true (set_ch ch s)))
    else continue (advance (set_precision (10 * v_precision s + ch) (set_ch ch s)))
  else if v_ch s =? chr "*" then
    '(p, args) ← va_int TInt (v_args s);
    let s := set_args args s in
    let s := set_precision (if p <? 0 then -1 else p) s in
    s ← advance s;
    Ok (Continue (set_state PRINT_S_MOD s))
  else Ok (Continue (set_state PRINT_S_MOD s)).

Definition step_mod (s : vst) : outcome next :=
  let ch := v_ch s in
  s ← (if ch =? chr "h" then
         s ← advance s;
         if v_ch s =? chr "h" then s ← advance s; Ok (set_cflags PRINT_C_CHAR s)
         else Ok (set_cflags PRINT_C_SHORT s)
       else if ch =? chr "l" then
         s ← advance s;
         if v_ch s =? chr "l" then s ← advance s; Ok (set_cflags PRINT_C_LLONG s)
         else Ok (set_cflags PRINT_C_LONG s)
       else if ch =? chr "L" then advance (set_cflags PRINT_C_LDOUBLE s)
       else if ch =? chr "j" then advance (set_cflags PRINT_C_INTMAX s)
       else if ch =? chr "t" then advance (set_cflags PRINT_C_PTRDIFF s)
       else if ch =? chr "z" then advance (set_cflags PRINT_C_SIZE s)
       else Ok s);
  Ok (Continue (set_state PRINT_S_CONV s)).

(** *** PRINT_S_CONV *)

(** [case 'd': case 'i':] the value, by modifier. *)
Definition conv_signed_arg (s : vst) : outcome (Z * list arg) :=
  let c := v_cflags s in
  if c =? PRINT_C_CHAR then '(v, a) ← va_int TInt (v_args s); Ok (s8 v, a)
  else if c =? PRINT_C_SHORT then '(v, a) ← va_int TInt (v_args s); Ok (s16 v, a)
  else if c =? PRINT_C_LONG then va_int TLong (v_args s)
  else if c =? PRINT_C_LLONG then va_int TLLong (v_args s)
  else if c =? PRINT_C_SIZE then '(v, a) ← va_int TSize (v_args s); Ok (s64 v, a)
  else if c =? PRINT_C_INTMAX then va_int TIntmax (v_args s)
  else if c =? PRINT_C_PTRDIFF then va_int TPtrdiff (v_args s)
  else va_int TInt (v_args s).

(** The value of an unsigned conversion, as an [INTMAX_T]. *)
Definition conv_unsigned_arg (s : vst) : outcome (Z * list arg) :=
  let c := v_cflags s in
  if c =? PRINT_C_CHAR then '(v, a) ← va_int TUInt (v_args s); Ok (u8 v, a)
  else if c =? PRINT_C_SHORT then '(v, a) ← va_int TUInt (v_args s); Ok (u16 v, a)
  else if c =? PRINT_C_LONG then '(v, a) ← va_int TULong (v_args s); Ok (s64 v, a)
  else if c =? PRINT_C_LLONG then '(v, a) ← va_int TULLong (v_args s); Ok (s64 v, a)
  else if c =? PRINT_C_SIZE then '(v, a) ← va_int TSize (v_args s); Ok (s64 v, a)
  else if c =? PRINT_C_INTMAX then '(v, a) ← va_int TUIntmax (v_args s); Ok (s64 v, a)
  else if c =? PRINT_C_PTRDIFF then va_int TPtrdiff (v_args s)
  else va_int TUInt (v_args s).

(** [fmtint (out, &len, size, value, base, width, precision, flags)] *)
Definition call_fmtint (value base : Z) (s : vst) : outcome vst :=
  o ← fmtint size (v_out s) value base (v_width s) (v_precision s) (v_flags s);
  Ok (set_out o s).

Definition conv_d (s : vst) : outcome vst :=
  '(value, args) ← conv_signed_arg s;
  call_fmtint value 10 (set_args args s).

(** [case 'X': case 'x': case 'o': case 'u':], with their fall-throughs. *)
Definition conv_unsigned (s : vst) : outcome vst :=
  let ch := v_ch s in
  let s := if ch =? chr "X" then add_flags PRINT_F_UP s else s in
  let s := if (ch =? chr "X") || (ch =? chr "x") then set_base 16 s else s in
  let s := if negb (ch =? chr "u") && (v_base s =? 0) then set_base 8 s else s in
  let s := if v_base s =? 0 then set_base 10 s else s in
  let s := add_flags PRINT_F_UNSIGNED s in
  '(value, args) ← conv_unsigned_arg s;
  call_fmtint value (v_base s) (set_args args s).

(** [case 'A': case 'F': case 'a': case 'f':], [case 'E': case 'e':] and
    [case 'G': case 'g':]; LDOUBLE is [double]. *)
Definition conv_float (s : vst) : outcome vst :=
  let ch := v_ch s in
  let s := if (ch =? chr "A") || (ch =? chr "F") || (ch =? chr "E") || (ch =? chr "G")
           then add_flags PRINT_F_UP s else s in
  let s := if (ch =? chr "E") || (ch =? chr "e") then add_flags PRINT_F_TYPE_E s
           else if (ch =? chr "G") || (ch =? chr "g") then add_flags PRINT_F_TYPE_G s
           else s in
  '(fvalue, args) ← va_double (v_args s);
  let s := set_args args s in
  let s := if ((ch =? chr "G") || (ch =? chr "g")) && (v_precision s =? 0)
           then set_precision 1 s else s in
  '(o, overflow) ← fmtflt uninit size (v_out s) fvalue (v_width s) (v_precision s) (v_flags s);
  Ok (set_overflow overflow (set_out o s)).

(** [case 'c':] *)
Definition conv_c (s : vst) : outcome vst :=
  '(v, args) ← va_int TInt (v_args s);
  s_outchar (u8 v) (set_args args s).

(** [case 's':] *)
Definition conv_s (s : vst) : outcome vst :=
  '(addr, obj, args) ← va_ptr (v_args s);
  o ← fmtstr size (v_out s) (if addr =? 0 then None else Some obj)
        (v_width s) (v_precision s) (v_flags s);
  Ok (set_out o (set_args args s)).

(** [case 'p':] *)
Definition conv_p (s : vst) : outcome vst :=
  '(addr, obj, args) ← va_ptr (v_args s);
  let s := set_args args s in
  if addr =? 0 then
    o ← fmtstr size (v_out s) (Some (cstr "(nil)")) (v_width s) (-1) (v_flags s);
    Ok (set_out o s)
  else call_fmtint (s64 addr) 16 (add_flags PRINT_F_UNSIGNED (add_flags PRINT_F_NUM s)).

(** [case 'n':] what is stored, in the type of the modifier. *)
Definition conv_n (s : vst) : outcome vst :=
  let c := v_cflags s in
  let len := s_len (v_out s) in
  let '(t, v) :=
    if c =? PRINT_C_CHAR then (TChar, s8 len)
    else if c =? PRINT_C_SHORT then (TShort, s16 len)
    else if c =? PRINT_C_LONG then (TLong, wraps long_width len)
    else if c =? PRINT_C_LLONG then (TLLong, s64 len)
    else if c =? PRINT_C_SIZE then (TSize, u64 len)
    else if c =? PRINT_C_INTMAX then (TIntmax, s64 len)
    else if c =? PRINT_C_PTRDIFF then (TPtrdiff, wraps long_width len)
    else (TInt, s32 len) in
  args ← va_out t (v_args s);
  Ok (add_store t v (set_args args s)).

Definition is_float_conv (c : Z) : bool :=
  existsb (Z.eqb c) (txt "AFafEeGg").

Definition step_conv (s : vst) : outcome next :=
  let ch := v_ch s in
  s ← (if is_di ch then conv_d s
       else if existsb (Z.eqb ch) (txt "Xxou") then conv_unsigned s
       else if is_float_conv ch then conv_float s
       else if ch =? chr "c" then conv_c s
       else if ch =? chr "s" then conv_s s
       else if ch =? chr "p" then conv_p s
       else if ch =? chr "n" then conv_n s
       else if ch =? chr "%" then s_outchar ch s
       else Ok s);
  if is_float_conv ch && v_overflow s then Ok (Over s)
  else
    s ← advance s;
    Ok (Continue (reset_spec (set_state PRINT_S_DEFAULT s))).

(** ** The loop and the end *)

Definition vstep (s : vst) : outcome next :=
  match v_state s with
  | PRINT_S_DEFAULT => step_default s
  | PRINT_S_FLAGS => step_flags s
  | PRINT_S_WIDTH => step_width s
  | PRINT_S_DOT => step_dot s
  | PRINT_S_PRECISION => step_precision s
  | PRINT_S_MOD => step_mod s
  | PRINT_S_CONV => step_conv s
  end.

Fixpoint vloop (fuel : nat) (s : vst) : outcome vst :=
  if v_ch s =? 0 then Ok s
  else
    match fuel with
    | O => Ub NoFuel
    | S fuel =>
        r ← vstep s;
        match r with Continue s => vloop fuel s | Over s => Ok s end
    end.

(** [over:] and the return value. *)
Definition vfinish (s : vst) : outcome (vst * Z) :=
  let len := s_len (v_out s) in
  buf ← (if len <? size then store len [0] (s_buf (v_out s))
         else if 0 <? size then store (size - 1) [0] (s_buf (v_out s))
         else Ok (s_buf (v_out s)));
  let s := set_out (Sink buf len) s in
  if v_overflow s || (INT_MAX <=? len) then Ok (s, -1) else Ok (s, s32 len).

(** Seven states, at most one round in each of them per character of the format. *)
Definition vfuel : nat := 8 * S (length format).

Definition vinit (str scratch : bytes) (args : list arg) : vst :=
  Vst (Sink str 0) scratch [] args 0 PRINT_S_DEFAULT 0 false 0 0 0 0 (-1).
End env.

(** [str = None] is the null pointer.  The result is the final state (buffer, scratch
    buffer, stores) and the return value. *)
Definition o_vsnprintf `{!Env} (str : option bytes) (size : Z) (format scratch : bytes)
    (args : list arg) : outcome (vst * Z) :=
  let out := match str with Some b => b | None => [] end in
  s ← advance format (vinit out scratch args);
  if bool_decide (str = None) || (size =? 0) then Ok (s, 0)
  else
    s ← vloop format size (vfuel format) s;
    vfinish size s.

Definition o_snprintf `{!Env} (str : option bytes) (size : Z) (format scratch : bytes)
    (args : list arg) : outcome (vst * Z) :=
  o_vsnprintf str size format scratch args.
