(* ===== verification/VsnprintfSafe.v ===== *)
(** * Safety and termination of the formatter

    For every NUL-terminated format and every argument list: [o_vsnprintf] terminates,
    never stores at or behind [size], never runs [fast_memcpy] out of bounds, and leaves
    a NUL-terminated buffer.  The format is read up to its NUL and no further.  With
    [harmless] arguments nothing else is read out of bounds either; the arguments that
    are not are null pointers, strings without a NUL, the most negative value of a type
    (its [%d] looks behind the table) and, for a format with an [N], values above 999.
    What remains is a [va_arg] that does not find an argument of its type.

    The lemmas are about the faults [T] a run may end with: [fine] says that the
    arguments are harmless, or that [T] contains the faults of reading.  [good] is the
    contract of a step: from [vok] it reaches [vok] and decreases [measure], the
    characters of the format that are left and the states to go. *)

From S2P Require Import Prelude FastMemcpy Sink FmtInt AtoiTab FmtFlt Vsnprintf.
From Stdlib Require Import SpecFloat.

#[local] Open Scope Z_scope.

(** ** Arguments *)

(** The values of a type, less the most negative one. *)
Definition lowest `{!Env} (t : ity) : Z :=
  match t with
  | TChar | TShort | TInt | TLong | TLLong => - 2 ^ (ity_width t - 1) | _ => -1
  end.

Definition highest `{!Env} (t : ity) : Z :=
  match t with
  | TChar | TShort | TInt | TLong | TLLong => 2 ^ (ity_width t - 1) | _ => 2 ^ ity_width t
  end.

(** An argument no conversion of [format] reads out of bounds for: an integer of its
    type that is not the most negative value, and below 1000 if the format has an [N];
    a pointer that is not null, to an object with a NUL. *)
Definition harmless `{!Env} (format : bytes) (a : arg) : Prop :=
  match a with
  | AInt t v => lowest t < v < highest t ∧ (In (chr "N") format → v < 1000)
  | APtr addr obj => addr ≠ 0 ∧ In 0 obj
  | _ => True
  end.

Section safety.
Context (size : Z) (buf0 : bytes) (Hsize : 0 < size ≤ zlen buf0).
Context (T : ub → Prop).

Abbreviation safe := (faults_in T).

(** The buffer is as long as before and untouched from [size] on. *)
Record sink_in (o : sink) : Prop := {
  si_len : length (s_buf o) = length buf0;
  si_rest : drop (Z.to_nat size) (s_buf o) = drop (Z.to_nat size) buf0;
  si_pos : 0 ≤ s_len o
}.

Abbreviation safe_sink m := (safe m sink_in).

Lemma sink_in_put o off d :
  sink_in o → 0 ≤ off → off + zlen d ≤ size → ∀ len, 0 ≤ len →
  sink_in (Sink (put_at off d (s_buf o)) len).
Proof.
  intros [Hl Hr Hp] Ho Hd len Hlen. split; [|rewrite <- Hr|done].
  - cbn. by rewrite length_put_at by lia.
  - apply list_eq. intros i. cbn. rewrite !lookup_drop, lookup_put_at by lia.
    case_decide; [lia|done].
Qed.

Lemma safe_store o off d :
  sink_in o → 0 ≤ off → off + zlen d ≤ size →
  store off d (s_buf o) = Ok (put_at off d (s_buf o)).
Proof. intros [Hl _ _] ??. apply store_Ok; lia. Qed.

Lemma safe_OUTCHAR o c : sink_in o → safe_sink (OUTCHAR size o c).
Proof.
  intros Ho. pose proof (si_pos _ Ho). unfold OUTCHAR. destruct (Z.ltb_spec (s_len o + 1) size).
  - rewrite safe_store by (cbn; done || lia). apply sink_in_put; cbn; done || lia.
  - destruct Ho. split; cbn; done || lia.
Qed.

Lemma safe_put_char o c : sink_in o → s_len o + 1 ≤ size → safe_sink (put_char c o).
Proof.
  intros Ho Hl. pose proof (si_pos _ Ho). unfold put_char.
  rewrite safe_store by (cbn; done || lia). apply sink_in_put; cbn; done || lia.
Qed.

Lemma safe_fill o c n : sink_in o → safe_sink (out_fill size o c n).
Proof.
  revert o. induction n as [|n IH]; intros o Ho; [done|].
  eapply faults_in_bind; [by apply safe_OUTCHAR|]. auto.
Qed.

Lemma safe_sink_if (b : bool) m o : sink_in o → safe_sink m → safe_sink (if b then m else Ok o).
Proof. by destruct b. Qed.

Hint Resolve safe_OUTCHAR safe_fill safe_sink_if : csem.

(** *** fmtstr *)

(** From [i] on there is a NUL in [v], or [prc] characters can be read, or reading may
    fail. *)
Definition str_ok (v : bytes) (nop : bool) (prc i : Z) : Prop :=
  In 0 (drop (Z.to_nat i) v) ∨ nop = false ∧ 0 ≤ prc < zlen v - i ∨ T OobRead.

Lemma str_ok_at v nop prc i : 0 ≤ i → str_ok v nop prc i → 0 ≤ i < zlen v ∨ T OobRead.
Proof.
  intros Hi [H|[[_ H]|H]]; [left|left; lia|by right]. destruct (drop (Z.to_nat i) v) eqn:E; [done|].
  apply (f_equal length) in E. rewrite length_drop in E. cbn in E. lia.
Qed.

Lemma nul_step v i c :
  0 ≤ i → v !! Z.to_nat i = Some c → c ≠ 0 →
  In 0 (drop (Z.to_nat i) v) → In 0 (drop (Z.to_nat (i + 1)) v).
Proof.
  intros Hi Hc Hn H. rewrite (drop_S _ _ _ Hc) in H. destruct H as [|H]; [done|].
  by replace (Z.to_nat (i + 1)) with (S (Z.to_nat i)) by lia.
Qed.

Lemma str_ok_step v (nop : bool) prc i c :
  0 ≤ i → v !! Z.to_nat i = Some c → negb (c =? 0) && (nop || (0 <? prc)) = true →
  str_ok v nop prc i → str_ok v nop (if nop then prc else prc - 1) (i + 1).
Proof.
  intros Hi Hc Hif [H|[[-> H]|H]]; apply andb_prop in Hif; destruct Hif as [Hz Hp].
  - left. apply nul_step with c; try done. intros ->. done.
  - right. left. cbn in Hp. zbool. split; [done|lia].
  - by right; right.
Qed.

Lemma safe_fmtstr_len v nop prc fuel i :
  0 ≤ i ≤ zlen v → zlen v < i + Z.of_nat fuel → str_ok v nop (prc - i) i →
  safe (fmtstr_len v nop prc fuel i) (λ _, True).
Proof.
  revert i. induction fuel as [|fuel IH]; intros i Hi Hf Hs; [lia|]. cbn [fmtstr_len].
  eapply faults_in_bind; [apply faults_in_load1; eapply str_ok_at; done || lia|].
  intros c [Hc Hv]. destruct (_ && _) eqn:Hif; [|done]. apply IH; [lia|lia|].
  pose proof (str_ok_step v nop (prc - i) i c ltac:(lia) Hv) as H. destruct nop; cbn in *.
  - destruct H as [|[[? _]|]]; try done; [by left|by right; right].
  - replace (prc - (i + 1)) with (prc - i - 1) by lia. apply H; [|done].
    destruct (negb (c =? 0)); [|done]. cbn in *. zbool. lia.
Qed.

Lemma safe_fmtstr_copy v nop fuel i prc o :
  sink_in o → 0 ≤ i ≤ zlen v → zlen v < i + Z.of_nat fuel → str_ok v nop prc i →
  safe_sink (fmtstr_copy size o v nop fuel i prc).
Proof.
  revert i prc o. induction fuel as [|fuel IH]; intros i prc o Ho Hi Hf Hs; [lia|].
  cbn [fmtstr_copy].
  eapply faults_in_bind; [apply faults_in_load1; eapply str_ok_at; done || lia|]. intros c [Hc Hv].
  destruct (_ && _) eqn:Hif; [|done]. eapply faults_in_bind; [by apply safe_OUTCHAR|].
  intros o' Ho'. apply IH; [done|lia|lia|apply str_ok_step with c; done || lia].
Qed.

Lemma safe_fmtstr o value width prc flags :
  sink_in o → match value with Some v => str_ok v (prc =? -1) prc 0 | None => True end →
  safe_sink (fmtstr size o value width prc flags).
Proof.
  intros Ho Hv. unfold fmtstr. set (v := match value with Some v => v | None => _ end).
  assert (str_ok v (prc =? -1) prc 0) as Hs.
  { destruct value; [done|]. left. vm_compute. tauto. }
  eapply faults_in_bind; [apply safe_fmtstr_len; [lia|lia|by rewrite Z.sub_0_r]|]. intros n _.
  cbv zeta. eapply faults_in_bind; [by apply safe_fill|]. intros o1 Ho1.
  eapply faults_in_bind; [apply safe_fmtstr_copy; [done|lia|lia|done]|]. intros o2 Ho2.
  by apply safe_fill.
Qed.

(** *** fmtint *)

Lemma safe_convert_loop v base digits n fuel pos :
  (0 < fuel)%nat → n = pos + Z.of_nat fuel → 0 < base ≤ zlen digits →
  safe (convert_loop v base digits n fuel pos) (λ ds, (length ds ≤ fuel)%nat).
Proof.
  revert v pos. induction fuel as [|fuel IH]; intros v pos Hf Hn Hb; [lia|]. cbn [convert_loop].
  pose proof (Z.mod_pos_bound v base).
  eapply faults_in_bind; [apply faults_in_load1; lia|]. intros c _. cbv zeta.
  destruct (negb (v / base =? 0)); cbn [andb]; [|cbn; lia].
  destruct (Z.ltb_spec (pos + 1) n); [|cbn; lia].
  eapply faults_in_bind; [apply IH; lia|]. intros rest Hr. cbn in *. lia.
Qed.

Lemma safe_convert v n base caps :
  0 < n → 0 < base ≤ 16 → safe (convert v n base caps) (λ ds, zlen ds ≤ n).
Proof.
  intros Hn Hb. unfold convert. fold (digit_table caps).
  assert (zlen (digit_table caps) = 16) by (by destruct caps).
  eapply faults_in_mono; [apply safe_convert_loop; lia|].
  intros ds Hds. cbv beta in Hds. lia.
Qed.

Lemma safe_out_digits o ds seps pos :
  sink_in o → (pos ≤ length ds)%nat → safe_sink (out_digits size o ds seps pos).
Proof.
  revert o. induction pos as [|pos IH]; intros o Ho Hp; [done|]. cbn [out_digits].
  eapply faults_in_bind; [apply faults_in_load1; lia|]. intros c _.
  eapply faults_in_bind; [by apply safe_OUTCHAR|]. intros o1 Ho1.
  eapply faults_in_bind; [apply safe_sink_if; [done|by apply safe_OUTCHAR]|]. auto with lia.
Qed.

Lemma safe_fmtint o v base width prc flags :
  sink_in o → 0 < base ≤ 16 → safe_sink (fmtint size o v base width prc flags).
Proof.
  intros Ho Hb. unfold fmtint. eapply faults_in_bind; [by apply safe_convert|]. intros ds _. cbv zeta.
  destruct (if has flags PRINT_F_NUM && _ then _ else _) as [prc' hex].
  destruct (if has flags PRINT_F_MINUS then _ else _) as [spad zpad]. unfold fmtint_out.
  eapply faults_in_bind; [by apply safe_fill|]. intros o1 Ho1.
  eapply faults_in_bind; [by auto with csem|]. intros o2 Ho2.
  eapply faults_in_bind.
  { apply safe_sink_if; [done|]. eapply faults_in_bind; [by apply safe_OUTCHAR|]. auto with csem. }
  intros o3 Ho3. eapply faults_in_bind; [by apply safe_fill|]. intros o4 Ho4.
  eapply faults_in_bind; [by apply safe_out_digits|]. intros o5 Ho5. by apply safe_fill.
Qed.

(** *** fmtflt *)

Lemma flt_parts_terminates fvalue flags prc e estyle :
  ∃ r, flt_parts 2 fvalue flags prc e estyle = Ok r.
Proof.
  cbn [flt_parts]. set (uf := if estyle then _ else _).
  destruct (cast uf =? UINTMAX_MAX); [eauto|].
  destruct (if _ <=? _ then _ else _) as [[i f] e'].
  destruct (has flags PRINT_F_TYPE_G && estyle && _ && _); [|eauto].
  destruct (cast _ =? UINTMAX_MAX); [eauto|].
  destruct (if _ <=? _ then _ else _) as [[i' f'] e''].
  rewrite andb_false_r. cbn [andb]. eauto.
Qed.

Lemma safe_out_rev o l omit pos :
  sink_in o → (pos ≤ length l)%nat → safe_sink (out_rev size o l omit pos).
Proof.
  revert o. induction pos as [|pos IH]; intros o Ho Hp; [done|]. cbn [out_rev].
  destruct (_ <? _); [|done]. eapply faults_in_bind; [apply faults_in_load1; lia|]. intros c _.
  eapply faults_in_bind; [by apply safe_OUTCHAR|]. auto with lia.
Qed.

Lemma safe_flt_exponent p flags : safe (flt_exponent p flags) (λ _, True).
Proof.
  unfold flt_exponent. destruct (p_estyle p); [|done].
  destruct (if p_exponent p <? 0 then _ else _) as [e sg].
  eapply faults_in_bind; [by apply safe_convert|]. intros ds Hds. cbv zeta beta in *.
  rewrite check_true; [done|]. apply Z.leb_le.
  rewrite !length_app. destruct (Z.eqb_spec (zlen ds) 1); rewrite ?length_app; cbn [length]; lia.
Qed.

Lemma safe_flt_digits p oz : safe (flt_digits p oz) (λ _, True).
Proof.
  unfold flt_digits. eapply (faults_in_bind T _ _ (λ _, True)).
  - destruct (negb _); [|done]. eapply faults_in_mono; [by apply safe_convert|done].
  - intros fc _. cbv zeta. destruct oz; [|done]. by destruct (_ <? _).
Qed.

Lemma safe_flt_out o width flags sign seps point ic fc ec omit lead prc :
  sink_in o → safe_sink (flt_out size o width flags sign seps point ic fc ec omit lead prc).
Proof.
  intros Ho. unfold flt_out. cbv zeta.
  eapply (faults_in_bind T _ _ (λ '(o, _, _), sink_in o)).
  { destruct (has flags PRINT_F_MINUS); [done|]. destruct (_ && _); [|done].
    eapply faults_in_bind; [by auto with csem|]. intros o1 Ho1.
    eapply faults_in_bind; [by apply safe_fill|]. by intros o2 Ho2. }
  intros [[o1 pad] sg] Ho1. unfold flt_tail.
  eapply faults_in_bind; [by apply safe_fill|]. intros o2 Ho2.
  eapply faults_in_bind; [by auto with csem|]. intros o3 Ho3.
  eapply faults_in_bind; [by apply safe_out_digits|]. intros o4 Ho4.
  eapply faults_in_bind; [by auto with csem|]. intros o5 Ho5.
  eapply faults_in_bind; [by apply safe_fill|]. intros o6 Ho6.
  eapply faults_in_bind; [by apply safe_out_rev|]. intros o7 Ho7.
  eapply faults_in_bind; [by apply safe_out_rev|]. intros o8 Ho8. by apply safe_fill.
Qed.

Lemma safe_fmtflt un o x width prc flags :
  zlen un = MAX_CONVERT_LENGTH → sink_in o →
  safe (fmtflt un size o x width prc flags) (λ '(o, _), sink_in o).
Proof.
  intros Hu Ho. unfold fmtflt. cbv zeta. destruct (flt_infnan x flags) as [t|] eqn:Hi.
  { pose proof (infnan_text x flags t Hi) as [_ Hl]. unfold sign_text in Hl.
    unfold MAX_CONVERT_LENGTH in Hu. rewrite store_Ok by lia. cbn [mbind outcome_bind].
    eapply faults_in_bind; [apply safe_fmtstr; [done|]|by intros o1 Ho1].
    right. left. rewrite (proj2 (Z.eqb_neq _ _)) by lia. rewrite length_put_at by lia. lia. }
  destruct (flt_parts_terminates x flags
    (if has flags PRINT_F_TYPE_G then (if prc =? -1 then 6 else prc) - 1
     else if prc =? -1 then 6 else prc)
    (if has flags PRINT_F_TYPE_E || has flags PRINT_F_TYPE_G then getexponent x else 0)
    (has flags PRINT_F_TYPE_E || has flags PRINT_F_TYPE_G)) as [[p|] ->]; [|done].
  cbn [mbind outcome_bind].
  eapply faults_in_bind; [apply safe_flt_exponent|]. intros ec _.
  eapply faults_in_bind; [by apply safe_convert|]. intros ic _.
  eapply faults_in_bind; [apply safe_flt_digits|]. intros [[[fc omit] lead] prc'] _.
  eapply faults_in_bind; [by apply safe_flt_out|]. by intros o1 Ho1.
Qed.

(** *** The fast decimal path *)

Lemma safe_itoa_loop norm vmin vmax k fuel scratch s v :
  T OobRead →
  (∀ x, vmin ≤ x ≤ vmax → norm x = x) → vmin ≤ 0 ≤ vmax →
  vmin ≤ v ≤ vmax → v < 1000 ^ Z.of_nat k → (0 < k ≤ fuel)%nat → 3 * Z.of_nat k ≤ s + 1 →
  s < zlen scratch →
  safe (itoa_loop norm fuel scratch s v)
    (λ '(scratch', s'), length scratch' = length scratch ∧ -1 ≤ s' < s).
Proof.
  intros HT Hnorm H0. revert fuel scratch s v.
  induction k as [|k IH]; intros fuel scratch s v Hv Hlt Hf Hs Hl; [lia|].
  destruct fuel as [|fuel]; [lia|]. cbn [itoa_loop].
  assert (vmin ≤ Z.quot v 1000 ≤ vmax) as Hq by (Z.quot_rem_to_equations; lia).
  rewrite (Hnorm (Z.quot v 1000)) by done. cbv zeta.
  eapply faults_in_bind; [apply faults_in_load1; by right|]. intros c _.
  rewrite store1_Ok by lia. cbn [mbind outcome_bind].
  eapply faults_in_bind; [apply faults_in_load1; by right|]. intros c' _.
  rewrite store1_Ok by (rewrite length_put_at1; lia). cbn [mbind outcome_bind].
  eapply faults_in_bind; [apply faults_in_load1; by right|]. intros c'' _.
  rewrite store1_Ok by (rewrite !length_put_at1; rewrite ?length_put_at1; lia).
  cbn [mbind outcome_bind].
  set (scratch' := put_at (s - 2) _ _).
  assert (length scratch' = length scratch) as Hlen.
  { unfold scratch'. rewrite !length_put_at1; rewrite ?length_put_at1; rewrite ?length_put_at1; lia. }
  destruct (Z.ltb_spec 0 (Z.quot v 1000)); [|cbn; lia].
  rewrite Nat2Z.inj_succ, Z.pow_succ_r in Hlt by lia.
  assert (Z.quot v 1000 < 1000 ^ Z.of_nat k) as Hlt' by (Z.quot_rem_to_equations; lia).
  destruct k as [|k]; [cbn in Hlt'; lia|].
  eapply faults_in_mono; [apply IH; try done; lia|]. intros [sc s'] [Hsc Hs']. rewrite Hsc. lia.
Qed.

Lemma safe_skip_zeros fuel scratch s :
  T OobRead → -1 ≤ s → zlen scratch ≤ s + Z.of_nat fuel → s + 1 ≤ zlen scratch →
  safe (skip_zeros fuel scratch s) (λ s', 0 ≤ s' < zlen scratch).
Proof.
  intros HT. revert s. induction fuel as [|fuel IH]; intros s Hs Hf Hle; [lia|]. cbn [skip_zeros].
  eapply faults_in_bind; [apply faults_in_load1; by right|]. intros c [Hc _].
  destruct (_ =? _); [apply IH; lia|cbn; lia].
Qed.

Lemma safe_fast_itoa norm vmin vmax scratch v :
  (∀ x, vmin ≤ x ≤ vmax → norm x = x) → vmin ≤ 0 ≤ vmax →
  vmin ≤ v ≤ vmax → v < 1000 ^ 10 → zlen scratch = 32 → 0 < v ∨ T OobRead →
  safe (fast_itoa norm scratch v) (λ '(scratch', p), zlen scratch' = 32 ∧ 0 ≤ p < 32).
Proof.
  intros Hn H0 Hv Hlt Hs [Hpos|HT].
  { destruct (fast_itoa_ok norm vmax (λ x Hx, Hn x ltac:(lia)) scratch v) as (pre & D & -> & Hl & HD);
      [done|lia|done|].
    destruct HD as [_ _ Hne _]. assert (0 < zlen D) by (destruct D; cbn; done || lia).
    cbn. rewrite length_app. lia. }
  unfold fast_itoa.
  eapply faults_in_bind; [apply (safe_itoa_loop norm vmin vmax 10); done || lia|].
  intros [scratch' s] [Hsc Hr]. eapply faults_in_bind; [apply safe_skip_zeros; done || lia|].
  intros p Hp. cbn in *. lia.
Qed.

Lemma safe_put_scratch ob sb o scratch p :
  sink_in o → s_len o < size → zlen scratch = 32 → 0 ≤ p < 32 →
  safe_sink (put_scratch ob sb size o scratch p).
Proof.
  intros Ho Hl Hs Hp. pose proof Ho as [Hb _ Hpos]. unfold put_scratch.
  set (n := if _ <? size then _ else _).
  assert (0 < n ≤ 32 - p ∧ s_len o + n ≤ size) as [Hn1 Hn2].
  { unfold n. destruct (Z.ltb_spec (s_len o + (- p + 32)) size); [lia|].
    rewrite s32_small; lia. }
  rewrite fast_memcpy_eq by (unfold fits; lia). cbn [mbind outcome_bind]. unfold copied.
  assert (zlen (sub_at p n scratch) = n) as Hd by (apply length_sub_at; lia).
  apply sink_in_put; try done; lia.
Qed.

Lemma safe_copy_str fuel v i o :
  sink_in o → 0 ≤ i ≤ zlen v → zlen v < i + Z.of_nat fuel → str_ok v true 0 i →
  safe_sink (copy_str size fuel v i o).
Proof.
  revert i o. induction fuel as [|fuel IH]; intros i o Ho Hi Hf Hs; [lia|].
  cbn [copy_str]. eapply faults_in_bind; [apply faults_in_load1; eapply str_ok_at; done || lia|].
  intros c [Hc Hv]. destruct (Z.eqb_spec c 0); cbn [negb andb]; [done|].
  destruct (Z.ltb_spec (s_len o + 1) size); [|done].
  eapply faults_in_bind; [apply safe_put_char; [done|lia]|]. intros o' Ho'.
  apply IH; [done|lia|lia|]. apply (str_ok_step v true 0 i c); try done; [lia|].
  by rewrite (proj2 (Z.eqb_neq c 0)).
Qed.

(** ** The steps *)

Context `{!Env} (format : bytes) (nul : Z) (Hpos : 0 ≤ nul).
Context (Hnul : format !! Z.to_nat nul = Some 0).
Context (HT : T VaMismatch).

Definition fine (args : list arg) : Prop :=
  T OobRead ∧ T NullDeref ∨ Forall (harmless format) args.

(** The state before a step: what the step may rely on.  The next character of the
    format is at most its NUL. *)
Record vpre (s : vst) : Prop := {
  vp_out : sink_in (v_out s);
  vp_scratch : zlen (v_scratch s) = 32;
  vp_format : 0 ≤ v_format s ≤ nul;
  vp_args : fine (v_args s);
  vp_base : 0 ≤ v_base s ≤ 16
}.

(** The state after a step: behind the NUL only when the NUL was read last. *)
Record vok (s : vst) : Prop := {
  vo_out : sink_in (v_out s);
  vo_scratch : zlen (v_scratch s) = 32;
  vo_format : 0 ≤ v_format s ≤ nul + 1;
  vo_args : fine (v_args s);
  vo_base : 0 ≤ v_base s ≤ 16;
  vo_more : v_ch s ≠ 0 → v_format s ≤ nul;
  vo_ch : In (v_ch s) format
}.

Lemma vok_vpre s : vok s → v_ch s ≠ 0 → vpre s.
Proof. intros [? ? ? ? ? Hm ?] Hc. specialize (Hm Hc). by split; try lia. Qed.

Definition rank (p : pstate) : Z :=
  match p with
  | PRINT_S_DEFAULT => 0 | PRINT_S_FLAGS => 1 | PRINT_S_WIDTH => 2 | PRINT_S_DOT => 3
  | PRINT_S_PRECISION => 4 | PRINT_S_MOD => 5 | PRINT_S_CONV => 6
  end.

(** The measure that every round decreases. *)
Definition measure (s : vst) : Z := 8 * (nul + 1 - v_format s) + (6 - rank (v_state s)).

Definition good (s0 : vst) (r : next) : Prop :=
  match r with
  | Continue s => vok s ∧ measure s < measure s0
  | Over s => sink_in (v_out s)
  end.

Lemma rank_range p : 0 ≤ rank p ≤ 6.
Proof. clear Hsize. destruct p; cbn; lia. Qed.

(** Reading a character that is not behind the NUL. *)
Lemma safe_format i :
  0 ≤ i ≤ nul → safe (load1 i format) (λ c, (c ≠ 0 → i + 1 ≤ nul) ∧ In c format).
Proof.
  intros Hi. pose proof (lookup_lt_Some _ _ _ Hnul) as Hl.
  eapply faults_in_mono; [apply faults_in_load1; lia|]. intros c [_ Hc]. split.
  - intros Hne. destruct (Z.eq_dec i nul) as [->|]; [congruence|lia].
  - apply list_elem_of_In. by apply list_elem_of_lookup_2 with (Z.to_nat i).
Qed.

Lemma safe_advance s :
  vpre s → safe (advance format s) (λ s', vok s' ∧ v_format s' = v_format s + 1).
Proof.
  intros [Ho Hs Hf Ha Hb]. unfold advance. eapply faults_in_bind; [by apply safe_format|].
  intros c [Hc Hin]. split; [|done]. split; cbn; try done; lia.
Qed.

(** A round that reads at least one character. *)
Lemma good_advance s0 s :
  vpre s → v_format s0 ≤ v_format s → safe (continue (advance format s)) (good s0).
Proof.
  intros Hp Hf. unfold continue. eapply faults_in_bind; [by apply safe_advance|].
  intros s' [Hok Hf']. split; [done|]. unfold measure.
  pose proof (rank_range (v_state s')). pose proof (rank_range (v_state s0)). lia.
Qed.

(** A round that only changes the state, to a later one. *)
Lemma good_state s0 s p :
  vok s → v_format s = v_format s0 → rank (v_state s0) < rank p →
  safe (Ok (Continue (set_state p s))) (good s0).
Proof.
  intros [] E Hr. split; [split; done|]. unfold measure. cbn. lia.
Qed.

Lemma good_to_default s0 s :
  vpre s → v_format s0 ≤ v_format s → safe (to_default format s) (good s0).
Proof. intros [] Hf. apply good_advance; [by split|done]. Qed.

(** [va_arg] for an integer: what is left is still fine, and the value is one of an
    argument that fits the type. *)
Lemma safe_va_int t args :
  fine args →
  safe (va_int t args) (λ '(v, args'), fine args' ∧
    (T OobRead ∨ ∃ t', harmless format (AInt t' v) ∧ (t = t' ∨
      ity_unsigned t = ity_unsigned t' ∧ 0 ≤ v < 2 ^ (ity_width t - 1)))).
Proof.
  intros Hf. destruct args as [|[t' v| | |] args]; cbn; try done.
  unfold check. destruct (_ || _) eqn:Hc; [|done]. cbn. split.
  - destruct Hf as [|Hf]; [by left|right]. by inversion Hf.
  - destruct Hf as [[? _]|Hf]; [by left|right]. exists t'.
    apply Forall_cons in Hf. destruct Hf as [Hh _]. split; [done|].
    apply orb_true_iff in Hc. destruct Hc as [Hc|Hc]; [left|right].
    + by apply bool_decide_eq_true in Hc.
    + apply andb_prop in Hc. destruct Hc as [Hc H2]. apply andb_prop in Hc. destruct Hc as [Hc H1].
      apply bool_decide_eq_true in Hc. zbool. done.
Qed.

Lemma safe_va_any t args : fine args → safe (va_int t args) (λ '(_, args'), fine args').
Proof. intros Hf. eapply faults_in_mono; [by apply safe_va_int|]. by intros [? ?] [? _]. Qed.

Lemma fine_tail a args : fine (a :: args) → fine args.
Proof. intros [|Hf]; [by left|right]. by inversion Hf. Qed.

Lemma safe_va_ptr args :
  fine args →
  safe (va_ptr args) (λ '(a, o, args'), fine args' ∧
    (T OobRead ∧ T NullDeref ∨ a ≠ 0 ∧ In 0 o)).
Proof.
  intros Hf. destruct args as [|[] args]; cbn; try done. split; [by eapply fine_tail|].
  destruct Hf as [|Hf]; [by left|right]. by inversion Hf.
Qed.

Lemma safe_va_double args : fine args → safe (va_double args) (λ '(_, args'), fine args').
Proof. intros Hf. destruct args as [|[] args]; cbn; try done. by eapply fine_tail. Qed.

Lemma safe_va_out t args : fine args → safe (va_out t args) fine.
Proof.
  intros Hf. destruct args as [|[| | |t'] args]; cbn; try done.
  unfold check. case_match; [|done]. by eapply fine_tail.
Qed.

Lemma step_default_ok s : vpre s → safe (step_default format size s) (good s).
Proof.
  intros Hp. unfold step_default.
  eapply (faults_in_bind T _ _ (λ s', vpre s' ∧ v_format s' = v_format s)).
  - destruct (_ =? _); [by destruct Hp|]. unfold s_outchar. destruct Hp.
    eapply faults_in_bind; [by apply safe_OUTCHAR|]. by intros o Ho'.
  - intros s' [Hp' Hf']. apply good_advance; [done|lia].
Qed.

Lemma case_c_ok s : vpre s → safe (case_c format size s) (good s).
Proof.
  intros [Ho Hs Hf Ha Hb]. unfold case_c. eapply faults_in_bind; [by apply safe_va_any|].
  intros [v args] Ha'. cbv zeta. eapply (faults_in_bind T _ _ sink_in).
  - cbn. destruct (Z.ltb_spec (s_len (v_out s) + 1) size); [|done].
    apply safe_put_char; [done|lia].
  - intros o Ho'. by apply good_to_default.
Qed.

Lemma case_s_ok s : vpre s → safe (case_s format size s) (good s).
Proof.
  intros [Ho Hs Hf Ha Hb]. unfold case_s. eapply faults_in_bind; [by apply safe_va_ptr|].
  intros [[a obj] args] [Ha' Hobj]. cbv zeta. unfold check.
  destruct (Z.eqb_spec a 0) as [Hz|Hz]; cbn [negb].
  { destruct Hobj as [[_ ?]|[]]; done. }
  eapply faults_in_bind; [apply safe_copy_str; [done|lia|lia|]|].
  - destruct Hobj as [[? _]|[_ ?]]; [by right; right|by left].
  - intros o Ho'. by apply good_to_default.
Qed.

Lemma safe_put_char_len c o :
  sink_in o → s_len o + 1 ≤ size →
  safe (put_char c o) (λ o', sink_in o' ∧ s_len o' = s_len o + 1).
Proof.
  intros Ho Hl. pose proof (safe_put_char o c Ho Hl) as H1. unfold put_char in *.
  by destruct (store _ _ _).
Qed.

(** The argument of [%N] is an entry of the table. *)
Lemma case_N_entry t v :
  In (chr "N") format → harmless format (AInt t v) →
  TUInt = t ∨ ity_unsigned TUInt = ity_unsigned t ∧ 0 ≤ v < 2 ^ (ity_width TUInt - 1) →
  0 ≤ u32 (Z.shiftl (u32 v) 2) ∧ u32 (Z.shiftl (u32 v) 2) + 2 < zlen atoi_tab.
Proof.
  clear Hsize. intros HN [Hr H999] Ht. specialize (H999 HN).
  assert (0 ≤ v) as Hv by (destruct Ht as [<-|[_ ?]]; [cbn in Hr|]; lia).
  change (zlen atoi_tab) with 4000. rewrite (wrapu_small 32 v) by lia.
  rewrite Z.shiftl_mul_pow2 by lia. rewrite wrapu_small; lia.
Qed.

Lemma case_N_ok s :
  vpre s → In (chr "N") format → safe (case_N format size s) (good s).
Proof.
  intros [Ho Hs Hf Ha Hb] HN. unfold case_N. eapply faults_in_bind; [by apply safe_va_int|].
  intros [v args] [Ha' Hv]. cbv zeta. set (ap := u32 (Z.shiftl _ 2)).
  assert (0 ≤ ap ∧ ap + 2 < zlen atoi_tab ∨ T OobRead) as Hap.
  { destruct Hv as [|(t & Hh & Ht)]; [by right|left]. by apply case_N_entry with t. }
  eapply (faults_in_bind T _ _ sink_in); [|intros o Ho'; by apply good_to_default].
  cbn [v_out set_args]. clearbody ap.
  destruct (Z.ltb_spec (s_len (v_out s) + 3) size); [|done].
  eapply faults_in_bind; [apply faults_in_load1; destruct Hap; [left; lia|by right]|]. intros c1 _.
  eapply faults_in_bind; [apply safe_put_char_len; [done|lia]|]. intros o1 [Ho1 Hl1].
  eapply faults_in_bind; [apply faults_in_load1; destruct Hap; [left; lia|by right]|]. intros c2 _.
  eapply faults_in_bind; [apply safe_put_char_len; [done|lia]|]. intros o2 [Ho2 Hl2].
  eapply faults_in_bind; [apply faults_in_load1; destruct Hap; [left; lia|by right]|]. intros c3 _.
  eapply faults_in_mono; [apply safe_put_char_len; [done|lia]|]. by intros o3 [Ho3 _].
Qed.

(** [norm_of t] is the identity on the range of [t], and maps into it. *)
Lemma norm_of_range t :
  ∃ vmin vmax, vmin ≤ 0 ≤ vmax ∧ vmax < 1000 ^ 10 ∧
    (∀ x, vmin ≤ x ≤ vmax → norm_of t x = x) ∧ (∀ x, vmin ≤ norm_of t x ≤ vmax).
Proof.
  clear Hsize.
  assert (0 < ity_width t ≤ 64) as Hw.
  { pose proof long_width_ok. destruct t; cbn; lia. }
  assert (2 ^ ity_width t ≤ 2 ^ 64 ∧ 0 < 2 ^ (ity_width t - 1)) as [Hp Hp'].
  { split; [apply Z.pow_le_mono_r; lia|apply Z.pow_pos_nonneg; lia]. }
  assert (2 ^ ity_width t = 2 * 2 ^ (ity_width t - 1)) as E.
  { rewrite <- Z.pow_succ_r by lia. f_equal. lia. }
  destruct (match t with TChar | TShort | TInt | TLong | TLLong => true | _ => false end) eqn:Hs.
  - exists (- 2 ^ (ity_width t - 1)), (2 ^ (ity_width t - 1) - 1).
    assert (norm_of t = wraps (ity_width t)) as -> by (by destruct t).
    split_and!; try lia; intros x; [intros ?; apply wraps_small; lia|].
    pose proof (wraps_bound (ity_width t) x). lia.
  - exists 0, (2 ^ ity_width t - 1).
    assert (norm_of t = wrapu (ity_width t)) as -> by (by destruct t).
    split_and!; try lia; intros x; [intros ?; apply wrapu_small; lia|].
    pose proof (wrapu_bound (ity_width t) x). lia.
Qed.


Lemma ity_width_unsigned t t' :
  ity_unsigned t = ity_unsigned t' → ity_width t = ity_width t'.
Proof. by destruct t, t'. Qed.

(** What [fast_itoa] gets is positive, unless the argument was the most negative value. *)
Lemma fast_decimal_positive t t' v :
  harmless format (AInt t' v) →
  (t = t' ∨ ity_unsigned t = ity_unsigned t' ∧ 0 ≤ v < 2 ^ (ity_width t - 1)) →
  norm_of t v ≠ 0 → norm_of t v < 0 → 0 < norm_of t (- norm_of t v).
Proof.
  clear Hsize. intros [Hr _] Ht Hz Hneg.
  assert (0 < ity_width t) as Hw by (pose proof long_width_ok; destruct t; cbn; lia).
  assert (0 < 2 ^ (ity_width t - 1)) as Hp by (apply Z.pow_pos_nonneg; lia).
  assert (2 ^ ity_width t = 2 * 2 ^ (ity_width t - 1)) as E2
    by (rewrite <- Z.pow_succ_r by lia; f_equal; lia).
  assert (norm_of t v = v) as Hv.
  { destruct Ht as [->|[_ Hv]].
    - destruct t'; (apply wraps_small || apply wrapu_small); unfold lowest, highest in Hr; lia.
    - destruct t; (apply wraps_small || apply wrapu_small); lia. }
  rewrite Hv in *. destruct Ht as [->|[_ ?]]; [|lia].
  assert (norm_of t' (- v) = - v) as ->; [|lia].
  destruct t'; (apply wraps_small || apply wrapu_small); unfold lowest, highest in Hr; lia.
Qed.

Lemma fast_decimal_ok t skip s :
  0 ≤ skip → vpre s → v_format s + skip ≤ nul → safe (fast_decimal format size t skip s) (good s).
Proof.
  intros Hskip [Ho Hs Hf Ha Hb] Hsk. unfold fast_decimal.
  eapply faults_in_bind; [by apply safe_va_int|]. intros [v args] [Ha' Hv]. cbv zeta.
  destruct (norm_of_range t) as (vmin & vmax & H0 & Hmax & Hid & Hin).
  cbn [v_out set_args]. destruct (Z.leb_spec size (s_len (v_out s) + 1)); [done|].
  destruct (Z.eqb_spec (norm_of t v) 0) as [Hz|Hz].
  { eapply faults_in_bind; [apply safe_put_char; [done|lia]|]. intros o Ho'. by apply good_to_default. }
  eapply (faults_in_bind T _ _ (λ '(o, v1), sink_in o ∧ s_len o < size ∧ vmin ≤ v1 ≤ vmax ∧
    (0 < v1 ∨ T OobRead))).
  { destruct (Z.ltb_spec (norm_of t v) 0).
    - eapply faults_in_bind; [apply safe_put_char_len; [done|lia]|]. intros o [Ho' Hl].
      cbn. split_and!; try done; try lia; try apply Hin.
      destruct Hv as [|(t' & Hh & Ht)]; [by right|left]. by apply fast_decimal_positive with t'.
    - cbn. split_and!; try done; try lia; try apply Hin. }
  intros [o v1] (Ho1 & Hl1 & Hv1 & Hp1).
  eapply faults_in_bind; [apply (safe_fast_itoa _ vmin vmax); done || lia|].
  intros [scratch p] [Hsc Hp].
  eapply faults_in_bind; [by apply safe_put_scratch|]. intros o' Ho'.
  apply good_to_default; [split; cbn; done || lia|cbn; lia].
Qed.

Lemma case_l_ok s :
  vok s → v_ch s ≠ 0 → v_state s = PRINT_S_FLAGS → safe (case_l format size s) (good s).
Proof.
  intros Hok Hch Hst. pose proof (vok_vpre s Hok Hch) as Hp. pose proof (vp_format s Hp) as Hf.
  unfold case_l. eapply faults_in_bind; [by apply safe_format|]. intros c0 [Hc0 _].
  assert (∀ c, (c =? 0) = false → (c0 =? c) = true → v_format s + 1 ≤ nul) as Hc0'.
  { intros c Hc E. zbool. apply Hc0. lia. }
  destruct (is_di c0) eqn:Hdi.
  { apply fast_decimal_ok; [done|done|]. unfold is_di in Hdi. apply orb_true_iff in Hdi.
    destruct Hdi as [E|E]; by eapply Hc0' in E. }
  destruct (c0 =? chr "u") eqn:Hu; [apply fast_decimal_ok; [done|done|by eapply Hc0' in Hu]|].
  eapply (faults_in_bind T _ _ (λ c, (c0 =? chr "l") = true → c ≠ 0 → v_format s + 2 ≤ nul)).
  { destruct (c0 =? chr "l") eqn:Hl; [|done]. eapply Hc0' in Hl; [|done].
    eapply faults_in_mono; [apply safe_format; lia|]. intros c [Hc _] _ Hne. specialize (Hc Hne). lia. }
  intros c1 Hc1. destruct (c0 =? chr "l") eqn:Hl; cbn [andb].
  2:{ apply good_state; [done|done|rewrite Hst; cbn; lia]. }
  destruct (is_di c1) eqn:Hdi1.
  { apply fast_decimal_ok; [done|done|]. apply Hc1; [done|]. intros ->. done. }
  destruct (c1 =? chr "u") eqn:Hu1.
  { apply fast_decimal_ok; [done|done|]. apply Hc1; [done|]. intros ->. done. }
  apply good_state; [done|done|rewrite Hst; cbn; lia].
Qed.

Lemma step_flags_ok s :
  vok s → v_ch s ≠ 0 → v_state s = PRINT_S_FLAGS → safe (step_flags format size s) (good s).
Proof.
  intros Hok Hch Hst. pose proof (vok_vpre s Hok Hch) as Hp. pose proof Hp as [Ho Hs Hf Ha Hb].
  unfold step_flags. cbv zeta.
  do 6 (destruct (_ =? _); [apply good_advance; [by split|done]|]).
  destruct (_ =? _); [by apply case_c_ok|]. destruct (_ =? _); [by apply case_s_ok|].
  destruct (is_di _); [apply fast_decimal_ok; done || lia|].
  destruct (_ =? _); [apply fast_decimal_ok; done || lia|]. destruct (_ =? _); [by apply case_l_ok|].
  destruct (Z.eqb_spec (v_ch s) (chr "N")) as [E|].
  { apply case_N_ok; [done|]. rewrite <- E. apply Hok. }
  apply good_state; [done|done|rewrite Hst; cbn; lia].
Qed.

(** Reading on and then setting a state. *)
Lemma good_advance_state s0 s p :
  vpre s → v_format s0 ≤ v_format s →
  safe (s ← advance format s; Ok (Continue (set_state p s))) (good s0).
Proof.
  intros Hp Hf. eapply faults_in_bind; [by apply safe_advance|].
  intros s' [[] Hadv]. split; [split; done|]. unfold measure. cbn.
  pose proof (rank_range p). pose proof (rank_range (v_state s0)). lia.
Qed.

Lemma step_width_ok s :
  vok s → v_ch s ≠ 0 → v_state s = PRINT_S_WIDTH → safe (step_width format s) (good s).
Proof.
  intros Hok Hch Hst. pose proof (vok_vpre s Hok Hch) as [Ho Hs Hf Ha Hb]. unfold step_width.
  destruct (ISDIGIT _).
  - cbv zeta. destruct (_ <? _); [done|]. apply good_advance; [by split|done].
  - destruct (_ =? _); [|apply good_state; [done|done|rewrite Hst; cbn; lia]].
    eapply faults_in_bind; [by apply safe_va_any|]. intros [w args] Ha'. cbv zeta.
    destruct (w <? 0); apply good_advance_state; done.
Qed.

Lemma step_dot_ok s :
  vok s → v_ch s ≠ 0 → v_state s = PRINT_S_DOT → safe (step_dot format s) (good s).
Proof.
  intros Hok Hch Hst. pose proof (vok_vpre s Hok Hch) as [Ho Hs Hf Ha Hb]. unfold step_dot.
  destruct (_ =? _); [apply good_advance; [by split|done]|].
  apply good_state; [done|done|rewrite Hst; cbn; lia].
Qed.

Lemma step_precision_ok s :
  vok s → v_ch s ≠ 0 → v_state s = PRINT_S_PRECISION → safe (step_precision format s) (good s).
Proof.
  intros Hok Hch Hst. unfold step_precision.
  set (s1 := if v_precision s =? -1 then set_precision 0 s else s).
  assert (vok s1 ∧ v_ch s1 ≠ 0 ∧ v_format s1 = v_format s ∧ v_state s1 = v_state s)
    as (Hok1 & Hch1 & Hf1 & Hst1).
  { unfold s1. destruct (_ =? _); [|done]. destruct Hok. by split. }
  clearbody s1. pose proof (vok_vpre s1 Hok1 Hch1) as [Ho Hs Hf Ha Hb].
  destruct (ISDIGIT _).
  - cbv zeta. destruct (_ <? _); [done|]. apply good_advance; [by split|cbn; lia].
  - destruct (_ =? _); [|apply good_state; [done|done|rewrite Hst; cbn; lia]].
    eapply faults_in_bind; [by apply safe_va_any|]. intros [w args] Ha'. cbv zeta.
    apply good_advance_state; [done|cbn; lia].
Qed.

(** [s'] is further in the format than [s]. *)
Definition further (s s' : vst) : Prop := vok s' ∧ v_format s ≤ v_format s'.

Lemma further_advance s s' : vpre s' → v_format s ≤ v_format s' → safe (advance format s') (further s).
Proof.
  intros Hp Hf. eapply faults_in_mono; [by apply safe_advance|].
  intros s'' [? ?]. split; [done|lia].
Qed.

Lemma further_cflags s s' c : further s s' → further s (set_cflags c s').
Proof. intros [[] ?]. by split. Qed.

(** The second letter of a modifier. *)
Lemma further_twice s s' ch c1 c2 :
  further s s' → negb (ch =? 0) = true →
  safe (if v_ch s' =? ch then s' ← advance format s'; Ok (set_cflags c1 s')
        else Ok (set_cflags c2 s')) (further s).
Proof.
  intros Hs' Hch. destruct (Z.eqb_spec (v_ch s') ch) as [E|].
  - destruct Hs' as [Hok Hf]. eapply faults_in_bind.
    + apply further_advance; [apply vok_vpre; [done|]|exact Hf]. intros E0. by rewrite <- E, E0 in Hch.
    + intros s'' Hs''. by apply further_cflags.
  - by apply further_cflags.
Qed.

Lemma step_mod_ok s :
  vok s → v_ch s ≠ 0 → v_state s = PRINT_S_MOD → safe (step_mod format s) (good s).
Proof.
  intros Hok Hch Hst. pose proof (vok_vpre s Hok Hch) as Hp. unfold step_mod. cbv zeta.
  eapply (faults_in_bind T _ _ (further s)).
  2:{ intros s' [Hok' Hf']. destruct Hok'. split; [by split|].
      unfold measure. rewrite Hst. cbn. lia. }
  destruct (_ =? chr "h").
  { eapply faults_in_bind; [by apply further_advance|]. intros s' Hs'. by apply further_twice. }
  destruct (_ =? chr "l").
  { eapply faults_in_bind; [by apply further_advance|]. intros s' Hs'. by apply further_twice. }
  do 4 (destruct (_ =? _); [by apply further_advance; [destruct Hp|]|]). by split.
Qed.

(** What every conversion keeps. *)
Definition conv_ok (s s' : vst) : Prop := vpre s' ∧ v_format s' = v_format s.

Lemma call_fmtint_ok s0 s v base :
  conv_ok s0 s → 0 < base ≤ 16 → safe (call_fmtint size v base s) (conv_ok s0).
Proof.
  intros [[] Hf] Hb. unfold call_fmtint. eapply faults_in_bind; [by apply safe_fmtint|].
  by intros o Ho'.
Qed.

Lemma conv_d_ok s : vpre s → safe (conv_d size s) (conv_ok s).
Proof.
  intros []. unfold conv_d. eapply (faults_in_bind T _ _ (λ '(_, args), fine args)).
  - unfold conv_signed_arg. cbv zeta.
    repeat (destruct (_ =? _); [first [by apply safe_va_any
      | eapply faults_in_bind; [by apply safe_va_any|]; by intros [? ?]]|]). by apply safe_va_any.
  - intros [v args] Ha. by apply call_fmtint_ok.
Qed.

Lemma conv_unsigned_ok s : vpre s → safe (conv_unsigned size s) (conv_ok s).
Proof.
  intros Hp. unfold conv_unsigned. cbv zeta.
  set (s1 := if _ || _ then set_base 16 _ else _).
  set (s2 := if negb _ && _ then set_base 8 s1 else s1).
  set (s3 := if v_base s2 =? 0 then set_base 10 s2 else s2).
  assert (conv_ok s s1) as H1.
  { unfold s1. destruct Hp. repeat case_match; split; done || by split. }
  assert (conv_ok s s2) as H2.
  { unfold s2. destruct H1 as [[] ?]. case_match; split; done || by split. }
  assert (conv_ok s s3 ∧ 0 < v_base s3) as [Hc Hb].
  { unfold s3. destruct H2 as [[? ? ? ? Hb2] ?]. destruct (Z.eqb_spec (v_base s2) 0); [done|].
    split; [by split|lia]. }
  clearbody s3. clear s1 s2 H1 H2. destruct Hc as [[? ? ? ? Hb3] Hf].
  eapply (faults_in_bind T _ _ (λ '(_, args), fine args)).
  - unfold conv_unsigned_arg. cbv zeta.
    repeat (destruct (_ =? _); [first [by apply safe_va_any
      | eapply faults_in_bind; [by apply safe_va_any|]; by intros [? ?]]|]). by apply safe_va_any.
  - intros [v args] Ha. apply call_fmtint_ok; [done|]. cbn in *. lia.
Qed.

Lemma conv_float_ok s : vpre s → safe (conv_float size s) (conv_ok s).
Proof.
  intros Hp. unfold conv_float. cbv zeta.
  set (s1 := if _ || _ || _ || _ then _ else s).
  set (s2 := if (_ =? chr "E") || _ then add_flags PRINT_F_TYPE_E s1 else _).
  assert (conv_ok s s2) as [Hp2 Hf2].
  { unfold s2, s1. destruct Hp. repeat case_match; split; done || by split. }
  clearbody s2. clear s1.
  eapply faults_in_bind; [apply safe_va_double; by destruct Hp2|]. intros [x args] Ha. cbv beta.
  set (s3 := if _ && _ then _ else set_args args s2).
  assert (conv_ok s s3) as [Hp3 Hf3].
  { unfold s3. destruct Hp2. case_match; split; done || by split. }
  clearbody s3. destruct Hp3. eapply faults_in_bind; [apply safe_fmtflt; [apply uninit_ok|done]|].
  by intros [o ov] Ho'.
Qed.

Lemma str_ok_fine obj nop prc : T OobRead ∧ T NullDeref ∨ In 0 obj → str_ok obj nop prc 0.
Proof. intros [[? _]|]; [by right; right|by left]. Qed.

Lemma conv_s_ok s : vpre s → safe (conv_s size s) (conv_ok s).
Proof.
  intros []. unfold conv_s. eapply faults_in_bind; [by apply safe_va_ptr|].
  intros [[a obj] args] [Ha Hobj]. eapply faults_in_bind; [apply safe_fmtstr; [done|]|by intros o Ho'].
  destruct (_ =? _); [done|]. apply str_ok_fine. destruct Hobj as [|[_ ?]]; auto.
Qed.

Lemma conv_p_ok s : vpre s → safe (conv_p size s) (conv_ok s).
Proof.
  intros []. unfold conv_p. eapply faults_in_bind; [by apply safe_va_ptr|].
  intros [[a obj] args] [Ha _]. cbv zeta. destruct (_ =? _); [|by apply call_fmtint_ok].
  eapply faults_in_bind; [apply safe_fmtstr; [done|left; vm_compute; tauto]|]. by intros o Ho'.
Qed.

Lemma conv_n_ok s : vpre s → safe (conv_n s) (conv_ok s).
Proof.
  intros []. unfold conv_n. cbv zeta. destruct (if _ =? PRINT_C_CHAR then _ else _) as [t v].
  eapply faults_in_bind; [by apply safe_va_out|]. by intros args Ha.
Qed.

Lemma conv_outchar_ok s c args :
  vpre s → fine args → safe (s_outchar size c (set_args args s)) (conv_ok s).
Proof.
  intros [] Ha. unfold s_outchar. eapply faults_in_bind; [by apply safe_OUTCHAR|]. by intros o Ho'.
Qed.

Lemma step_conv_ok s :
  vok s → v_ch s ≠ 0 → v_state s = PRINT_S_CONV → safe (step_conv format size s) (good s).
Proof.
  intros Hok Hch Hst. pose proof (vok_vpre s Hok Hch) as Hp. pose proof Hp as [Ho Hs Hf Ha Hb].
  unfold step_conv. cbv zeta. eapply (faults_in_bind T _ _ (conv_ok s)).
  - destruct (is_di _); [by apply conv_d_ok|].
    destruct (existsb _ _); [by apply conv_unsigned_ok|].
    destruct (is_float_conv _); [by apply conv_float_ok|].
    destruct (_ =? _).
    { unfold conv_c. eapply faults_in_bind; [by apply safe_va_any|]. intros [v args] Ha'.
      by apply conv_outchar_ok. }
    destruct (_ =? _); [by apply conv_s_ok|].
    destruct (_ =? _); [by apply conv_p_ok|]. destruct (_ =? _); [by apply conv_n_ok|].
    destruct (_ =? _); [by apply (conv_outchar_ok s _ (v_args s))|]. done.
  - intros s' [Hp' Hf'].
    destruct (_ && _); [by destruct Hp'|].
    eapply faults_in_bind; [by apply safe_advance|].
    intros s'' [[] Hadv]. split; [by split|]. unfold measure. cbn. rewrite Hst. cbn. lia.
Qed.

Lemma vstep_ok s : vok s → v_ch s ≠ 0 → safe (vstep format size s) (good s).
Proof.
  intros Hok Hch. pose proof (vok_vpre s Hok Hch). unfold vstep. destruct (v_state s) eqn:Hst.
  - by apply step_default_ok.
  - by apply step_flags_ok.
  - by apply step_width_ok.
  - by apply step_dot_ok.
  - by apply step_precision_ok.
  - by apply step_mod_ok.
  - by apply step_conv_ok.
Qed.

(** ** The loop *)

Lemma vloop_ok fuel s :
  vok s → measure s < Z.of_nat fuel → safe (vloop format size fuel s) (λ s, sink_in (v_out s)).
Proof.
  revert s. induction fuel as [|fuel IH]; intros s Hok Hm.
  { exfalso. unfold measure in Hm. pose proof (rank_range (v_state s)). destruct Hok. lia. }
  cbn [vloop]. destruct (Z.eqb_spec (v_ch s) 0); [by destruct Hok|].
  eapply faults_in_bind; [by apply vstep_ok|]. intros [s'|s'] Hg; [|done].
  destruct Hg as [Hok' Hm']. apply IH; [done|lia].
Qed.

(** What a call leaves: the buffer has its length, nothing changed at or behind [size],
    there is a NUL below [size]; the value is -1 or the count of characters. *)
Definition call_ok (r : vst * Z) : Prop :=
  length (s_buf (v_out r.1)) = length buf0 ∧
  drop (Z.to_nat size) (s_buf (v_out r.1)) = drop (Z.to_nat size) buf0 ∧
  (∃ k, 0 ≤ k < size ∧ s_buf (v_out r.1) !! Z.to_nat k = Some 0) ∧
  (r.2 = -1 ∨ r.2 = s_len (v_out r.1) ∧ 0 ≤ r.2 < INT_MAX).

Lemma vfinish_ok s : sink_in (v_out s) → safe (vfinish size s) call_ok.
Proof.
  intros Ho. pose proof Ho as [Hl Hr Hp]. unfold vfinish. cbv zeta.
  set (k := if s_len (v_out s) <? size then s_len (v_out s) else size - 1).
  assert (0 ≤ k < size) as Hk.
  { unfold k. destruct (Z.ltb_spec (s_len (v_out s)) size); lia. }
  assert ((if s_len (v_out s) <? size then store (s_len (v_out s)) [0] (s_buf (v_out s))
    else if 0 <? size then store (size - 1) [0] (s_buf (v_out s)) else Ok (s_buf (v_out s))) =
    Ok (put_at k [0] (s_buf (v_out s)))) as ->.
  { rewrite (proj2 (Z.ltb_lt 0 size)) by lia. unfold k in *.
    destruct (_ <? size); apply safe_store; cbn; done || lia. }
  cbn [mbind outcome_bind].
  destruct (sink_in_put (v_out s) k [0] Ho ltac:(lia) ltac:(cbn; lia) (s_len (v_out s)) Hp)
    as [Hl' Hr' _]. cbn in Hl', Hr'.
  assert (put_at k [0] (s_buf (v_out s)) !! Z.to_nat k = Some 0) as Hz0.
  { rewrite lookup_put_at by (cbn; lia). rewrite decide_True by (cbn; lia).
    by rewrite Nat.sub_diag. }
  destruct (v_overflow _ || _) eqn:Hov; cbn; split_and!; try done; eauto.
  right. apply orb_false_iff in Hov. destruct Hov as [_ Hov]. zbool. unfold INT_MAX in *.
  rewrite s32_small by lia. cbn [fst snd v_out set_out s_len]. lia.
Qed.

Lemma o_vsnprintf_within scratch args :
  zlen scratch = 32 → fine args →
  safe (o_vsnprintf (Some buf0) size format scratch args) call_ok.
Proof.
  intros Hs Ha. unfold o_vsnprintf.
  eapply faults_in_bind; [apply safe_advance; by repeat split; try lia|].
  intros s [Hok Hf]. rewrite (proj2 (Z.eqb_neq size 0)) by lia.
  replace (bool_decide (Some buf0 = None)) with false by done. cbn [orb].
  eapply faults_in_bind; [apply vloop_ok; [done|]|].
  - pose proof (lookup_lt_Some _ _ _ Hnul). unfold measure, vfuel. cbn in Hf.
    pose proof (rank_range (v_state s)). lia.
  - intros s' Hok'. by apply vfinish_ok.
Qed.

End safety.

(** ** Properties *)

(** C2: a call of [o_vsnprintf] with a NUL-terminated format and [0 < size] terminates and
    never stores outside the first [size] bytes, whatever the arguments and the contents
    of the buffers: it returns, with a NUL below [size], nothing changed from [size] on,
    and -1 or the counted length as its value, or it stops at a read the arguments cause
    or at a [va_arg] that does not find an argument of its type.  When the arguments are
    [harmless] (not null, strings with a NUL, no most negative value, none above 999 for
    a format with an [N]), it returns or stops at such a [va_arg]: in particular it never
    reads behind the NUL of the format. *)
Theorem o_vsnprintf_safe `{!Env} (size : Z) (buf format scratch : bytes) (args : list arg)
    (Hsize : 0 < size ≤ zlen buf) (Hscratch : zlen scratch = 32) (Hnul : In 0 format) :
  let call := o_vsnprintf (Some buf) size format scratch args in
  faults_in (λ u, u = OobRead ∨ u = NullDeref ∨ u = VaMismatch) call (call_ok size buf) ∧
  (Forall (harmless format) args → faults_in (λ u, u = VaMismatch) call (call_ok size buf)).
Proof.
  apply list_elem_of_In, list_elem_of_lookup in Hnul. destruct Hnul as [k Hk].
  rewrite <- (Nat2Z.id k) in Hk. cbv zeta. split; [|intros Hargs];
    apply (o_vsnprintf_within size buf Hsize _ format (Z.of_nat k)); auto; try lia.
  - left. auto.
  - by right.
Qed.

#[refine] Definition ex_env : Env := {|
  long_width := 32; out_base := 4096; scratch_base := 8192; uninit := replicate 43 7
|}.
Proof.
  - by left.
  - reflexivity.
Defined.

Lemma o_vsnprintf_safe_witness :
  faults_in (λ u, u = VaMismatch)
    (@o_vsnprintf ex_env (Some (replicate 8 0)) 8 (cstr "%d: %s") scratch_buffer
          [AInt TInt (-42); APtr 1 (cstr "too long")]) (call_ok 8 (replicate 8 0)).
Proof.
  apply (@o_vsnprintf_safe ex_env 8 (replicate 8 0) (cstr "%d: %s") scratch_buffer
           [AInt TInt (-42); APtr 1 (cstr "too long")]).
  - vm_compute. split; [reflexivity|discriminate].
  - reflexivity.
  - vm_compute. tauto.
  - repeat constructor; try discriminate; vm_compute; tauto || (intros; discriminate).
Defined.
