(* ===== verification/VsnprintfText.v ===== *)
(** * What the formatter prints

    A format is described by a list of [item]s: literal characters, [%%], the fast
    conversions and the integer and string conversions with flags, width and precision.
    [fmt_of] is the format string, [args_of] the arguments and [text_of] the text they
    stand for; the main theorem is that [o_vsnprintf] writes exactly that text, cut at
    [size - 1], and a NUL, for every list of items that [item_ok] admits and every size;
    [fast_path_defects] has the cases that it leaves out because the code prints them wrong.

    [steps] is the reflexive-transitive closure of the loop's rounds; each item takes
    the loop from one [boundary] to the next, or to [over] with a full buffer. *)

From S2P Require Import Prelude FastMemcpy Sink FmtInt AtoiTab FmtFlt Vsnprintf VsnprintfSafe.
From Stdlib Require Import SpecFloat.

#[local] Open Scope Z_scope.

(** ** Items *)

(** The flag characters and the bits they set. *)
Inductive fflag := FMinus | FPlus | FSpace | FNum | FZero | FQuote.

Definition fflag_char (f : fflag) : Z :=
  match f with
  | FMinus => chr "-" | FPlus => chr "+" | FSpace => chr " "
  | FNum => chr "#" | FZero => chr "0" | FQuote => chr "'"
  end.

Definition fflag_bit (f : fflag) : Z :=
  match f with
  | FMinus => PRINT_F_MINUS | FPlus => PRINT_F_PLUS | FSpace => PRINT_F_SPACE
  | FNum => PRINT_F_NUM | FZero => PRINT_F_ZERO | FQuote => PRINT_F_QUOTE
  end.

Definition flag_bits (fl : list fflag) : Z := foldl (λ a f, Z.lor a (fflag_bit f)) 0 fl.

(** Flags, width and precision as they are written behind the [%]; a width of 0 is not
    written. *)
Record spec := Spec { sp_flags : list fflag; sp_width : Z; sp_precision : option Z }.

Definition dec (n : Z) : bytes := numeral 10 n false.

Definition spec_fmt (sp : spec) : bytes :=
  (fflag_char <$> sp_flags sp) ++
  (if sp_width sp =? 0 then [] else dec (sp_width sp)) ++
  match sp_precision sp with
  | None => []
  | Some p => chr "." :: (if p =? 0 then [] else dec p)
  end.

Definition spec_precision (sp : spec) : Z :=
  match sp_precision sp with None => -1 | Some p => p end.

Inductive item :=
  | ILit (c : Z)                   (* a character that is neither % nor NUL *)
  | IPercent                       (* %% *)
  | IDec (t : ity) (v : Z)         (* %d %u %ld %lu %lld %llu, on the fast path *)
  | IStr (v : bytes)               (* %s, on the fast path *)
  | IChr (v : Z)                   (* %c, on the fast path *)
  | IInt (sp : spec) (v : Z)       (* %...d *)
  | IUns (sp : spec) (c v : Z)     (* %...x, %...X, %...o, %...u *)
  | IString (sp : spec) (v : bytes). (* %...s *)

(** The conversion characters of the fast paths. *)
Definition dec_fmt (t : ity) : bytes :=
  match t with
  | TInt => txt "d" | TUInt => txt "u" | TLong => txt "ld" | TULong => txt "lu"
  | TLLong => txt "lld" | _ => txt "llu"
  end.

Definition uns_base (c : Z) : Z := if c =? chr "o" then 8 else if c =? chr "u" then 10 else 16.
Definition uns_flags (sp : spec) (c : Z) : Z :=
  Z.lor (if c =? chr "X" then Z.lor (flag_bits (sp_flags sp)) PRINT_F_UP
         else flag_bits (sp_flags sp)) PRINT_F_UNSIGNED.

Definition item_fmt (it : item) : bytes :=
  match it with
  | ILit c => [c]
  | IPercent => txt "%%"
  | IDec t _ => chr "%" :: dec_fmt t
  | IStr _ => txt "%s"
  | IChr _ => txt "%c"
  | IInt sp _ => chr "%" :: spec_fmt sp ++ txt "d"
  | IUns sp c _ => chr "%" :: spec_fmt sp ++ [c]
  | IString sp _ => chr "%" :: spec_fmt sp ++ txt "s"
  end.

Definition item_args (it : item) : list arg :=
  match it with
  | ILit _ | IPercent => []
  | IDec t v => [AInt t v]
  | IStr v | IString _ v => [APtr 1 v]
  | IChr v => [AInt TInt v]
  | IInt _ v => [AInt TInt v]
  | IUns _ _ v => [AInt TUInt v]
  end.

(** The numeral of a conversion, least significant digit first. *)
Definition int_numeral (base value flags : Z) : bytes :=
  rev (numeral base (int_uvalue value flags) (has flags PRINT_F_UP)).

Definition item_text (it : item) : bytes :=
  match it with
  | ILit c => [c]
  | IPercent => [chr "%"]
  | IDec _ v => if v <? 0 then chr "-" :: dec (- v) else dec v
  | IStr v => until_nul v
  | IChr v => [u8 v]
  | IInt sp v =>
      let fl := flag_bits (sp_flags sp) in
      fmtint_text (int_numeral 10 v fl) v 10 (sp_width sp) (spec_precision sp) fl
  | IUns sp c v =>
      let fl := uns_flags sp c in
      fmtint_text (int_numeral (uns_base c) v fl) v (uns_base c) (sp_width sp)
        (spec_precision sp) fl
  | IString sp v => fmtstr_text v (sp_width sp) (spec_precision sp) (flag_bits (sp_flags sp))
  end.

Definition fmt_of (its : list item) : bytes := concat (item_fmt <$> its).
Definition args_of (its : list item) : list arg := concat (item_args <$> its).
Definition text_of (its : list item) : bytes := concat (item_text <$> its).

(** What an item must satisfy: its argument is a value of its type; a fast conversion
    does not print the most negative value, and one behind an [l] does not print 0; a
    slow conversion has a width or a precision (or is one of x, X, o), so that it does
    not take a fast path. *)
Definition spec_ok (sp : spec) : Prop :=
  0 ≤ sp_width sp ≤ INT_MAX ∧
  match sp_precision sp with None => True | Some p => 0 ≤ p ≤ INT_MAX - 64 end.

Definition spec_slow (sp : spec) : bool :=
  negb (sp_width sp =? 0) || bool_decide (is_Some (sp_precision sp)).

Definition item_ok `{!Env} (it : item) : Prop :=
  match it with
  | ILit c => c ≠ 0 ∧ c ≠ chr "%"
  | IPercent => True
  | IDec t v =>
      match t with
      | TInt => - 2 ^ 31 < v < 2 ^ 31
      | TUInt => 0 ≤ v < 2 ^ 32
      | TLong => - 2 ^ (long_width - 1) < v < 2 ^ (long_width - 1) ∧ v ≠ 0
      | TULong => 0 < v < 2 ^ long_width
      | TLLong => - 2 ^ 63 < v < 2 ^ 63 ∧ v ≠ 0
      | TULLong => 0 < v < 2 ^ 64
      | _ => False
      end
  | IStr v => In 0 v
  | IChr v => - 2 ^ 31 ≤ v < 2 ^ 31
  | IInt sp v => spec_ok sp ∧ spec_slow sp = true ∧ - 2 ^ 31 ≤ v < 2 ^ 31
  | IUns sp c v =>
      spec_ok sp ∧ 0 ≤ v < 2 ^ 32 ∧
      (c = chr "x" ∨ c = chr "X" ∨ c = chr "o" ∨ c = chr "u" ∧ spec_slow sp = true)
  | IString sp v => spec_ok sp ∧ spec_slow sp = true ∧ readable v (spec_precision sp)
  end.

(** ** Rounds of the loop *)

Section rounds.
Context `{!Env} (size : Z) (buf0 : bytes) (Hsize : 0 < size ≤ zlen buf0) (format : bytes).

Inductive steps : vst → vst → Prop :=
  | steps_refl s : steps s s
  | steps_next s s1 s2 :
      v_ch s ≠ 0 → vstep format size s = Ok (Continue s1) → steps s1 s2 → steps s s2.

Lemma steps_trans s1 s2 s3 : steps s1 s2 → steps s2 s3 → steps s1 s3.
Proof. induction 1; [done|]. intros. econstructor; eauto. Qed.

Lemma steps_one s s' : v_ch s ≠ 0 → vstep format size s = Ok (Continue s') → steps s s'.
Proof. intros. econstructor; [done|done|constructor]. Qed.

Lemma steps_vloop s s' :
  steps s s' → ∃ n, ∀ fuel, vloop format size (n + fuel) s = vloop format size fuel s'.
Proof.
  induction 1 as [s|s s1 s2 Hch E _ [n IH]]; [by exists 0%nat|].
  exists (S n). intros fuel. cbn [Nat.add vloop]. rewrite (proj2 (Z.eqb_neq _ _)) by done.
  rewrite E. cbn [mbind outcome_bind]. apply IH.
Qed.

(** More fuel does not change a result. *)
Lemma vloop_more fuel k s :
  vloop format size fuel s ≠ Ub NoFuel →
  vloop format size (fuel + k) s = vloop format size fuel s.
Proof.
  revert s. induction fuel as [|fuel IH]; intros s; cbn [Nat.add vloop].
  - destruct (v_ch s =? 0) eqn:E; [|done]. intros _. destruct k; cbn [vloop]; by rewrite E.
  - destruct (v_ch s =? 0); [done|]. destruct (vstep format size s) as [[s'|s']|u]; cbn; auto.
Qed.

(** The loop stands at [l] in the format: its first character is the current one. *)
Definition cursor (s : vst) (l : bytes) : Prop :=
  ∃ pre, format = pre ++ l ∧ v_format s = zlen pre + 1 ∧ head l = Some (v_ch s).

Lemma cursor_advance s c c' l :
  cursor s (c :: c' :: l) →
  advance format s = Ok (set_format (v_format s + 1) (set_ch c' s)) ∧
  cursor (set_format (v_format s + 1) (set_ch c' s)) (c' :: l).
Proof.
  intros (pre & Hf & Hv & Hh). split.
  - unfold advance. rewrite (load1_Ok _ _ c'); [done|lia|].
    rewrite Hf, Hv, lookup_app_r by lia.
    by replace (Z.to_nat (zlen pre + 1) - length pre)%nat with 1%nat by lia.
  - exists (pre ++ [c]). rewrite <- app_assoc, length_app. cbn. split_and!; [done|lia|done].
Qed.

Lemma cursor_ch s c l : cursor s (c :: l) → v_ch s = c.
Proof. intros (pre & _ & _ & [= ->]). done. Qed.

(** Looking ahead of the current character. *)
Lemma cursor_lookahead s c l k x :
  cursor s (c :: l) → 0 ≤ k → l !! Z.to_nat k = Some x →
  load1 (v_format s + k) format = Ok x.
Proof.
  intros (pre & Hf & Hv & _) Hk Hx. apply load1_Ok; [lia|].
  rewrite Hf, Hv, lookup_app_r by lia.
  by replace (Z.to_nat (zlen pre + 1 + k) - length pre)%nat with (S (Z.to_nat k)) by lia.
Qed.

(** ** Boundaries *)

(** Between two items: the state is PRINT_S_DEFAULT with no pending flags, width,
    precision or modifier; [text] is what the output stands for. *)
Record boundary (text l : bytes) (args : list arg) (s : vst) : Prop := {
  bd_cursor : cursor s l;
  bd_state : v_state s = PRINT_S_DEFAULT;
  bd_clean : v_base s = 0 ∧ v_cflags s = 0 ∧ v_flags s = 0 ∧ v_width s = 0 ∧ v_precision s = -1;
  bd_overflow : v_overflow s = false;
  bd_args : v_args s = args;
  bd_out : sink_ok size buf0 text (v_out s);
  bd_scratch : zlen (v_scratch s) = 32
}.

(** The loop was left with a full buffer. *)
Definition full (text : bytes) (s : vst) : Prop :=
  sink_ok size buf0 text (v_out s) ∧ size ≤ s_len (v_out s) + 1 ∧ v_overflow s = false.

(** What processing one item does. *)
Definition item_done (text l : bytes) (args : list arg) (s : vst) : Prop :=
  (∃ s', steps s s' ∧ boundary text l args s') ∨
  (∃ s1 s', steps s s1 ∧ v_ch s1 ≠ 0 ∧ vstep format size s1 = Ok (Over s') ∧ full text s').

Lemma item_done_steps text l args s s1 :
  steps s s1 → item_done text l args s1 → item_done text l args s.
Proof.
  intros Hs [(s2 & H2 & Hb)|(s2 & s3 & H2 & H3)]; [left|right].
  - exists s2. split; [by eapply steps_trans|done].
  - exists s2, s3. split; [by eapply steps_trans|done].
Qed.

(** In PRINT_S_FLAGS behind the [%] (or between flag characters). *)
Record in_flags (text l : bytes) (args : list arg) (flags : Z) (s : vst) : Prop := {
  fl_cursor : cursor s l;
  fl_state : v_state s = PRINT_S_FLAGS;
  fl_clean : v_base s = 0 ∧ v_cflags s = 0 ∧ v_width s = 0 ∧ v_precision s = -1;
  fl_flags : v_flags s = flags;
  fl_overflow : v_overflow s = false;
  fl_args : v_args s = args;
  fl_out : sink_ok size buf0 text (v_out s);
  fl_scratch : zlen (v_scratch s) = 32
}.

Lemma percent_step text c l args s :
  boundary text (chr "%" :: c :: l) args s →
  ∃ s', steps s s' ∧ in_flags text (c :: l) args 0 s'.
Proof.
  intros [Hc Hst (Hb & Hcf & Hfl & Hw & Hp) Hov Ha Ho Hs].
  pose proof (cursor_ch _ _ _ Hc) as Hch.
  assert (cursor (set_state PRINT_S_FLAGS s) (chr "%" :: c :: l)) as Hc1 by done.
  destruct (cursor_advance _ _ _ _ Hc1) as [E Hc2].
  eexists. split.
  - apply steps_one; [by rewrite Hch|]. unfold vstep, step_default.
    rewrite Hst, Hch. cbn [Z.eqb chr]. rewrite Z.eqb_refl. cbn [mbind outcome_bind continue].
    unfold continue. rewrite E. reflexivity.
  - split; try done.
Qed.

Lemma default_step text c c' l args s :
  boundary text (c :: c' :: l) args s → c ≠ 0 → c ≠ chr "%" →
  ∃ s', steps s s' ∧ boundary (text ++ [c]) (c' :: l) args s'.
Proof.
  intros [Hc Hst Hcl Hov Ha Ho Hs] Hnz Hp.
  pose proof (cursor_ch _ _ _ Hc) as Hch.
  destruct (emits_OUTCHAR size c buf0 text (v_out s) Ho) as (o & Eo & Ho' & _).
  assert (cursor (set_out o s) (c :: c' :: l)) as Hc1 by done.
  destruct (cursor_advance _ _ _ _ Hc1) as [E Hc2].
  eexists. split.
  - apply steps_one; [by rewrite Hch|]. unfold vstep, step_default, s_outchar.
    rewrite Hst, Hch, (proj2 (Z.eqb_neq c _)) by done. rewrite Eo. cbn [mbind outcome_bind].
    unfold continue. rewrite E. reflexivity.
  - split; try done.
Qed.

(** [format] points at [l]: what the next [*format++] reads. *)
Definition next_at (s : vst) (l : bytes) : Prop :=
  ∃ pre, format = pre ++ l ∧ v_format s = zlen pre.

Lemma cursor_next_at s w l skip :
  cursor s (w ++ l) → zlen w = skip + 1 → next_at (set_format (v_format s + skip) s) l.
Proof.
  intros (pre & Hf & Hv & _) Hw. exists (pre ++ w). rewrite <- app_assoc. split; [done|].
  cbn. rewrite length_app. lia.
Qed.

(** The end of a fast conversion, in front of the rest of the format. *)
Lemma to_default_done text c' l args s s1 o :
  next_at s1 (c' :: l) →
  v_base s1 = 0 ∧ v_cflags s1 = 0 ∧ v_flags s1 = 0 ∧ v_width s1 = 0 ∧ v_precision s1 = -1 →
  v_overflow s1 = false → v_args s1 = args → zlen (v_scratch s1) = 32 →
  sink_ok size buf0 text o → v_ch s ≠ 0 →
  vstep format size s = to_default format (set_out o s1) →
  item_done text (c' :: l) args s.
Proof.
  intros (pre & Hf & Hv) Hcl Hov Ha Hs Ho Hch E. left.
  exists (set_format (v_format s1 + 1) (set_ch c' (set_state PRINT_S_DEFAULT (set_out o s1)))).
  split.
  - apply steps_one; [done|]. rewrite E. unfold to_default, continue, advance. cbn [v_format set_state set_out].
    rewrite (load1_Ok _ _ c'); [done|lia|].
    rewrite Hf, Hv, lookup_app_r by lia. by rewrite Nat2Z.id, Nat.sub_diag.
  - split; try done. exists pre. cbn. split_and!; [done|lia|done].
Qed.

(** *** The fast conversions *)

Lemma put_char_OUTCHAR c o : s_len o + 1 < size → OUTCHAR size o c = put_char c o.
Proof. intros. unfold OUTCHAR. by rewrite (proj2 (Z.ltb_lt _ _)). Qed.

Lemma put_char_ok text c o :
  sink_ok size buf0 text o → s_len o + 1 < size →
  ∃ o', put_char c o = Ok o' ∧ sink_ok size buf0 (text ++ [c]) o' ∧ s_len o' = s_len o + 1.
Proof.
  intros Ho Hl. rewrite <- put_char_OUTCHAR by done. exact (emits_OUTCHAR size c buf0 text o Ho).
Qed.

Lemma copy_str_ok fuel v pre text o :
  sink_ok size buf0 text o → In 0 v → (length v < fuel)%nat →
  ∃ o', copy_str size fuel (pre ++ v) (zlen pre) o = Ok o' ∧
    sink_ok size buf0 (text ++ until_nul v) o'.
Proof.
  revert fuel pre text o. induction v as [|c v IH]; intros fuel pre text o Ho Hin Hf; [done|].
  destruct fuel as [|fuel]; [cbn in Hf; lia|]. cbn [copy_str until_nul].
  rewrite (load1_Ok _ _ c) by (rewrite ?Nat2Z.id, ?lookup_app_r, ?Nat.sub_diag by lia; done || lia).
  cbn [mbind outcome_bind]. destruct (Z.eqb_spec c 0) as [->|Hc]; cbn [negb andb].
  { exists o. by rewrite app_nil_r. }
  destruct (Z.ltb_spec (s_len o + 1) size).
  - destruct (put_char_ok text c o Ho) as (o1 & -> & Ho1 & _); [done|]. cbn [mbind outcome_bind].
    destruct (IH fuel (pre ++ [c]) (text ++ [c]) o1 Ho1) as (o2 & E & Ho2);
      [by destruct Hin as [|]|cbn in Hf; lia|].
    exists o2. rewrite <- app_assoc in E. replace (zlen (pre ++ [c])) with (zlen pre + 1) in E
      by (rewrite length_app; cbn; lia).
    cbn [app] in E. rewrite E. rewrite <- app_assoc in Ho2. done.
  - exists o. split; [done|]. by apply sink_ok_full.
Qed.

Lemma case_c_done text c' l v args s :
  in_flags text (chr "c" :: c' :: l) (AInt TInt v :: args) 0 s →
  item_done (text ++ [u8 v]) (c' :: l) args s.
Proof.
  intros [Hc Hst (Hb & Hcf & Hw & Hp) Hfl Hov Ha Ho Hs].
  pose proof (cursor_ch _ _ _ Hc) as Hch.
  assert (∃ o, (if s_len (v_out s) + 1 <? size then put_char (u8 v) (v_out s) else Ok (v_out s)) = Ok o
    ∧ sink_ok size buf0 (text ++ [u8 v]) o) as (o & Eo & Ho').
  { destruct (Z.ltb_spec (s_len (v_out s) + 1) size).
    - destruct (put_char_ok text (u8 v) (v_out s) Ho) as (o & -> & Ho' & _); [done|eauto].
    - eexists. split; [done|]. by apply sink_ok_full. }
  apply (to_default_done _ _ _ _ s (set_args args s) o); try done.
  - pose proof (cursor_next_at s [chr "c"] (c' :: l) 0 Hc eq_refl) as Hn.
    destruct Hn as (pre & ? & Hn). exists pre. split; [done|]. cbn in *. lia.
  - by rewrite Hch.
  - unfold vstep, step_flags. rewrite Hst, Hch. cbn [Z.eqb chr is_di orb]. unfold case_c. rewrite Ha.
    cbn [va_int]. rewrite bool_decide_true by done. cbn [orb check mbind outcome_bind v_out set_args].
    rewrite Eo. reflexivity.
Qed.

Lemma case_s_done text c' l v args s :
  In 0 v → in_flags text (chr "s" :: c' :: l) (APtr 1 v :: args) 0 s →
  item_done (text ++ until_nul v) (c' :: l) args s.
Proof.
  intros Hnul [Hc Hst (Hb & Hcf & Hw & Hp) Hfl Hov Ha Ho Hs].
  pose proof (cursor_ch _ _ _ Hc) as Hch.
  destruct (copy_str_ok (S (length v)) v [] text (v_out s) Ho Hnul ltac:(lia)) as (o & Eo & Ho').
  apply (to_default_done _ _ _ _ s (set_args args s) o); try done.
  - destruct (cursor_next_at s [chr "s"] (c' :: l) 0 Hc eq_refl) as (pre & ? & Hn).
    exists pre. split; [done|]. cbn in *. lia.
  - by rewrite Hch.
  - unfold vstep, step_flags. rewrite Hst, Hch. cbn [Z.eqb chr is_di orb]. unfold case_s. rewrite Ha.
    cbn [va_ptr mbind outcome_bind negb check Z.eqb v_out set_args app] in *.
    change (zlen ([] : bytes)) with 0 in Eo. rewrite Eo. reflexivity.
Qed.

(** The decimal paths, from the [d], [u] or [l] on. *)
Lemma dec_dispatch text t c' l args s :
  t ≠ TChar → t ≠ TShort →
  in_flags text (dec_fmt t ++ c' :: l) args 0 s →
  vstep format size s = fast_decimal format size t (zlen (dec_fmt t) - 1) s.
Proof.
  intros Ht1 Ht2 [Hc Hst _ _ _ _ _ _]. unfold vstep, step_flags. rewrite Hst.
  destruct t; try done; cbn [dec_fmt txt app] in Hc; rewrite (cursor_ch _ _ _ Hc);
    try reflexivity; cbn [Z.eqb chr is_di orb andb]; unfold case_l;
    pose proof (cursor_lookahead _ _ _ 0 _ Hc ltac:(lia) eq_refl) as E0; rewrite Z.add_0_r in E0;
    rewrite E0; try reflexivity;
    pose proof (cursor_lookahead _ _ _ 1 _ Hc ltac:(lia) eq_refl) as E1;
    cbn [mbind outcome_bind is_di chr Z.eqb orb andb]; rewrite E1; reflexivity.
Qed.

(** [norm_of t] is the identity on the values an item may have, and on their negation. *)
Lemma dec_range t v :
  item_ok (IDec t v) →
  norm_of t v = v ∧ (v < 0 → norm_of t (- v) = - v) ∧ - 2 ^ 63 < v < 2 ^ 64 ∧
  t ≠ TChar ∧ t ≠ TShort ∧ (dec_fmt t ≠ txt "d" → dec_fmt t ≠ txt "u" → v ≠ 0).
Proof.
  intros Hok. pose proof long_width_ok as Hlw.
  destruct t; cbn [item_ok] in Hok; try done; unfold norm_of; cbn [ity_width].
  - split_and!; try done; try lia; intros; apply wraps_small; lia.
  - split_and!; try done; try lia; [apply wrapu_small; lia].
  - destruct Hlw as [E|E]; rewrite E in *; split_and!; try done; try lia; intros; apply wraps_small; lia.
  - destruct Hlw as [E|E]; rewrite E in *; split_and!; try done; try lia; apply wrapu_small; lia.
  - split_and!; try done; try lia; intros; apply wraps_small; lia.
  - split_and!; try done; try lia; apply wrapu_small; lia.
Qed.

Lemma dec_numeral v D :
  0 ≤ v < 2 ^ 64 → is_numeral 10 false v (rev D) → D = dec v.
Proof.
  intros Hv Hn. destruct (numeral_spec 10 v false) as [_ Hn']; [lia|done|].
  pose proof (numeral_unique 10 v _ _ ltac:(lia) Hn Hn') as E.
  apply (f_equal (@rev Z)) in E. by rewrite !rev_involutive in E.
Qed.

Lemma sink_len text o :
  sink_ok size buf0 text o → s_len o + 1 < size → s_len o = zlen text.
Proof. intros [_ _ _ _ Hl] Hr. destruct (Z.ltb_spec (zlen text) size); lia. Qed.

(** Converting and copying a positive value. *)
Lemma dec_output t v text o scratch :
  sink_ok size buf0 text o → s_len o = zlen text → s_len o < size →
  zlen scratch = 32 → 0 < v < 2 ^ 64 → norm_of t v = v →
  ∃ scratch' p o', fast_itoa (norm_of t) scratch v = Ok (scratch', p) ∧
    put_scratch out_base scratch_base size o scratch' p = Ok o' ∧
    zlen scratch' = 32 ∧ sink_ok size buf0 (text ++ dec v) o'.
Proof.
  intros Ho Hl Hlt Hs Hv Hn.
  destruct (norm_of_range t) as (vmin & vmax & H0 & Hmax & Hid & Hin).
  pose proof (Hin v) as Hvr. rewrite Hn in Hvr.
  destruct (fast_itoa_ok (norm_of t) vmax ltac:(intros; apply Hid; lia) scratch v Hs)
    as (pre & D & E & Hlen & HD); [lia|lia|].
  destruct (put_scratch_ok out_base scratch_base size buf0 text o pre D) as (o' & E' & Ho' & _);
    try done.
  { intros ->. by destruct HD as [_ _ Hne _]. }
  rewrite (dec_numeral v D) in Ho' by (done || lia).
  exists (pre ++ D), (zlen pre), o'. rewrite length_app. split_and!; try done. lia.
Qed.

Lemma dec_done text t v c' l args s :
  item_ok (IDec t v) → in_flags text (dec_fmt t ++ c' :: l) (AInt t v :: args) 0 s →
  item_done (text ++ item_text (IDec t v)) (c' :: l) args s.
Proof.
  intros Hok Hin. destruct (dec_range t v Hok) as (Hnv & Hneg & Hv & Ht1 & Ht2 & Hz).
  pose proof (dec_dispatch _ _ _ _ _ _ Ht1 Ht2 Hin) as E.
  destruct Hin as [Hc Hst (Hb & Hcf & Hw & Hp) Hfl Hov Ha Ho Hs].
  set (w := dec_fmt t) in *.
  assert (v_ch s ≠ 0) as Hch.
  { subst w. destruct t; try done; cbn [dec_fmt txt app] in Hc; by rewrite (cursor_ch _ _ _ Hc). }
  unfold fast_decimal in E. rewrite Ha in E. unfold va_int in E.
  rewrite bool_decide_true in E by done. cbn [orb check mbind outcome_bind v_out set_args] in E.
  rewrite Hnv in E. destruct (Z.leb_spec size (s_len (v_out s) + 1)) as [Hfull|Hroom].
  { right. exists s, (set_args args s). split; [constructor|]. split; [done|]. split; [exact E|].
    split; [apply sink_ok_full; cbn; done || lia|]. split; [cbn; lia|done]. }
  pose proof (sink_len _ _ Ho Hroom) as Hlen. unfold item_text.
  destruct (Z.eqb_spec v 0) as [->|Hv0].
  - destruct (put_char_ok text (chr "0") (v_out s) Ho Hroom) as (o & Eo & Ho' & _).
    rewrite Eo in E. change (dec 0) with [chr "0"].
    apply (to_default_done _ _ _ _ s (set_args args s) o); try done.
    destruct (cursor_next_at s w (c' :: l) 0 Hc) as (pre & ? & Hn).
    + subst w. destruct t; try done; exfalso; by apply Hz.
    + exists pre. split; [done|]. cbn in *. lia.
  - assert (∃ o v1, (if v <? 0 then o ← put_char (chr "-") (v_out s); Ok (o, norm_of t (- v))
        else Ok (v_out s, v)) = Ok (o, v1) ∧
      sink_ok size buf0 (text ++ (if v <? 0 then [chr "-"] else [])) o ∧
      s_len o = zlen (text ++ (if v <? 0 then [chr "-"] else [])) ∧ s_len o < size ∧
      0 < v1 < 2 ^ 64 ∧ norm_of t v1 = v1 ∧ v1 = Z.abs v) as (o & v1 & Eo & Ho1 & Hl1 & Hr1 & Hv1 & Hn1 & Habs).
    { destruct (Z.ltb_spec v 0).
      - destruct (put_char_ok text (chr "-") (v_out s) Ho Hroom) as (o & -> & Ho1 & Hl1).
        exists o, (norm_of t (- v)). rewrite Hneg by done. rewrite length_app. cbn [length].
        split_and!; try done; try lia.
      - exists (v_out s), v. rewrite app_nil_r. split_and!; try done; try lia. }
    rewrite Eo in E. cbn [mbind outcome_bind v_scratch set_args] in E.
    destruct (dec_output t v1 _ o (v_scratch s) Ho1 Hl1 Hr1 Hs Hv1 Hn1)
      as (scratch' & p & o' & E1 & E2 & Hs' & Ho').
    rewrite E1 in E. cbn [mbind outcome_bind v_scratch set_args] in E. rewrite E2 in E.
    cbn [mbind outcome_bind] in E.
    assert (text ++ (if v <? 0 then chr "-" :: dec (- v) else dec v) =
            (text ++ (if v <? 0 then [chr "-"] else [])) ++ dec v1) as ->.
    { rewrite <- app_assoc, Habs. destruct (Z.ltb_spec v 0); cbn [app].
      - by rewrite Z.abs_neq by lia.
      - by rewrite Z.abs_eq by lia. }
    apply (to_default_done _ _ _ _ s
      (set_format (v_format s + (zlen w - 1)) (set_scratch scratch' (set_args args s))) o');
      try done.
    destruct (cursor_next_at s w (c' :: l) (zlen w - 1) Hc ltac:(lia)) as (pre & ? & Hn).
    exists pre. split; [done|]. cbn in *. lia.
Qed.

(** *** The slow path: flags, width, precision *)

(** In state [p] at [l], with the flags, width and precision read so far. *)
Record at_state (p : pstate) (text l : bytes) (args : list arg) (flags width precision : Z)
    (s : vst) : Prop := {
  st_cursor : cursor s l;
  st_state : v_state s = p;
  st_clean : v_base s = 0 ∧ v_cflags s = 0;
  st_spec : v_flags s = flags ∧ v_width s = width ∧ v_precision s = precision;
  st_overflow : v_overflow s = false;
  st_args : v_args s = args;
  st_out : sink_ok size buf0 text (v_out s);
  st_scratch : zlen (v_scratch s) = 32
}.

Lemma flags_steps fl text c l args f0 s :
  in_flags text ((fflag_char <$> fl) ++ c :: l) args f0 s →
  ∃ s', steps s s' ∧
    in_flags text (c :: l) args (foldl (λ a f, Z.lor a (fflag_bit f)) f0 fl) s'.
Proof.
  revert f0 s. induction fl as [|f fl IH]; intros f0 s Hin; [exists s; split; [constructor|done]|].
  destruct Hin as [Hc Hst (Hb & Hcf & Hw & Hp) Hfl Hov Ha Ho Hs]. cbn [fmap list_fmap app] in Hc.
  pose proof (cursor_ch _ _ _ Hc) as Hch.
  assert (∃ c1 l1, (fflag_char <$> fl) ++ c :: l = c1 :: l1) as (c1 & l1 & El)
    by (destruct fl; cbn; eauto).
  rewrite El in Hc, IH.
  assert (cursor (add_flags (fflag_bit f) s) (fflag_char f :: c1 :: l1)) as Hc1 by done.
  destruct (cursor_advance _ _ _ _ Hc1) as [E Hc2].
  destruct (IH (Z.lor f0 (fflag_bit f))
    (set_format (v_format s + 1) (set_ch c1 (add_flags (fflag_bit f) s)))) as (s' & Hsteps & Hin').
  { split; try done. cbn. by rewrite Hfl. }
  exists s'. split; [|exact Hin'].
  eapply steps_next; [by rewrite Hch; destruct f| |exact Hsteps].
  unfold vstep, step_flags. rewrite Hst, Hch.
  unfold continue. destruct f; cbn [fflag_bit] in E; cbn; by rewrite E.
Qed.

(** The characters that follow the flags of a slow conversion: a digit of the width, the
    point, or one of x, X, o. *)
Definition slow_start (c : Z) : bool :=
  ((chr "1" <=? c) && (c <=? chr "9")) || existsb (Z.eqb c) (txt ".xXo").

Lemma slow_start_step text c l args fl s :
  slow_start c = true → in_flags text (c :: l) args fl s →
  ∃ s', steps s s' ∧ at_state PRINT_S_WIDTH text (c :: l) args fl 0 (-1) s'.
Proof.
  intros Hslow [Hc Hst (Hb & Hcf & Hw & Hp) Hfl Hov Ha Ho Hs].
  pose proof (cursor_ch _ _ _ Hc) as Hch.
  exists (set_state PRINT_S_WIDTH s). split; [|by split].
  assert (∀ x, slow_start x = false → (c =? x) = false) as Hne.
  { intros x Hx. apply Z.eqb_neq. intros ->. congruence. }
  apply steps_one.
  - rewrite Hch. apply Z.eqb_neq, Hne. reflexivity.
  - unfold vstep, step_flags. rewrite Hst, Hch. unfold is_di.
    rewrite !Hne by reflexivity. reflexivity.
Qed.

(** A round that only changes the state. *)
Lemma state_step p p' text c l args fl w pr s :
  at_state p text (c :: l) args fl w pr s → c ≠ 0 →
  vstep format size s = Ok (Continue (set_state p' s)) →
  ∃ s', steps s s' ∧ at_state p' text (c :: l) args fl w pr s'.
Proof.
  intros [Hc Hst Hcl Hsp Hov Ha Ho Hs] Hnz E. exists (set_state p' s).
  split; [|by split]. apply steps_one; [|done]. by rewrite (cursor_ch _ _ _ Hc).
Qed.

Lemma ISDIGIT_digit d : 0 ≤ d < 10 → ISDIGIT (digit_char false d) = true ∧
  CHARTOINT (digit_char false d) = d ∧ digit_char false d ≠ 0.
Proof.
  intros Hd. unfold ISDIGIT, CHARTOINT, digit_char. change (chr "0") with 48. change (chr "9") with 57.
  rewrite (proj2 (Z.ltb_lt d 10)) by lia. split_and!; [|lia|lia].
  apply andb_true_iff. rewrite !Z.leb_le. lia.
Qed.

(** The value that digits, most significant first, extend [a] to. *)
Definition digits_on (a : Z) (D : bytes) : Z := foldl (λ a c, 10 * a + CHARTOINT c) a D.

Lemma digits_on_ge D a : Forall is_digit D → 0 ≤ a → a ≤ digits_on a D.
Proof.
  intros HD. revert a. induction HD as [|c D (d & Hd & ->) _ IH]; intros a Ha; [done|].
  cbn. destruct (ISDIGIT_digit d Hd) as (_ & -> & _).
  specialize (IH (10 * a + d) ltac:(lia)). unfold digits_on in IH. lia.
Qed.

Lemma width_steps D text c l args fl w s :
  Forall is_digit D → 0 ≤ w → digits_on w D ≤ INT_MAX →
  at_state PRINT_S_WIDTH text (D ++ c :: l) args fl w (-1) s →
  ∃ s', steps s s' ∧ at_state PRINT_S_WIDTH text (c :: l) args fl (digits_on w D) (-1) s'.
Proof.
  intros HD. revert w s. induction HD as [|x D (d & Hd & ->) HD IH]; intros w s Hw Hmax Hat.
  { exists s. split; [constructor|done]. }
  destruct Hat as [Hc Hst Hcl (Hfl & Hwd & Hp) Hov Ha Ho Hs]. cbn [app] in Hc.
  pose proof (cursor_ch _ _ _ Hc) as Hch.
  destruct (ISDIGIT_digit d Hd) as (Hdig & Hint & Hnz).
  cbn [digits_on foldl] in Hmax. fold (digits_on (10 * w + CHARTOINT (digit_char false d)) D) in Hmax.
  rewrite Hint in Hmax. pose proof (digits_on_ge D (10 * w + d) HD ltac:(lia)) as Hge.
  assert (∃ c1 l1, D ++ c :: l = c1 :: l1) as (c1 & l1 & El) by (destruct D; cbn; eauto).
  rewrite El in Hc.
  set (s0 := set_width (10 * v_width s + d) (set_ch d s)).
  assert (cursor (set_ch (digit_char false d) s0) (digit_char false d :: c1 :: l1)) as Hc1.
  { destruct Hc as (pre & ? & ? & ?). exists pre. done. }
  destruct (cursor_advance _ _ _ _ Hc1) as [E Hc2].
  destruct (IH (10 * w + d) (set_format (v_format s + 1) (set_ch c1 s0))) as (s' & Hsteps & Hin').
  { lia. }
  { done. }
  { rewrite El. split; try done. cbn. by rewrite Hwd. }
  exists s'. split.
  - eapply steps_next; [by rewrite Hch| |exact Hsteps].
    unfold vstep, step_width. rewrite Hst, Hch, Hdig, Hint, Hwd.
    rewrite (proj2 (Z.ltb_ge _ _)).
    2:{ apply Z.div_le_lower_bound; lia. }
    unfold continue, advance in *. cbn [v_format set_width set_ch set_format] in *.
    unfold s0 in E. cbn [v_format set_width set_ch set_format] in E.
    destruct (load1 (v_format s) format); [|done]. cbn [mbind outcome_bind] in *.
    unfold s0. rewrite Hwd. injection E as E. congruence.
  - cbn [digits_on foldl]. fold (digits_on (10 * w + CHARTOINT (digit_char false d)) D).
    by rewrite Hint.
Qed.

(** The precision that PRINT_S_PRECISION starts from. *)
Definition prec_eff (pr : Z) : Z := if pr =? -1 then 0 else pr.

Lemma precision_steps D text c l args fl w pr s :
  Forall is_digit D → -1 ≤ pr → digits_on (prec_eff pr) D ≤ INT_MAX →
  c ≠ 0 → ISDIGIT c = false → c ≠ chr "*" →
  at_state PRINT_S_PRECISION text (D ++ c :: l) args fl w pr s →
  ∃ s', steps s s' ∧
    at_state PRINT_S_MOD text (c :: l) args fl w (digits_on (prec_eff pr) D) s'.
Proof.
  intros HD Hpr Hmax Hc0 Hcd Hcs. revert pr s Hpr Hmax.
  induction HD as [|x D (d & Hd & ->) HD IH]; intros pr s Hpr Hmax Hat.
  { destruct Hat as [Hc Hst Hcl (Hfl & Hwd & Hp) Hov Ha Ho Hs].
    pose proof (cursor_ch _ _ _ Hc) as Hch.
    exists (set_state PRINT_S_MOD (if v_precision s =? -1 then set_precision 0 s else s)).
    split.
    - apply steps_one; [by rewrite Hch|]. unfold vstep, step_precision. rewrite Hst.
      assert (∀ b : bool, v_ch (if b then set_precision 0 s else s) = v_ch s) as Hb by (by intros []).
      rewrite !Hb, Hch, Hcd, (proj2 (Z.eqb_neq _ _)) by done. done.
    - cbn. unfold prec_eff. rewrite Hp. destruct (pr =? -1); split; done. }
  destruct Hat as [Hc Hst Hcl (Hfl & Hwd & Hp) Hov Ha Ho Hs]. cbn [app] in Hc.
  pose proof (cursor_ch _ _ _ Hc) as Hch.
  destruct (ISDIGIT_digit d Hd) as (Hdig & Hint & Hnz).
  cbn [digits_on foldl] in Hmax.
  fold (digits_on (10 * prec_eff pr + CHARTOINT (digit_char false d)) D) in Hmax.
  assert (0 ≤ prec_eff pr) as Hpe by (unfold prec_eff; ztest; lia).
  rewrite Hint in Hmax.
  pose proof (digits_on_ge D (10 * prec_eff pr + d) HD ltac:(lia)) as Hge.
  assert (∃ c1 l1, D ++ c :: l = c1 :: l1) as (c1 & l1 & El) by (destruct D; cbn; eauto).
  rewrite El in Hc.
  set (sp := if v_precision s =? -1 then set_precision 0 s else s).
  assert (v_precision sp = prec_eff pr ∧ v_ch sp = v_ch s ∧ v_format sp = v_format s) as (Hsp1 & Hsp2 & Hsp3)
    by (unfold sp, prec_eff; rewrite Hp; by destruct (pr =? -1)).
  set (s0 := set_precision (10 * v_precision sp + d) (set_ch d sp)).
  assert (advance format s0 = Ok (set_format (v_format s + 1) (set_ch c1 s0)) ∧
    cursor (set_format (v_format s + 1) (set_ch c1 s0)) (c1 :: l1)) as [E Hc2].
  { destruct (cursor_advance _ _ _ _ Hc) as [E1 (pre & ? & ? & ?)]. split.
    - unfold advance in *. unfold s0. cbn [v_format set_precision set_ch]. rewrite Hsp3.
      destruct (load1 (v_format s) format); [|done]. cbn [mbind outcome_bind] in *.
      injection E1 as E1. congruence.
    - exists pre. done. }
  destruct (IH (10 * prec_eff pr + d) (set_format (v_format s + 1) (set_ch c1 s0)))
    as (s' & Hsteps & Hin').
  { lia. }
  { unfold prec_eff at 1. rewrite (proj2 (Z.eqb_neq _ _)) by lia. done. }
  { rewrite El. assert (v_state sp = v_state s ∧ v_base sp = v_base s ∧ v_cflags sp = v_cflags s ∧
      v_flags sp = v_flags s ∧ v_width sp = v_width s ∧ v_overflow sp = v_overflow s ∧
      v_args sp = v_args s ∧ v_out sp = v_out s ∧ v_scratch sp = v_scratch s)
      as (E1 & E2 & E3 & E4 & E5 & E6 & E7 & E8 & E9) by (unfold sp; by destruct (_ =? -1)).
    split; cbn; rewrite ?E1, ?E2, ?E3, ?E4, ?E5, ?E6, ?E7, ?E8, ?E9, ?Hsp1; done. }
  exists s'. split.
  - eapply steps_next; [by rewrite Hch| |exact Hsteps].
    unfold vstep, step_precision. rewrite Hst. fold sp. rewrite Hsp2, Hch, Hdig, Hint, Hsp1.
    rewrite (proj2 (Z.ltb_ge _ _)).
    2:{ apply Z.div_le_lower_bound; lia. }
    unfold continue. unfold s0 in E. rewrite Hsp1 in E. rewrite E. cbn [mbind outcome_bind].
    unfold s0. by rewrite Hsp1.
  - cbn [digits_on foldl]. fold (digits_on (10 * prec_eff pr + CHARTOINT (digit_char false d)) D).
    rewrite Hint. unfold prec_eff in Hin' at 1.
    by rewrite (proj2 (Z.eqb_neq _ _)) in Hin' by lia.
Qed.

(** The decimal numeral of a width or precision, read back. *)
Lemma dec_digits n :
  0 < n ≤ INT_MAX →
  Forall is_digit (dec n) ∧ digits_on 0 (dec n) = n ∧
  ∃ d D, dec n = digit_char false d :: D ∧ 1 ≤ d < 10.
Proof.
  unfold INT_MAX. intros Hn. destruct (numeral_spec 10 n false) as [_ [Hd Hv Hne Hl]]; [lia|lia|].
  fold (dec n) in *.
  assert (Forall is_digit (dec n)) as HD.
  { rewrite <- (rev_involutive (dec n)). by apply Forall_rev. }
  split; [done|]. split.
  - rewrite <- Hv at 2. unfold digits_on, digits_val.
    assert (∀ D, Forall is_digit D → foldl (λ a c, 10 * a + CHARTOINT c) 0 D =
      foldr (λ c a, digit_val c + 10 * a) 0 (rev D)) as Hfold.
    { intros D' HD'. induction D' as [|x D' IH] using rev_ind; [done|].
      apply Forall_app in HD'. destruct HD' as [HD' Hx]. inversion Hx as [|? ? (d & Hdr & ->) _]; subst.
      rewrite foldl_app, rev_app_distr. cbn. rewrite IH by done.
      destruct (ISDIGIT_digit d Hdr) as (_ & -> & _). rewrite digit_val_char by lia. lia. }
    by apply Hfold.
  - destruct (dec n) as [|x D] eqn:E; [done|].
    inversion HD as [|? ? (d & Hdr & ->) _]; subst. exists d, D. split; [done|].
    destruct (decide (d = 0)) as [->|]; [|lia]. exfalso.
    cbn [rev] in Hl. rewrite last_snoc in Hl. specialize (Hl eq_refl).
    apply (f_equal (digits_val 10)) in Hl. cbn [rev] in Hn. rewrite Hl in Hn.
    change (digits_val 10 [chr "0"]) with 0 in Hn. lia.
Qed.

(** The conversion characters of the items. *)
Definition conv_char (c : Z) : Prop := In c (txt "dxXous").

Lemma conv_char_facts c :
  conv_char c →
  c ≠ 0 ∧ ISDIGIT c = false ∧ c ≠ chr "*" ∧ c ≠ chr "." ∧
  ((c =? chr "h") || (c =? chr "l") || (c =? chr "L") || (c =? chr "j") || (c =? chr "t") ||
   (c =? chr "z")) = false.
Proof. cbn. intros [<-|[<-|[<-|[<-|[<-|[<-|[]]]]]]]; done. Qed.

(** From PRINT_S_WIDTH in front of the point or the conversion character. *)
Lemma after_width text prec_txt c l args fl w pr s :
  conv_char c →
  (prec_txt = [] ∧ pr = -1 ∨
   ∃ D, prec_txt = chr "." :: D ∧ Forall is_digit D ∧ digits_on 0 D = pr ∧ pr ≤ INT_MAX) →
  at_state PRINT_S_WIDTH text (prec_txt ++ c :: l) args fl w (-1) s →
  ∃ s', steps s s' ∧ at_state PRINT_S_CONV text (c :: l) args fl w pr s'.
Proof.
  intros Hc Hprec Hat. destruct (conv_char_facts c Hc) as (Hnz & Hdig & Hstar & Hdot & Hmods).
  assert (∃ x l1, prec_txt ++ c :: l = x :: l1 ∧ x ≠ 0 ∧ ISDIGIT x = false ∧ x ≠ chr "*")
    as (x & l1 & El & Hx0 & Hxd & Hxs).
  { destruct Hprec as [[-> _]|(D & -> & _)]; cbn; [by exists c, l|]. eexists _, _. done. }
  rewrite El in Hat. pose proof Hat as [Hcu Hst _ _ _ _ _ _].
  destruct (state_step PRINT_S_WIDTH PRINT_S_DOT text x l1 args fl w (-1) s Hat Hx0)
    as (s1 & Hs1 & Hat1).
  { unfold vstep, step_width. rewrite Hst, (cursor_ch _ _ _ Hcu), Hxd.
    by rewrite (proj2 (Z.eqb_neq _ _)). }
  assert (∃ s2, steps s1 s2 ∧ at_state PRINT_S_MOD text (c :: l) args fl w pr s2) as (s2 & Hs2 & Hat2).
  { pose proof Hat1 as [Hcu1 Hst1 Hcl1 Hsp1 Hov1 Ha1 Ho1 Hsc1].
    destruct Hprec as [[-> ->]|(D & -> & HD & Hval & Hmax)].
    - cbn in El. injection El as <- <-.
      apply (state_step PRINT_S_DOT PRINT_S_MOD _ _ _ _ _ _ _ _ Hat1 Hnz).
      unfold vstep, step_dot. rewrite Hst1, (cursor_ch _ _ _ Hcu1).
      by rewrite (proj2 (Z.eqb_neq _ _)).
    - cbn [app] in El. injection El as <- <-.
      assert (∃ y l2, D ++ c :: l = y :: l2) as (y & l2 & El2) by (destruct D; cbn; eauto).
      rewrite El2 in Hcu1.
      assert (cursor (set_state PRINT_S_PRECISION s1) (chr "." :: y :: l2)) as Hcu2 by done.
      destruct (cursor_advance _ _ _ _ Hcu2) as [E Hcu3].
      destruct (precision_steps D text c l args fl w (-1)
        (set_format (v_format s1 + 1) (set_ch y (set_state PRINT_S_PRECISION s1)))) as (s2 & Hs2 & Hat2);
        [done|lia|cbn; lia|done|done|done| |].
      { rewrite El2. split; try done. }
      exists s2. split; [|by rewrite <- Hval].
      eapply steps_next; [by rewrite (cursor_ch _ _ _ Hcu1)| |exact Hs2].
      unfold vstep, step_dot. rewrite Hst1, (cursor_ch _ _ _ Hcu1). unfold continue. cbn [Z.eqb chr].
      by rewrite E. }
  pose proof Hat2 as [Hcu2 Hst2 _ _ _ _ _ _].
  destruct (state_step PRINT_S_MOD PRINT_S_CONV text c l args fl w pr s2 Hat2 Hnz) as (s3 & Hs3 & Hat3).
  { unfold vstep, step_mod. rewrite Hst2, (cursor_ch _ _ _ Hcu2).
    rewrite !orb_false_iff in Hmods. destruct Hmods as [[[[[-> ->] ->] ->] ->] ->]. done. }
  exists s3. split; [|done]. eapply steps_trans; [done|]. eapply steps_trans; done.
Qed.

(** A whole slow conversion up to its conversion character. *)
Lemma spec_steps text sp c c' l args s :
  spec_ok sp → conv_char c → spec_slow sp = true ∨ slow_start c = true →
  boundary text (chr "%" :: spec_fmt sp ++ c :: c' :: l) args s →
  ∃ s', steps s s' ∧
    at_state PRINT_S_CONV text (c :: c' :: l) args (flag_bits (sp_flags sp)) (sp_width sp)
      (spec_precision sp) s'.
Proof.
  intros [Hw Hp] Hc Hslow Hb. unfold spec_fmt in Hb. rewrite <- !app_assoc in Hb.
  set (wt := if sp_width sp =? 0 then [] else dec (sp_width sp)) in *.
  set (pt := match sp_precision sp with None => [] | Some p => _ end) in *.
  assert (Forall is_digit wt ∧ digits_on 0 wt = sp_width sp) as [Hwd Hwv].
  { unfold wt. destruct (Z.eqb_spec (sp_width sp) 0) as [->|]; [by split|].
    destruct (dec_digits (sp_width sp)) as (? & ? & _); [lia|done]. }
  assert (pt = [] ∧ spec_precision sp = -1 ∨
    ∃ D, pt = chr "." :: D ∧ Forall is_digit D ∧ digits_on 0 D = spec_precision sp ∧
      spec_precision sp ≤ INT_MAX) as Hpt.
  { unfold pt, spec_precision. destruct (sp_precision sp) as [p|]; [right|by left].
    unfold INT_MAX in *. eexists. split; [done|]. destruct (Z.eqb_spec p 0) as [->|]; [done|].
    destruct (dec_digits p) as (? & ? & _); [unfold INT_MAX; lia|]. split_and!; done || lia. }
  assert (∃ x R, wt ++ pt ++ c :: c' :: l = x :: R ∧ slow_start x = true) as (x & R & ER & Hx).
  { unfold wt, pt. destruct (Z.eqb_spec (sp_width sp) 0) as [Hw0|Hw0].
    - unfold spec_slow in Hslow. rewrite Hw0 in Hslow. cbn [Z.eqb negb orb] in Hslow.
      destruct (sp_precision sp); [cbn; by eauto|].
      destruct Hslow as [|Hs]; [done|]. cbn. by eauto.
    - destruct (dec_digits (sp_width sp)) as (_ & _ & d & D & -> & Hd); [lia|]. cbn.
      eexists _, _. split; [done|]. unfold slow_start, digit_char.
      rewrite (proj2 (Z.ltb_lt d 10)) by lia. change (chr "0") with 48. change (chr "1") with 49.
      change (chr "9") with 57. rewrite (proj2 (Z.leb_le 49 _)), (proj2 (Z.leb_le _ 57)) by lia. done. }
  rewrite ER in Hb.
  assert (∃ y R', (fflag_char <$> sp_flags sp) ++ x :: R = y :: R') as (y & R' & EF)
    by (destruct (sp_flags sp); cbn; eauto).
  rewrite EF in Hb. destruct (percent_step _ _ _ _ _ Hb) as (s1 & Hs1 & Hin1).
  rewrite <- EF in Hin1. destruct (flags_steps _ _ _ _ _ _ _ Hin1) as (s2 & Hs2 & Hin2).
  fold (flag_bits (sp_flags sp)) in Hin2.
  destruct (slow_start_step _ _ _ _ _ _ Hx Hin2) as (s3 & Hs3 & Hat3).
  rewrite <- ER in Hat3.
  assert (∃ z R2, pt ++ c :: c' :: l = z :: R2) as (z & R2 & EP) by (destruct pt; cbn; eauto).
  rewrite EP in Hat3.
  destruct (width_steps wt text z R2 args (flag_bits (sp_flags sp)) 0 s3) as (s4 & Hs4 & Hat4);
    [done|lia|lia|done|].
  rewrite <- EP, Hwv in Hat4.
  destruct (after_width text pt c (c' :: l) args _ _ (spec_precision sp) s4 Hc Hpt Hat4)
    as (s5 & Hs5 & Hat5).
  exists s5. split; [|done]. repeat (eapply steps_trans; [eassumption|]). constructor.
Qed.

(** *** The slow conversions *)

Lemma conv_done text' c c' l args' s s1 :
  conv_char c → cursor s (c :: c' :: l) →
  vstep format size s =
    (s ← advance format s1; Ok (Continue (reset_spec (set_state PRINT_S_DEFAULT s)))) →
  v_format s1 = v_format s → v_ch s1 = v_ch s → v_overflow s1 = false → v_args s1 = args' →
  sink_ok size buf0 text' (v_out s1) → zlen (v_scratch s1) = 32 →
  item_done text' (c' :: l) args' s.
Proof.
  intros Hc Hcu E Hf Hch Hov Ha Ho Hs. left.
  assert (cursor s1 (c :: c' :: l)) as Hcu1.
  { destruct Hcu as (pre & ? & ? & ?). exists pre. rewrite Hf, Hch. done. }
  destruct (cursor_advance _ _ _ _ Hcu1) as [E1 Hcu2].
  eexists. split.
  - apply steps_one; [|rewrite E, E1; reflexivity].
    rewrite (cursor_ch _ _ _ Hcu). by apply conv_char_facts.
  - split; try done.
Qed.

Lemma signed_arg_int s v args :
  v_cflags s = 0 → v_args s = AInt TInt v :: args → conv_signed_arg s = Ok (v, args).
Proof.
  intros Hc Ha. unfold conv_signed_arg. rewrite Hc, Ha. unfold va_int.
  by rewrite (bool_decide_true (TInt = TInt)).
Qed.

Lemma unsigned_arg_int s v args :
  v_cflags s = 0 → v_args s = AInt TUInt v :: args → conv_unsigned_arg s = Ok (v, args).
Proof.
  intros Hc Ha. unfold conv_unsigned_arg. rewrite Hc, Ha. unfold va_int.
  by rewrite (bool_decide_true (TUInt = TUInt)).
Qed.

(** The fall-through cases of the unsigned conversions. *)
Lemma conv_unsigned_at s c :
  v_ch s = c → v_base s = 0 → (c = chr "x" ∨ c = chr "X" ∨ c = chr "o" ∨ c = chr "u") →
  conv_unsigned size s =
    (let s2 := add_flags PRINT_F_UNSIGNED (set_base (uns_base c)
       (if c =? chr "X" then add_flags PRINT_F_UP s else s)) in
     '(value, args) ← conv_unsigned_arg s2;
     call_fmtint size value (v_base s2) (set_args args s2)).
Proof.
  intros Hch Hb Hc. destruct s. cbn in Hch, Hb. subst.
  destruct Hc as [-> | [-> | [-> | ->]]]; reflexivity.
Qed.

Lemma int_spec_args sp v base :
  spec_ok sp → base_ok base → int_args_ok v base (sp_width sp) (spec_precision sp).
Proof.
  intros [Hw Hp] Hb. split; [done|done|]. unfold spec_precision.
  destruct (sp_precision sp); unfold INT_MAX in *; lia.
Qed.

Lemma int_done text sp c' l v args s :
  item_ok (IInt sp v) →
  boundary text (item_fmt (IInt sp v) ++ c' :: l) (AInt TInt v :: args) s →
  item_done (text ++ item_text (IInt sp v)) (c' :: l) args s.
Proof.
  intros (Hsp & Hslow & Hv) Hb. cbn [item_fmt] in Hb. cbn [app] in Hb.
  rewrite <- app_assoc in Hb. cbn [txt app] in Hb.
  destruct (spec_steps text sp (chr "d") c' l (AInt TInt v :: args) s) as (s1 & Hs1 & Hat);
    [done|cbn; auto|by left|done|].
  pose proof Hat as [Hcu Hst [Hb0 Hcf] (Hfl & Hw & Hp) Hov Ha Ho Hsc].
  destruct (fmtint_emits size v 10 (sp_width sp) (spec_precision sp) (flag_bits (sp_flags sp))
    (int_spec_args sp v 10 Hsp ltac:(unfold base_ok; lia)) buf0 text (v_out s1) Ho)
    as (o & Eo & Ho' & _).
  apply (item_done_steps _ _ _ s s1 Hs1).
  apply (conv_done _ (chr "d") c' l args s1 (set_out o (set_args args s1)));
    try done; [cbn; auto|].
  assert (vstep format size s1 = (s' ← conv_d size s1; s ← advance format s';
    Ok (Continue (reset_spec (set_state PRINT_S_DEFAULT s))))) as ->.
  { unfold vstep, step_conv. rewrite Hst, (cursor_ch _ _ _ Hcu). reflexivity. }
  unfold conv_d. rewrite (signed_arg_int s1 v args) by done. cbn [mbind outcome_bind].
  unfold call_fmtint. cbn [v_out v_width v_precision v_flags set_args].
  rewrite Hw, Hp, Hfl, Eo. reflexivity.
Qed.

Lemma uns_done text sp c c' l v args s :
  item_ok (IUns sp c v) →
  boundary text (item_fmt (IUns sp c v) ++ c' :: l) (AInt TUInt v :: args) s →
  item_done (text ++ item_text (IUns sp c v)) (c' :: l) args s.
Proof.
  intros (Hsp & Hv & Hc) Hb. cbn [item_fmt] in Hb. cbn [app] in Hb.
  rewrite <- app_assoc in Hb. cbn [app] in Hb.
  assert (conv_char c ∧ (spec_slow sp = true ∨ slow_start c = true) ∧ base_ok (uns_base c)) as (Hcc & Hslow & Hbase).
  { destruct Hc as [-> | [-> | [-> | [-> Hs]]]]; (split; [cbn; auto 10|]);
      (split; [by auto|vm_compute; split; discriminate]). }
  destruct (spec_steps text sp c c' l (AInt TUInt v :: args) s) as (s1 & Hs1 & Hat); [done..|].
  pose proof Hat as [Hcu Hst [Hb0 Hcf] (Hfl & Hw & Hp) Hov Ha Ho Hsc].
  destruct (fmtint_emits size v (uns_base c) (sp_width sp) (spec_precision sp) (uns_flags sp c)
    (int_spec_args sp v (uns_base c) Hsp Hbase) buf0 text (v_out s1) Ho) as (o & Eo & Ho' & _).
  apply (item_done_steps _ _ _ s s1 Hs1).
  set (s2 := add_flags PRINT_F_UNSIGNED (set_base (uns_base c)
    (if c =? chr "X" then add_flags PRINT_F_UP s1 else s1))).
  assert (v_width s2 = sp_width sp ∧ v_precision s2 = spec_precision sp ∧
    v_flags s2 = uns_flags sp c ∧ v_out s2 = v_out s1 ∧ v_args s2 = v_args s1 ∧ v_cflags s2 = 0 ∧
    v_base s2 = uns_base c ∧ v_format s2 = v_format s1 ∧ v_ch s2 = v_ch s1 ∧
    v_overflow s2 = false ∧ v_scratch s2 = v_scratch s1) as
    (E1 & E2 & E3 & E4 & E5 & E6 & E7 & E8 & E9 & E10 & E11).
  { unfold s2, uns_flags. rewrite <- Hfl. by destruct (c =? chr "X"). }
  apply (conv_done _ c c' l args s1 (set_out o (set_args args s2)));
    cbn [v_format v_ch v_overflow v_args v_out v_scratch set_out set_args]; try done; [| by rewrite E11].
  assert (vstep format size s1 = (s' ← ('(value, args) ← conv_unsigned_arg s2;
    call_fmtint size value (v_base s2) (set_args args s2));
    s ← advance format s'; Ok (Continue (reset_spec (set_state PRINT_S_DEFAULT s))))) as ->.
  { transitivity (s' ← conv_unsigned size s1; s ← advance format s';
      Ok (Continue (reset_spec (set_state PRINT_S_DEFAULT s)))).
    - unfold vstep, step_conv. rewrite Hst, (cursor_ch _ _ _ Hcu).
      destruct Hc as [-> | [-> | [-> | [-> _]]]]; reflexivity.
    - rewrite (conv_unsigned_at s1 c); [done|exact (cursor_ch _ _ _ Hcu)|done|tauto]. }
  rewrite (unsigned_arg_int s2 v args) by (done || congruence). cbn [mbind outcome_bind].
  unfold call_fmtint. cbn [v_out v_width v_precision v_flags set_args].
  rewrite E1, E2, E3, E4, E7, Eo. reflexivity.
Qed.

Lemma string_done text sp c' l v args s :
  item_ok (IString sp v) →
  boundary text (item_fmt (IString sp v) ++ c' :: l) (APtr 1 v :: args) s →
  item_done (text ++ item_text (IString sp v)) (c' :: l) args s.
Proof.
  intros (Hsp & Hslow & Hr) Hb. cbn [item_fmt] in Hb. cbn [app] in Hb.
  rewrite <- app_assoc in Hb. cbn [txt app] in Hb.
  destruct (spec_steps text sp (chr "s") c' l (APtr 1 v :: args) s) as (s1 & Hs1 & Hat);
    [done|cbn; auto 10|by left|done|].
  pose proof Hat as [Hcu Hst [Hb0 Hcf] (Hfl & Hw & Hp) Hov Ha Ho Hsc].
  assert (-1 ≤ spec_precision sp) as Hpr.
  { destruct Hsp as [_ Hp']. unfold spec_precision. destruct (sp_precision sp); lia. }
  destruct (fmtstr_ok size v (sp_width sp) (spec_precision sp) (flag_bits (sp_flags sp)) Hpr Hr
    buf0 text (v_out s1) Ho) as (o & Eo & Ho' & _).
  apply (item_done_steps _ _ _ s s1 Hs1).
  apply (conv_done _ (chr "s") c' l args s1 (set_out o (set_args args s1)));
    try done; [cbn; auto 10|].
  assert (vstep format size s1 = (s' ← conv_s size s1; s ← advance format s';
    Ok (Continue (reset_spec (set_state PRINT_S_DEFAULT s))))) as ->.
  { unfold vstep, step_conv. rewrite Hst, (cursor_ch _ _ _ Hcu). reflexivity. }
  unfold conv_s. rewrite Ha. cbn [va_ptr mbind outcome_bind Z.eqb].
  rewrite Hw, Hp, Hfl, Eo. reflexivity.
Qed.

Lemma percent_done text c' l args s :
  boundary text (txt "%%" ++ c' :: l) args s → item_done (text ++ [chr "%"]) (c' :: l) args s.
Proof.
  intros Hb. cbn [txt app] in Hb. destruct (percent_step _ _ _ _ _ Hb) as (s1 & Hs1 & Hin).
  destruct Hin as [Hc Hst (Hbs & Hcf & Hw & Hp) Hfl Hov Ha Ho Hs].
  assert (at_state PRINT_S_FLAGS text (chr "%" :: c' :: l) args 0 0 (-1) s1) as Hat by (by split).
  assert (∀ s', at_state PRINT_S_FLAGS text (chr "%" :: c' :: l) args 0 0 (-1) s' →
    ∃ s'', steps s' s'' ∧ at_state PRINT_S_CONV text (chr "%" :: c' :: l) args 0 0 (-1) s'') as Hall.
  { intros s' H1.
    destruct (state_step _ PRINT_S_WIDTH _ _ _ _ _ _ _ _ H1) as (s2 & Hs2 & H2); [done| |].
    { destruct H1 as [Hc1 Hst1 _ _ _ _ _ _]. unfold vstep, step_flags.
      by rewrite Hst1, (cursor_ch _ _ _ Hc1). }
    destruct (state_step _ PRINT_S_DOT _ _ _ _ _ _ _ _ H2) as (s3 & Hs3 & H3); [done| |].
    { destruct H2 as [Hc1 Hst1 _ _ _ _ _ _]. unfold vstep, step_width.
      by rewrite Hst1, (cursor_ch _ _ _ Hc1). }
    destruct (state_step _ PRINT_S_MOD _ _ _ _ _ _ _ _ H3) as (s4 & Hs4 & H4); [done| |].
    { destruct H3 as [Hc1 Hst1 _ _ _ _ _ _]. unfold vstep, step_dot.
      by rewrite Hst1, (cursor_ch _ _ _ Hc1). }
    destruct (state_step _ PRINT_S_CONV _ _ _ _ _ _ _ _ H4) as (s5 & Hs5 & H5); [done| |].
    { destruct H4 as [Hc1 Hst1 _ _ _ _ _ _]. unfold vstep, step_mod.
      by rewrite Hst1, (cursor_ch _ _ _ Hc1). }
    exists s5. split; [|done]. repeat (eapply steps_trans; [eassumption|]). constructor. }
  destruct (Hall s1 Hat) as (s2 & Hs2 & Hat2). clear Hall Hat.
  destruct Hat2 as [Hcu Hst2 [Hb0 Hcf2] (Hfl2 & Hw2 & Hp2) Hov2 Ha2 Ho2 Hsc2].
  destruct (emits_OUTCHAR size (chr "%") buf0 text (v_out s2) Ho2) as (o & Eo & Ho' & _).
  apply (item_done_steps _ _ _ s s2); [by eapply steps_trans|]. left.
  assert (cursor (set_out o s2) (chr "%" :: c' :: l)) as Hcu1 by done.
  destruct (cursor_advance _ _ _ _ Hcu1) as [E1 Hcu2].
  eexists. split.
  - apply steps_one; [by rewrite (cursor_ch _ _ _ Hcu)|].
    assert (vstep format size s2 = (s' ← s_outchar size (chr "%") s2; s ← advance format s';
      Ok (Continue (reset_spec (set_state PRINT_S_DEFAULT s))))) as ->.
    { unfold vstep, step_conv. rewrite Hst2, (cursor_ch _ _ _ Hcu). reflexivity. }
    unfold s_outchar. rewrite Eo. cbn [mbind outcome_bind]. rewrite E1. reflexivity.
  - split; try done.
Qed.

(** *** Lists of items *)

Lemma item_done_ok it text c' l args s :
  item_ok it → boundary text (item_fmt it ++ c' :: l) (item_args it ++ args) s →
  item_done (text ++ item_text it) (c' :: l) args s.
Proof.
  intros Hok Hb. destruct it as [c| |t v|v|v|sp v|sp c v|sp v]; cbn [item_args app] in Hb.
  - left. destruct Hok. by apply default_step with (c := c).
  - by apply percent_done.
  - assert (∃ x R, dec_fmt t ++ c' :: l = x :: R) as (x & R & ER) by (destruct t; cbn; eauto).
    cbn [item_fmt app] in Hb. rewrite ER in Hb.
    destruct (percent_step _ _ _ _ _ Hb) as (s1 & Hs1 & Hin). rewrite <- ER in Hin.
    apply (item_done_steps _ _ _ s s1 Hs1). by apply dec_done.
  - destruct (percent_step _ _ _ _ _ Hb) as (s1 & Hs1 & Hin).
    apply (item_done_steps _ _ _ s s1 Hs1). by apply case_s_done.
  - destruct (percent_step _ _ _ _ _ Hb) as (s1 & Hs1 & Hin).
    apply (item_done_steps _ _ _ s s1 Hs1). by apply case_c_done.
  - by apply int_done.
  - by apply uns_done.
  - by apply string_done.
Qed.

Lemma items_done its text l args s :
  Forall item_ok its → boundary text (fmt_of its ++ 0 :: l) (args_of its ++ args) s →
  item_done (text ++ text_of its) (0 :: l) args s.
Proof.
  intros Hok. revert text s. induction Hok as [|it its Hit _ IH]; intros text s Hb.
  { left. exists s. rewrite app_nil_r. split; [constructor|done]. }
  unfold fmt_of, args_of, text_of in *. cbn [fmap list_fmap concat] in *.
  rewrite <- !app_assoc in Hb. rewrite app_assoc.
  assert (∃ c' l', concat (item_fmt <$> its) ++ 0 :: l = c' :: l') as (c' & l' & E)
    by (destruct (concat (item_fmt <$> its)); cbn; eauto).
  rewrite E in Hb.
  destruct (item_done_ok it text c' l' _ s Hit Hb) as [(s1 & Hs1 & Hb1)|(s1 & s2 & Hs1 & Hch & E1 & Hf)].
  - rewrite <- E in Hb1. apply (item_done_steps _ _ _ s s1 Hs1). by apply IH.
  - right. exists s1, s2. split_and!; try done. destruct Hf as (Ho & Hl & Hov).
    split; [|done]. by apply sink_ok_full.
Qed.

(** The loop ends, with the whole text in the sink. *)
Lemma items_vloop its l args s fuel :
  Forall item_ok its → boundary [] (fmt_of its ++ 0 :: l) (args_of its ++ args) s →
  vloop format size fuel s ≠ Ub NoFuel →
  ∃ s', vloop format size fuel s = Ok s' ∧ sink_ok size buf0 (text_of its) (v_out s') ∧
    v_overflow s' = false.
Proof.
  intros Hok Hb Hfuel.
  destruct (items_done its [] l args s Hok Hb) as [(s1 & Hs1 & Hb1)|(s1 & s2 & Hs1 & Hch & E1 & Hf)];
    destruct (steps_vloop s s1 Hs1) as [n Hn].
  - exists s1. rewrite <- (vloop_more fuel (n + 1) s Hfuel).
    replace (fuel + (n + 1))%nat with (n + S fuel)%nat by lia. rewrite Hn.
    destruct Hb1 as [Hc _ _ Hov _ Ho _]. cbn [vloop].
    rewrite (cursor_ch _ _ _ Hc). done.
  - exists s2. rewrite <- (vloop_more fuel (n + 1) s Hfuel).
    replace (fuel + (n + 1))%nat with (n + S fuel)%nat by lia. rewrite Hn.
    cbn [vloop]. rewrite (proj2 (Z.eqb_neq _ _)) by done. rewrite E1.
    destruct Hf as (Ho & _ & Hov). done.
Qed.

(** What a call leaves in the buffer, and its value. *)
Record printed (text : bytes) (r : vst * Z) : Prop := {
  pr_text : sub_at 0 (Z.min (size - 1) (zlen text) + 1) (s_buf (v_out r.1)) =
            take (Z.to_nat (size - 1)) text ++ [0];
  pr_rest : drop (Z.to_nat size) (s_buf (v_out r.1)) = drop (Z.to_nat size) buf0;
  pr_value : zlen text < size → zlen text < INT_MAX → r.2 = zlen text
}.

Lemma vfinish_printed text s :
  sink_ok size buf0 text (v_out s) → v_overflow s = false →
  ∃ r, vfinish size s = Ok r ∧ printed text r.
Proof.
  intros Ho Hov. pose proof (sk_len_bound _ _ _ _ Ho) as [_ Hpos].
  destruct Ho as [Hs Hb Ht Hr Hl]. unfold vfinish. cbv zeta.
  cbn [v_overflow set_out].
  set (len := s_len (v_out s)) in *. set (buf := s_buf (v_out s)) in *.
  set (m := Z.min (size - 1) (zlen text)) in *.
  assert ((if len <? size then store len [0] buf
    else if 0 <? size then store (size - 1) [0] buf else Ok buf) = Ok (put_at m [0] buf)) as ->.
  { rewrite (proj2 (Z.ltb_lt 0 size)) by lia.
    destruct (Z.ltb_spec len size), (Z.ltb_spec (zlen text) size).
    - replace m with len by lia. apply store1_Ok. lia.
    - replace m with len by lia. apply store1_Ok. lia.
    - lia.
    - replace m with (size - 1) by lia. apply store1_Ok. lia. }
  cbn [mbind outcome_bind]. rewrite Hov. cbn [orb].
  exists (set_out (Sink (put_at m [0] buf) len) s, if INT_MAX <=? len then -1 else s32 len).
  split; [by destruct (INT_MAX <=? len)|].
  split; cbn [fst snd v_out set_out s_buf].
  - rewrite sub_at_app, <- Ht by lia. f_equal.
    + apply sub_at_put_at_disjoint; cbn [length]; lia.
    + apply (sub_at_put_at_same m [0] buf); cbn [length]; lia.
  - rewrite <- Hr. apply list_eq. intros i. rewrite !lookup_drop, lookup_put_at by (cbn [length]; lia).
    case_decide; [cbn [length] in *; lia|done].
  - intros Hfit Hmax. unfold INT_MAX in *. rewrite (proj2 (Z.ltb_lt (zlen text) size)) in Hl by done.
    rewrite (proj2 (Z.leb_gt _ _)) by lia. rewrite s32_small by lia. lia.
Qed.
End rounds.

Lemma o_vsnprintf_items `{!Env} size buf its l scratch args :
  0 < size ≤ zlen buf → zlen scratch = 32 → Forall item_ok its →
  ∃ r, o_vsnprintf (Some buf) size (fmt_of its ++ 0 :: l) scratch (args_of its ++ args) = Ok r ∧
    printed size buf (text_of its) r.
Proof.
  intros Hsize Hs Hok. set (format := fmt_of its ++ 0 :: l).
  assert (∃ c R, format = c :: R) as (c & R & EF)
    by (unfold format; destruct (fmt_of its); cbn; eauto).
  set (s0 := vinit buf scratch (args_of its ++ args)).
  set (s1 := set_format 1 (set_ch c s0)).
  assert (advance format s0 = Ok s1) as E1.
  { unfold advance. rewrite (load1_Ok _ _ c); [done|cbn; lia|by rewrite EF]. }
  assert (boundary size buf format [] format (args_of its ++ args) s1) as Hb.
  { split; try done; [|by apply sink_ok_init]. exists []. rewrite EF. done. }
  assert (format !! Z.to_nat (zlen (fmt_of its)) = Some 0) as Hnul.
  { unfold format. rewrite Nat2Z.id. by apply list_lookup_middle. }
  destruct (items_vloop size buf Hsize format its l args s1 (vfuel format) Hok Hb)
    as (s2 & E2 & Ho & Hov).
  { pose proof (vloop_ok size buf Hsize (λ u, u ≠ NoFuel) format (zlen (fmt_of its))
      Hnul ltac:(done) (vfuel format) s1) as Hsafe.
    pose proof (safe_advance size buf (λ u, u ≠ NoFuel) format (zlen (fmt_of its))
      Hnul s0) as Hadv.
    rewrite E1 in Hadv. intros E. rewrite E in Hsafe. apply Hsafe; [|..|done].
    - apply Hadv. split; [by split|done|cbn; lia|by left|cbn; lia].
    - pose proof (lookup_lt_Some _ _ _ Hnul). unfold measure, vfuel. cbn. lia. }
  destruct (vfinish_printed size buf Hsize (text_of its) s2 Ho Hov) as (r & E3 & Hr).
  exists r. split; [|done]. unfold o_vsnprintf. fold s0. rewrite E1. cbn [mbind outcome_bind].
  rewrite (bool_decide_false (Some buf = None)), (proj2 (Z.eqb_neq size 0)) by (done || lia).
  cbn [orb]. by rewrite E2.
Qed.

(** ** Properties *)

(** C1: for every list of items in the domain of [item_ok], every buffer and every
    [size > 0], [o_vsnprintf] of the corresponding format and arguments returns with the
    declared text in the buffer, cut at [size - 1] and NUL-terminated, nothing changed
    from [size] on, and the length of the text as its value when it fits.  The items are
    literal characters, [%%], the fast conversions without flags, width, precision
    ([%d %u %ld %lu %lld %llu %s %c]), and [%d %x %X %o %u %s] with flags, width and
    precision.  [item_ok] leaves out what [fast_path_defects] shows to be printed wrong:
    the most negative value, and 0 behind an [l], on the fast path, and [d], [u] or [s]
    behind flags alone (with neither width nor precision). *)
Theorem o_vsnprintf_prints `{!Env} (size : Z) (buf : bytes) (its : list item) (l scratch : bytes)
    (args : list arg)
    (Hsize : 0 < size ≤ zlen buf) (Hscratch : zlen scratch = 32) (Hits : Forall item_ok its) :
  ∃ r, o_vsnprintf (Some buf) size (fmt_of its ++ 0 :: l) scratch (args_of its ++ args) = Ok r ∧
    printed size buf (text_of its) r.
Proof. by apply o_vsnprintf_items. Qed.

Definition ex_items : list item :=
  [ILit (chr "n"); ILit (chr "="); IDec TInt (-42); IPercent;
   IInt (Spec [FZero] 5 None) 7; IUns (Spec [FNum] 0 None) (chr "x") 255;
   IString (Spec [FMinus] 4 (Some 2)) (cstr "abc"); IStr (cstr "end")].

(** The format, the text and the buffer of the example. *)
Example ex_items_fmt : fmt_of ex_items = txt "n=%d%%%05d%#x%-4.2s%s".
Proof. vm_compute. reflexivity. Qed.
Example ex_items_text : text_of ex_items = txt "n=-42%000070xffab  end".
Proof. vm_compute. reflexivity. Qed.

Lemma o_vsnprintf_prints_witness :
  ∃ r, @o_vsnprintf ex_env (Some (replicate 16 0)) 16 (fmt_of ex_items ++ 0 :: [])
         scratch_buffer (args_of ex_items ++ []) = Ok r ∧
    printed 16 (replicate 16 0) (text_of ex_items) r.
Proof.
  apply (@o_vsnprintf_prints ex_env 16 (replicate 16 0) ex_items [] scratch_buffer []).
  - vm_compute. split; [reflexivity|discriminate].
  - reflexivity.
  - unfold ex_items. repeat apply List.Forall_cons; [..|apply List.Forall_nil];
      unfold item_ok, spec_ok, INT_MAX; cbn [sp_width sp_precision].
    1,2: split; discriminate.
    1: lia.
    1: exact I.
    1: split; [split; [lia|exact I]|]; split; [reflexivity|lia].
    1: split; [split; [lia|exact I]|]; split; [lia|by left].
    1: split; [split; unfold INT_MAX; lia|]; split; [reflexivity|].
    1: vm_compute; auto 10.
    vm_compute. auto 10.
Defined.

(** The text a call of [o_snprintf] leaves before the NUL, and its value. *)
Definition snprintf_shows (size : nat) (fmt : string) (args : list arg) : outcome (bytes * Z) :=
  '(s, r) ← @o_snprintf ex_env (Some (replicate size 1)) (Z.of_nat size) (cstr fmt) scratch_buffer args;
  Ok (until_nul (s_buf (v_out s)), r).

(** what the fast paths get wrong, on concrete calls.
    Zero behind an [l]: the conversion character is not skipped and is printed as well.
    Flags: they are ignored ([%+d] prints no sign) and stay set for the next conversion
    (the [-] of [%-d]).
    Truncation: what does not fit is not counted, so the value of a truncated call is
    below [size] as if it had fitted, and a [%N] that does not fit is dropped while the
    text behind it is still printed.
    Arguments: a null string (the slow path prints "(null)"), the most negative [int] and
    a [%N] above 999 read outside their objects. *)
Theorem fast_path_defects :
  (snprintf_shows 16 "%ld" [AInt TLong 0] = Ok (txt "0d", 2) ∧
   snprintf_shows 16 "%lu" [AInt TULong 0] = Ok (txt "0u", 2) ∧
   snprintf_shows 16 "%lld" [AInt TLLong 0] = Ok (txt "0ld", 3)) ∧
  (snprintf_shows 16 "%+d" [AInt TInt 1] = Ok (txt "1", 1) ∧
   snprintf_shows 16 "%-d%3d|" [AInt TInt 1; AInt TInt 2] = Ok (txt "12  |", 5)) ∧
  (snprintf_shows 4 "%s" [APtr 1 (cstr "abcdef")] = Ok (txt "abc", 3) ∧
   snprintf_shows 4 "%s" [APtr 1 (cstr "abc")] = Ok (txt "abc", 3) ∧
   snprintf_shows 4 "%N!" [AInt TUInt 7] = Ok (txt "007", 4) ∧
   snprintf_shows 4 "a%N!" [AInt TUInt 7] = Ok (txt "a!", 2)) ∧
  (snprintf_shows 16 "%s" [APtr 0 []] = Ub NullDeref ∧
   snprintf_shows 16 "%1s" [APtr 0 []] = Ok (txt "(null)", 6) ∧
   snprintf_shows 16 "%d" [AInt TInt (-2147483648)] = Ub OobRead ∧
   snprintf_shows 16 "%1d" [AInt TInt (-2147483648)] = Ok (txt "-2147483648", 11) ∧
   snprintf_shows 16 "%N" [AInt TUInt 1000] = Ub OobRead).
Proof. vm_compute. repeat split. Qed.
