(* ===== verification/SnprintfCall.v ===== *)
(** * Calls of [o_snprintf] into a char array

    The lobby code fills fixed char arrays with [o_snprintf (dst, sizeof (dst), ...)] and
    reads them as C strings; a call is represented by the C string it leaves. *)

From S2P Require Import Prelude FastMemcpy Sink FmtInt AtoiTab FmtFlt Vsnprintf VsnprintfSafe VsnprintfText.

#[local] Open Scope Z_scope.

Section call.
Context {env : Env}.

(** [o_snprintf (dst, n, fmt, args)] into an array of [n] bytes: the text in it. *)
Definition snprintf_text (n : Z) (fmt : string) (args : list arg) : outcome bytes :=
  '(s, _) ← o_snprintf (Some (replicate (Z.to_nat n) 0)) n (cstr fmt) scratch_buffer args;
  Ok (until_nul (s_buf (v_out s))).

(** A string as an argument. *)
Definition AText (s : bytes) : arg := APtr 1 (s ++ [0]).

Lemma until_nul_prefix (a r : bytes) : ¬ In 0 a → until_nul (a ++ 0 :: r) = a.
Proof. intros. rewrite until_nul_app by done. cbn. by rewrite app_nil_r. Qed.

(** The text of the items, cut at [n - 1]. *)
Lemma snprintf_text_items (n : Z) (fmt : string) (its : list item)
    (Hn : 0 < n) (Hfmt : cstr fmt = fmt_of its ++ [0]) (Hits : Forall item_ok its)
    (Hnul : ¬ In 0 (text_of its)) :
  snprintf_text n fmt (args_of its) = Ok (take (Z.to_nat (n - 1)) (text_of its)).
Proof.
  set (buf := replicate (Z.to_nat n) 0). assert (zlen buf = n) as Hl by (unfold buf; rewrite length_replicate; lia).
  destruct (o_vsnprintf_items n buf its [] scratch_buffer [] ltac:(lia) eq_refl Hits)
    as ([s v] & Heq & [Htext _ _]).
  unfold snprintf_text, o_snprintf. fold buf. rewrite Hfmt. rewrite app_nil_r in Heq. rewrite Heq. cbn.
  f_equal. cbn in Htext. set (k := Z.min (n - 1) (zlen (text_of its)) + 1) in Htext.
  rewrite <- (take_drop (Z.to_nat k) (s_buf (v_out s))).
  change (sub_at 0 k (s_buf (v_out s))) with (take (Z.to_nat k) (s_buf (v_out s))) in Htext.
  rewrite Htext, <- app_assoc. apply until_nul_prefix. intros Hin. apply Hnul.
  apply list_elem_of_In in Hin. apply list_elem_of_In. apply elem_of_take in Hin as (i & Hi & _).
  by eapply list_elem_of_lookup_2.
Qed.

(** [o_snprintf (dst, n, "%s", s)] of a string that fits copies it. *)
Lemma snprintf_text_s (n : Z) (s : bytes) (Hs : ¬ In 0 s) (Hn : zlen s < n) :
  snprintf_text n "%s" [AText s] = Ok s.
Proof.
  assert (text_of [IStr (s ++ [0])] = s) as Ht.
  { unfold text_of. cbn. rewrite app_nil_r. by apply until_nul_prefix. }
  change [AText s] with (args_of [IStr (s ++ [0])]).
  rewrite (snprintf_text_items n "%s" [IStr (s ++ [0])]); rewrite ?Ht; try done; [|lia|].
  - rewrite take_ge; [done|lia].
  - constructor; [|constructor]. cbn. apply in_or_app. right. by left.
Qed.
End call.
