(* ===== verification/TlsAlloc.v ===== *)
(** * The free-list allocators of [tcp/uv/uv_tls_alloc.c]

    Three allocators (handles, requests, read buffers) keep the blocks that were given
    back in a singly linked list per thread, whose links lie in the blocks themselves.
    [tls] is the state of one thread: the malloc'ed blocks and the three list heads.
    Of a block the model keeps what the allocators read and write: [next] and, in a
    buffer, the header's [uvbuf]; both are indeterminate in a fresh block.  An address
    is an integer, [0] is NULL; a block that is used as another kind than it was
    allocated as counts as dangling.

    The contract of each allocator is a stack of free blocks besides the set of blocks
    the callers hold ([pool]); [tls_alloc_refines] relates the two. *)

From stdpp Require Export gmap.
From S2P Require Import Prelude.

#[local] Open Scope Z_scope.

(** ** State *)

Inductive kind := KHandle | KReq | KBuf.

#[export] Instance kind_eq_dec : EqDecision kind.
Proof. solve_decision. Defined.

(** [uv_buf_t]: the base is an offset into a block. *)
Record uv_buf := UvBuf { ub_len : Z; ub_base : option (Z * Z) }.

(** [handle_list_t], [req_list_t] and [buf_list_t]. *)
Record list_item := ListItem {
  li_kind : kind;
  li_size : Z;              (* what malloc was asked for *)
  li_uvbuf : option uv_buf; (* the header of a buffer *)
  li_next : option Z
}.

Record tls := Tls {
  t_items : gmap Z list_item;
  client_handle_freelist : Z;
  req_freelist : Z;
  buf_freelist : Z
}.

(** The platform and the library: the width of [uv_buf_t.len], the sizes of the two
    list types that hold libuv's unions, and the addresses malloc returns (0 for NULL)
    for the blocks that are allocated and a size. *)
Class TlsEnv := {
  len_width : Z;
  len_width_ok : len_width = 32 ∨ len_width = 64;
  sizeof_handle_list : Z;
  sizeof_req_list : Z;
  malloc_at : gset Z → Z → Z;
  malloc_at_fresh : ∀ used n, malloc_at used n ∉ used
}.

Definition sizeof_uv_buf : Z := 16.
Definition sizeof_buf_list : Z := 24.

Definition head (k : kind) (s : tls) : Z :=
  match k with
  | KHandle => client_handle_freelist s | KReq => req_freelist s | KBuf => buf_freelist s
  end.

Definition set_head (k : kind) (b : Z) (s : tls) : tls :=
  match k with
  | KHandle => Tls (t_items s) b (req_freelist s) (buf_freelist s)
  | KReq => Tls (t_items s) (client_handle_freelist s) b (buf_freelist s)
  | KBuf => Tls (t_items s) (client_handle_freelist s) (req_freelist s) b
  end.

Definition set_items (m : gmap Z list_item) (s : tls) : tls :=
  Tls m (client_handle_freelist s) (req_freelist s) (buf_freelist s).

Definition tls_init : tls := Tls ∅ 0 0 0.

Section allocators.
Context `{!TlsEnv}.

(** The bytes a block needs for its [next] field. *)
Definition sizeof_list (k : kind) : Z :=
  match k with
  | KHandle => sizeof_handle_list | KReq => sizeof_req_list | KBuf => sizeof_buf_list
  end.

(** The block a [list_item] pointer of kind [k] points to. *)
Definition item_at (k : kind) (b : Z) (s : tls) : outcome list_item :=
  check (negb (b =? 0)) NullDeref (
    c ← from_option_ub Dangling (t_items s !! b);
    check (bool_decide (li_kind c = k)) Dangling (Ok c)).

Definition get_next (k : kind) (b : Z) (s : tls) : outcome Z :=
  c ← item_at k b s;
  check (sizeof_list k <=? li_size c) OobRead (from_option_ub Uninit (li_next c)).

Definition set_next (k : kind) (b n : Z) (s : tls) : outcome tls :=
  c ← item_at k b s;
  check (sizeof_list k <=? li_size c) OobWrite (
    Ok (set_items (<[b := ListItem k (li_size c) (li_uvbuf c) (Some n)]> (t_items s)) s)).

Definition tls_malloc (k : kind) (n : Z) (s : tls) : tls * Z :=
  let b := malloc_at (dom (t_items s)) n in
  (if b =? 0 then s else set_items (<[b := ListItem k n None None]> (t_items s)) s, b).

Definition tls_mfree (b : Z) (s : tls) : outcome tls :=
  _ ← from_option_ub Dangling (t_items s !! b);
  Ok (set_items (delete b (t_items s)) s).

(** ** Operations *)

(** [list_item = freelist; if (NULL != list_item) { freelist = list_item->next; ... }] *)
Definition list_alloc (k : kind) (s : tls) : outcome (tls * Z) :=
  let list_item := head k s in
  if negb (list_item =? 0) then
    n ← get_next k list_item s; Ok (set_head k n s, list_item)
  else Ok (tls_malloc k (sizeof_list k) s).

(** [list_item->next = freelist; freelist = list_item;] *)
Definition list_free (k : kind) (list_item : Z) (s : tls) : outcome tls :=
  s ← set_next k list_item (head k s) s;
  Ok (set_head k list_item s).

(** [while (freelist) { list_item = freelist; freelist = freelist->next; free(list_item); }] *)
Fixpoint list_clear (k : kind) (fuel : nat) (s : tls) : outcome tls :=
  if head k s =? 0 then Ok s
  else
    match fuel with
    | O => Ub NoFuel
    | S fuel =>
        let list_item := head k s in
        n ← get_next k list_item s;
        s ← tls_mfree list_item (set_head k n s);
        list_clear k fuel s
    end.

(** Every round frees a block; one round more finds the list empty. *)
Definition clear_fuel (s : tls) : nat := S (size (t_items s)).

Definition tls_handle_alloc (s : tls) : outcome (tls * Z) := list_alloc KHandle s.
Definition tls_handle_free (uvhandle : Z) (s : tls) : outcome tls := list_free KHandle uvhandle s.
Definition tls_clear_handle_freelist (s : tls) : outcome tls := list_clear KHandle (clear_fuel s) s.

Definition tls_req_alloc (s : tls) : outcome (tls * Z) := list_alloc KReq s.
Definition tls_req_free (uvreq : Z) (s : tls) : outcome tls := list_free KReq uvreq s.
Definition tls_clear_req_freelist (s : tls) : outcome tls := list_clear KReq (clear_fuel s) s.

(** [list_item->uvbuf.len = (unsigned int) suggested_size - sizeof *list_item;] *)
Definition header_len (suggested_size : Z) : Z :=
  wrapu len_width (u64 (u32 suggested_size - sizeof_buf_list)).

(** malloc and the stores into the header ([tls_buf_alloc_simple], [buf_alloc_2]). *)
Definition new_buf (suggested_size : Z) (s : tls) : outcome (tls * uv_buf) :=
  let '(s, list_item) := tls_malloc KBuf suggested_size s in
  c ← item_at KBuf list_item s;
  let uvbuf := UvBuf (header_len suggested_size) (Some (list_item, sizeof_buf_list)) in
  check (sizeof_uv_buf <=? li_size c) OobWrite (
    Ok (set_items (<[list_item := ListItem KBuf (li_size c) (Some uvbuf) (li_next c)]>
          (t_items s)) s, uvbuf)).

Definition tls_buf_alloc_simple (suggested_size : Z) (s : tls) : outcome (tls * uv_buf) :=
  let list_item := head KBuf s in
  if negb (list_item =? 0) then
    n ← get_next KBuf list_item s;
    let s := set_head KBuf n s in
    c ← item_at KBuf list_item s;
    uvbuf ← from_option_ub Uninit (li_uvbuf c);
    Ok (s, uvbuf)
  else new_buf suggested_size s.

Definition tls_buf_alloc (handle suggested_size : Z) (s : tls) : outcome (tls * uv_buf) :=
  tls_buf_alloc_simple suggested_size s.

(** [uvbuf.base - sizeof *list_item], which has to be the start of a block. *)
Definition item_of_base (base : Z * Z) : outcome Z :=
  check (base.2 =? sizeof_buf_list) Dangling (Ok base.1).

Definition tls_buf_free (uvbuf : uv_buf) (s : tls) : outcome tls :=
  match ub_base uvbuf with
  | None => Ok s
  | Some base => list_item ← item_of_base base; list_free KBuf list_item s
  end.

Definition tls_clear_buf_freelist (s : tls) : outcome tls := list_clear KBuf (clear_fuel s) s.

Definition buf_alloc_2 (handle suggested_size : Z) (s : tls) : outcome (tls * uv_buf) :=
  new_buf suggested_size s.

Definition buf_free_2 (uvbuf : uv_buf) (s : tls) : outcome tls :=
  base ← from_option_ub Dangling (ub_base uvbuf);
  list_item ← item_of_base base;
  tls_mfree list_item s.

(** ** The contract: a stack of free blocks and the blocks the callers hold *)

Record pool := Pool { p_free : list Z; p_held : list Z }.

(** A well-formed item: large enough for its links; a buffer's header describes it. *)
Definition item_ok (b : Z) (c : list_item) : Prop :=
  sizeof_list (li_kind c) ≤ li_size c ∧
  (li_kind c = KBuf → li_uvbuf c = Some (UvBuf (header_len (li_size c)) (Some (b, sizeof_buf_list)))).

(** The linked list that starts at [b] and passes through the blocks [l]. *)
Fixpoint chain (k : kind) (m : gmap Z list_item) (b : Z) (l : list Z) : Prop :=
  match l with
  | [] => b = 0
  | b' :: l =>
      b = b' ∧ b ≠ 0 ∧
      ∃ c n, m !! b = Some c ∧ li_kind c = k ∧ li_next c = Some n ∧ chain k m n l
  end.

Definition of_kind (k : kind) (m : gmap Z list_item) (b : Z) : Prop :=
  ∃ c, m !! b = Some c ∧ li_kind c = k ∧ item_ok b c.

Record pool_ok (s : tls) (k : kind) (p : pool) : Prop := {
  po_chain : chain k (t_items s) (head k s) (p_free p);
  po_nodup : NoDup (p_free p ++ p_held p);
  po_items b : of_kind k (t_items s) b ↔ b ∈ p_free p ++ p_held p;
  po_all b c : t_items s !! b = Some c → li_kind c = k → item_ok b c ∧ b ≠ 0
}.

Definition tls_ok (s : tls) (a : kind → pool) : Prop := ∀ k, pool_ok s k (a k).

Definition upd (k : kind) (p : pool) (a : kind → pool) : kind → pool :=
  λ k', if decide (k' = k) then p else a k'.

(** The operations, as a client issues them.  A buffer is freed by its block: the
    client's [uvbuf] has the base it was given, and any length. *)
Inductive op :=
  | OAlloc (k : kind) (suggested_size : Z)
  | OFree (k : kind) (b len : Z)
  | OClear (k : kind).

(** What an operation answers: a pointer, a buffer, or nothing. *)
Inductive reply := RPtr (b : Z) | RBuf (u : uv_buf) | RUnit.

Definition exec (o : op) (s : tls) : outcome (tls * reply) :=
  match o with
  | OAlloc KHandle _ => '(s, b) ← tls_handle_alloc s; Ok (s, RPtr b)
  | OAlloc KReq _ => '(s, b) ← tls_req_alloc s; Ok (s, RPtr b)
  | OAlloc KBuf n => '(s, u) ← tls_buf_alloc_simple n s; Ok (s, RBuf u)
  | OFree KHandle b _ => s ← tls_handle_free b s; Ok (s, RUnit)
  | OFree KReq b _ => s ← tls_req_free b s; Ok (s, RUnit)
  | OFree KBuf b len =>
      s ← tls_buf_free (UvBuf len (Some (b, sizeof_buf_list))) s; Ok (s, RUnit)
  | OClear KHandle => s ← tls_clear_handle_freelist s; Ok (s, RUnit)
  | OClear KReq => s ← tls_clear_req_freelist s; Ok (s, RUnit)
  | OClear KBuf => s ← tls_clear_buf_freelist s; Ok (s, RUnit)
  end.

(** The block of an answer. *)
Definition reply_block (r : reply) : Z :=
  match r with
  | RPtr b => b | RBuf u => match ub_base u with Some (b, _) => b | None => 0 end | RUnit => 0
  end.

Definition remove (b : Z) (h : list Z) : list Z := filter (λ b', b' ≠ b) h.

(** A step of the specification at kind [k]: what the operation does to the pool. *)
Inductive pool_step : op → reply → pool → pool → Prop :=
  | ps_reuse k n r b l h :
      reply_block r = b → b ∉ h →
      pool_step (OAlloc k n) r (Pool (b :: l) h) (Pool l (b :: h))
  | ps_new k n r b h :
      reply_block r = b → b ≠ 0 → b ∉ h →
      pool_step (OAlloc k n) r (Pool [] h) (Pool [] (b :: h))
  | ps_fail k n h : k ≠ KBuf → pool_step (OAlloc k n) (RPtr 0) (Pool [] h) (Pool [] h)
  | ps_free k b len l h :
      b ∈ h → pool_step (OFree k b len) RUnit (Pool l h) (Pool (b :: l) (remove b h))
  | ps_clear k l h : pool_step (OClear k) RUnit (Pool l h) (Pool [] h).

Definition op_kind (o : op) : kind :=
  match o with OAlloc k _ | OFree k _ _ | OClear k => k end.

(** What a client may ask for: buffers with room for the header while memory lasts,
    and only blocks it holds are freed. *)
Definition op_ok (s : tls) (a : kind → pool) (o : op) : Prop :=
  match o with
  | OAlloc KBuf n =>
      sizeof_buf_list ≤ n ∧ (p_free (a KBuf) = [] → malloc_at (dom (t_items s)) n ≠ 0)
  | OFree k b _ => b ∈ p_held (a k)
  | _ => True
  end.

(** ** Lemmas *)

Lemma item_at_Ok k b c s :
  t_items s !! b = Some c → li_kind c = k → b ≠ 0 → item_at k b s = Ok c.
Proof.
  intros Hc Hk Hb. unfold item_at. rewrite (proj2 (Z.eqb_neq b 0) Hb). cbn.
  rewrite Hc. cbn. by rewrite bool_decide_true.
Qed.

(** A chain does not see blocks outside it. *)
Lemma chain_frame k m m' b l :
  (∀ b c, b ∈ l → m !! b = Some c → m' !! b = Some c) → chain k m b l → chain k m' b l.
Proof.
  revert b. induction l as [|b' l IH]; cbn; [done|].
  intros b Hm (-> & Hb & c & n & Hc & Hk & Hn & Hl).
  split; [done|]. split; [done|]. exists c, n. split; [apply Hm; [left|done]|].
  split; [done|]. split; [done|]. apply IH; [|done]. intros. apply Hm; [by right|done].
Qed.

(** Changes to the items of one kind do not affect the pools of the others. *)
Lemma pool_ok_frame s s' k p :
  (∀ b c, li_kind c = k → t_items s !! b = Some c ↔ t_items s' !! b = Some c) →
  head k s' = head k s → pool_ok s k p → pool_ok s' k p.
Proof.
  intros Hm Hh [Hc Hn Hi Ha].
  assert (∀ b, of_kind k (t_items s') b ↔ of_kind k (t_items s) b) as Hof.
  { intros b. unfold of_kind. split; intros (c & Hc' & Hk & Hok); exists c;
      (split; [by apply Hm|done]). }
  split; [|done| |].
  - rewrite Hh. eapply chain_frame; [|done]. intros b c Hb Hbc.
    destruct (proj2 (Hi b)) as (c' & Hc' & Hk & _); [apply elem_of_app; by left|].
    apply Hm; [congruence|done].
  - intros b. by rewrite Hof.
  - intros b c Hbc Hk. apply Hm in Hbc; [|done]. by apply Ha.
Qed.

Lemma upd_same k p a : upd k p a k = p.
Proof. unfold upd. by rewrite decide_True. Qed.
Lemma upd_other k k' p a : k' ≠ k → upd k p a k' = a k'.
Proof. intros. unfold upd. by rewrite decide_False. Qed.

(** An operation on the pool of one kind. *)
Lemma tls_ok_upd s s' a k p :
  tls_ok s a → pool_ok s' k p → (∀ k', k' ≠ k → head k' s' = head k' s) →
  (∀ b c, li_kind c ≠ k → t_items s !! b = Some c ↔ t_items s' !! b = Some c) →
  tls_ok s' (upd k p a).
Proof.
  intros Ha Hp Hh Hm k'. destruct (decide (k' = k)) as [->|Hne].
  - by rewrite upd_same.
  - rewrite upd_other by done. apply (pool_ok_frame s); [|auto|done].
    intros b c <-. by apply Hm.
Qed.

Lemma head_set_head k b s : head k (set_head k b s) = b.
Proof. by destruct k. Qed.
Lemma head_set_head_ne k k' b s : k' ≠ k → head k' (set_head k b s) = head k' s.
Proof. by destruct k, k'. Qed.
Lemma items_set_head k b s : t_items (set_head k b s) = t_items s.
Proof. by destruct k. Qed.
Lemma head_set_items k m s : head k (set_items m s) = head k s.
Proof. by destruct k. Qed.

Lemma get_next_Ok k b c n s :
  t_items s !! b = Some c → li_kind c = k → b ≠ 0 → item_ok b c → li_next c = Some n →
  get_next k b s = Ok n.
Proof.
  intros Hc Hk Hb [Hs _] Hn. unfold get_next. rewrite (item_at_Ok k b c) by done. cbn.
  rewrite check_true; [by rewrite Hn|]. apply Z.leb_le. by rewrite <- Hk.
Qed.

(** Taking the head of a free list. *)
Lemma pop_ok s k b l h :
  pool_ok s k (Pool (b :: l) h) →
  ∃ c n, t_items s !! b = Some c ∧ li_kind c = k ∧ b ≠ 0 ∧ item_ok b c ∧
    head k s = b ∧ get_next k b s = Ok n ∧ pool_ok (set_head k n s) k (Pool l (b :: h)).
Proof.
  intros [Hc Hd Hi Ha]. cbn in *. destruct Hc as (Hh & Hb & c & n & Hbc & Hk & Hn & Hl).
  rewrite Hh in *. destruct (Ha b c Hbc Hk) as [Hok _].
  exists c, n. do 5 (split; [done|]). split; [by apply (get_next_Ok k b c)|].
  split; cbn; rewrite ?items_set_head, ?head_set_head; [done| |intros b'|done].
  - by rewrite <- Permutation_middle.
  - rewrite Hi. set_solver.
Qed.

(** Handing out a block that malloc returned. *)
Lemma new_ok s k b c h :
  pool_ok s k (Pool [] h) → t_items s !! b = None → b ≠ 0 → li_kind c = k → item_ok b c →
  pool_ok (set_items (<[b := c]> (t_items s)) s) k (Pool [] (b :: h)).
Proof.
  intros [Hc Hd Hi Ha] Hnone Hb Hk Hok. cbn in *.
  assert (∀ b', of_kind k (<[b:=c]> (t_items s)) b' ↔ b' = b ∨ of_kind k (t_items s) b') as Hof.
  { intros b'. unfold of_kind. rewrite lookup_insert. case_decide; subst.
    - split; [by left|]. intros _. by exists c.
    - split; [by right|]. intros [?|?]; [congruence|done]. }
  split; cbn.
  - by rewrite head_set_items.
  - apply NoDup_cons. split; [|done]. rewrite <- Hi. intros (c' & Hc' & _). congruence.
  - intros b'. by rewrite Hof, elem_of_cons, Hi.
  - intros b' c' Hbc'. rewrite lookup_insert in Hbc'. case_decide; [|by apply Ha].
    subst. by injection Hbc' as <-.
Qed.

(** Giving a held block back. *)
Lemma list_free_ok s k b l h1 h2 :
  pool_ok s k (Pool l (h1 ++ b :: h2)) →
  ∃ s', list_free k b s = Ok s' ∧ pool_ok s' k (Pool (b :: l) (h1 ++ h2)) ∧
    (∀ k', k' ≠ k → head k' s' = head k' s) ∧
    ∀ b' c, li_kind c ≠ k → t_items s !! b' = Some c ↔ t_items s' !! b' = Some c.
Proof.
  intros [Hc Hd Hi Ha]. cbn in *.
  destruct (proj2 (Hi b)) as (c & Hbc & Hk & Hok).
  { rewrite !elem_of_app, elem_of_cons. tauto. }
  destruct (Ha b c Hbc Hk) as [_ Hb].
  assert (b ∉ l) as Hbl.
  { intros Hin. apply NoDup_app in Hd as (_ & Hd & _). apply (Hd b Hin).
    rewrite elem_of_app, elem_of_cons. tauto. }
  set (c' := ListItem k (li_size c) (li_uvbuf c) (Some (head k s))).
  assert (item_ok b c') as Hok' by (destruct Hok; subst k; by split).
  exists (set_head k b (set_items (<[b := c']> (t_items s)) s)).
  split.
  { unfold list_free, set_next. rewrite (item_at_Ok k b c) by done. cbn.
    rewrite check_true; [done|]. apply Z.leb_le. rewrite <- Hk. apply Hok. }
  split; [|split].
  - split; cbn [p_free p_held]; rewrite ?head_set_head, ?items_set_head; cbn [set_items t_items].
    + cbn. split; [done|]. split; [done|]. exists c', (head k s).
      rewrite lookup_insert_eq. do 3 (split; [done|]).
      eapply chain_frame; [|done]. intros b' c'' Hb' <-. apply lookup_insert_ne.
      intros ->. done.
    + assert (l ++ h1 ++ b :: h2 ≡ₚ (b :: l) ++ h1 ++ h2) as <-; [|done].
      rewrite (app_assoc l), (app_assoc (b :: l)). symmetry. apply (Permutation_middle (l ++ h1)).
    + intros b'. transitivity (of_kind k (t_items s) b').
      * unfold of_kind. rewrite lookup_insert. case_decide; subst; [|done].
        split; intros _; [by exists c|by exists c'].
      * rewrite Hi. cbn. rewrite !elem_of_app, !elem_of_cons, !elem_of_app. tauto.
    + intros b' c'' Hbc'. rewrite lookup_insert in Hbc'. case_decide; [|by apply Ha].
      subst. by injection Hbc' as <-.
  - intros k' ?. rewrite head_set_head_ne by done. apply head_set_items.
  - intros b' c'' Hk''. rewrite items_set_head. cbn. rewrite lookup_insert.
    case_decide; [|done]. subst. split; [intros; congruence|].
    intros [= <-]. done.
Qed.

(** Clearing: every round frees the head block; what the callers hold stays. *)
Lemma list_clear_ok k l h fuel s :
  pool_ok s k (Pool l h) → (length l ≤ fuel)%nat →
  ∃ s', list_clear k fuel s = Ok s' ∧ pool_ok s' k (Pool [] h) ∧
    (∀ k', k' ≠ k → head k' s' = head k' s) ∧
    ∀ b' c, li_kind c ≠ k → t_items s !! b' = Some c ↔ t_items s' !! b' = Some c.
Proof.
  revert s fuel. induction l as [|b l IH]; intros s fuel Hp Hfuel.
  { exists s. split; [|done]. pose proof (po_chain _ _ _ Hp) as Hh. cbn in Hh.
    destruct fuel; cbn; by rewrite Hh. }
  destruct fuel as [|fuel]; cbn [length] in Hfuel; [lia|].
  destruct (pop_ok s k b l h Hp) as (c & n & Hbc & Hk & Hb & Hok & Hh & En & Hp').
  set (s1 := set_items (delete b (t_items s)) (set_head k n s)).
  assert (pool_ok s1 k (Pool l h)) as Hp1.
  { destruct Hp' as [Hc Hd Hi Ha]. cbn in *. unfold s1.
    assert (b ∉ l ++ h) as Hbl.
    { rewrite <- Permutation_middle in Hd. by apply NoDup_cons in Hd as [? _]. }
    assert (∀ b', b' ≠ b → t_items s !! b' = t_items s1 !! b') as Hm.
    { intros. cbn. by rewrite lookup_delete_ne. }
    rewrite items_set_head in *.
    split; cbn; rewrite ?head_set_items.
    - eapply chain_frame; [|done]. intros b' c' Hb' <-. rewrite lookup_delete_ne; [done|].
      intros ->. apply Hbl. apply elem_of_app. by left.
    - rewrite <- Permutation_middle in Hd. by apply NoDup_cons in Hd as [_ ?].
    - intros b'. unfold of_kind. rewrite lookup_delete. case_decide as E; [subst b'|].
      + split; [by intros (? & [=] & _)|]. done.
      + change (of_kind k (t_items s) b' ↔ b' ∈ l ++ h). rewrite Hi. set_solver.
    - intros b' c'. rewrite lookup_delete. case_decide; [done|]. apply Ha. }
  destruct (IH s1 fuel Hp1 ltac:(lia)) as (s' & E & Hp2 & Hh' & Hm').
  exists s'. split; [|split; [done|split]].
  - cbn [list_clear]. rewrite Hh, (proj2 (Z.eqb_neq b 0)), En by done. cbn.
    unfold tls_mfree. rewrite items_set_head, Hbc. done.
  - intros k' ?. rewrite Hh' by done. unfold s1. rewrite head_set_items.
    by apply head_set_head_ne.
  - intros b' c' Hk'. rewrite <- Hm' by done. unfold s1. cbn. rewrite lookup_delete.
    case_decide; [|done]. subst. split; [congruence|done].
Qed.

Lemma free_list_size s k p : pool_ok s k p → (length (p_free p) ≤ clear_fuel s)%nat.
Proof.
  intros [Hc Hd Hi Ha]. apply NoDup_app in Hd as (Hd & _ & _).
  rewrite <- (size_list_to_set (C := gset Z) (p_free p)) by done.
  unfold clear_fuel. apply Nat.le_le_succ_r. rewrite <- (size_dom (D := gset Z)). apply subseteq_size.
  intros b Hb%elem_of_list_to_set. apply elem_of_dom.
  destruct (proj2 (Hi b)) as (c & Hc' & _); [apply elem_of_app; by left|]. by exists c.
Qed.

Lemma pool_eta p : Pool (p_free p) (p_held p) = p.
Proof. by destruct p. Qed.

(** The state after a pop, and after a malloc, for all pools. *)
Lemma pop_tls_ok s a k b l h :
  tls_ok s a → a k = Pool (b :: l) h →
  ∃ c n, t_items s !! b = Some c ∧ li_kind c = k ∧ b ≠ 0 ∧ (b ∉ h) ∧ item_ok b c ∧
    head k s = b ∧ get_next k b s = Ok n ∧
    tls_ok (set_head k n s) (upd k (Pool l (b :: h)) a).
Proof.
  intros Ha Hk. pose proof (Ha k) as Hp. rewrite Hk in Hp.
  destruct (pop_ok s k b l h Hp) as (c & n & Hbc & Hkc & Hb & Hok & Hh & En & Hp').
  exists c, n. repeat (split; [done|]). split.
  { destruct Hp' as [_ Hd _ _]. cbn in Hd. apply NoDup_app in Hd as (_ & _ & Hd).
    by apply NoDup_cons in Hd as [? _]. }
  repeat (split; [done|]). apply (tls_ok_upd s); [done..| |].
  - intros. by apply head_set_head_ne.
  - intros. by rewrite items_set_head.
Qed.

Lemma new_tls_ok s a k b c h :
  tls_ok s a → a k = Pool [] h → t_items s !! b = None → b ≠ 0 → li_kind c = k → item_ok b c →
  (b ∉ h) ∧ tls_ok (set_items (<[b := c]> (t_items s)) s) (upd k (Pool [] (b :: h)) a).
Proof.
  intros Ha Hk Hn Hb Hkc Hok. pose proof (Ha k) as Hp. rewrite Hk in Hp.
  pose proof (new_ok s k b c h Hp Hn Hb Hkc Hok) as Hp'. split.
  { destruct Hp' as [_ Hd _ _]. by apply NoDup_cons in Hd as [? _]. }
  apply (tls_ok_upd s); [done..| |].
  - intros. apply head_set_items.
  - intros b' c' Hk'. cbn. rewrite lookup_insert. case_decide; [|done]. subst b'.
    split; [congruence|]. intros [= ->]. congruence.
Qed.

Lemma malloc_at_None s n : t_items s !! malloc_at (dom (t_items s)) n = None.
Proof. apply not_elem_of_dom, malloc_at_fresh. Qed.

(** A handle or request allocation. *)
Lemma list_alloc_ok s a k n :
  k ≠ KBuf → tls_ok s a →
  ∃ s' b p, list_alloc k s = Ok (s', b) ∧ pool_step (OAlloc k n) (RPtr b) (a k) p ∧
    tls_ok s' (upd k p a).
Proof.
  intros Hkb Ha. unfold list_alloc. destruct (a k) as [[|b l] h] eqn:Hk.
  - pose proof (po_chain _ _ _ (Ha k)) as Hh. rewrite Hk in Hh. cbn in Hh. rewrite Hh. cbn.
    unfold tls_malloc. set (b := malloc_at _ _). destruct (Z.eqb_spec b 0) as [E|E].
    + rewrite E. eexists _, _, (Pool [] h). split; [done|]. split; [by constructor|].
      intros k'. unfold upd. case_decide; [subst; rewrite <- Hk|]; apply Ha.
    + destruct (new_tls_ok s a k b (ListItem k (sizeof_list k) None None) h)
        as [? ?]; try done; [apply malloc_at_None|].
      eexists _, _, _. split; [done|]. split; [by apply ps_new|done].
  - destruct (pop_tls_ok s a k b l h Ha Hk) as (c & n' & _ & _ & Hb & Hbh & _ & Hh & En & Hok).
    rewrite Hh, (proj2 (Z.eqb_neq b 0)) by done. cbn. rewrite En. cbn.
    eexists _, _, _. split; [done|]. split; [by apply ps_reuse|done].
Qed.

(** A buffer allocation: the answer is the header of its block. *)
Lemma buf_alloc_ok s a n :
  tls_ok s a → op_ok s a (OAlloc KBuf n) →
  ∃ s' u b c p, tls_buf_alloc_simple n s = Ok (s', u) ∧
    pool_step (OAlloc KBuf n) (RBuf u) (a KBuf) p ∧ tls_ok s' (upd KBuf p a) ∧
    t_items s' !! b = Some c ∧ li_kind c = KBuf ∧ item_ok b c ∧ li_uvbuf c = Some u ∧
    (li_size c = n ∨ p_free (a KBuf) = b :: p_free p ∧ t_items s !! b = Some c).
Proof.
  intros Ha [Hn Hmem]. unfold tls_buf_alloc_simple. destruct (a KBuf) as [[|b l] h] eqn:Hk.
  - pose proof (po_chain _ _ _ (Ha KBuf)) as Hh. rewrite Hk in Hh. cbn in Hh.
    cbn [head]. rewrite Hh. cbn. unfold new_buf, tls_malloc.
    set (b := malloc_at _ _). assert (b ≠ 0) as Hb by (apply Hmem; done).
    rewrite (proj2 (Z.eqb_neq b 0)) by done.
    rewrite (item_at_Ok KBuf b (ListItem KBuf n None None)); [|apply lookup_insert_eq|done..].
    cbn. rewrite check_true by (apply Z.leb_le; unfold sizeof_uv_buf, sizeof_buf_list in *; lia).
    set (c := ListItem KBuf n _ None).
    assert (item_ok b c) as Hok by (by split).
    destruct (new_tls_ok s a KBuf b c h) as [? Hs]; try done; [apply malloc_at_None|].
    eexists _, _, b, c, (Pool [] (b :: h)).
    split; [by cbn|]. split; [by apply ps_new|]. rewrite insert_insert_eq.
    split; [exact Hs|]. split; [apply lookup_insert_eq|]. repeat (split; [done|]). by left.
  - destruct (pop_tls_ok s a KBuf b l h Ha Hk)
      as (c & n' & Hbc & Hkc & Hb & Hbh & Hok & Hh & En & Hs).
    rewrite Hh, (proj2 (Z.eqb_neq b 0)) by done. cbn [negb]. rewrite En. cbn [mbind outcome_bind].
    rewrite (item_at_Ok KBuf b c) by (by rewrite ?items_set_head). cbn [mbind outcome_bind].
    destruct Hok as [Hsz Hu]. rewrite (Hu Hkc). cbn.
    eexists _, _, b, c, _. split; [done|]. split; [by apply ps_reuse|].
    repeat (split; [done|]). split; [by apply Hu|]. by right.
Qed.

Lemma clear_tls_ok s a k :
  tls_ok s a →
  ∃ s' p, list_clear k (clear_fuel s) s = Ok s' ∧ pool_step (OClear k) RUnit (a k) p ∧
    tls_ok s' (upd k p a).
Proof.
  intros Ha. pose proof (free_list_size s k _ (Ha k)) as Hfuel.
  pose proof (Ha k) as Hp. rewrite <- (pool_eta (a k)) in Hp |- *.
  destruct (list_clear_ok k _ _ _ s Hp Hfuel) as (s' & E & Hp' & Hh & Hm).
  exists s', (Pool [] (p_held (a k))). split; [done|]. split; [constructor|].
  by apply (tls_ok_upd s).
Qed.

Lemma remove_middle b h1 h2 : NoDup (h1 ++ b :: h2) → remove b (h1 ++ b :: h2) = h1 ++ h2.
Proof.
  intros Hd. rewrite <- Permutation_middle in Hd. apply NoDup_cons in Hd as [Hb _].
  assert (∀ l : list Z, b ∉ l → filter (λ b', b' ≠ b) l = l) as Hall.
  { induction l as [|x l IH]; intros Hl; [done|]. apply not_elem_of_cons in Hl as [? ?].
    rewrite filter_cons_True by done. by rewrite IH. }
  rewrite not_elem_of_app in Hb. unfold remove.
  rewrite filter_app, filter_cons_False by (by intros []). by rewrite !Hall by tauto.
Qed.

Lemma free_tls_ok s a k b len :
  tls_ok s a → b ∈ p_held (a k) →
  ∃ s' p, list_free k b s = Ok s' ∧ pool_step (OFree k b len) RUnit (a k) p ∧
    tls_ok s' (upd k p a).
Proof.
  intros Ha Hin. pose proof Hin as (h1 & h2 & Hb)%list_elem_of_split.
  pose proof (Ha k) as Hp. rewrite <- (pool_eta (a k)) in Hp |- *.
  assert (remove b (p_held (a k)) = h1 ++ h2) as Hr.
  { rewrite Hb. apply remove_middle. rewrite <- Hb. by apply po_nodup, NoDup_app in Hp as (_ & _ & ?). }
  rewrite Hb in Hp. destruct (list_free_ok s k b _ h1 h2 Hp) as (s' & E & Hp' & Hh & Hm).
  eexists s', _. split; [done|]. split; [by constructor|]. rewrite Hr.
  by apply (tls_ok_upd s).
Qed.

Lemma exec_refines s a o :
  tls_ok s a → op_ok s a o →
  ∃ s' r p, exec o s = Ok (s', r) ∧ pool_step o r (a (op_kind o)) p ∧
    tls_ok s' (upd (op_kind o) p a).
Proof.
  intros Ha Hok. destruct o as [k n|k b len|k].
  - destruct (decide (k = KBuf)) as [->|Hk].
    + destruct (buf_alloc_ok s a n Ha Hok) as (s' & u & b & c & p & E & Hp & Hs & _).
      exists s', (RBuf u), p. cbn. by rewrite E.
    + destruct (list_alloc_ok s a k n Hk Ha) as (s' & b & p & E & Hp & Hs).
      exists s', (RPtr b), p. split; [|done].
      destruct k; [| |done]; cbn; unfold tls_handle_alloc, tls_req_alloc; by rewrite E.
  - destruct (free_tls_ok s a k b len Ha Hok) as (s' & p & E & Hp & Hs).
    exists s', RUnit, p. split; [|done].
    destruct k; cbn; unfold tls_handle_free, tls_req_free, tls_buf_free; cbn; by rewrite E.
  - destruct (clear_tls_ok s a k Ha) as (s' & p & E & Hp & Hs).
    exists s', RUnit, p. split; [|done].
    destruct k; unfold exec, tls_clear_handle_freelist, tls_clear_req_freelist,
      tls_clear_buf_freelist; by rewrite E.
Qed.

(** ** Sessions *)

(** A session of a client that keeps the rules, from the empty state.  [peak k] is the
    largest number of blocks of kind [k] that were held at the same time. *)
Inductive session : tls → (kind → pool) → (kind → nat) → Prop :=
  | session_nil : session tls_init (λ _, Pool [] []) (λ _, 0%nat)
  | session_snoc s a peak o s' r p :
      session s a peak → op_ok s a o → exec o s = Ok (s', r) →
      pool_step o r (a (op_kind o)) p →
      session s' (upd (op_kind o) p a)
        (λ k, Nat.max (peak k) (length (p_held (upd (op_kind o) p a k)))).

Lemma tls_init_ok : tls_ok tls_init (λ _, Pool [] []).
Proof.
  intros k. split; cbn; [by destruct k|constructor| |].
  - intros b. split; [|by intros ?%elem_of_nil]. by intros (c & [=] & _).
  - intros b c [=].
Qed.

(** The specification determines the next pool from the answer. *)
Lemma pool_step_det o r p p1 p2 : pool_step o r p p1 → pool_step o r p p2 → p1 = p2.
Proof. intros H1 H2. destruct H1; inversion H2; subst; cbn in *; congruence. Qed.

Lemma session_ok s a peak : session s a peak → tls_ok s a.
Proof.
  induction 1 as [|s a peak o s' r p _ IH Hop E Hstep]; [apply tls_init_ok|].
  destruct (exec_refines s a o IH Hop) as (s'' & r' & p' & E' & Hstep' & Hok).
  rewrite E in E'. injection E' as <- <-. by rewrite (pool_step_det _ _ _ _ _ Hstep Hstep').
Qed.

(** A step mallocs only when no free block is left, so it never passes the peak. *)
Lemma pool_step_blocks o r p p' n :
  pool_step o r p p' → (length (p_free p ++ p_held p) ≤ n)%nat →
  (length (p_free p' ++ p_held p') ≤ Nat.max n (length (p_held p')))%nat.
Proof.
  assert (∀ b h, length (remove b h) ≤ length h)%nat as Hrm.
  { intros. apply length_filter. }
  assert (∀ b h, b ∈ h → S (length (remove b h)) ≤ length h)%nat as Hrm'.
  { intros b h Hb. apply length_filter_lt with b; [done|]. intros []; done. }
  destruct 1; cbn [p_free p_held length app]; rewrite ?length_app; cbn [length];
    rewrite ?length_app; cbn [length]; try lia.
  specialize (Hrm' b h ltac:(assumption)). lia.
Qed.

Lemma session_peak s a peak k :
  session s a peak → (length (p_free (a k) ++ p_held (a k)) ≤ peak k)%nat.
Proof.
  induction 1 as [|s a peak o s' r p _ IH _ _ Hstep]; [done|]. cbn beta.
  destruct (decide (k = op_kind o)) as [->|Hne].
  - rewrite upd_same. by eapply pool_step_blocks.
  - rewrite upd_other by done. lia.
Qed.

Lemma held_item s a k b :
  tls_ok s a → b ∈ p_held (a k) →
  ∃ c, t_items s !! b = Some c ∧ li_kind c = k ∧ b ≠ 0 ∧ item_ok b c.
Proof.
  intros Ha Hb. destruct (proj2 (po_items _ _ _ (Ha k) b)) as (c & Hc & Hk & _).
  { apply elem_of_app. by right. }
  exists c. pose proof (po_all _ _ _ (Ha k) b c Hc Hk). tauto.
Qed.

(** ** Properties *)

(** C22: in every state of the contract, every operation a client may issue runs without
    undefined behaviour, ends, answers as a stack of free blocks does (the block freed
    last, a block nobody holds, or NULL when malloc has none) and keeps the contract:
    each list is linked without cycles, disjoint from the blocks that are held. *)
Theorem tls_alloc_refines (s : tls) (a : kind → pool) (o : op)
    (Hs : tls_ok s a) (Hop : op_ok s a o) :
  ∃ s' r p, exec o s = Ok (s', r) ∧ pool_step o r (a (op_kind o)) p ∧
    tls_ok s' (upd (op_kind o) p a).
Proof. by apply exec_refines. Qed.

(** over any session, the malloc'ed blocks are exactly those that are free or held,
    and of each kind there are never more than were held at one time: nothing leaks,
    and malloc is called only when no free block is left. *)
Theorem tls_peak (s : tls) (a : kind → pool) (peak : kind → nat) (k : kind)
    (Hs : session s a peak) :
  NoDup (p_free (a k) ++ p_held (a k)) ∧
  (∀ b, (∃ c, t_items s !! b = Some c ∧ li_kind c = k) ↔ b ∈ p_free (a k) ++ p_held (a k)) ∧
  (length (p_free (a k) ++ p_held (a k)) ≤ peak k)%nat.
Proof.
  pose proof (session_ok _ _ _ Hs k) as [Hc Hd Hi Ha]. split; [done|].
  split; [|by apply (session_peak s)]. intros b. rewrite <- Hi. unfold of_kind. split.
  - intros (c & Hb & Hk). exists c. by destruct (Ha b c Hb Hk).
  - intros (c & Hb & Hk & _). by exists c.
Qed.

(** a buffer allocation answers a range that ends where its block ends, whenever
    the block was malloc'ed with less than 4 GB.  A new block has the size that was
    asked for; a recycled one keeps its own, whatever size is asked for. *)
Theorem tls_buf_bounds (s : tls) (a : kind → pool) (n : Z)
    (Hs : tls_ok s a) (Hop : op_ok s a (OAlloc KBuf n)) :
  ∃ s' u b c, tls_buf_alloc_simple n s = Ok (s', u) ∧ t_items s' !! b = Some c ∧
    ub_base u = Some (b, sizeof_buf_list) ∧
    (li_size c < 2 ^ 32 → sizeof_buf_list + ub_len u = li_size c) ∧
    (p_free (a KBuf) = [] → li_size c = n) ∧
    (p_free (a KBuf) ≠ [] → ∀ n', tls_buf_alloc_simple n' s = Ok (s', u)).
Proof.
  destruct (buf_alloc_ok s a n Hs Hop)
    as (s' & u & b & c & p & E & Hp & _ & Hbc & Hk & [Hsz Hu] & Hcu & Hcase).
  exists s', u, b, c. split; [done|]. split; [done|].
  rewrite (Hu Hk) in Hcu. injection Hcu as <-. split; [done|].
  rewrite Hk in Hsz. cbn [sizeof_list ub_len] in *. unfold sizeof_buf_list in *.
  split; [|split].
  - intros Hlt. unfold header_len, sizeof_buf_list.
    rewrite (u32_small (li_size c)), (u64_small (li_size c - 24)) by lia.
    rewrite wrapu_small; [lia|]. destruct len_width_ok as [-> | ->]; lia.
  - intros Hnil. destruct Hcase as [?|[Hf _]]; [done|]. rewrite Hnil in Hf. done.
  - intros Hne n'. rewrite <- E. unfold tls_buf_alloc_simple.
    pose proof (po_chain _ _ _ (Hs KBuf)) as Hh.
    destruct (p_free (a KBuf)) as [|b' l]; [done|]. destruct Hh as (Hh & Hb' & _).
    by rewrite (proj2 (Z.eqb_neq (head KBuf s) 0)).
Qed.

(** A suggested size without room for the header writes outside the new block; one
    with room for [uvbuf] only gets a length that has wrapped around. *)
Theorem tls_buf_alloc_tiny (s : tls) (n : Z)
    (Hempty : buf_freelist s = 0) (Hmem : malloc_at (dom (t_items s)) n ≠ 0)
    (Hn : 0 ≤ n < sizeof_buf_list) :
  if n <? sizeof_uv_buf then tls_buf_alloc_simple n s = Ub OobWrite
  else ∃ s' u, tls_buf_alloc_simple n s = Ok (s', u) ∧ ub_len u = 2 ^ len_width + n - 24 ∧
    tls_buf_free u s' = Ub OobWrite.
Proof.
  unfold tls_buf_alloc_simple. cbn [head]. rewrite Hempty. cbn [Z.eqb negb].
  unfold new_buf, tls_malloc. set (b := malloc_at _ _) in *.
  rewrite (proj2 (Z.eqb_neq b 0)) by done.
  rewrite (item_at_Ok KBuf b (ListItem KBuf n None None)); [|apply lookup_insert_eq|done..].
  cbn [mbind outcome_bind li_size check]. unfold sizeof_buf_list, sizeof_uv_buf in *.
  destruct (Z.ltb_spec n 16).
  { by rewrite (proj2 (Z.leb_gt 16 n)). }
  rewrite (proj2 (Z.leb_le 16 n)) by done. eexists _, _. split; [done|]. split.
  - cbn. unfold header_len, sizeof_buf_list. rewrite (u32_small n) by lia.
    assert (u64 (n - 24) = 2 ^ 64 + n - 24) as ->.
    { unfold wrapu. symmetry. apply (Z.mod_unique _ _ (-1)); lia. }
    unfold wrapu. symmetry. destruct len_width_ok as [-> | ->].
    + apply (Z.mod_unique _ _ (2 ^ 32 - 1)); lia.
    + apply (Z.mod_unique _ _ 0); lia.
  - cbn. unfold list_free, set_next. erewrite item_at_Ok; [|apply lookup_insert_eq|done..].
    cbn. unfold sizeof_buf_list. by rewrite (proj2 (Z.leb_gt 24 n)) by lia.
Qed.

(** a block that is freed twice is linked to itself: the next two allocations both
    hand it out, and clearing the list frees it twice. *)
Theorem tls_double_free (s : tls) (a : kind → pool) (k : kind) (b : Z)
    (Hs : tls_ok s a) (Hb : b ∈ p_held (a k)) :
  ∃ s1 s2 s3 s4, list_free k b s = Ok s1 ∧ list_free k b s1 = Ok s2 ∧
    list_alloc k s2 = Ok (s3, b) ∧ list_alloc k s3 = Ok (s4, b) ∧
    list_clear k (clear_fuel s2) s2 = Ub Dangling.
Proof.
  destruct (held_item s a k b Hs Hb) as (c & Hc & Hk & Hb0 & [Hsz Hu]).
  rewrite Hk in Hsz. set (c' n := ListItem k (li_size c) (li_uvbuf c) (Some n)).
  set (st n := set_head k b (set_items (<[b := c' n]> (t_items s)) s)).
  assert (∀ n, t_items (st n) !! b = Some (c' n)) as Hst.
  { intros. unfold st. rewrite items_set_head. apply lookup_insert_eq. }
  assert (∀ n, head k (st n) = b) as Hh by (intros; apply head_set_head).
  assert (∀ n, get_next k b (st n) = Ok n) as Hget.
  { intros. unfold get_next. rewrite (item_at_Ok k b (c' n)) by done. cbn.
    by rewrite (proj2 (Z.leb_le _ _) Hsz). }
  assert (list_free k b s = Ok (st (head k s))) as E1.
  { unfold list_free, set_next. rewrite (item_at_Ok k b c) by done. cbn.
    by rewrite (proj2 (Z.leb_le _ _) Hsz). }
  assert (list_free k b (st (head k s)) = Ok (st b)) as E2.
  { unfold list_free, set_next. rewrite (item_at_Ok k b (c' (head k s))) by done. cbn.
    rewrite (proj2 (Z.leb_le _ _) Hsz). cbn. unfold st. rewrite head_set_head, items_set_head.
    destruct k; cbn; by rewrite insert_insert_eq. }
  assert (list_alloc k (st b) = Ok (st b, b)) as E3.
  { unfold list_alloc. rewrite Hh, (proj2 (Z.eqb_neq b 0)), Hget by done. cbn.
    unfold st. by destruct k. }
  exists (st (head k s)), (st b), (st b), (st b). repeat (split; [done|]).
  unfold clear_fuel. cbn [list_clear].
  rewrite Hh, (proj2 (Z.eqb_neq b 0)), Hget by done. cbn. unfold tls_mfree.
  rewrite items_set_head, Hst. cbn.
  destruct (size (t_items (st b))) as [|fuel] eqn:Hz.
  { apply map_size_empty_inv in Hz. specialize (Hst b). rewrite Hz in Hst. by rewrite lookup_empty in Hst. }
  cbn [list_clear]. rewrite head_set_items, head_set_head, (proj2 (Z.eqb_neq b 0)) by done.
  unfold get_next, item_at. rewrite (proj2 (Z.eqb_neq b 0)) by done. cbn.
  destruct k; cbn; by rewrite lookup_delete_eq.
Qed.
End allocators.

(** *** Witnesses *)

(** A platform with 32-bit lengths and a malloc that never fails. *)
Definition ex_tls_env : TlsEnv.
Proof.
  refine {| len_width := 32; sizeof_handle_list := 400; sizeof_req_list := 300;
    malloc_at used _ := fresh (used ∪ {[0]}) |}; [by left|].
  intros used _ Hin. apply (is_fresh (used ∪ {[0]})), elem_of_union. by left.
Defined.

Lemma ex_malloc used n : @malloc_at ex_tls_env used n ≠ 0.
Proof.
  intros E. apply (is_fresh (used ∪ {[0]})). apply elem_of_union. right.
  apply elem_of_singleton, E.
Qed.

(** A session: a buffer of 64 bytes is allocated, then freed. *)
Definition ex_item (next : option Z) : list_item :=
  ListItem KBuf 64 (Some (UvBuf 40 (Some (1, 24)))) next.
Definition ex_s1 : tls := Tls {[1 := ex_item None]} 0 0 0.
Definition ex_s2 : tls := Tls {[1 := ex_item (Some 0)]} 0 0 1.
Definition ex_a0 : kind → pool := λ _, Pool [] [].
Definition ex_a1 : kind → pool := upd KBuf (Pool [] [1]) ex_a0.
Definition ex_a2 : kind → pool := upd KBuf (Pool [1] []) ex_a1.
Definition ex_peak (p : kind → nat) (a : kind → pool) : kind → nat :=
  λ k, Nat.max (p k) (length (p_held (a k))).

Lemma ex_session1 : @session ex_tls_env ex_s1 ex_a1 (ex_peak (λ _, 0%nat) ex_a1).
Proof.
  apply (@session_snoc ex_tls_env tls_init ex_a0 (λ _, 0%nat) (OAlloc KBuf 64)
    ex_s1 (RBuf (UvBuf 40 (Some (1, 24)))) (Pool [] [1])).
  - constructor.
  - split; [done|]. intros _. apply ex_malloc.
  - vm_compute. reflexivity.
  - by apply ps_new; [|done|intros ?%elem_of_nil].
Qed.

Lemma ex_session2 :
  @session ex_tls_env ex_s2 ex_a2 (ex_peak (ex_peak (λ _, 0%nat) ex_a1) ex_a2).
Proof.
  apply (@session_snoc ex_tls_env ex_s1 ex_a1 _ (OFree KBuf 1 0) ex_s2 RUnit (Pool [1] [])).
  - apply ex_session1.
  - by left.
  - vm_compute. reflexivity.
  - apply (ps_free KBuf 1 0 [] [1]). by left.
Qed.

Lemma tls_alloc_refines_witness :
  ∃ s' r p, @exec ex_tls_env (OAlloc KBuf 4096) ex_s2 = Ok (s', r) ∧
    pool_step (OAlloc KBuf 4096) r (Pool [1] []) p ∧
    @tls_ok ex_tls_env s' (upd KBuf p ex_a2).
Proof.
  apply (@tls_alloc_refines ex_tls_env ex_s2 ex_a2 (OAlloc KBuf 4096)).
  - exact (session_ok _ _ _ ex_session2).
  - split; [discriminate|]. intros _. apply ex_malloc.
Defined.

Lemma tls_peak_witness :
  NoDup ([1] ++ []) ∧
  (∀ b, (∃ c, t_items ex_s2 !! b = Some c ∧ li_kind c = KBuf) ↔ b ∈ [1] ++ []) ∧ (1 ≤ 1)%nat.
Proof. exact (@tls_peak ex_tls_env _ _ _ KBuf ex_session2). Defined.

Lemma tls_buf_bounds_witness :
  ∃ s' u b c, @tls_buf_alloc_simple ex_tls_env 4096 ex_s2 = Ok (s', u) ∧
    t_items s' !! b = Some c ∧ ub_base u = Some (b, 24) ∧
    (li_size c < 2 ^ 32 → 24 + ub_len u = li_size c) ∧
    ([1] = [] → li_size c = 4096) ∧
    ([1] ≠ [] → ∀ n', @tls_buf_alloc_simple ex_tls_env n' ex_s2 = Ok (s', u)).
Proof.
  apply (@tls_buf_bounds ex_tls_env ex_s2 ex_a2 4096).
  - exact (session_ok _ _ _ ex_session2).
  - split; [discriminate|]. intros _. apply ex_malloc.
Defined.

(** The recycled buffer is smaller than what was asked for. *)
Example tls_buf_recycled :
  ∃ s', @tls_buf_alloc_simple ex_tls_env 4096 ex_s2 = Ok (s', UvBuf 40 (Some (1, 24))).
Proof. eexists. vm_compute. reflexivity. Qed.

Lemma tls_buf_alloc_tiny_witness :
  @tls_buf_alloc_simple ex_tls_env 8 tls_init = Ub OobWrite.
Proof.
  apply (@tls_buf_alloc_tiny ex_tls_env tls_init 8); [reflexivity|apply ex_malloc|].
  split; [discriminate|reflexivity].
Defined.

Lemma tls_double_free_witness :
  ∃ s1 s2 s3 s4, @list_free ex_tls_env KBuf 1 ex_s1 = Ok s1 ∧
    @list_free ex_tls_env KBuf 1 s1 = Ok s2 ∧ @list_alloc ex_tls_env KBuf s2 = Ok (s3, 1) ∧
    @list_alloc ex_tls_env KBuf s3 = Ok (s4, 1) ∧
    @list_clear ex_tls_env KBuf (clear_fuel s2) s2 = Ub Dangling.
Proof.
  apply (@tls_double_free ex_tls_env ex_s1 ex_a1 KBuf 1).
  - exact (session_ok _ _ _ ex_session1).
  - by left.
Defined.
