(* ===== verification/PlatformUtil.v ===== *)
(** * [base/platform_utilities.c] and [base/platform_utilities.h]

    Case-insensitive comparison and the readers of integers and of the 80-bit
    extended floats of file headers.  [char] is signed, as on the platforms the
    sources build for; [tolower] is the C locale's and has the domain the standard
    gives it ([unsigned char] values and EOF).  The shift [u16 << 16], which a C
    compiler does in [int], wraps around in two's complement. *)

From S2P Require Import Prelude.

#[local] Open Scope Z_scope.

(** ** Comparison *)

Definition tolower (c : Z) : outcome Z :=
  check ((-1 <=? c) && (c <=? 255)) BadArg (
    Ok (if (chr "A" <=? c) && (c <=? chr "Z") then c + 32 else c)).

(** [tolower] of the character at offset [i], stored in a [char]. *)
Definition lower_at (a : bytes) (i : Z) : outcome Z :=
  c ← load1 i a; c ← tolower (s8 c); Ok (s8 c).

(** The loop and the two lines behind it; [a] and [b] advance together. *)
Fixpoint strcmp_loop (fuel : nat) (a b : bytes) (i : Z) : outcome Z :=
  match fuel with
  | O => Ub NoFuel
  | S fuel =>
      ca ← load1 i a;
      cb ← (if ca =? 0 then Ok 0 else load1 i b);
      c ← lower_at a i;
      d ← lower_at b i;
      if negb (ca =? 0) && negb (cb =? 0) then
        if c =? d then strcmp_loop fuel a b (i + 1) else Ok (c - d)
      else Ok (c - d)
  end.

Definition util_strcmp_case (a b : bytes) : outcome Z :=
  strcmp_loop (S (length a)) a b 0.

(** ** Readers *)

(** [b[i]], of the pointer [b + off]. *)
Definition read16_le (b : bytes) (off : Z) : outcome Z :=
  b0 ← load1 off b; b1 ← load1 (off + 1) b;
  Ok (u16 (b0 + Z.shiftl b1 8)).

Definition read16_be (b : bytes) (off : Z) : outcome Z :=
  b0 ← load1 off b; b1 ← load1 (off + 1) b;
  Ok (u16 (Z.shiftl b0 8 + b1)).

Definition read32_le (b : bytes) (off : Z) : outcome Z :=
  lo ← read16_le b off; hi ← read16_le b (off + 2);
  Ok (u32 (lo + s32 (Z.shiftl hi 16))).

Definition read32_be (b : bytes) (off : Z) : outcome Z :=
  hi ← read16_be b off; lo ← read16_be b (off + 2);
  Ok (u32 (s32 (Z.shiftl hi 16) + lo)).

(** [while (exp--) { last = mantissa; mantissa >>= 1; }] *)
Fixpoint shift_loop (fuel : nat) (exp mantissa last : Z) : outcome (Z * Z) :=
  if exp =? 0 then Ok (mantissa, last)
  else
    match fuel with
    | O => Ub NoFuel
    | S fuel => shift_loop fuel (u8 (exp - 1)) (Z.shiftr mantissa 1) mantissa
    end.

(** A [u8] counts the rounds. *)
Definition shift_fuel : nat := 255.

Definition readLD_be (b : bytes) : outcome Z :=
  mantissa ← read32_be b 2;
  b1 ← load1 1 b;
  let exp := u8 (30 - b1) in
  '(mantissa, last) ← shift_loop shift_fuel exp mantissa 0;
  Ok (if negb (Z.land last 1 =? 0) then u32 (mantissa + 1) else mantissa).

(** ** Specification *)

(** The lowered text of a string. *)
Definition lower (c : Z) : Z := if (chr "A" <=? c) && (c <=? chr "Z") then c + 32 else c.

Fixpoint cstring (v : bytes) : bytes :=
  match v with [] => [] | c :: v => if c =? 0 then [] else c :: cstring v end.

(** What [util_strcmp_case] computes: the difference at the first position at which
    the texts differ, where a text that ends counts as NUL. *)
Fixpoint text_cmp (a b : bytes) : Z :=
  match a, b with
  | [], [] => 0
  | c :: _, [] => c
  | [], d :: _ => - d
  | c :: a, d :: b => if c =? d then text_cmp a b else c - d
  end.

Definition lowered (v : bytes) : bytes := lower <$> cstring v.

(** A NUL-terminated string of 7-bit characters. *)
Definition ascii_string (v : bytes) : Prop :=
  In 0 v ∧ Forall (λ c, 0 < c < 128) (cstring v).

(** ** Lemmas *)

Lemma lower_bound c : 0 ≤ c < 128 → 0 ≤ lower c < 128 ∧ (lower c = 0 ↔ c = 0).
Proof.
  intros. unfold lower. change (chr "A") with 65. change (chr "Z") with 90.
  destruct (Z.leb_spec 65 c), (Z.leb_spec c 90); cbn; lia.
Qed.

Lemma lower_at_Ok v i c :
  0 ≤ i → v !! Z.to_nat i = Some c → 0 ≤ c < 128 → lower_at v i = Ok (lower c).
Proof.
  intros Hi Hc Hr. unfold lower_at, tolower. rewrite (load1_Ok _ _ c) by done. cbn [mbind outcome_bind].
  unfold wraps. rewrite (Z.mod_small (c + 2 ^ (8 - 1))) by lia.
  replace (c + 2 ^ (8 - 1) - 2 ^ (8 - 1)) with c by lia.
  rewrite check_true by (rewrite andb_true_iff, !Z.leb_le; lia). cbn [mbind outcome_bind].
  fold (lower c). pose proof (lower_bound c Hr). rewrite Z.mod_small by lia. f_equal. lia.
Qed.

(** The character at the end of a prefix of the string. *)
Lemma ascii_string_char v :
  ascii_string v →
  ∃ c v', v = c :: v' ∧ 0 ≤ c < 128 ∧
    (c = 0 ∧ cstring v = [] ∨ c ≠ 0 ∧ cstring v = c :: cstring v' ∧ ascii_string v').
Proof.
  intros [Hin Hall]. destruct v as [|c v']; [by destruct Hin|].
  exists c, v'. cbn [cstring] in *. destruct (Z.eqb_spec c 0) as [->|Hc].
  - split; [done|]. split; [lia|]. by left.
  - apply Forall_cons in Hall as [? ?]. split; [done|]. split; [lia|]. right.
    split; [done|]. split; [done|]. split; [|done]. by destruct Hin.
Qed.

Lemma strcmp_loop_ok a b pa pb fuel :
  ascii_string a → ascii_string b → length pa = length pb → (length a < fuel)%nat →
  strcmp_loop fuel (pa ++ a) (pb ++ b) (zlen pa) = Ok (text_cmp (lowered a) (lowered b)).
Proof.
  revert b pa pb fuel. induction a as [|x a IH]; intros b pa pb fuel Ha Hb Hlen Hfuel.
  { by destruct Ha as [[] _]. }
  destruct fuel as [|fuel]; [cbn in Hfuel; lia|].
  destruct (ascii_string_char _ Ha) as (ca & va & [= <- <-] & Hca & Hcase).
  destruct (ascii_string_char _ Hb) as (cb & vb & -> & Hcb & Hcase').
  assert ((pa ++ x :: a) !! Z.to_nat (zlen pa) = Some x) as Ea.
  { rewrite Nat2Z.id. by apply list_lookup_middle. }
  assert ((pb ++ cb :: vb) !! Z.to_nat (zlen pa) = Some cb) as Eb.
  { rewrite Nat2Z.id, Hlen. by apply list_lookup_middle. }
  assert (0 ≤ zlen pa) as Hp by lia.
  cbn [strcmp_loop]. rewrite (load1_Ok _ _ _ Hp Ea), (load1_Ok _ _ _ Hp Eb).
  rewrite (lower_at_Ok _ _ _ Hp Ea Hca), (lower_at_Ok _ _ _ Hp Eb Hcb).
  cbn [mbind outcome_bind]. unfold lowered.
  pose proof (lower_bound x Hca) as [_ Hlx]. pose proof (lower_bound cb Hcb) as [_ Hlc].
  destruct Hcase as [[-> Hn]|(Hx & Hn & Ha')], Hcase' as [[-> Hn']|(Hc & Hn' & Hb')];
    rewrite Hn, Hn'; cbn [Z.eqb mbind outcome_bind]; rewrite ?(proj2 (Z.eqb_neq _ _)) by done;
    cbn [mbind outcome_bind Z.eqb negb andb]; rewrite ?(proj2 (Z.eqb_neq _ _)) by done;
    cbn [negb andb fmap list_fmap text_cmp].
  - done.
  - f_equal; change (lower 0) with 0; lia.
  - f_equal; change (lower 0) with 0; lia.
  - destruct (lower x =? lower cb); [|done].
    specialize (IH vb (pa ++ [x]) (pb ++ [cb]) fuel Ha' Hb').
    rewrite <- !app_assoc, !length_app in IH. cbn [app length] in IH, Hfuel.
    unfold lowered in IH. rewrite <- IH by lia. f_equal. lia.
Qed.

Lemma text_cmp_anti a b : text_cmp b a = - text_cmp a b.
Proof.
  revert b. induction a as [|c a IH]; destruct b as [|d b]; cbn; try lia.
  rewrite (Z.eqb_sym d c). destruct (Z.eqb_spec c d); [apply IH|lia].
Qed.

Lemma text_cmp_eq a b :
  Forall (λ c, 0 < c) a → Forall (λ c, 0 < c) b → text_cmp a b = 0 ↔ a = b.
Proof.
  revert b. induction a as [|c a IH]; destruct b as [|d b]; intros Ha Hb; cbn.
  - done.
  - apply Forall_cons in Hb as [? _]. split; [lia|done].
  - apply Forall_cons in Ha as [? _]. split; [lia|done].
  - apply Forall_cons in Ha as [? ?], Hb as [? ?]. destruct (Z.eqb_spec c d) as [->|Hne].
    + rewrite IH by done. split; [by intros ->|by intros [= ->]].
    + split; [lia|]. intros [= ? ?]. lia.
Qed.

Lemma text_cmp_trans a b c :
  Forall (λ c, 0 < c) a → Forall (λ c, 0 < c) b → Forall (λ c, 0 < c) c →
  text_cmp a b ≤ 0 → text_cmp b c ≤ 0 → text_cmp a c ≤ 0.
Proof.
  revert b c. induction a as [|x a IH]; intros [|y b] [|z c] Ha Hb Hc; cbn;
    repeat match goal with H : Forall _ (_ :: _) |- _ => apply Forall_cons in H as [? ?] end;
    try lia.
  destruct (Z.eqb_spec x y), (Z.eqb_spec y z), (Z.eqb_spec x z); subst; try lia.
  by apply IH.
Qed.

Lemma lowered_pos v : ascii_string v → Forall (λ c, 0 < c) (lowered v).
Proof.
  intros [_ Hv]. unfold lowered. apply Forall_fmap. eapply Forall_impl; [done|].
  intros c Hc. cbn in *. destruct (lower_bound c) as [? [Hz _]]; [lia|].
    destruct (decide (lower c = 0)) as [E|E]; [apply Hz in E|]; lia.
Qed.

Lemma util_strcmp_case_text a b :
  ascii_string a → ascii_string b →
  util_strcmp_case a b = Ok (text_cmp (lowered a) (lowered b)).
Proof. intros. apply (strcmp_loop_ok a b [] [] (S (length a))); try done. lia. Qed.

(** *** Readers *)

Lemma drop_lookup {A} (off : Z) (i : nat) (b l : list A) x :
  0 ≤ off → drop (Z.to_nat off) b = l → l !! i = Some x →
  b !! Z.to_nat (off + Z.of_nat i) = Some x.
Proof.
  intros ? <- Hx. rewrite lookup_drop in Hx. rewrite <- Hx. f_equal. lia.
Qed.

Lemma read16_le_Ok b off b0 b1 l :
  0 ≤ off → drop (Z.to_nat off) b = b0 :: b1 :: l → byte_ok b0 → byte_ok b1 →
  read16_le b off = Ok (b0 + 256 * b1).
Proof.
  intros Hoff Hd ? ?. unfold read16_le, byte_ok in *.
  rewrite (load1_Ok off _ b0);
    [|lia|rewrite <- (Z.add_0_r off); by apply (drop_lookup off 0 _ _ _ Hoff Hd)].
  rewrite (load1_Ok (off + 1) _ b1); [|lia|by apply (drop_lookup off 1 _ _ _ Hoff Hd)].
  cbn. rewrite Z.shiftl_mul_pow2 by lia. f_equal. rewrite wrapu_small; lia.
Qed.

Lemma read16_be_Ok b off b0 b1 l :
  0 ≤ off → drop (Z.to_nat off) b = b0 :: b1 :: l → byte_ok b0 → byte_ok b1 →
  read16_be b off = Ok (256 * b0 + b1).
Proof.
  intros Hoff Hd ? ?. unfold read16_be, byte_ok in *.
  rewrite (load1_Ok off _ b0);
    [|lia|rewrite <- (Z.add_0_r off); by apply (drop_lookup off 0 _ _ _ Hoff Hd)].
  rewrite (load1_Ok (off + 1) _ b1); [|lia|by apply (drop_lookup off 1 _ _ _ Hoff Hd)].
  cbn. rewrite Z.shiftl_mul_pow2 by lia. f_equal. rewrite wrapu_small; lia.
Qed.

(** The detour through [int] does not change the result. *)
Lemma u32_s32_shift lo hi :
  0 ≤ lo < 65536 → 0 ≤ hi < 65536 → u32 (lo + s32 (Z.shiftl hi 16)) = lo + 65536 * hi.
Proof.
  intros. rewrite Z.shiftl_mul_pow2 by lia. unfold wraps, wrapu.
  destruct (decide (hi < 32768)).
  - rewrite (Z.mod_small (hi * 2 ^ 16 + _)) by lia. rewrite Z.mod_small; lia.
  - rewrite <- (Z.mod_unique (hi * 2 ^ 16 + 2 ^ (32 - 1)) (2 ^ 32) 1 (hi * 2 ^ 16 - 2 ^ 31)) by lia.
    symmetry. apply (Z.mod_unique _ _ (-1)); lia.
Qed.

Lemma read32_le_Ok b off b0 b1 b2 b3 l :
  0 ≤ off → drop (Z.to_nat off) b = b0 :: b1 :: b2 :: b3 :: l →
  Forall byte_ok [b0; b1; b2; b3] →
  read32_le b off = Ok (le_val [b0; b1; b2; b3]).
Proof.
  intros Hoff Hd Hb. rewrite !Forall_cons in Hb. destruct Hb as (?&?&?&?&_). unfold read32_le.
  rewrite (read16_le_Ok b off b0 b1 (b2 :: b3 :: l)) by done.
  rewrite (read16_le_Ok b (off + 2) b2 b3 l); [|lia| |done..].
  - cbn. unfold byte_ok in *. rewrite u32_s32_shift by lia. f_equal. lia.
  - replace (Z.to_nat (off + 2)) with (Z.to_nat off + 2)%nat by lia.
    by rewrite <- drop_drop, Hd.
Qed.

Lemma read32_be_Ok b off b0 b1 b2 b3 l :
  0 ≤ off → drop (Z.to_nat off) b = b0 :: b1 :: b2 :: b3 :: l →
  Forall byte_ok [b0; b1; b2; b3] →
  read32_be b off = Ok (le_val [b3; b2; b1; b0]).
Proof.
  intros Hoff Hd Hb. rewrite !Forall_cons in Hb. destruct Hb as (?&?&?&?&_). unfold read32_be.
  rewrite (read16_be_Ok b off b0 b1 (b2 :: b3 :: l)) by done.
  rewrite (read16_be_Ok b (off + 2) b2 b3 l); [|lia| |done..].
  - cbn. unfold byte_ok in *. rewrite Z.add_comm, u32_s32_shift by lia. f_equal. lia.
  - replace (Z.to_nat (off + 2)) with (Z.to_nat off + 2)%nat by lia.
    by rewrite <- drop_drop, Hd.
Qed.

(** The loop leaves the mantissa shifted by [exp], and before its last round. *)
Lemma shift_loop_ok fuel exp m last :
  0 ≤ exp < 256 → exp ≤ Z.of_nat fuel →
  shift_loop fuel exp m last =
  Ok (Z.shiftr m exp, if exp =? 0 then last else Z.shiftr m (exp - 1)).
Proof.
  revert exp m last. induction fuel as [|fuel IH]; intros exp m last He Hf; cbn [shift_loop].
  { replace exp with 0 by lia. by rewrite Z.shiftr_0_r. }
  destruct (Z.eqb_spec exp 0) as [->|Hne]; [by rewrite Z.shiftr_0_r|].
  rewrite wrapu_small by lia. rewrite IH by lia.
  rewrite !Z.shiftr_shiftr by lia. replace (1 + (exp - 1)) with exp by lia.
  f_equal. f_equal. destruct (Z.eqb_spec (exp - 1) 0) as [E|E].
  - by rewrite E, Z.shiftr_0_r.
  - rewrite Z.shiftr_shiftr by lia. f_equal. lia.
Qed.

(** Rounding half up. *)
Lemma round_shift m e :
  0 ≤ m → 0 < e →
  Z.shiftr m e + (if Z.land (Z.shiftr m (e - 1)) 1 =? 0 then 0 else 1) =
  (m + 2 ^ (e - 1)) / 2 ^ e.
Proof.
  intros Hm He. rewrite !Z.shiftr_div_pow2 by lia. set (p := 2 ^ (e - 1)).
  assert (2 ^ e = p * 2) as -> by (unfold p; rewrite Z.mul_comm, <- Z.pow_succ_r by lia; f_equal; lia).
  assert (0 < p) by (unfold p; lia).
  change 1 with (Z.ones 1) at 1. rewrite Z.land_ones by lia. change (2 ^ 1) with 2.
  rewrite <- !Z.div_div by lia.
  replace (m + p) with (m + 1 * p) by lia. rewrite Z.div_add by lia.
  set (q := m / p). pose proof (Z.div_mod q 2 ltac:(lia)). pose proof (Z.mod_pos_bound q 2 ltac:(lia)).
  destruct (Z.eqb_spec (q `mod` 2) 0).
  - rewrite Z.add_0_r. apply (Z.div_unique_pos _ _ _ 1); lia.
  - apply (Z.div_unique_pos _ _ _ 0); lia.
Qed.

Lemma readLD_round m e :
  0 ≤ m < 2 ^ 32 → 0 ≤ e →
  (if negb (Z.land (if e =? 0 then 0 else Z.shiftr m (e - 1)) 1 =? 0)
   then u32 (Z.shiftr m e + 1) else Z.shiftr m e) = (2 * m + 2 ^ e) / 2 ^ (e + 1).
Proof.
  intros Hm He. destruct (Z.eqb_spec e 0) as [->|Hne].
  { rewrite Z.shiftr_0_r. change (negb (Z.land 0 1 =? 0)) with false. cbv iota.
    apply (Z.div_unique_pos _ _ _ 1); change (2 ^ (0 + 1)) with 2; change (2 ^ 0) with 1; lia. }
  assert ((2 * m + 2 ^ e) / 2 ^ (e + 1) = (m + 2 ^ (e - 1)) / 2 ^ e) as ->.
  { assert (2 ^ e = 2 * 2 ^ (e - 1)) as E by (rewrite <- Z.pow_succ_r by lia; f_equal; lia).
    rewrite Z.pow_add_r, (Z.mul_comm (2 ^ e)) by lia. change (2 ^ 1) with 2.
    rewrite E at 1. rewrite <- Z.mul_add_distr_l. apply Z.div_mul_cancel_l; lia. }
  rewrite <- round_shift by lia.
  assert (0 ≤ Z.shiftr m e < 2 ^ 31) as Hs.
  { rewrite Z.shiftr_div_pow2 by lia. split; [apply Z.div_pos; lia|].
    apply Z.div_lt_upper_bound; [lia|].
    assert (2 ^ 1 ≤ 2 ^ e) by (apply Z.pow_le_mono_r; lia). nia. }
  destruct (Z.eqb_spec (Z.land (Z.shiftr m (e - 1)) 1) 0); cbn [negb]; [lia|].
  apply u32_small. lia.
Qed.

(** ** Properties *)

(** on strings of 7-bit characters [util_strcmp_case] stays inside them and is a
    total order up to case: it is the first difference of the lowered texts, zero
    exactly when these are equal, antisymmetric and transitive. *)
Theorem util_strcmp_case_order (a b c : bytes)
    (Ha : ascii_string a) (Hb : ascii_string b) (Hc : ascii_string c) :
  ∃ r, util_strcmp_case a b = Ok r ∧ util_strcmp_case b a = Ok (- r) ∧
    r = text_cmp (lowered a) (lowered b) ∧ (r = 0 ↔ lowered a = lowered b) ∧
    ∃ r2 r3, util_strcmp_case b c = Ok r2 ∧ util_strcmp_case a c = Ok r3 ∧
      (r ≤ 0 → r2 ≤ 0 → r3 ≤ 0).
Proof.
  exists (text_cmp (lowered a) (lowered b)). rewrite !util_strcmp_case_text by done.
  rewrite (text_cmp_anti (lowered a) (lowered b)).
  pose proof (lowered_pos a Ha). pose proof (lowered_pos b Hb). pose proof (lowered_pos c Hc).
  do 3 (split; [done|]). split; [by apply text_cmp_eq|].
  eexists _, _. do 2 (split; [done|]). by apply text_cmp_trans.
Qed.

Lemma util_strcmp_case_order_witness :
  ∃ r, util_strcmp_case (cstr "Host") (cstr "hOSTNAME") = Ok r ∧
    util_strcmp_case (cstr "hOSTNAME") (cstr "Host") = Ok (- r) ∧
    r = text_cmp (lowered (cstr "Host")) (lowered (cstr "hOSTNAME")) ∧
    (r = 0 ↔ lowered (cstr "Host") = lowered (cstr "hOSTNAME")) ∧
    ∃ r2 r3, util_strcmp_case (cstr "hOSTNAME") (cstr "X") = Ok r2 ∧
      util_strcmp_case (cstr "Host") (cstr "X") = Ok r3 ∧ (r ≤ 0 → r2 ≤ 0 → r3 ≤ 0).
Proof.
  apply (util_strcmp_case_order (cstr "Host") (cstr "hOSTNAME") (cstr "X"));
    (split; [vm_compute; auto 20|vm_compute; repeat constructor]).
Defined.

(** A character above 127 is passed to [tolower] as a negative [int], which is
    outside the function's domain (255 alone is EOF and passes). *)
Theorem util_strcmp_case_high (c d : Z) (a b : bytes)
    (Hc : 128 ≤ c < 255) (Hd : d ≠ 0) :
  util_strcmp_case (c :: a) (d :: b) = Ub BadArg.
Proof.
  assert (s8 c = c - 256) as E.
  { unfold wraps. rewrite <- (Z.mod_unique (c + 2 ^ (8 - 1)) (2 ^ 8) 1 (c - 128)); lia. }
  unfold util_strcmp_case. cbn [length strcmp_loop]. unfold lower_at.
  rewrite (load1_Ok 0 (c :: a) c) by done. cbn [mbind outcome_bind].
  rewrite (proj2 (Z.eqb_neq c 0)) by lia. rewrite (load1_Ok 0 (d :: b) d) by done.
  cbn [mbind outcome_bind]. rewrite E. unfold tolower.
  by rewrite (proj2 (Z.leb_gt (-1) (c - 256))) by lia.
Qed.

Lemma util_strcmp_case_high_witness : util_strcmp_case [228; 0] [196; 0] = Ub BadArg.
Proof. apply (util_strcmp_case_high 228 196 [0] [0]); lia. Defined.

(** [read32_le] and [read32_be] read back every 32-bit value from its bytes, at
    every offset: the signed shift in the middle loses nothing. *)
Theorem read32_roundtrip (v : Z) (pre l : bytes) (Hv : 0 ≤ v < 2 ^ 32) :
  read32_le (pre ++ le_bytes 4 v ++ l) (zlen pre) = Ok v ∧
  read32_be (pre ++ reverse (le_bytes 4 v) ++ l) (zlen pre) = Ok v.
Proof.
  pose proof (le_bytes_byte 4 v) as Hb. pose proof (le_val_bytes 4 v ltac:(lia)) as Hval.
  cbn [le_bytes] in *. split.
  - erewrite read32_le_Ok; [by rewrite Hval|lia| |done].
    rewrite Nat2Z.id, drop_app_length. reflexivity.
  - erewrite read32_be_Ok; [by rewrite Hval|lia| |].
    + rewrite Nat2Z.id, drop_app_length. reflexivity.
    + rewrite !Forall_cons in *. tauto.
Qed.

Lemma read32_roundtrip_witness :
  read32_le ([1] ++ le_bytes 4 4042322160 ++ []) 1 = Ok 4042322160 ∧
  read32_be ([1] ++ reverse (le_bytes 4 4042322160) ++ []) 1 = Ok 4042322160.
Proof. apply (read32_roundtrip 4042322160 [1] []). lia. Defined.

(** for an 80-bit extended float with biased exponent [ex] from 0x3f1f to 0x401e,
    [readLD_be] ends and is the leading 32 bits of the mantissa, scaled to an integer
    and rounded half up: below 2 the exponent byte has wrapped around, and the result
    is still right. *)
Theorem readLD_be_rounds (b0 b1 m0 m1 m2 m3 : Z) (l : bytes)
    (Hb : Forall byte_ok [b0; b1; m0; m1; m2; m3])
    (Hex : 0 ≤ 16414 - (256 * b0 + b1) < 256) :
  let e := 16414 - (256 * b0 + b1) in
  readLD_be (b0 :: b1 :: m0 :: m1 :: m2 :: m3 :: l) =
  Ok ((2 * le_val [m3; m2; m1; m0] + 2 ^ e) / 2 ^ (e + 1)).
Proof.
  intros e. rewrite !Forall_cons in Hb. destruct Hb as (?&?&?&?&?&?&_).
  unfold readLD_be. rewrite (read32_be_Ok _ 2 m0 m1 m2 m3 l); [|lia|reflexivity|by repeat apply List.Forall_cons].
  cbn [mbind outcome_bind]. rewrite (load1_Ok 1 _ b1) by done. cbn [mbind outcome_bind].
  assert (u8 (30 - b1) = e) as ->.
  { unfold wrapu, e. symmetry. apply (Z.mod_unique _ _ (b0 - 64)); lia. }
  rewrite shift_loop_ok by (unfold shift_fuel; lia). cbn [mbind outcome_bind].
  f_equal. apply readLD_round; [|lia]. unfold byte_ok in *. cbn. lia.
Qed.

(** 44100 Hz, and one half (rounded to 1). *)
Lemma readLD_be_rounds_witness :
  readLD_be [64; 14; 172; 68; 0; 0; 0; 0; 0; 0] =
  Ok ((2 * le_val [0; 0; 68; 172] + 2 ^ 16) / 2 ^ 17).
Proof. apply (readLD_be_rounds 64 14 172 68 0 0 [0; 0; 0; 0]); [repeat constructor; lia|lia]. Defined.

Example readLD_be_44100 : readLD_be [64; 14; 172; 68; 0; 0; 0; 0; 0; 0] = Ok 44100.
Proof. vm_compute. reflexivity. Qed.
