(* ===== verification/MyUtil.v ===== *)
(** * Text utilities: [base/MyUtil.cpp]

    The functions on hex text, on delimited text (which they cut in place), the parser of
    simple formulas and the bounded string copies.  A [char *] is the object it points
    to, from the pointer on; a [std::string] is its bytes. *)

From S2P Require Import Prelude BipSearch.

#[local] Open Scope Z_scope.

(** ** The C library's character classes, and [atoi] *)

Definition isdigit (c : Z) : bool := (48 <=? c) && (c <=? 57).
Definition isalpha (c : Z) : bool := ((65 <=? c) && (c <=? 90)) || ((97 <=? c) && (c <=? 122)).
Definition isspace (c : Z) : bool := (c =? 32) || ((9 <=? c) && (c <=? 13)).
Definition toupper (c : Z) : Z := if (97 <=? c) && (c <=? 122) then c - 32 else c.

(** The digits up to the first other character; a value [int] cannot hold is undefined. *)
Fixpoint atoi_digits (limit acc : Z) (s : bytes) : outcome Z :=
  match s with
  | [] => Ub OobRead
  | c :: s =>
      if isdigit c then
        let acc := acc * 10 + (c - 48) in
        check (acc <=? limit) BadArg (atoi_digits limit acc s)
      else Ok acc
  end.

Fixpoint skip_space (s : bytes) : bytes :=
  match s with c :: s' => if isspace c then skip_space s' else s | [] => [] end.

Definition atoi (s : bytes) : outcome Z :=
  match skip_space s with
  | 45 :: s => n ← atoi_digits (INT_MAX + 1) 0 s; Ok (- n)
  | 43 :: s => atoi_digits INT_MAX 0 s
  | s => atoi_digits INT_MAX 0 s
  end.

(** ** Hex text *)

Definition HEX : bytes := txt "0123456789ABCDEF".

Definition int_to_hex_char (x : Z) : outcome Z := load1 x HEX.

(** [hex] is a [char], and [toupper] takes an [unsigned char]. *)
Definition hex_char_to_int (hex : Z) : outcome Z :=
  check (0 <=? hex) BadArg (
    let nHex := toupper hex in
    if isdigit nHex then Ok (hex - 48)
    else if isalpha nHex then Ok (hex - 65 + 10)
    else Ok 0).

(** [i] counts up to [size]. *)
Fixpoint hex_loop (inp : bytes) (size : Z) (fuel : nat) (i : Z) (str : bytes) : outcome bytes :=
  match fuel with
  | O => Ub NoFuel
  | S fuel =>
      if i <? size then
        t ← load1 i inp;
        a ← int_to_hex_char (Z.quot t 16);
        b ← int_to_hex_char (Z.rem t 16);
        let str := str ++ [a] ++ [b] in
        let str := if negb (i =? size - 1) then str ++ [chr " "] else str in
        hex_loop inp size fuel (i + 1) str
      else Ok str
  end.

Definition bytes_to_hex_string (inp : bytes) (size : Z) : outcome bytes :=
  hex_loop inp size (S (Z.to_nat size)) 0 [].

(** [str.find (' ', prevPos)] *)
Fixpoint find_blank (s : bytes) (i : Z) : option Z :=
  match s with [] => None | c :: s => if c =? chr " " then Some i else find_blank s (i + 1) end.
Definition str_find (str : bytes) (pos : Z) : option Z := find_blank (drop (Z.to_nat pos) str) pos.

(** The words between blanks; the last one only if it is not empty. *)
Fixpoint hex_words (str : bytes) (fuel : nat) (prevPos : Z) (vec : list bytes) : outcome (list bytes) :=
  match fuel with
  | O => Ub NoFuel
  | S fuel =>
      match str_find str prevPos with
      | Some currPos =>
          hex_words str fuel (currPos + 1) (vec ++ [sub_at prevPos (currPos - prevPos) str])
      | None =>
          if prevPos <? zlen str then Ok (vec ++ [drop (Z.to_nat prevPos) str]) else Ok vec
      end
  end.

(** [b[i]] of a [std::string]: the byte behind the last one reads as NUL. *)
Definition str_at (i : Z) (b : bytes) : outcome Z := load1 i (b ++ [0]).

Fixpoint hex_store (vec : list bytes) (i : Z) (out : bytes) : outcome bytes :=
  match vec with
  | [] => Ok out
  | w :: vec =>
      c ← str_at 0 w;
      a ← hex_char_to_int (s8 c);
      d ← str_at 1 w;
      b ← hex_char_to_int (s8 d);
      out ← store i [u8 (a * 16 + b)] out;
      hex_store vec (i + 1) out
  end.

(** [out] and the number of bytes. *)
Definition hex_string_to_bytes (str out : bytes) : outcome (bytes * Z) :=
  vec ← hex_words str (S (length str)) 0 [];
  out ← hex_store vec 0 out;
  Ok (out, zlen vec).

(** ** Delimited text *)

(** The loop of [split] and of [split_ip]: [tok] is what is stored for the token that
    starts at [j]. *)
Fixpoint split_loop {A} (tok : bytes → Z → outcome A) (c str_len av_max : Z) (fuel : nat)
    (i j count : Z) (str : bytes) (av : list A) : outcome (Z * Z * Z * bytes * list A) :=
  match fuel with
  | O => Ub NoFuel
  | S fuel =>
      if (i <? str_len) && (count <? av_max) then
        x ← load1 i str;
        if negb (x =? c) then split_loop tok c str_len av_max fuel (i + 1) j count str av
        else
          str ← store i [0] str;
          v ← tok str j;
          av ← store count [v] av;
          split_loop tok c str_len av_max fuel (i + 1) (i + 1) (count + 1) str av
      else Ok (i, j, count, str, av)
  end.

Definition split_with {A} (tok : bytes → Z → outcome A) (c str_len av_max : Z) (str : bytes)
    (av : list A) : outcome (Z * bytes * list A) :=
  str_len ← (if str_len =? 0 then strlen str else Ok str_len);
  '(i, j, count, str, av) ← split_loop tok c str_len av_max (S (Z.to_nat str_len)) 0 0 0 str av;
  if j <? i then
    v ← tok str j;
    av ← store count [v] av;
    Ok (count + 1, str, av)
  else Ok (count, str, av).

(** [split (str, str_len, av, av_max, c)]: the number of tokens, the text with NULs for the
    delimiters, and the offsets of the tokens in [av]. *)
Definition split (str : bytes) (str_len : Z) (av : list Z) (av_max c : Z) : outcome (Z * bytes * list Z) :=
  split_with (λ _ j, Ok j) c str_len av_max str av.

(** [ip_num_array_t]; an entry that was not assigned is [None]. *)
Definition ip_nums : Type := list (option Z).

Definition split_ip (str : bytes) (str_len : Z) (av : ip_nums) : outcome (Z * bytes * ip_nums) :=
  split_with (λ str j, n ← atoi (drop (Z.to_nat j) str); Ok (Some (u8 n))) (chr ".") str_len (zlen av) str av.

(** ** Formulas *)

Inductive test_flag :=
  | TestUnknown | TestEqual | TestNotEqual | TestLessThan | TestGreaterThan
  | TestLessOrEq | TestGreaterOrEq.

(** [simple_formula_t]; the flag is [None] until it is assigned. *)
Record simple_formula := Formula { f_left : bytes; f_right : bytes; f_flag : option test_flag }.

Definition is_operator (c : Z) : bool :=
  (c =? chr ">") || (c =? chr "<") || (c =? chr "=") || (c =? chr "!").
Definition is_blank (c : Z) : bool := (c =? chr " ") || (c =? 9).

(** [while (j > 1 && blank (buf[j - 1])) { --j; buf[j] = '\0'; }] *)
Fixpoint trim_tail (fuel : nat) (j : Z) (buf : bytes) : outcome bytes :=
  match fuel with
  | O => Ub NoFuel
  | S fuel =>
      if 1 <? j then
        c ← load1 (j - 1) buf;
        if is_blank c then buf ← store (j - 1) [0] buf; trim_tail fuel (j - 1) buf else Ok buf
      else Ok buf
  end.

(** The operator at [i]: the flag and where the right side starts; an [else] branch
    without an operator leaves both alone. *)
Definition formula_operator (ptr : bytes) (formula_len i c : Z) (flag : option test_flag) :
    outcome (option test_flag * Z) :=
  if negb (is_operator c) then Ok (flag, -1)
  else
    eq ← (if i + 1 <? formula_len then d ← load1 (i + 1) ptr; Ok (d =? chr "=") else Ok false);
    let pick (two one : test_flag) := Ok (Some (if eq : bool then two else one), if eq then i + 2 else i + 1) in
    if c =? chr ">" then pick TestGreaterOrEq TestGreaterThan
    else if c =? chr "<" then pick TestLessOrEq TestLessThan
    else if c =? chr "!" then pick TestNotEqual TestUnknown
    else pick TestEqual TestEqual.

(** The first loop, up to the operator: the left side, the flag and [k]. *)
Fixpoint formula_left (ptr : bytes) (formula_len : Z) (fuel : nat) (i j : Z) (buf : bytes)
    (flag : option test_flag) : outcome (bytes * option test_flag * Z) :=
  match fuel with
  | O => Ub NoFuel
  | S fuel =>
      if i <? formula_len then
        c ← load1 i ptr;
        if (j + 1 <? zlen buf) && negb (is_operator c) then
          (* skip head blank *)
          if (0 <? j) || negb (is_blank c) then
            buf ← store j [c] buf; formula_left ptr formula_len fuel (i + 1) (j + 1) buf flag
          else formula_left ptr formula_len fuel (i + 1) j buf flag
        else
          (* trim tail blank *)
          buf ← store j [0] buf;
          buf ← trim_tail (S (Z.to_nat j)) j buf;
          '(flag, k) ← formula_operator ptr formula_len i c flag;
          Ok (buf, flag, k)
      else Ok (buf, flag, -1)
  end.

(** The second loop copies what is behind the operator. *)
Fixpoint formula_right (ptr : bytes) (formula_len : Z) (fuel : nat) (i j : Z) (buf : bytes) :
    outcome (bytes * Z) :=
  match fuel with
  | O => Ub NoFuel
  | S fuel =>
      if i <? formula_len then
        c ← load1 i ptr;
        if (0 <? j) || negb (is_blank c) then
          buf ← store j [c] buf; formula_right ptr formula_len fuel (i + 1) (j + 1) buf
        else formula_right ptr formula_len fuel (i + 1) j buf
      else Ok (buf, j)
  end.

(** The flag returned is read from [out]. *)
Definition split_simple_formula (formula : bytes) (formula_len : Z) (out : simple_formula) :
    outcome (simple_formula * test_flag) :=
  formula_len ← (if formula_len =? 0 then strlen formula else Ok formula_len);
  '(lft, flag, k) ← formula_left formula formula_len (S (Z.to_nat formula_len)) 0 0 (f_left out) (f_flag out);
  rgt ← store 0 [0] (f_right out);
  '(rgt, j) ← formula_right formula formula_len (S (Z.to_nat (formula_len - k))) k 0 rgt;
  rgt ← store j [0] rgt;
  rgt ← trim_tail (S (Z.to_nat j)) j rgt;
  f ← from_option_ub Uninit flag;
  Ok (Formula lft rgt flag, f).

(** ** Copies *)

Fixpoint strlcpy_loop (src : bytes) (size : Z) (fuel : nat) (n : Z) (dst : bytes) : outcome (Z * bytes) :=
  match fuel with
  | O => Ub NoFuel
  | S fuel =>
      if n <? size - 1 then
        c ← load1 n src;
        if negb (c =? 0) then
          dst ← store n [c] dst; strlcpy_loop src size fuel (n + 1) dst
        else Ok (n, dst)
      else Ok (n, dst)
  end.

Definition util_strlcpy (dst src : bytes) (size : Z) : outcome (Z * bytes) :=
  if size =? 0 then Ok (0, dst)
  else
    '(n, dst) ← strlcpy_loop src size (S (length src)) 0 dst;
    dst ← store n [0] dst;
    Ok (n, dst).

(** [for (n = 0; n < size && *dst != '\0'; n++, dst++);] *)
Fixpoint strlcat_end (dst : bytes) (size : Z) (fuel : nat) (n : Z) : outcome Z :=
  match fuel with
  | O => Ub NoFuel
  | S fuel =>
      if n <? size then
        c ← load1 n dst;
        if negb (c =? 0) then strlcat_end dst size fuel (n + 1) else Ok n
      else Ok n
  end.

(** [m] is the offset in [src]. *)
Fixpoint strlcat_loop (src : bytes) (size : Z) (fuel : nat) (n m : Z) (dst : bytes) : outcome (Z * bytes) :=
  match fuel with
  | O => Ub NoFuel
  | S fuel =>
      if n <? size - 1 then
        c ← load1 m src;
        if negb (c =? 0) then
          dst ← store n [c] dst; strlcat_loop src size fuel (n + 1) (m + 1) dst
        else Ok (n, dst)
      else Ok (n, dst)
  end.

Definition util_strlcat (dst src : bytes) (size : Z) : outcome (Z * bytes) :=
  if size =? 0 then Ok (0, dst)
  else
    n ← strlcat_end dst size (S (length dst)) 0;
    if n =? size then Ok (n, dst)
    else
      '(n, dst) ← strlcat_loop src size (S (length src)) n 0 dst;
      dst ← store n [0] dst;
      Ok (n, dst).

(** [unsigned long] has [w] bits: 32 on Windows. *)
Definition next_pot (w x : Z) : Z :=
  let x := wrapu w (x - 1) in
  let x := Z.lor x (Z.shiftr x 1) in (* handle 2 bit numbers *)
  let x := Z.lor x (Z.shiftr x 2) in (* handle 4 bit numbers *)
  let x := Z.lor x (Z.shiftr x 4) in (* handle 8 bit numbers *)
  let x := Z.lor x (Z.shiftr x 8) in (* handle 16 bit numbers *)
  let x := Z.lor x (Z.shiftr x 16) in (* handle 32 bit numbers *)
  wrapu w (x + 1).

(** ** Hex text: from bytes and back *)

Definition hex_digit (d : Z) : Z := default 0 (HEX !! Z.to_nat d).
Definition hex_pair (c : Z) : bytes := [hex_digit (c / 16); hex_digit (c mod 16)].

(** The pairs, with a blank between two. *)
Fixpoint hex_text (b : bytes) : bytes :=
  match b with
  | [] => []
  | c :: b => hex_pair c ++ match b with [] => [] | _ => chr " " :: hex_text b end
  end.

(** The sixteen digits: each is found in the table, is no blank, and reads back. *)
Lemma hex_digit_ok d : 0 ≤ d < 16 →
  int_to_hex_char d = Ok (hex_digit d) ∧ hex_digit d ≠ chr " " ∧
  hex_char_to_int (s8 (hex_digit d)) = Ok d.
Proof.
  intros Hd. assert (∃ n : nat, (n < 16)%nat ∧ d = Z.of_nat n) as (n & Hn & ->)
    by (exists (Z.to_nat d); lia).
  do 16 (destruct n as [|n]; [vm_compute; repeat split; discriminate|]). lia.
Qed.

Lemma hex_halves c : byte_ok c → 0 ≤ c / 16 < 16 ∧ 0 ≤ c mod 16 < 16 ∧ c / 16 * 16 + c mod 16 = c.
Proof. unfold byte_ok. intros. Z.to_euclidean_division_equations. lia. Qed.

Lemma hex_loop_text rest : ∀ pre str fuel, Forall byte_ok rest → (length rest < fuel)%nat →
  hex_loop (pre ++ rest) (zlen (pre ++ rest)) fuel (zlen pre) str = Ok (str ++ hex_text rest).
Proof.
  induction rest as [|c rest IH]; intros pre str fuel Hb Hf; (destruct fuel as [|fuel]; [cbn in Hf; lia|]);
    cbn [hex_loop].
  - rewrite app_nil_r, (proj2 (Z.ltb_ge _ _)) by lia. by rewrite app_nil_r.
  - apply Forall_cons_1 in Hb as [Hc Hb]. rewrite (proj2 (Z.ltb_lt _ _)) by (rewrite length_app; cbn; lia).
    rewrite (load1_Ok _ _ c); [|lia|rewrite Nat2Z.id; by apply list_lookup_middle]. cbn [mbind outcome_bind].
    destruct (hex_halves c Hc) as (H1 & H2 & _). unfold byte_ok in Hc.
    rewrite Z.quot_div_nonneg, Z.rem_mod_nonneg by lia.
    rewrite (proj1 (hex_digit_ok _ H1)). cbn [mbind outcome_bind].
    rewrite (proj1 (hex_digit_ok _ H2)). cbn [mbind outcome_bind].
    specialize (IH (pre ++ [c])). rewrite <- app_assoc in IH. cbn [app] in IH.
    replace (zlen (pre ++ [c])) with (zlen pre + 1) in IH by (rewrite length_app; cbn; lia).
    rewrite IH by (done || (cbn in Hf; lia)). f_equal. cbn [hex_text].
    destruct rest as [|c' rest].
    + rewrite (proj2 (Z.eqb_eq _ _)) by (rewrite length_app; cbn; lia). cbn [negb]. by rewrite !app_nil_r.
    + rewrite (proj2 (Z.eqb_neq _ _)) by (rewrite length_app; cbn; lia). cbn [negb].
      rewrite <- !app_assoc. done.
Qed.

(** A pair, and what is behind it, in the middle of a text. *)
Lemma str_find_pair pre c r : byte_ok c →
  str_find (pre ++ hex_pair c ++ r) (zlen pre) = find_blank r (zlen pre + 2).
Proof.
  intros Hc. destruct (hex_halves c Hc) as (H1 & H2 & _). unfold str_find.
  rewrite Nat2Z.id, drop_app_length. cbn [hex_pair app find_blank].
  rewrite (proj2 (Z.eqb_neq _ _)) by apply (hex_digit_ok _ H1).
  rewrite (proj2 (Z.eqb_neq _ _)) by apply (hex_digit_ok _ H2). f_equal. lia.
Qed.

Lemma hex_words_text c rest : ∀ pre vec fuel, Forall byte_ok (c :: rest) → (length rest < fuel)%nat →
  hex_words (pre ++ hex_text (c :: rest)) fuel (zlen pre) vec = Ok (vec ++ (hex_pair <$> c :: rest)).
Proof.
  revert c. induction rest as [|c' rest IH]; intros c pre vec fuel Hb Hf;
    (destruct fuel as [|fuel]; [lia|]); cbn [hex_words];
    apply Forall_cons_1 in Hb as [Hc Hb].
  - cbn [hex_text]. rewrite str_find_pair by done. cbn [find_blank]. rewrite (proj2 (Z.ltb_lt _ _)) by (rewrite !length_app; cbn; lia).
    by rewrite Nat2Z.id, drop_app_length, app_nil_r.
  - change (hex_text (c :: c' :: rest)) with (hex_pair c ++ chr " " :: hex_text (c' :: rest)).
    rewrite str_find_pair by done.
    change (find_blank (chr " " :: hex_text (c' :: rest)) (zlen pre + 2)) with (Some (zlen pre + 2)).
    cbn iota. replace (zlen pre + 2 - zlen pre) with 2 by lia.
    assert (sub_at (zlen pre) 2 (pre ++ hex_pair c ++ chr " " :: hex_text (c' :: rest)) = hex_pair c) as ->.
    { unfold sub_at. by rewrite Nat2Z.id, drop_app_length. }
    specialize (IH c' (pre ++ hex_pair c ++ [chr " "]) (vec ++ [hex_pair c]) fuel Hb ltac:(cbn in Hf; lia)).
    rewrite <- !app_assoc in IH. cbn [app] in IH.
    replace (zlen (pre ++ hex_pair c ++ [chr " "])) with (zlen pre + 2 + 1) in IH
      by (rewrite !length_app; cbn; lia).
    rewrite IH. done.
Qed.

Lemma hex_store_pairs b : ∀ i out, Forall byte_ok b → 0 ≤ i → i + zlen b ≤ zlen out →
  hex_store (hex_pair <$> b) i out = Ok (put_at i b out).
Proof.
  induction b as [|c b IH]; intros i out Hb Hi Hl; cbn [hex_store fmap list_fmap].
  - by rewrite put_at_nil.
  - apply Forall_cons_1 in Hb as [Hc Hb]. destruct (hex_halves c Hc) as (H1 & H2 & H3).
    cbn in Hl. unfold str_at. change (load1 0 (hex_pair c ++ [0])) with (Ok (hex_digit (c / 16))).
    cbn [mbind outcome_bind]. rewrite (proj2 (proj2 (hex_digit_ok _ H1))). cbn [mbind outcome_bind].
    change (load1 1 (hex_pair c ++ [0])) with (Ok (hex_digit (c mod 16))). cbn [mbind outcome_bind].
    rewrite (proj2 (proj2 (hex_digit_ok _ H2))). cbn [mbind outcome_bind]. rewrite H3.
    unfold byte_ok in Hc. rewrite (wrapu_small 8 c) by lia. rewrite store1_Ok by lia. cbn [mbind outcome_bind].
    rewrite IH; [|done|lia|rewrite length_put_at1; lia].
    f_equal. by apply (put_at_put_at_next i [c] b out); cbn; lia.
Qed.

(** C37: a byte array written as hex text and read back is the same array. *)
Theorem hex_roundtrip (b out : bytes) (Hb : Forall byte_ok b) (Hout : zlen b ≤ zlen out) :
  ∃ s, bytes_to_hex_string b (zlen b) = Ok s ∧
    hex_string_to_bytes s out = Ok (put_at 0 b out, zlen b).
Proof.
  exists (hex_text b). split.
  - unfold bytes_to_hex_string. apply (hex_loop_text b [] []); [done|lia].
  - unfold hex_string_to_bytes. destruct b as [|c b].
    + cbn. by rewrite put_at_nil.
    + rewrite (hex_words_text c b [] []); [|done|].
      * cbn [mbind outcome_bind app]. rewrite hex_store_pairs by (done || lia). cbn [mbind outcome_bind].
        by rewrite length_fmap.
      * enough (length b ≤ length (hex_text (c :: b)))%nat by lia. clear. revert c.
        induction b as [|c' b IH]; intros c; [cbn; lia|].
        change (hex_text (c :: c' :: b)) with (hex_pair c ++ chr " " :: hex_text (c' :: b)).
        rewrite length_app. specialize (IH c'). cbn [length]. lia.
Qed.

Lemma hex_roundtrip_witness :
  ∃ s, bytes_to_hex_string [175; 176; 128; 125] (zlen [175; 176; 128; 125]) = Ok s ∧
    hex_string_to_bytes s (replicate 6 0) =
      Ok (put_at 0 [175; 176; 128; 125] (replicate 6 0), zlen [175; 176; 128; 125]).
Proof.
  apply (hex_roundtrip [175; 176; 128; 125] (replicate 6 0)); [|done].
  unfold byte_ok. repeat (apply List.Forall_cons; [lia|]). apply List.Forall_nil.
Defined.

(** Lower case digits are taken, but read as 32 more than they are. *)
Lemma hex_lower d : 10 ≤ d < 16 → hex_char_to_int (hex_digit d + 32) = Ok (d + 32).
Proof.
  intros Hd. assert (∃ n : nat, (n < 6)%nat ∧ d = 10 + Z.of_nat n) as (n & Hn & ->)
    by (exists (Z.to_nat (d - 10)); lia).
  do 6 (destruct n as [|n]; [reflexivity|]). lia.
Qed.

(** ** Delimited text: tokens *)

(** The tokens of [cur ++ rest], with their offsets: at most [m] of them, and an empty one
    only in front of a delimiter. *)
Fixpoint tokens (c : Z) (m : nat) (off : Z) (cur rest : bytes) : list (Z * bytes) :=
  match rest with
  | [] => match m, cur with O, _ | _, [] => [] | _, _ => [(off, cur)] end
  | x :: rest =>
      match m with
      | O => []
      | S m' =>
          if x =? c then (off, cur) :: tokens c m' (off + zlen cur + 1) [] rest
          else tokens c m off (cur ++ [x]) rest
      end
  end.

(** The text with its first [m] delimiters replaced by NUL. *)
Fixpoint cut (c : Z) (m : nat) (rest : bytes) : bytes :=
  match rest with
  | [] => []
  | x :: rest' =>
      if x =? c then match m with O => rest | S m => 0 :: cut c m rest' end else x :: cut c m rest'
  end.

(** Joining the tokens of a text gives the text back, up to a delimiter at its end. *)
Fixpoint join (c : Z) (l : list bytes) : bytes :=
  match l with [] => [] | [t] => t | t :: l => t ++ c :: join c l end.

Lemma cut_0 c rest : cut c 0 rest = rest.
Proof. induction rest as [|x rest IH]; cbn; [done|]. rewrite IH. by destruct (x =? c). Qed.

Lemma length_cut c m rest : length (cut c m rest) = length rest.
Proof.
  revert m. induction rest as [|x rest IH]; intros m; cbn; [done|].
  destruct (x =? c), m; cbn; by rewrite ?IH.
Qed.

Lemma length_tokens c rest m off cur : (length (tokens c m off cur rest) ≤ m)%nat.
Proof.
  revert m off cur. induction rest as [|x rest IH]; intros m off cur; cbn [tokens].
  - destruct m, cur; cbn; lia.
  - destruct m as [|m]; [done|]. destruct (x =? c); [|apply IH]. cbn. specialize (IH m (off + zlen cur + 1) []). lia.
Qed.

(** A token lies in the cut text, with a NUL behind it. *)
Lemma tokens_at c rest : ∀ m pre cur r off t, (off, t) ∈ tokens c m (zlen pre) cur rest →
  ∃ r', drop (Z.to_nat off) (pre ++ cur ++ cut c m rest ++ 0 :: r) = t ++ 0 :: r'.
Proof.
  induction rest as [|x rest IH]; intros m pre cur r off t Hin; cbn [tokens cut] in *.
  - destruct m, cur as [|y cur]; try by apply elem_of_nil in Hin.
    apply list_elem_of_singleton in Hin as [= -> ->]. exists r.
    by rewrite Nat2Z.id, drop_app_length.
  - destruct m as [|m]; [by apply elem_of_nil in Hin|]. destruct (x =? c).
    + apply elem_of_cons in Hin as [[= -> ->]|Hin].
      * exists (cut c m rest ++ 0 :: r). rewrite Nat2Z.id, drop_app_length. done.
      * destruct (IH m (pre ++ cur ++ [0]) [] r off t) as (r' & Hr').
        { replace (zlen (pre ++ cur ++ [0])) with (zlen pre + zlen cur + 1)
            by (rewrite !length_app; cbn; lia). done. }
        exists r'. rewrite <- Hr'. by rewrite <- !app_assoc.
    + destruct (IH (S m) pre (cur ++ [x]) r off t Hin) as (r' & Hr'). exists r'. rewrite <- Hr'.
      by rewrite <- !app_assoc.
Qed.

Lemma tokens_join c rest : ∀ m off cur, ¬ c ∈ cur →
  (length rest < m)%nat → let l := (tokens c m off cur rest).*2 in
  Forall (λ t, ¬ c ∈ t) l ∧ (cur ++ rest = join c l ∨ l ≠ [] ∧ cur ++ rest = join c l ++ [c]).
Proof.
  induction rest as [|x rest IH]; intros m off cur Hcur Hm; cbn [tokens].
  - rewrite app_nil_r. destruct m, cur as [|y cur]; cbn; try lia; split; auto.
  - destruct m as [|m]; [lia|]. destruct (Z.eqb_spec x c) as [->|Hx].
    + destruct (IH m (off + zlen cur + 1) [] (not_elem_of_nil _) ltac:(cbn in Hm; lia)) as [Hf Hj].
      cbn [fmap list_fmap snd]. split; [by constructor|]. cbn [app] in Hj.
      destruct (tokens c m (off + zlen cur + 1) [] rest) as [|[o t] l]; cbn in Hj |- *.
      * right. destruct Hj as [->|[Hj _]]; done.
      * destruct Hj as [->|[_ ->]]; [by left|right]. split; [done|]. by rewrite <- app_assoc.
    + destruct (IH (S m) off (cur ++ [x])) as [Hf Hj].
      * rewrite elem_of_app, list_elem_of_singleton. naive_solver.
      * cbn in Hm. lia.
      * split; [done|]. by rewrite <- app_assoc in Hj.
Qed.

Section split.
Context {A : Type} (tok : bytes → Z → outcome A) (g : Z * bytes → A) (c : Z).
Implicit Types av : list A.

(** The rest of [split_with] behind its loop. *)
Definition split_last (t : Z * Z * Z * bytes * list A) : outcome (Z * bytes * list A) :=
  let '(i, j, count, str, av) := t in
  if j <? i then
    v ← tok str j;
    av ← store count [v] av;
    Ok (count + 1, str, av)
  else Ok (count, str, av).

Lemma split_loop_tokens r rest : ∀ pre cur m fuel av count,
  (length rest < fuel)%nat → zlen av = count + Z.of_nat m → 0 ≤ count → (m = 0%nat → cur = []) →
  (∀ pre' r' t, (zlen pre', t) ∈ tokens c m (zlen pre) cur rest →
     tok (pre' ++ t ++ 0 :: r') (zlen pre') = Ok (g (zlen pre', t))) →
  let T := tokens c m (zlen pre) cur rest in
  (t ← split_loop tok c (zlen (pre ++ cur ++ rest)) (zlen av) fuel (zlen (pre ++ cur)) (zlen pre) count
         (pre ++ cur ++ rest ++ 0 :: r) av; split_last t) =
    Ok (count + zlen T, pre ++ cur ++ cut c m rest ++ 0 :: r, put_at count (g <$> T) av).
Proof.
  induction rest as [|x rest IH]; intros pre cur m fuel av count Hf Hav Hc Hm Htok;
    (destruct fuel as [|fuel]; [lia|]); cbn [split_loop tokens cut] in *.
  - rewrite app_nil_r in *. rewrite Z.ltb_irrefl. cbn [andb mbind outcome_bind split_last].
    destruct cur as [|y cur].
    + rewrite app_nil_r, Z.ltb_irrefl. destruct m; cbn [fmap list_fmap]; rewrite put_at_nil; cbn; do 3 f_equal; lia.
    + destruct m as [|m]; [by specialize (Hm eq_refl)|].
      rewrite (proj2 (Z.ltb_lt _ _)) by (rewrite length_app; cbn; lia).
      change (pre ++ (y :: cur) ++ [] ++ 0 :: r) with (pre ++ (y :: cur) ++ 0 :: r).
      rewrite Htok by apply list_elem_of_singleton, eq_refl. cbn [mbind outcome_bind].
      rewrite store1_Ok by lia. done.
  - rewrite (proj2 (Z.ltb_lt _ _)) by (rewrite !length_app; cbn; lia). cbn [andb].
    destruct m as [|m].
    + rewrite (proj2 (Z.ltb_ge count _)) by lia. cbn [mbind outcome_bind split_last].
      rewrite (Hm eq_refl), app_nil_r, Z.ltb_irrefl. cbn [fmap list_fmap]. rewrite put_at_nil, cut_0.
      cbn. destruct (x =? c); do 3 f_equal; lia.
    + rewrite (proj2 (Z.ltb_lt count _)) by lia.
      replace (pre ++ cur ++ (x :: rest) ++ 0 :: r) with ((pre ++ cur) ++ x :: rest ++ 0 :: r)
        by (by rewrite <- !app_assoc).
      rewrite (load1_Ok _ _ x); [|lia|rewrite Nat2Z.id; by apply list_lookup_middle]. cbn [mbind outcome_bind].
      destruct (x =? c) eqn:Ex; cbn [negb].
      * rewrite store1_Ok by (rewrite !length_app; cbn; lia). cbn [mbind outcome_bind].
        assert (put_at (zlen (pre ++ cur)) [0] ((pre ++ cur) ++ x :: rest ++ 0 :: r) =
          (pre ++ cur ++ [0]) ++ rest ++ 0 :: r) as ->.
        { unfold put_at. rewrite Nat2Z.id, take_app_length. cbn [length].
          rewrite <- drop_drop, drop_app_length. cbn. by rewrite <- !app_assoc. }
        rewrite <- !app_assoc. cbn [app]. rewrite Htok by apply elem_of_cons, or_introl, eq_refl.
        cbn [mbind outcome_bind]. rewrite store1_Ok by lia. cbn [mbind outcome_bind].
        specialize (IH (pre ++ cur ++ [0]) [] m fuel (put_at count [g (zlen pre, cur)] av) (count + 1)).
        rewrite !app_nil_r, length_put_at1 in IH by lia. cbn [app] in IH.
        replace (zlen (pre ++ cur ++ [0])) with (zlen (pre ++ cur) + 1) in IH by (rewrite !length_app; cbn; lia).
        replace (zlen ((pre ++ cur ++ [0]) ++ rest)) with (zlen (pre ++ cur ++ x :: rest)) in IH
          by (rewrite !length_app; cbn; lia).
        replace (zlen (pre ++ cur) + 1) with (zlen pre + zlen cur + 1) in IH by (rewrite !length_app; lia).
        replace (zlen (pre ++ cur) + 1) with (zlen pre + zlen cur + 1) by (rewrite !length_app; lia).
        rewrite <- !app_assoc in IH. cbn [app] in IH. etransitivity.
        -- apply IH; [cbn in Hf; lia|lia|lia|done|]. intros. apply Htok. by right.
        -- cbn [fmap list_fmap length]. f_equal. f_equal; [f_equal; lia|].
           apply (put_at_put_at_next count [g (zlen pre, cur)]); [lia|]. rewrite length_fmap. cbn [length].
           pose proof (length_tokens c rest m (zlen pre + zlen cur + 1) []). lia.
      * specialize (IH pre (cur ++ [x]) (S m) fuel av count ltac:(cbn in Hf; lia) Hav Hc ltac:(done) Htok).
        rewrite <- !app_assoc in IH. cbn [app] in IH.
        replace (zlen (pre ++ cur ++ [x])) with (zlen (pre ++ cur) + 1) in IH by (rewrite !length_app; cbn; lia).
        rewrite <- !app_assoc. exact IH.
Qed.
End split.

Definition text (s : bytes) : Prop := Forall (λ c, c ≠ 0) s.

Lemma split_with_tokens {A} (tok : bytes → Z → outcome A) (g : Z * bytes → A) (c : Z) (s r : bytes)
    (str_len : Z) (av : list A) (Hs : text s) (Hlen : str_len = 0 ∨ str_len = zlen s) :
  let T := tokens c (length av) 0 [] s in
  (∀ pre' r' t, (zlen pre', t) ∈ T → tok (pre' ++ t ++ 0 :: r') (zlen pre') = Ok (g (zlen pre', t))) →
  split_with tok c str_len (zlen av) (s ++ 0 :: r) av =
    Ok (zlen T, cut c (length av) s ++ 0 :: r, put_at 0 (g <$> T) av).
Proof.
  intros T Htok. unfold split_with.
  assert ((if str_len =? 0 then strlen (s ++ 0 :: r) else Ok str_len) = Ok (zlen s)) as ->.
  { destruct (Z.eqb_spec str_len 0); [|by destruct Hlen as [?| ->]].
    unfold strlen. rewrite (strlen_from_text [] s r _ Hs); [done|]. rewrite length_app. cbn. lia. }
  cbn [mbind outcome_bind].
  apply (split_loop_tokens tok g c r s [] [] (length av) (S (Z.to_nat (zlen s))) av 0); try done; lia.
Qed.

(** [split] of a text at a delimiter stores the offsets of its tokens, never more than
    the array holds, and puts a NUL behind each token; when the array is large enough, no
    token holds the delimiter, and joining them gives the text, up to one delimiter at its
    end. *)
Theorem split_tokens (s : bytes) (c : Z) (av : list Z) (Hs : text s) :
  let T := tokens c (length av) 0 [] s in
  ∃ str', split (s ++ [0]) (zlen s) av (zlen av) c = Ok (zlen T, str', put_at 0 T.*1 av) ∧
    (length T ≤ length av)%nat ∧
    (∀ off t, (off, t) ∈ T → ∃ r', drop (Z.to_nat off) str' = t ++ 0 :: r') ∧
    ((length s < length av)%nat → Forall (λ t, ¬ c ∈ t) T.*2 ∧
       (s = join c T.*2 ∨ T.*2 ≠ [] ∧ s = join c T.*2 ++ [c])).
Proof.
  intros T. exists (cut c (length av) s ++ [0]). split; [|split; [|split]].
  - unfold split. apply (split_with_tokens _ fst c s []); [done|by right|done].
  - apply length_tokens.
  - intros off t Hin. by apply (tokens_at c s (length av) [] [] [] off t).
  - intros Hlen. by apply (tokens_join c s (length av) 0 []); [apply not_elem_of_nil|].
Qed.

Definition ex_av : list Z := replicate 9 (-1).

Lemma split_tokens_witness :
  let T := tokens 44 (length ex_av) 0 [] (txt "ab,,c") in
  ∃ str', split (txt "ab,,c" ++ [0]) (zlen (txt "ab,,c")) ex_av (zlen ex_av) 44 =
      Ok (zlen T, str', put_at 0 T.*1 ex_av) ∧
    (length T ≤ length ex_av)%nat ∧
    (∀ off t, (off, t) ∈ T → ∃ r', drop (Z.to_nat off) str' = t ++ 0 :: r') ∧
    ((length (txt "ab,,c") < length ex_av)%nat → Forall (λ t, ¬ 44 ∈ t) T.*2 ∧
       (txt "ab,,c" = join 44 T.*2 ∨ T.*2 ≠ [] ∧ txt "ab,,c" = join 44 T.*2 ++ [44])).
Proof.
  apply (split_tokens (txt "ab,,c") 44 ex_av).
  repeat (apply List.Forall_cons; [discriminate|]). apply List.Forall_nil.
Defined.

(** ** Addresses *)

(** The value of a decimal numeral. *)
Definition dec_val (t : bytes) : Z := foldl (λ a c, a * 10 + (c - 48)) 0 t.

(** A token of digits whose value an [int] holds. *)
Definition octet (t : bytes) : Prop := Forall (λ c, isdigit c = true) t ∧ dec_val t ≤ INT_MAX.

Lemma isdigit_range c : isdigit c = true → 48 ≤ c ≤ 57.
Proof. unfold isdigit. intros. zbool. lia. Qed.

Lemma atoi_digits_val limit t r acc :
  Forall (λ c, isdigit c = true) t → 0 ≤ acc ≤ limit →
  foldl (λ a c, a * 10 + (c - 48)) acc t ≤ limit →
  atoi_digits limit acc (t ++ 0 :: r) = Ok (foldl (λ a c, a * 10 + (c - 48)) acc t).
Proof.
  revert acc. induction t as [|c t IH]; intros acc Ht Hacc Hle; cbn [app atoi_digits foldl] in *; [done|].
  apply Forall_cons_1 in Ht as [Hc Ht]. rewrite Hc. apply isdigit_range in Hc.
  assert (∀ t a b, Forall (λ c, isdigit c = true) t → 0 ≤ a ≤ b →
    a ≤ foldl (λ a c, a * 10 + (c - 48)) b t) as Hmono.
  { clear. induction t as [|c t IH]; intros a b Ht Hab; cbn; [lia|].
    apply Forall_cons_1 in Ht as [Hc%isdigit_range Ht]. apply IH; [done|lia]. }
  pose proof (Hmono t (acc * 10 + (c - 48)) (acc * 10 + (c - 48)) Ht ltac:(lia)).
  rewrite check_true by (apply Z.leb_le; lia). by apply IH; [|lia|].
Qed.

Lemma atoi_octet t r : octet t → atoi (t ++ 0 :: r) = Ok (dec_val t).
Proof.
  intros [Ht Hv]. unfold atoi.
  assert (skip_space (t ++ 0 :: r) = t ++ 0 :: r ∧
    atoi_digits INT_MAX 0 (t ++ 0 :: r) = Ok (dec_val t)) as [-> Hd].
  { split; [|by apply atoi_digits_val; [|unfold INT_MAX; lia|]].
    destruct t as [|c t]; [done|]. apply Forall_cons_1 in Ht as [Hc%isdigit_range _]. cbn.
    unfold isspace. rewrite (proj2 (Z.eqb_neq c 32)), (proj2 (Z.leb_gt c 13)) by lia.
    by rewrite andb_false_r. }
  destruct t as [|c t]; [done|]. apply Forall_cons_1 in Ht as [Hc%isdigit_range _]. cbn [app] in *.
  destruct c as [|c|c]; [lia| |lia]. destruct (decide (Z.pos c = 45)); [lia|]. destruct (decide (Z.pos c = 43)); [lia|].
  do 6 (destruct c as [c|c|]; try done; try lia).
Qed.

(** The numbers of an address, in the first entries. *)
Definition ip_of (s : bytes) (av : ip_nums) : ip_nums :=
  put_at 0 ((λ t, Some (u8 (dec_val t))) <$> (tokens (chr ".") (length av) 0 [] s).*2) av.

Lemma split_ip_nums (s r : bytes) (str_len : Z) (av : ip_nums)
    (Hs : text s) (Hlen : str_len = 0 ∨ str_len = zlen s)
    (Hok : Forall octet (tokens (chr ".") (length av) 0 [] s).*2) :
  split_ip (s ++ 0 :: r) str_len av =
    Ok (zlen (tokens (chr ".") (length av) 0 [] s), cut (chr ".") (length av) s ++ 0 :: r, ip_of s av).
Proof.
  unfold split_ip, ip_of. rewrite <- list_fmap_compose.
  apply (split_with_tokens _ (λ t, Some (u8 (dec_val t.2))) (chr ".") s r); [done|done|].
  intros pre' r' t Hin. rewrite Nat2Z.id, drop_app_length. rewrite atoi_octet; [done|].
  eapply Forall_forall in Hok; [exact Hok|]. by apply (list_elem_of_fmap_2 snd) in Hin.
Qed.

(** ** Formulas *)

(** The trimming keeps the size of the array. *)
Lemma trim_tail_Ok fuel j buf : (Z.to_nat j < fuel)%nat → 0 ≤ j ≤ zlen buf →
  ∃ buf', trim_tail fuel j buf = Ok buf' ∧ length buf' = length buf.
Proof.
  revert j buf. induction fuel as [|fuel IH]; intros j buf Hf Hj; [lia|]. cbn [trim_tail].
  destruct (Z.ltb_spec 1 j); [|by eexists].
  destruct (lookup_lt_is_Some_2 buf (Z.to_nat (j - 1))) as [x Hx]; [lia|].
  rewrite (load1_Ok _ _ x) by (done || lia). cbn [mbind outcome_bind].
  destruct (is_blank x); [|by eexists]. rewrite store1_Ok by lia. cbn [mbind outcome_bind].
  destruct (IH (j - 1) (put_at (j - 1) [0] buf)) as (buf' & E & Hl); [lia|rewrite length_put_at1; lia|].
  exists buf'. split; [done|]. rewrite Hl. apply length_put_at1. lia.
Qed.

(** Without an operator the first loop leaves [k] at -1, whether the text fits or not. *)
Lemma formula_left_none s r : ∀ pre fuel j buf flag,
  Forall (λ c, is_operator c = false) s → (length s < fuel)%nat → 0 ≤ j < zlen buf →
  ∃ buf', formula_left (pre ++ s ++ 0 :: r) (zlen (pre ++ s)) fuel (zlen pre) j buf flag = Ok (buf', flag, -1).
Proof.
  induction s as [|c s IH]; intros pre fuel j buf flag Hs Hf Hj;
    (destruct fuel as [|fuel]; [cbn in Hf; lia|]); cbn [formula_left].
  - rewrite app_nil_r, Z.ltb_irrefl. by eexists.
  - apply Forall_cons_1 in Hs as [Hc Hs].
    rewrite (proj2 (Z.ltb_lt _ _)) by (rewrite length_app; cbn; lia).
    rewrite (load1_Ok _ _ c); [|lia|rewrite Nat2Z.id; by apply list_lookup_middle]. cbn [mbind outcome_bind].
    rewrite Hc. cbn [negb]. rewrite andb_true_r.
    specialize (IH (pre ++ [c]) fuel). rewrite <- !app_assoc in IH. cbn [app] in IH.
    replace (zlen (pre ++ [c])) with (zlen pre + 1) in IH by (rewrite length_app; cbn; lia).
    destruct (Z.ltb_spec (j + 1) (zlen buf)).
    + destruct ((0 <? j) || negb (is_blank c)).
      * rewrite store1_Ok by lia. cbn [mbind outcome_bind].
        apply IH; [done|cbn in Hf; lia|rewrite length_put_at1; lia].
      * apply IH; [done|cbn in Hf; lia|done].
    + rewrite store1_Ok by lia. cbn [mbind outcome_bind].
      destruct (trim_tail_Ok (S (Z.to_nat j)) j (put_at j [0] buf)) as (buf' & -> & _);
        [lia|rewrite length_put_at1; lia|].
      cbn [mbind outcome_bind]. unfold formula_operator. rewrite Hc. cbn. by eexists.
Qed.

(** [split_simple_formula] of a text without one of the operator characters, empty or
    not, reads the byte before the text. *)
Theorem formula_without_operator (s r : bytes) (len : Z) (out : simple_formula)
    (Hs : text s) (Hop : Forall (λ c, is_operator c = false) s) (Hlen : len = 0 ∨ len = zlen s)
    (Hl : 0 < zlen (f_left out)) (Hr : 0 < zlen (f_right out)) :
  split_simple_formula (s ++ 0 :: r) len out = Ub OobRead.
Proof.
  unfold split_simple_formula.
  assert ((if len =? 0 then strlen (s ++ 0 :: r) else Ok len) = Ok (zlen s)) as ->.
  { destruct (Z.eqb_spec len 0); [|by destruct Hlen as [?| ->]].
    unfold strlen. rewrite (strlen_from_text [] s r _ Hs); [done|]. rewrite length_app. cbn. lia. }
  cbn [mbind outcome_bind].
  destruct (formula_left_none s r [] (S (Z.to_nat (zlen s))) 0 (f_left out) (f_flag out) Hop)
    as (buf & E); [lia..|].
  cbn [app] in E. change (zlen []) with 0 in E. rewrite E. cbn [mbind outcome_bind].
  rewrite store1_Ok by lia. cbn [mbind outcome_bind formula_right].
  by rewrite (proj2 (Z.ltb_lt (-1) _)) by lia.
Qed.

Definition ex_formula : simple_formula := Formula (replicate 64 0) (replicate 64 0) None.

Lemma formula_without_operator_witness :
  split_simple_formula (txt "level" ++ [0]) 5 ex_formula = Ub OobRead.
Proof.
  apply (formula_without_operator (txt "level") [] 5 ex_formula).
  - repeat (apply List.Forall_cons; [discriminate|]). apply List.Forall_nil.
  - repeat (apply List.Forall_cons; [reflexivity|]). apply List.Forall_nil.
  - by right.
  - done.
  - done.
Defined.

(** A formula that is taken apart, and one whose right side does not fit. *)
Example formula_example :
  ('(f, t) ← split_simple_formula (cstr " level  >=  10 ") 0 ex_formula;
   Ok (take 6 (f_left f), take 3 (f_right f), t)) = Ok (cstr "level", cstr "10", TestGreaterOrEq).
Proof. vm_compute. reflexivity. Qed.
Example formula_overflow :
  split_simple_formula (txt "a>" ++ replicate 64 (chr "b") ++ [0]) 0 ex_formula = Ub OobWrite.
Proof. vm_compute. reflexivity. Qed.

(** ** Rounding up *)

(** On 32 bits this is the capacity rounding of the buffer ([BipSearch]); where [unsigned
    long] has 64 bits it is not a power of two above 2^32. *)
Lemma next_pot_32 x : next_pot 32 x = next_power_of_two x.
Proof. reflexivity. Qed.
Example next_pot_64 : next_pot 64 (2 ^ 33 + 1) = 2 ^ 34 - 3.
Proof. vm_compute. reflexivity. Qed.
