(* ===== verification/Hostname.v ===== *)
(** * Server identity: [tcp/ev/openssl_hostname_validation.c] and the certificate
      callback of [http/ev/ev_https_client.c]

    Certificates are OpenSSL's: the class [X509Lib] has the accessors the code calls
    and libcurl's [Curl_cert_hostcheck].  An [ASN1_STRING] is its data, the memory from
    the data pointer on, and its declared length; [strlen] reads the memory.  The
    state is the number of name stacks that were extracted and not yet freed. *)

From S2P Require Import Prelude.

#[local] Open Scope Z_scope.

(** [typedef enum { ... } HostnameValidationResult;] *)
Inductive HostnameValidationResult :=
  | MatchFound
  | MatchNotFound
  | NoSANPresent
  | MalformedCertificate
  | Error.

#[export] Instance result_eq_dec : EqDecision HostnameValidationResult.
Proof. solve_decision. Defined.

Record asn1_string := Asn1 { asn1_data : bytes; asn1_length : Z }.

(** An entry of the subject alternative names: a DNS name or something else. *)
Inductive general_name := GEN_DNS (dNSName : asn1_string) | GEN_OTHER.

Class X509Lib := {
  X509 : Type;
  (* X509_get_ext_d2i with NID_subject_alt_name *)
  X509_get_ext_d2i : X509 → option (list general_name);
  (* X509_NAME_get_index_by_NID of the subject's common name, from -1 *)
  X509_NAME_get_index_by_NID : X509 → Z;
  X509_NAME_get_entry : X509 → Z → option (option asn1_string);
  CURL_HOST_MATCH : Z;
  Curl_cert_hostcheck : bytes → bytes → Z;
  (* the verification context *)
  X509_STORE_CTX : Type;
  X509_verify_cert : X509_STORE_CTX → Z;
  X509_STORE_CTX_get_current_cert : X509_STORE_CTX → option X509
}.

Section validation.
Context {lib : X509Lib}.

(** [(size_t) ASN1_STRING_length (s) != strlen (data)] *)
Definition embedded_nul (s : asn1_string) : outcome bool :=
  n ← strlen (asn1_data s); Ok (negb (u64 (asn1_length s) =? n)).

Definition matches_common_name (hostname : bytes) (server_cert : X509) :
    outcome HostnameValidationResult :=
  let common_name_loc := X509_NAME_get_index_by_NID server_cert in
  if common_name_loc <? 0 then Ok Error
  else
    match X509_NAME_get_entry server_cert common_name_loc with
    | None => Ok Error
    | Some None => Ok Error
    | Some (Some common_name_asn1) =>
        nul ← embedded_nul common_name_asn1;
        if (nul : bool) then Ok MalformedCertificate
        else if Curl_cert_hostcheck (asn1_data common_name_asn1) hostname =? CURL_HOST_MATCH
        then Ok MatchFound
        else Ok MatchNotFound
    end.

(** The loop over the names; [result] is what it stands at when it ends or breaks. *)
Fixpoint check_names (hostname : bytes) (san_names : list general_name)
    (result : HostnameValidationResult) : outcome HostnameValidationResult :=
  match san_names with
  | [] => Ok result
  | GEN_OTHER :: san_names => check_names hostname san_names result
  | GEN_DNS dns_name :: san_names =>
      nul ← embedded_nul dns_name;
      if (nul : bool) then Ok MalformedCertificate
      else if Curl_cert_hostcheck (asn1_data dns_name) hostname =? CURL_HOST_MATCH
      then Ok MatchFound
      else check_names hostname san_names result
  end.

Definition matches_subject_alternative_name (hostname : bytes) (server_cert : X509) (live : Z) :
    outcome (HostnameValidationResult * Z) :=
  match X509_get_ext_d2i server_cert with
  | None => Ok (NoSANPresent, live)
  | Some san_names =>
      let live := live + 1 in
      result ← check_names hostname san_names MatchNotFound;
      (* sk_GENERAL_NAME_pop_free *)
      Ok (result, live - 1)
  end.

Definition validate_hostname (hostname : option bytes) (server_cert : option X509) (live : Z) :
    outcome (HostnameValidationResult * Z) :=
  match hostname, server_cert with
  | Some hostname, Some server_cert =>
      '(result, live) ← matches_subject_alternative_name hostname server_cert live;
      if bool_decide (result = NoSANPresent) then
        result ← matches_common_name hostname server_cert; Ok (result, live)
      else Ok (result, live)
  | _, _ => Ok (Error, live)
  end.

(** [cert_verify_callback]: [ignore_cert] is the static variable, [host] the argument.
    The subject of a missing certificate is a null pointer dereference. *)
Definition cert_verify_callback (ignore_cert : bool) (x509_ctx : X509_STORE_CTX)
    (host : option bytes) (live : Z) : outcome (Z * Z) :=
  if ignore_cert then Ok (1, live)
  else
    let ok_so_far := X509_verify_cert x509_ctx in
    let server_cert := X509_STORE_CTX_get_current_cert x509_ctx in
    '(res, live) ←
      (if negb (ok_so_far =? 0) then validate_hostname host server_cert live
       else Ok (Error, live));
    check (bool_decide (is_Some server_cert)) NullDeref (
      if bool_decide (res = MatchFound) then Ok (1, live) else Ok (0, live)).

(** ** Specification *)

(** A string whose declared length is the one its NUL gives it. *)
Definition clean (s : asn1_string) : Prop :=
  strlen (asn1_data s) = Ok (u64 (asn1_length s)).

(** OpenSSL keeps a NUL behind the data of the strings it parses. *)
Definition terminated (s : asn1_string) : Prop := In 0 (asn1_data s).

Definition name_terminated (g : general_name) : Prop :=
  match g with GEN_DNS s => terminated s | GEN_OTHER => True end.

(** The names of a certificate by which the code judges it: its DNS names if it has the
    extension for alternative names, whatever that contains, and else the common name. *)
Definition identities (c : X509) : list asn1_string :=
  match X509_get_ext_d2i c with
  | Some names => omap (λ g, match g with GEN_DNS s => Some s | GEN_OTHER => None end) names
  | None =>
      if X509_NAME_get_index_by_NID c <? 0 then []
      else match X509_NAME_get_entry c (X509_NAME_get_index_by_NID c) with
           | Some (Some s) => [s] | _ => []
           end
  end.

(** What a certificate without a deciding name comes to. *)
Definition default_verdict (c : X509) : HostnameValidationResult :=
  match X509_get_ext_d2i c, identities c with None, [] => Error | _, _ => MatchNotFound end.

Definition matches (host : bytes) (s : asn1_string) : Prop :=
  Curl_cert_hostcheck (asn1_data s) host = CURL_HOST_MATCH.

(** The first identity that is not clean or matches decides; [dflt] if there is none. *)
Inductive verdict (host : bytes) (dflt : HostnameValidationResult) :
    list asn1_string → HostnameValidationResult → Prop :=
  | verdict_none : verdict host dflt [] dflt
  | verdict_nul s l : ¬ clean s → verdict host dflt (s :: l) MalformedCertificate
  | verdict_match s l : clean s → matches host s → verdict host dflt (s :: l) MatchFound
  | verdict_next s l r :
      clean s → ¬ matches host s → verdict host dflt l r → verdict host dflt (s :: l) r.

(** ** Lemmas *)

Lemma embedded_nul_total s : terminated s → ∃ b, embedded_nul s = Ok b.
Proof.
  intros Ht. unfold embedded_nul, strlen.
  destruct (strlen_terminated [] (asn1_data s) (S (length (asn1_data s))) Ht) as (n & E); [lia|].
  change (strlen_from (S (length (asn1_data s))) (asn1_data s) 0 = Ok n) in E.
  rewrite E. by eexists.
Qed.

Lemma embedded_nul_spec s b : embedded_nul s = Ok b → if b then ¬ clean s else clean s.
Proof.
  unfold embedded_nul, clean. intros (n & -> & H)%bind_Ok. injection H as <-.
  destruct (Z.eqb_spec (u64 (asn1_length s)) n) as [->|Hne]; cbn; congruence.
Qed.

Lemma matches_spec host s :
  reflect (matches host s) (Curl_cert_hostcheck (asn1_data s) host =? CURL_HOST_MATCH).
Proof. apply Z.eqb_spec. Qed.

(** What one name contributes. *)
Lemma name_verdict host s rest dflt l r :
  (nul ← embedded_nul s;
   if (nul : bool) then Ok MalformedCertificate
   else if Curl_cert_hostcheck (asn1_data s) host =? CURL_HOST_MATCH then Ok MatchFound
   else rest) = Ok r →
  (rest = Ok r → verdict host dflt l r) → verdict host dflt (s :: l) r.
Proof.
  intros (b & Hb & H)%bind_Ok Hrest. apply embedded_nul_spec in Hb. destruct b.
  - injection H as <-. by constructor.
  - destruct (matches_spec host s).
    + injection H as <-. by constructor.
    + constructor; auto.
Qed.

Lemma name_total host s rest :
  terminated s → (∃ r, rest = Ok r) →
  ∃ r, (nul ← embedded_nul s;
    if (nul : bool) then Ok MalformedCertificate
    else if Curl_cert_hostcheck (asn1_data s) host =? CURL_HOST_MATCH then Ok MatchFound
    else rest) = Ok r.
Proof.
  intros Ht [r Hr]. destruct (embedded_nul_total s Ht) as ([] & ->); cbn; [by eexists|].
  destruct (_ =? _); eauto.
Qed.

Lemma check_names_verdict host names dflt r :
  check_names host names dflt = Ok r →
  verdict host dflt (omap (λ g, match g with GEN_DNS s => Some s | GEN_OTHER => None end) names) r.
Proof.
  induction names as [|[s|] names IH]; intros H; cbn in *.
  - injection H as <-. constructor.
  - by eapply name_verdict.
  - by apply IH.
Qed.

Lemma check_names_total host names dflt :
  Forall name_terminated names → ∃ r, check_names host names dflt = Ok r.
Proof.
  induction 1 as [|[s|] names Hs _ IH]; cbn; [by eexists| |done].
  by apply name_total.
Qed.

Lemma verdict_result host dflt l r :
  verdict host dflt l r → r = dflt ∨ r = MatchFound ∨ r = MalformedCertificate.
Proof. induction 1; auto. Qed.

Lemma validate_verdict host c live r live' :
  validate_hostname (Some host) (Some c) live = Ok (r, live') →
  live' = live ∧ verdict host (default_verdict c) (identities c) r.
Proof.
  unfold validate_hostname, matches_subject_alternative_name, default_verdict, identities.
  destruct (X509_get_ext_d2i c) as [names|].
  - intros ((r' & live1) & H & H')%bind_Ok. apply bind_Ok in H as (r1 & Hr & H).
    injection H as <- <-. apply check_names_verdict in Hr.
    assert (r1 ≠ NoSANPresent) as Hne by (apply verdict_result in Hr as [-> |[-> | ->]]; done).
    rewrite bool_decide_false in H' by done. injection H' as <- <-. split; [lia|done].
  - cbn. intros (r' & H & H')%bind_Ok. injection H' as <- <-. split; [done|].
    unfold matches_common_name in H.
    destruct (X509_NAME_get_index_by_NID c <? 0); [injection H as <-; constructor|].
    destruct (X509_NAME_get_entry c _) as [[s|]|]; try (injection H as <-; constructor).
    eapply name_verdict; [exact H|]. intros [= <-]. constructor.
Qed.

(** A certificate matches by its first deciding name. *)
Definition identified (host : bytes) (c : X509) : Prop :=
  ∃ l1 s l2, identities c = l1 ++ s :: l2 ∧ clean s ∧ matches host s ∧
    Forall (λ s', clean s' ∧ ¬ matches host s') l1.

Lemma verdict_found host dflt l :
  dflt ≠ MatchFound →
  verdict host dflt l MatchFound ↔
  ∃ l1 s l2, l = l1 ++ s :: l2 ∧ clean s ∧ matches host s ∧
    Forall (λ s', clean s' ∧ ¬ matches host s') l1.
Proof.
  intros Hd. split.
  - remember MatchFound as r eqn:Er. induction 1 as [|s l _|s l Hs Hm|s l r Hs Hm _ IH]; [done..| |].
    + by exists [], s, l.
    + destruct (IH Er Hd) as (l1 & s' & l2 & -> & ? & ? & ?).
      exists (s :: l1), s', l2. repeat (split; [done|]). by constructor.
  - intros (l1 & s & l2 & -> & Hs & Hm & Hall).
    induction Hall as [|s' l1 [? ?] _ IH]; cbn; by constructor.
Qed.

Lemma verdict_det host dflt l r1 r2 : verdict host dflt l r1 → verdict host dflt l r2 → r1 = r2.
Proof. intros H1. revert r2. induction H1; inversion 1; subst; auto; done. Qed.

Lemma validate_found host c live live' :
  validate_hostname (Some host) (Some c) live = Ok (MatchFound, live') → identified host c.
Proof.
  intros [_ H]%validate_verdict. apply (verdict_found host) in H; [done|].
  unfold default_verdict. by destruct (X509_get_ext_d2i c), (identities c).
Qed.

(** The names of a certificate whose strings are all terminated. *)
Definition cert_terminated (c : X509) : Prop :=
  (∀ names, X509_get_ext_d2i c = Some names → Forall name_terminated names) ∧
  (∀ i s, X509_NAME_get_entry c i = Some (Some s) → terminated s).

Lemma validate_total host c live :
  cert_terminated c → ∃ r, validate_hostname (Some host) (Some c) live = Ok (r, live).
Proof.
  intros [Hn Hs].
  assert (∃ r, validate_hostname (Some host) (Some c) live = Ok r) as [[r live'] E];
    [|exists r; destruct (validate_verdict _ _ _ _ _ E) as [-> _]; done].
  unfold validate_hostname, matches_subject_alternative_name.
  destruct (X509_get_ext_d2i c) as [names|].
  - destruct (check_names_total host names MatchNotFound (Hn names eq_refl)) as (r & E).
    rewrite E. cbn. case_bool_decide as Hr; [|by eexists].
    apply check_names_verdict, verdict_result in E. destruct E as [-> |[-> | ->]]; done.
  - cbn. unfold matches_common_name.
    destruct (X509_NAME_get_index_by_NID c <? 0); [by eexists|].
    destruct (X509_NAME_get_entry c _) as [[s|]|] eqn:Es; [|by eexists..].
    destruct (name_total host s (Ok MatchNotFound) (Hs _ _ Es)) as (r & E); [by eexists|].
    rewrite E. by eexists.
Qed.

(** ** Properties *)

(** C24: for every hostname and certificate with NUL-terminated strings, [validate_hostname]
    ends inside them, frees the names it extracted, and gives the [verdict] on the
    hostname: the names that count are the DNS names of the alternative name extension if
    there is one, else the common name, and the first of them that has an embedded NUL
    (MalformedCertificate) or matches (MatchFound) decides alone; if none does, the answer
    is MatchNotFound, or Error without extension and common name.  So, unlike the comments
    of the code, it does not report a NUL in a name behind a match, nor a match behind a
    NUL. *)
Theorem validate_hostname_verdict (host : bytes) (c : X509) (live : Z)
    (Hc : cert_terminated c) :
  ∃ r, validate_hostname (Some host) (Some c) live = Ok (r, live) ∧
    verdict host (default_verdict c) (identities c) r ∧ r ≠ NoSANPresent.
Proof.
  destruct (validate_total host c live Hc) as (r & E). exists r. split; [done|].
  apply validate_verdict in E as [_ Hv]. split; [done|]. intros ->.
  apply verdict_result in Hv as [Hd|[|]]; try done.
  unfold default_verdict in Hd. by destruct (X509_get_ext_d2i c), (identities c).
Qed.

(** whenever the certificate callback returns, it accepts exactly when checking is
    switched off, or OpenSSL's verification returned non-zero and the host matches the
    deciding name of the current certificate; the extracted names are freed. *)
Theorem cert_verify_accepts (ignore_cert : bool) (ctx : X509_STORE_CTX) (host : option bytes)
    (live r live' : Z)
    (Hr : cert_verify_callback ignore_cert ctx host live = Ok (r, live')) :
  live' = live ∧ (r = 0 ∨ r = 1) ∧
  (r = 1 ↔ ignore_cert = true ∨
    X509_verify_cert ctx ≠ 0 ∧ ∃ h c, host = Some h ∧
      X509_STORE_CTX_get_current_cert ctx = Some c ∧ identified h c).
Proof.
  unfold cert_verify_callback in Hr. destruct ignore_cert.
  { injection Hr as <- <-. naive_solver. }
  apply bind_Ok in Hr as ((res & live1) & Hres & Hr).
  apply check_Ok in Hr as [[c Hc]%bool_decide_eq_true Hr].
  assert (live1 = live ∧ (res = MatchFound ↔ X509_verify_cert ctx ≠ 0 ∧ ∃ h, host = Some h ∧ identified h c))
    as [-> Hiff].
  { destruct (Z.eqb_spec (X509_verify_cert ctx) 0) as [E|E]; cbn in Hres.
    { injection Hres as <- <-. split; [done|]. split; [done|]. by intros []. }
    rewrite Hc in Hres. destruct host as [h|].
    - pose proof (validate_verdict _ _ _ _ _ Hres) as [-> Hv]. split; [done|]. split.
      + intros ->. apply validate_found in Hres. eauto.
      + intros (_ & ? & [= <-] & Hi). apply (verdict_found h (default_verdict c)) in Hi.
        * by eapply verdict_det.
        * unfold default_verdict. by destruct (X509_get_ext_d2i c), (identities c).
    - injection Hres as <- <-. split; [done|]. split; [done|]. by intros (_ & ? & [=] & _). }
  rewrite Hc. case_bool_decide as Er; injection Hr as <- <-; naive_solver.
Qed.

(** a verification that fails with an internal error (a negative value) is taken
    for a success: the callback accepts the peer if the host name matches. *)
Theorem cert_verify_negative (ctx : X509_STORE_CTX) (host : bytes) (c : X509) (live : Z)
    (Hneg : X509_verify_cert ctx < 0)
    (Hcert : X509_STORE_CTX_get_current_cert ctx = Some c)
    (Hhost : validate_hostname (Some host) (Some c) live = Ok (MatchFound, live)) :
  cert_verify_callback false ctx (Some host) live = Ok (1, live).
Proof.
  unfold cert_verify_callback. rewrite (proj2 (Z.eqb_neq (X509_verify_cert ctx) 0)) by lia.
  cbn [negb]. rewrite Hcert, Hhost. cbn. by rewrite bool_decide_true.
Qed.
End validation.

(** *** Witnesses *)

(** A library of which a certificate is its list of names, whose verification answers
    the context, and that compares names byte for byte. *)
Definition ex_lib (verify : Z) : X509Lib := {|
  X509 := option (list general_name) * option asn1_string;
  X509_get_ext_d2i c := c.1;
  X509_NAME_get_index_by_NID c := match c.2 with Some _ => 0 | None => -1 end;
  X509_NAME_get_entry c i := if i =? 0 then Some c.2 else None;
  CURL_HOST_MATCH := 1;
  Curl_cert_hostcheck p h := if bool_decide (p = h) then 1 else 0;
  X509_STORE_CTX := option (list general_name) * option asn1_string;
  X509_verify_cert _ := verify;
  X509_STORE_CTX_get_current_cert c := Some c
|}.

Definition ex_name (s : string) : asn1_string := Asn1 (cstr s) (zlen (txt s)).
Definition ex_cert : option (list general_name) * option asn1_string :=
  (Some [GEN_DNS (ex_name "a.example"); GEN_OTHER; GEN_DNS (ex_name "b.example")],
   Some (ex_name "c.example")).

Lemma ex_cert_terminated v : @cert_terminated (ex_lib v) ex_cert.
Proof.
  split.
  - intros names [= <-]. repeat constructor; vm_compute; tauto.
  - intros i s. cbn. destruct (i =? 0); [|done]. intros [= <-]. vm_compute. tauto.
Qed.

Lemma validate_hostname_verdict_witness :
  ∃ r, @validate_hostname (ex_lib 1) (Some (cstr "c.example")) (Some ex_cert) 0 = Ok (r, 0) ∧
    @verdict (ex_lib 1) (cstr "c.example") MatchNotFound
      [ex_name "a.example"; ex_name "b.example"] r ∧ r ≠ NoSANPresent.
Proof. exact (@validate_hostname_verdict (ex_lib 1) (cstr "c.example") ex_cert 0 (ex_cert_terminated 1)). Defined.

(** The common name is not looked at when there are alternative names. *)
Example validate_hostname_san :
  @validate_hostname (ex_lib 1) (Some (cstr "c.example")) (Some ex_cert) 0 = Ok (MatchNotFound, 0).
Proof. vm_compute. reflexivity. Qed.
Example validate_hostname_nul :
  @validate_hostname (ex_lib 1) (Some (cstr "a.example"))
    (Some (Some [GEN_DNS (Asn1 (txt "a.example" ++ 0 :: cstr ".evil") 15)], None)) 0 =
  Ok (MalformedCertificate, 0).
Proof. vm_compute. reflexivity. Qed.

Lemma cert_verify_accepts_witness :
  0 = 0 ∧ (1 = 0 ∨ 1 = 1) ∧
  (1 = 1 ↔ false = true ∨ 1 ≠ 0 ∧ ∃ h c, Some (cstr "b.example") = Some h ∧
    Some ex_cert = Some c ∧ @identified (ex_lib 1) h c).
Proof.
  apply (@cert_verify_accepts (ex_lib 1) false ex_cert (Some (cstr "b.example")) 0 1 0).
  vm_compute. reflexivity.
Defined.

Lemma cert_verify_negative_witness :
  @cert_verify_callback (ex_lib (-1)) false ex_cert (Some (cstr "b.example")) 0 = Ok (1, 0).
Proof.
  apply (@cert_verify_negative (ex_lib (-1)) ex_cert (cstr "b.example") ex_cert 0).
  - reflexivity.
  - reflexivity.
  - vm_compute. reflexivity.
Defined.
