(* ===== verification/City.v ===== *)
(** * The hash of user ids: [base/cityhash/city.cc]

    [CityHash64] and its helpers, over the bytes the pointer is given for; every fetch is
    a checked load.  [size_t] is 64 bits wide and the machine is little-endian. *)

From S2P Require Import Prelude.

#[local] Open Scope Z_scope.

(** [uint64] arithmetic. *)
Declare Scope w64_scope.
Delimit Scope w64_scope with w64.
Notation "a +! b" := (u64 (a + b)) (at level 50, left associativity) : w64_scope.
Notation "a -! b" := (u64 (a - b)) (at level 50, left associativity) : w64_scope.
Notation "a *! b" := (u64 (a * b)) (at level 40, left associativity) : w64_scope.
Notation "a ^! b" := (Z.lxor a b) (at level 53, left associativity) : w64_scope.
Notation "a >>! n" := (Z.shiftr a n) (at level 52, left associativity) : w64_scope.
Notation "a <<! n" := (u64 (Z.shiftl a n)) (at level 52, left associativity) : w64_scope.
#[local] Open Scope w64_scope.

Definition k0 : Z := 0xc3a5c85c97cb3127.
Definition k1 : Z := 0xb492b66fbe98f273.
Definition k2 : Z := 0x9ae16a3b2f90404f.

Definition Fetch64 (p : Z) (s : bytes) : outcome Z := b ← load p 8 s; Ok (le_val b).
Definition Fetch32 (p : Z) (s : bytes) : outcome Z := b ← load p 4 s; Ok (le_val b).

(** [_byteswap_uint64] *)
Definition bswap_64 (x : Z) : Z := le_val (rev (le_bytes 8 x)).

(** [Rotate] by a shift other than 0, as every call has it. *)
Definition Rotate (val shift : Z) : Z :=
  if shift =? 0 then val else Z.lor (val >>! shift) (val <<! (64 - shift)).

Definition ShiftMix (val : Z) : Z := val ^! (val >>! 47).

Definition Hash128to64 (x : Z * Z) : Z :=
  let kMul := 0x9ddfea08eb382d69 in
  let a := (x.1 ^! x.2) *! kMul in
  let a := a ^! (a >>! 47) in
  let b := (x.2 ^! a) *! kMul in
  let b := b ^! (b >>! 47) in
  b *! kMul.

Definition HashLen16 (u v : Z) : Z := Hash128to64 (u, v).

Definition HashLen16_mul (u v mul : Z) : Z :=
  let a := (u ^! v) *! mul in
  let a := a ^! (a >>! 47) in
  let b := (v ^! a) *! mul in
  let b := b ^! (b >>! 47) in
  b *! mul.

Definition HashLen0to16 (s : bytes) (len : Z) : outcome Z :=
  if 8 <=? len then
    let mul := k2 +! len *! 2 in
    f0 ← Fetch64 0 s;
    let a := f0 +! k2 in
    b ← Fetch64 (len - 8) s;
    let c := Rotate b 37 *! mul +! a in
    let d := (Rotate a 25 +! b) *! mul in
    Ok (HashLen16_mul c d mul)
  else if 4 <=? len then
    let mul := k2 +! len *! 2 in
    a ← Fetch32 0 s;
    f ← Fetch32 (len - 4) s;
    Ok (HashLen16_mul (len +! (a <<! 3)) f mul)
  else if 0 <? len then
    a ← load1 0 s;
    b ← load1 (len >>! 1) s;
    c ← load1 (len - 1) s;
    let y := u32 (a + u32 (Z.shiftl b 8)) in
    let z := u32 (len + u32 (Z.shiftl c 2)) in
    Ok (ShiftMix ((y *! k2) ^! (z *! k0)) *! k2)
  else Ok k2.

Definition HashLen17to32 (s : bytes) (len : Z) : outcome Z :=
  let mul := k2 +! len *! 2 in
  f0 ← Fetch64 0 s;
  let a := f0 *! k1 in
  b ← Fetch64 8 s;
  f1 ← Fetch64 (len - 8) s;
  let c := f1 *! mul in
  f2 ← Fetch64 (len - 16) s;
  let d := f2 *! k2 in
  Ok (HashLen16_mul (Rotate (a +! b) 43 +! Rotate c 30 +! d) (a +! Rotate (b +! k2) 18 +! c) mul).

Definition WeakHashLen32 (w x y z a b : Z) : Z * Z :=
  let a := a +! w in
  let b := Rotate (b +! a +! z) 21 in
  let c := a in
  let a := a +! x in
  let a := a +! y in
  let b := b +! Rotate a 44 in
  (a +! z, b +! c).

Definition WeakHashLen32WithSeeds (p : Z) (s : bytes) (a b : Z) : outcome (Z * Z) :=
  w ← Fetch64 p s;
  x ← Fetch64 (p + 8) s;
  y ← Fetch64 (p + 16) s;
  z ← Fetch64 (p + 24) s;
  Ok (WeakHashLen32 w x y z a b).

Definition HashLen33to64 (s : bytes) (len : Z) : outcome Z :=
  let mul := k2 +! len *! 2 in
  f0 ← Fetch64 0 s;
  let a := f0 *! k2 in
  b ← Fetch64 8 s;
  c ← Fetch64 (len - 24) s;
  d ← Fetch64 (len - 32) s;
  f16 ← Fetch64 16 s;
  let e := f16 *! k2 in
  f24 ← Fetch64 24 s;
  let f := f24 *! 9 in
  g ← Fetch64 (len - 8) s;
  f1 ← Fetch64 (len - 16) s;
  let h := f1 *! mul in
  let u := Rotate (a +! g) 43 +! (Rotate b 30 +! c) *! 9 in
  let v := ((a +! g) ^! d) +! f +! 1 in
  let w := bswap_64 ((u +! v) *! mul) +! h in
  let x := Rotate (e +! f) 42 +! c in
  let y := (bswap_64 ((v +! w) *! mul) +! g) *! mul in
  let z := e +! f +! c in
  let a := bswap_64 ((x +! z) *! mul +! y) +! b in
  let b := ShiftMix ((z +! a) *! mul +! d +! h) *! mul in
  Ok (b +! x).

(** The 56 bytes of state of the loop. *)
Record city := City { cx : Z; cy : Z; cz : Z; cv : Z * Z; cw : Z * Z }.

(** One turn, on the 64 bytes at [p]. *)
Definition city_turn (p : Z) (s : bytes) (t : city) : outcome city :=
  let '(City x y z v w) := t in
  f8 ← Fetch64 (p + 8) s;
  let x := Rotate (x +! y +! v.1 +! f8) 37 *! k1 in
  f48 ← Fetch64 (p + 48) s;
  let y := Rotate (y +! v.2 +! f48) 42 *! k1 in
  let x := x ^! w.2 in
  f40 ← Fetch64 (p + 40) s;
  let y := y +! (v.1 +! f40) in
  let z := Rotate (z +! w.1) 33 *! k1 in
  v ← WeakHashLen32WithSeeds p s (v.2 *! k1) (x +! w.1);
  f16 ← Fetch64 (p + 16) s;
  w ← WeakHashLen32WithSeeds (p + 32) s (z +! w.2) (y +! f16);
  Ok (City z y x v w).

(** [do { ... s += 64; len -= 64; } while (len != 0);] *)
Fixpoint city_loop (fuel : nat) (p len : Z) (s : bytes) (t : city) : outcome city :=
  match fuel with
  | O => Ub NoFuel
  | S fuel =>
      t ← city_turn p s t;
      let len := len -! 64 in
      if len =? 0 then Ok t else city_loop fuel (p + 64) len s t
  end.

Definition CityHash64 (s : bytes) (len : Z) : outcome Z :=
  if len <=? 32 then
    if len <=? 16 then HashLen0to16 s len else HashLen17to32 s len
  else if len <=? 64 then HashLen33to64 s len
  else
    x ← Fetch64 (len - 40) s;
    f16 ← Fetch64 (len - 16) s;
    f56 ← Fetch64 (len - 56) s;
    let y := f16 +! f56 in
    f48 ← Fetch64 (len - 48) s;
    f24 ← Fetch64 (len - 24) s;
    let z := HashLen16 (f48 +! len) f24 in
    v ← WeakHashLen32WithSeeds (len - 64) s len z;
    w ← WeakHashLen32WithSeeds (len - 32) s (y +! k1) x;
    f0 ← Fetch64 0 s;
    let x := x *! k1 +! f0 in
    (* the nearest multiple of 64 *)
    let len := Z.land (len -! 1) (u64 (Z.lnot 63)) in
    t ← city_loop (Z.to_nat (len / 64)) 0 len s (City x y z v w);
    Ok (HashLen16 (HashLen16 (cv t).1 (cw t).1 +! ShiftMix (cy t) *! k1 +! cz t)
                  (HashLen16 (cv t).2 (cw t).2 +! cx t)).

Definition CityHash64WithSeeds (s : bytes) (len seed0 seed1 : Z) : outcome Z :=
  h ← CityHash64 s len; Ok (HashLen16 (h -! seed0) seed1).
Definition CityHash64WithSeed (s : bytes) (len seed : Z) : outcome Z :=
  CityHash64WithSeeds s len k2 seed.

(** ** No fetch outside the string, and no overflow of the result *)

Definition w64_ok (z : Z) : Prop := 0 ≤ z < 2 ^ 64.

(** [gives m]: [m] returns a 64-bit value. *)
Definition gives (m : outcome Z) : Prop := ∃ z, m = Ok z ∧ w64_ok z.

Lemma le_val_bound b : Forall byte_ok b → 0 ≤ le_val b < 256 ^ zlen b.
Proof.
  induction 1 as [|c b Hc Hb IH]; [done|]. cbn [le_val length].
  rewrite Nat2Z.inj_succ, Z.pow_succ_r by lia. unfold byte_ok in Hc. lia.
Qed.

Lemma Fetch64_gives p s :
  Forall byte_ok s → 0 ≤ p → p + 8 ≤ zlen s → gives (Fetch64 p s).
Proof.
  intros Hs ??. unfold Fetch64. rewrite load_Ok by lia. eexists. split; [done|].
  pose proof (le_val_bound (sub_at p 8 s)) as Hb. rewrite length_sub_at in Hb by lia.
  apply Hb. by apply Forall_take, Forall_drop.
Qed.

Lemma Fetch32_gives p s :
  Forall byte_ok s → 0 ≤ p → p + 4 ≤ zlen s → gives (Fetch32 p s).
Proof.
  intros Hs ??. unfold Fetch32. rewrite load_Ok by lia. eexists. split; [done|].
  pose proof (le_val_bound (sub_at p 4 s)) as Hb. rewrite length_sub_at in Hb by lia.
  assert (0 ≤ le_val (sub_at p 4 s) < 256 ^ 4); [|unfold w64_ok; lia].
  apply Hb. by apply Forall_take, Forall_drop.
Qed.

Lemma load1_gives p s : Forall byte_ok s → 0 ≤ p < zlen s → gives (load1 p s).
Proof.
  intros Hs ?. destruct (lookup_lt_is_Some_2 s (Z.to_nat p)) as [c Hc]; [lia|].
  exists c. split; [by apply load1_Ok; [lia|]|].
  pose proof (Forall_lookup_1 _ _ _ _ Hs Hc) as Hb. unfold byte_ok in Hb. unfold w64_ok. lia.
Qed.

Lemma gives_Ok z : w64_ok z → gives (Ok z).
Proof. intros. by exists z. Qed.

Lemma gives_bind (m : outcome Z) (f : Z → outcome Z) :
  gives m → (∀ z, w64_ok z → gives (f z)) → gives (m ≫= f).
Proof. intros (z & -> & Hz) Hf. by apply Hf. Qed.

Lemma u64_ok z : w64_ok (u64 z).
Proof. apply wrapu_bound. lia. Qed.
Lemma HashLen16_ok u v : w64_ok (HashLen16 u v).
Proof. apply u64_ok. Qed.
Lemma HashLen16_mul_ok u v mul : w64_ok (HashLen16_mul u v mul).
Proof. apply u64_ok. Qed.

#[export] Hint Resolve u64_ok HashLen16_ok HashLen16_mul_ok : csem.

(** Step over the fetches, whose ranges are linear in the length. *)
Ltac city_step Hs :=
  lazymatch goal with
  | |- gives (Fetch64 _ _ ≫= _) => eapply gives_bind; [apply Fetch64_gives; [exact Hs|lia..]|intros ? ?]
  | |- gives (Fetch32 _ _ ≫= _) => eapply gives_bind; [apply Fetch32_gives; [exact Hs|lia..]|intros ? ?]
  | |- gives (load1 _ _ ≫= _) => eapply gives_bind; [apply load1_gives; [exact Hs|]|intros ? ?]
  | |- gives (Ok _) => apply gives_Ok; auto with csem
  end.

Lemma HashLen0to16_gives s (Hs : Forall byte_ok s) : gives (HashLen0to16 s (zlen s)).
Proof.
  unfold HashLen0to16. repeat ztest; repeat city_step Hs; try lia.
  - rewrite Z.shiftr_div_pow2 by lia. Z.to_euclidean_division_equations. lia.
  - unfold k2, w64_ok. lia.
Qed.

Lemma HashLen17to32_gives s (Hs : Forall byte_ok s) (Hl : 16 < zlen s) :
  gives (HashLen17to32 s (zlen s)).
Proof. unfold HashLen17to32. repeat city_step Hs. Qed.

Lemma HashLen33to64_gives s (Hs : Forall byte_ok s) (Hl : 32 < zlen s) :
  gives (HashLen33to64 s (zlen s)).
Proof. unfold HashLen33to64. repeat city_step Hs. Qed.

Lemma WeakHashLen32WithSeeds_Ok p s a b (Hs : Forall byte_ok s) (Hp : 0 ≤ p) (Hl : p + 32 ≤ zlen s) :
  ∃ v, WeakHashLen32WithSeeds p s a b = Ok v.
Proof.
  unfold WeakHashLen32WithSeeds.
  destruct (Fetch64_gives p s Hs) as (w & -> & _); [lia..|]. cbn [mbind outcome_bind].
  destruct (Fetch64_gives (p + 8) s Hs) as (x & -> & _); [lia..|]. cbn [mbind outcome_bind].
  destruct (Fetch64_gives (p + 16) s Hs) as (y & -> & _); [lia..|]. cbn [mbind outcome_bind].
  destruct (Fetch64_gives (p + 24) s Hs) as (z & -> & _); [lia..|]. by eexists.
Qed.

Lemma city_turn_Ok p s t (Hs : Forall byte_ok s) (Hp : 0 ≤ p) (Hl : p + 64 ≤ zlen s) :
  ∃ t', city_turn p s t = Ok t'.
Proof.
  destruct t as [x y z v w]. unfold city_turn.
  destruct (Fetch64_gives (p + 8) s Hs) as (? & -> & _); [lia..|]. cbn -[Fetch64 WeakHashLen32WithSeeds].
  destruct (Fetch64_gives (p + 48) s Hs) as (? & -> & _); [lia..|]. cbn -[Fetch64 WeakHashLen32WithSeeds].
  destruct (Fetch64_gives (p + 40) s Hs) as (? & -> & _); [lia..|]. cbn -[Fetch64 WeakHashLen32WithSeeds].
  edestruct (WeakHashLen32WithSeeds_Ok p s) as (? & ->); [done|lia..|].
  cbn -[Fetch64 WeakHashLen32WithSeeds].
  destruct (Fetch64_gives (p + 16) s Hs) as (? & -> & _); [lia..|]. cbn -[Fetch64 WeakHashLen32WithSeeds].
  edestruct (WeakHashLen32WithSeeds_Ok (p + 32) s) as (? & ->); [done|lia..|]. by eexists.
Qed.

(** [n] turns for a length of [64 n]. *)
Lemma city_loop_Ok n p s t (Hs : Forall byte_ok s) (Hp : 0 ≤ p) (Hn : (0 < n)%nat)
    (Hl : p + 64 * Z.of_nat n ≤ zlen s) (Hw : zlen s < 2 ^ 64) :
  ∃ t', city_loop n p (64 * Z.of_nat n) s t = Ok t'.
Proof.
  revert p t Hp Hl Hn. induction n as [|n IH]; intros p t Hp Hl Hn; [lia|]. cbn [city_loop].
  destruct (city_turn_Ok p s t Hs Hp) as (t' & ->); [lia|]. cbn [mbind outcome_bind].
  rewrite u64_small by lia. replace (64 * Z.of_nat (S n) - 64) with (64 * Z.of_nat n) by lia.
  destruct (Z.eqb_spec (64 * Z.of_nat n) 0); [by eexists|]. apply IH; lia.
Qed.

(** The length that is left is a multiple of 64, and at least one turn's. *)
Lemma city_len len (Hl : 64 < len < 2 ^ 64) :
  Z.land (len -! 1) (u64 (Z.lnot 63)) = 64 * ((len - 1) / 64).
Proof.
  rewrite u64_small by lia.
  replace (u64 (Z.lnot 63)) with (Z.shiftl (Z.ones 58) 6) by reflexivity.
  rewrite Z.mul_comm. change 64 with (2 ^ 6). rewrite <- Z.shiftl_mul_pow2, <- Z.shiftr_div_pow2 by lia.
  apply Z.bits_inj'. intros i Hi. rewrite Z.land_spec, !Z.shiftl_spec by lia.
  destruct (Z.ltb_spec i 6).
  - rewrite !(Z.testbit_neg_r _ (i - 6)) by lia. by rewrite andb_false_r.
  - rewrite Z.shiftr_spec by lia. replace (i - 6 + 6) with i by lia.
    rewrite Z.testbit_ones_nonneg by lia.
    destruct (Z.ltb_spec (i - 6) 58); [by rewrite andb_true_r|]. rewrite andb_false_r.
    symmetry. apply Z.bits_above_log2; [lia|]. apply Z.log2_lt_pow2; [lia|].
    apply Z.lt_le_trans with (2 ^ 64); [lia|]. apply Z.pow_le_mono_r; lia.
Qed.

Lemma CityHash64_gives (s : bytes) (Hs : Forall byte_ok s) (Hl : zlen s < 2 ^ 64) :
  gives (CityHash64 s (zlen s)).
Proof.
  unfold CityHash64.
  destruct (Z.leb_spec (zlen s) 32); [destruct (Z.leb_spec (zlen s) 16)|].
  - by apply HashLen0to16_gives.
  - by apply HashLen17to32_gives; [|lia].
  - destruct (Z.leb_spec (zlen s) 64); [by apply HashLen33to64_gives; [|lia]|].
    repeat city_step Hs.
    edestruct (WeakHashLen32WithSeeds_Ok (zlen s - 64) s) as (v & ->); [done|lia..|].
    cbn [mbind outcome_bind].
    edestruct (WeakHashLen32WithSeeds_Ok (zlen s - 32) s) as (w & ->); [done|lia..|].
    cbn [mbind outcome_bind]. city_step Hs. rewrite city_len by lia.
    set (n := Z.to_nat ((zlen s - 1) / 64)).
    assert (Z.of_nat n = (zlen s - 1) / 64) as Hn by (unfold n; Z.to_euclidean_division_equations; lia).
    rewrite <- Hn. replace (64 * Z.of_nat n / 64) with (Z.of_nat n) by
      (Z.to_euclidean_division_equations; lia). rewrite Nat2Z.id.
    edestruct (city_loop_Ok n 0 s) as (t & ->);
      [done|lia|Z.to_euclidean_division_equations; lia..|lia|]. cbn [mbind outcome_bind].
    city_step Hs.
Qed.

(** [CityHash64] is total on every string: whatever its length, no fetch is outside
    it, the loop ends, and the result is a 64-bit value. *)
Theorem CityHash64_total (s : bytes) (Hs : Forall byte_ok s) (Hl : zlen s < 2 ^ 64) :
  ∃ h, CityHash64 s (zlen s) = Ok h ∧ 0 ≤ h < 2 ^ 64.
Proof. by apply CityHash64_gives. Qed.

Lemma CityHash64_total_witness :
  ∃ h, CityHash64 (replicate 130 97) (zlen (replicate 130 97)) = Ok h ∧ 0 ≤ h < 2 ^ 64.
Proof.
  apply (CityHash64_total (replicate 130 97)); [|done].
  apply Forall_replicate. unfold byte_ok. lia.
Defined.

(** The hash of a length of 0 is [k2]. *)
Example CityHash64_empty : CityHash64 [] 0 = Ok k2.
Proof. reflexivity. Qed.
