(* ===== verification/ObjectPool.v ===== *)
(** * The object pool: [base/ObjectPool.hpp]

    [CObjectPool<T>] keeps an array of objects and a stack of the ids that are not in
    use.  An object is named outside by an object id, [ConvertId] of its slot; ids start
    above [_base_id].  The model is of a build without assertions ([NDEBUG], no
    [_DEBUG]); a pointer into [_all_elements] is the index it points to. *)

From stdpp Require Export gmap.
From S2P Require Import Prelude.

#[local] Open Scope Z_scope.

Section pool.
Context {T : Type}.

(** [object_pool_node_t]; [None] is memory that was never assigned. *)
Record node := Node { n_data : option T; n_used : bool }.

Record pool := Pool {
  base_id : Z;
  total_size : Z;
  all_elements : list node;
  unused_ids : list Z;
  unused_size : Z
}.

Definition ConvertId (base_id total_size id : Z) : Z := u32 (1 + base_id + total_size - id).

Definition SafeInit (base_id size : Z) : pool :=
  Pool base_id size (replicate (Z.to_nat size) (Node None false))
    ((λ i, Z.of_nat i + 1) <$> seq 0 (Z.to_nat size)) size.

(** [_all_elements[id - 1]._used = b] *)
Definition set_used (id : Z) (b : bool) (els : list node) : outcome (list node) :=
  let i := u32 (id - 1) in
  match els !! Z.to_nat i with
  | Some n => Ok (<[Z.to_nat i := Node (n_data n) b]> els)
  | None => Ub OobWrite
  end.

Definition SafeAlloc (p : pool) : outcome (Z * pool) :=
  if 0 =? unused_size p then Ok (0, p)
  else
    id ← load1 (unused_size p - 1) (unused_ids p);
    els ← set_used id true (all_elements p);
    Ok (ConvertId (base_id p) (total_size p) id,
        Pool (base_id p) (total_size p) els (unused_ids p) (unused_size p - 1)).

(** The loop of [SafeAlloc (objid)]: the first [i] below [_unused_size] with
    [_unused_ids[i] == id]. *)
Definition find_unused (id : Z) (p : pool) : option Z :=
  find_from (λ i, match unused_ids p !! Z.to_nat i with Some x => x =? id | None => false end)
    0 (Z.to_nat (unused_size p)).

Definition SafeAlloc_objid (objid : Z) (p : pool) : outcome (Z * pool) :=
  let id := ConvertId (base_id p) (total_size p) objid in
  match find_unused id p with
  | None => Ok (0, p)
  | Some i =>
      (* overwrite unused with tail *)
      tail ← load1 (unused_size p - 1) (unused_ids p);
      ids ← store i [tail] (unused_ids p);
      els ← set_used id true (all_elements p);
      Ok (objid, Pool (base_id p) (total_size p) els ids (unused_size p - 1))
  end.

Definition ReleaseInternal (objid : Z) (p : pool) : outcome pool :=
  let id := ConvertId (base_id p) (total_size p) objid in
  els ← set_used id false (all_elements p);
  ids ← store (unused_size p) [id] (unused_ids p);
  Ok (Pool (base_id p) (total_size p) els ids (unused_size p + 1)).

Definition Release : Z → pool → outcome pool := ReleaseInternal.

Definition GetObjidByIndex (index : Z) (p : pool) : Z :=
  ConvertId (base_id p) (total_size p) (u32 (index + 1)).

(** [&_all_elements[id - 1]._data]: the index pointed to. *)
Definition Get (objid : Z) (p : pool) : Z :=
  u32 (ConvertId (base_id p) (total_size p) objid - 1).

(** [*Get (objid)], and an assignment through it; a slot that was never assigned reads as
    [Uninit]. *)
Definition deref (i : nat) (p : pool) : outcome T :=
  match all_elements p !! i with
  | Some n => from_option_ub Uninit (n_data n)
  | None => Ub OobRead
  end.

Definition assign (i : nat) (x : T) (p : pool) : outcome pool :=
  match all_elements p !! i with
  | Some n => Ok (Pool (base_id p) (total_size p) (<[i := Node (Some x) (n_used n)]> (all_elements p))
                    (unused_ids p) (unused_size p))
  | None => Ub OobWrite
  end.

Definition GetFirst (p : pool) : Z := u32 (total_size p - 1).
Definition GetLast (p : pool) : Z := 0.
Definition GetObjectNum (p : pool) : Z := u32 (total_size p - unused_size p).
Definition GetTotalSize (p : pool) : Z := total_size p.

(** [OBJECT_POOL_ITERATE_USED_OBJECT_BEGIN ... END]: the slots from [i] on, those in use
    only; the body goes on to the next slot, or returns from the function around the
    loop.  [pl] finds the pool in the state. *)
Inductive ctl (S R : Type) := Next (s : S) | Return (r : R).

Fixpoint iterate_used {S R} (pl : S → pool) (body : nat → T → S → outcome (ctl S R))
    (n i : nat) (s : S) : outcome (ctl S R) :=
  match n with
  | O => Ok (Next S R s)
  | Datatypes.S n =>
      match all_elements (pl s) !! i with
      | None => Ub OobRead
      | Some e =>
          if n_used e then
            x ← from_option_ub Uninit (n_data e);
            c ← body i x s;
            match c with
            | Next _ _ s => iterate_used pl body n (Datatypes.S i) s
            | Return _ _ r => Ok (Return S R r)
            end
          else iterate_used pl body n (Datatypes.S i) s
      end
  end.

Definition for_each_used {S R} (pl : S → pool) (body : nat → T → S → outcome (ctl S R)) (s : S) :
    outcome (ctl S R) :=
  iterate_used pl body (Z.to_nat (total_size (pl s))) 0 s.

(** ** The invariant *)

(** The slots, counted from [k] on, whose use is [b]. *)
Fixpoint slots_from (b : bool) (k : nat) (els : list node) : list nat :=
  match els with
  | [] => []
  | n :: els => (if Bool.eqb (n_used n) b then [k] else []) ++ slots_from b (S k) els
  end.

Definition free_ids (els : list node) : list Z := (λ i, Z.of_nat i + 1) <$> slots_from false 0 els.

Definition free_stack (p : pool) : list Z := take (Z.to_nat (unused_size p)) (unused_ids p).

(** The unused part of the id stack holds exactly the ids of the slots not in use. *)
Record pool_inv (p : pool) : Prop := PoolInv {
  inv_base : 0 ≤ base_id p;
  inv_total : zlen (all_elements p) = total_size p;
  inv_width : base_id p + total_size p + 1 < 2 ^ 32;
  inv_ids : zlen (unused_ids p) = total_size p;
  inv_unused : 0 ≤ unused_size p ≤ total_size p;
  inv_free : free_stack p ≡ₚ free_ids (all_elements p)
}.

(** The dimensions alone. *)
Definition dims (p : pool) : Prop :=
  0 ≤ base_id p ∧ zlen (all_elements p) = total_size p ∧ base_id p + total_size p + 1 < 2 ^ 32.

Lemma inv_dims p : pool_inv p → dims p.
Proof. by intros []. Qed.

(** Slot [i] is object [base_id + total_size - i]. *)
Definition objid_of (p : pool) (i : nat) : Z := base_id p + total_size p - Z.of_nat i.

(** The objects in use. *)
Definition used (p : pool) : gset Z :=
  list_to_set (objid_of p <$> slots_from true 0 (all_elements p)).

(** [p'] is [p] but for the use of slot [i], which has become [b]. *)
Definition switched (i : nat) (b : bool) (p p' : pool) : Prop :=
  ∃ n, all_elements p !! i = Some n ∧ n_used n = negb b ∧
    all_elements p' = <[i := Node (n_data n) b]> (all_elements p) ∧
    base_id p' = base_id p ∧ total_size p' = total_size p.

Lemma slots_from_elem b k els j :
  j ∈ slots_from b k els ↔ ∃ i n, els !! i = Some n ∧ n_used n = b ∧ j = (k + i)%nat.
Proof.
  revert k. induction els as [|n els IH]; intros k; cbn [slots_from].
  - rewrite elem_of_nil. split; [done|]. intros (i & m & Hm & _). by rewrite lookup_nil in Hm.
  - rewrite elem_of_app, IH. split.
    + intros [Hj|(i & m & Hm & Hu & ->)].
      * destruct (Bool.eqb (n_used n) b) eqn:Hu; [|by rewrite elem_of_nil in Hj].
        apply list_elem_of_singleton in Hj as ->. apply Bool.eqb_prop in Hu.
        exists 0%nat, n. by rewrite Nat.add_0_r.
      * exists (S i), m. repeat split; [done..|lia].
    + intros ([|i] & m & Hm & Hu & ->); cbn in Hm.
      * left. injection Hm as ->. rewrite Hu, Bool.eqb_reflx. apply list_elem_of_singleton. lia.
      * right. exists i, m. repeat split; [done..|lia].
Qed.

(** Switching a slot takes it off the slots of its old use. *)
Lemma slots_from_switch b k els i n x :
  els !! i = Some n → n_used n = b →
  slots_from b k els ≡ₚ (k + i)%nat :: slots_from b k (<[i := Node x (negb b)]> els).
Proof.
  revert k i. induction els as [|m els IH]; intros k [|i] Hn Hu; cbn in Hn; try done.
  - injection Hn as ->. cbn. rewrite Hu, Bool.eqb_reflx, Nat.add_0_r. by destruct b.
  - cbn [slots_from insert list_insert]. rewrite (IH _ i Hn Hu), Nat.add_succ_comm.
    by rewrite <- Permutation_middle.
Qed.

Lemma slots_from_length k els :
  (length (slots_from true k els) + length (slots_from false k els) = length els)%nat.
Proof.
  revert k. induction els as [|n els IH]; intros k; cbn [slots_from]; [done|].
  specialize (IH (S k)). rewrite !length_app. destruct (n_used n); cbn; lia.
Qed.

Lemma slots_from_nodup b k els : NoDup (slots_from b k els).
Proof.
  revert k. induction els as [|n els IH]; intros k; cbn [slots_from]; [constructor|].
  destruct (Bool.eqb (n_used n) b); [|apply IH]. constructor; [|apply IH].
  rewrite slots_from_elem. intros (i & m & _ & _ & Hi). lia.
Qed.

(** The data of a slot does not matter. *)
Lemma slots_from_data b k els i n x :
  els !! i = Some n → slots_from b k (<[i := Node x (n_used n)]> els) = slots_from b k els.
Proof.
  revert k i. induction els as [|m els IH]; intros k [|i] Hn; cbn in Hn; try done.
  - by injection Hn as ->.
  - cbn [slots_from insert list_insert]. by rewrite IH.
Qed.

Lemma elem_of_used p o :
  o ∈ used p ↔ ∃ i n, all_elements p !! i = Some n ∧ n_used n = true ∧ o = objid_of p i.
Proof.
  unfold used. rewrite elem_of_list_to_set, list_elem_of_fmap. setoid_rewrite slots_from_elem.
  naive_solver.
Qed.
End pool.

Arguments node T : clear implicits.
Arguments pool T : clear implicits.
Arguments Next {S R} s.
Arguments Return {S R} r.

(** A loop without a [return]. *)
Definition continued {S} (c : ctl S False) : S :=
  match c with Next s => s | Return f => match f with end end.

(** ** The operations *)

Section lemmas.
Context {T : Type}.
Implicit Types (p : pool T) (els : list (node T)).

Lemma objid_of_inj p i j : objid_of p i = objid_of p j → i = j.
Proof. unfold objid_of. lia. Qed.

Lemma slot_bound p i n (Hp : dims p) :
  all_elements p !! i = Some n → Z.of_nat i < total_size p.
Proof. intros Hi%lookup_lt_Some. destruct Hp as (_ & Hl & _). lia. Qed.

(** An object id and the id of its slot determine each other. *)
Lemma ConvertId_slot p i (Hp : dims p) (Hi : Z.of_nat i < total_size p) :
  ConvertId (base_id p) (total_size p) (Z.of_nat i + 1) = objid_of p i.
Proof. destruct Hp as (? & ? & ?). unfold ConvertId, objid_of. rewrite u32_small; lia. Qed.

Lemma ConvertId_objid p i (Hp : dims p) (Hi : Z.of_nat i < total_size p) :
  ConvertId (base_id p) (total_size p) (objid_of p i) = Z.of_nat i + 1.
Proof. destruct Hp as (? & ? & ?). unfold ConvertId, objid_of. rewrite u32_small; lia. Qed.

Lemma Get_objid p i (Hp : dims p) (Hi : Z.of_nat i < total_size p) :
  Get (objid_of p i) p = Z.of_nat i.
Proof.
  unfold Get. rewrite ConvertId_objid by done. destruct Hp as (? & ? & ?). rewrite u32_small; lia.
Qed.

Lemma set_used_Ok els i n b :
  els !! i = Some n → zlen els < 2 ^ 32 →
  set_used (Z.of_nat i + 1) b els = Ok (<[i := Node (n_data n) b]> els).
Proof.
  intros Hn Hl. pose proof (lookup_lt_Some _ _ _ Hn). unfold set_used.
  rewrite u32_small by lia. replace (Z.to_nat (Z.of_nat i + 1 - 1)) with i by lia. by rewrite Hn.
Qed.

Lemma SafeInit_inv base size (Hb : 0 ≤ base) (Hs : 0 ≤ size) (Hw : base + size + 1 < 2 ^ 32) :
  pool_inv (SafeInit base size : pool T) ∧ used (SafeInit base size : pool T) = ∅.
Proof.
  assert (∀ b k n, slots_from b k (replicate n (Node None false : node T)) =
                   if b then [] else seq k n) as Hr.
  { intros b k n. revert k. induction n as [|n IH]; intros k; [by destruct b|].
    cbn. rewrite IH. by destruct b. }
  split; [split; cbn; rewrite ?length_replicate, ?length_fmap, ?length_seq; try lia|].
  - unfold free_stack, free_ids. cbn. rewrite Hr.
    rewrite take_ge by (rewrite length_fmap, length_seq; lia). done.
  - unfold used. cbn. by rewrite Hr.
Qed.

(** The slots in use after a switch. *)
Lemma switched_used p p' i (Hs : switched i true p p') : used p' = {[objid_of p i]} ∪ used p.
Proof.
  destruct Hs as (n & Hn & Hu & Hels & Hb & Ht). apply set_eq. intros o.
  rewrite elem_of_union, elem_of_singleton, !elem_of_used. unfold objid_of. rewrite Hels, Hb, Ht.
  pose proof (lookup_lt_Some _ _ _ Hn). split.
  - intros (j & m & Hm & Hj & ->). destruct (decide (j = i)) as [->|Hij]; [by left|].
    rewrite list_lookup_insert_ne in Hm by done. right. eauto.
  - intros [->|(j & m & Hm & Hj & ->)].
    + exists i. eexists. by rewrite list_lookup_insert_eq.
    + exists j, m. rewrite list_lookup_insert_ne; [done|]. intros ->. cbn in Hu. congruence.
Qed.

Lemma switched_unused p p' i (Hs : switched i false p p') : used p' = used p ∖ {[objid_of p i]}.
Proof.
  destruct Hs as (n & Hn & Hu & Hels & Hb & Ht). apply set_eq. intros o.
  rewrite elem_of_difference, elem_of_singleton, !elem_of_used. unfold objid_of.
  rewrite Hels, Hb, Ht. pose proof (lookup_lt_Some _ _ _ Hn). split.
  - intros (j & m & Hm & Hj & ->). destruct (decide (j = i)) as [->|Hij].
    + rewrite list_lookup_insert_eq in Hm by done. by injection Hm as <-.
    + rewrite list_lookup_insert_ne in Hm by done. split; [eauto|lia].
  - intros [(j & m & Hm & Hj & ->) Hne]. exists j, m.
    rewrite list_lookup_insert_ne; [done|]. by intros ->.
Qed.

(** The free ids after a switch. *)
Lemma switched_free p p' i b (Hs : switched i b p p') :
  if b then free_ids (all_elements p) ≡ₚ (Z.of_nat i + 1) :: free_ids (all_elements p')
  else free_ids (all_elements p') ≡ₚ (Z.of_nat i + 1) :: free_ids (all_elements p).
Proof.
  destruct Hs as (n & Hn & Hu & Hels & _). pose proof (lookup_lt_Some _ _ _ Hn).
  unfold free_ids. rewrite Hels. destruct b; cbn in Hu.
  - by rewrite (slots_from_switch false 0 _ i n (n_data n)).
  - pose proof (slots_from_switch false 0 (<[i := Node (n_data n) false]> (all_elements p)) i
      (Node (n_data n) false) (n_data n)) as Hsw.
    rewrite list_insert_insert_eq in Hsw. cbn [negb] in Hsw. rewrite <- Hu in Hsw.
    rewrite Hsw by (rewrite ?list_lookup_insert_eq; done).
    rewrite slots_from_data by done. done.
Qed.

(** The top of the id stack names a slot that is not in use. *)
Lemma free_top p (Hp : pool_inv p) (Hn : unused_size p ≠ 0) :
  ∃ i n, load1 (unused_size p - 1) (unused_ids p) = Ok (Z.of_nat i + 1) ∧
    all_elements p !! i = Some n ∧ n_used n = false ∧
    free_stack p = take (Z.to_nat (unused_size p - 1)) (unused_ids p) ++ [Z.of_nat i + 1].
Proof.
  destruct Hp. destruct (lookup_lt_is_Some_2 (unused_ids p) (Z.to_nat (unused_size p - 1)))
    as [id Hid]; [lia|].
  assert (free_stack p = take (Z.to_nat (unused_size p - 1)) (unused_ids p) ++ [id]) as Hf.
  { unfold free_stack. replace (Z.to_nat (unused_size p)) with
      (S (Z.to_nat (unused_size p - 1))) by lia. by apply take_S_r. }
  assert (id ∈ free_ids (all_elements p)) as Hin.
  { rewrite <- inv_free0, Hf. set_solver. }
  unfold free_ids in Hin. apply list_elem_of_fmap in Hin as (i & -> & Hi).
  apply slots_from_elem in Hi as (j & n & Hj & Hu & ->). exists j, n.
  split; [apply load1_Ok; [lia|done]|]. done.
Qed.
End lemmas.

Section ops.
Context {T : Type}.
Implicit Types p : pool T.

Lemma switched_inv p p' i b (Hs : switched i b p p') (Hp : pool_inv p)
    (Hids : zlen (unused_ids p') = total_size p)
    (Hu : unused_size p' = unused_size p + if b then -1 else 1)
    (Hle : 0 ≤ unused_size p' ≤ total_size p)
    (Hf : if b then free_stack p ≡ₚ (Z.of_nat i + 1) :: free_stack p'
          else free_stack p' ≡ₚ (Z.of_nat i + 1) :: free_stack p) :
  pool_inv p'.
Proof.
  pose proof (switched_free p p' i b Hs) as Hfree. destruct Hp.
  destruct Hs as (n & Hn & _ & Hels & Hb & Ht).
  split; rewrite ?Hels, ?Hb, ?Ht, ?length_insert; try done.
  rewrite <- Hels. destruct b.
  - apply (Permutation.Permutation_cons_inv (a := Z.of_nat i + 1)). by rewrite <- Hf, inv_free0.
  - by rewrite Hf, Hfree, inv_free0.
Qed.

Lemma put_at_insert {A} (off : Z) (x : A) (l : list A) :
  0 ≤ off < zlen l → put_at off [x] l = <[Z.to_nat off := x]> l.
Proof.
  intros. apply list_eq. intros k. rewrite lookup_put_at, list_lookup_insert by (cbn; lia). cbn.
  repeat case_decide; try lia; [|done]. replace (k - Z.to_nat off)%nat with 0%nat by lia. done.
Qed.

(** The two operations, whatever the id stack holds. *)
Lemma SafeAlloc_top p i n (Hd : dims p) (Hz : unused_size p ≠ 0)
    (Htop : load1 (unused_size p - 1) (unused_ids p) = Ok (Z.of_nat i + 1))
    (Hi : all_elements p !! i = Some n) :
  SafeAlloc p = Ok (objid_of p i, Pool (base_id p) (total_size p)
    (<[i := Node (n_data n) true]> (all_elements p)) (unused_ids p) (unused_size p - 1)).
Proof.
  pose proof (slot_bound p i n Hd Hi). pose proof Hd as (? & ? & ?). unfold SafeAlloc.
  destruct (Z.eqb_spec 0 (unused_size p)); [lia|]. rewrite Htop. cbn.
  rewrite (set_used_Ok _ i n) by (done || lia). cbn. by rewrite ConvertId_slot.
Qed.

Lemma ReleaseInternal_at p i n (Hd : dims p) (Hu : 0 ≤ unused_size p)
    (Hi : all_elements p !! i = Some n) :
  ReleaseInternal (objid_of p i) p =
    if unused_size p <? zlen (unused_ids p)
    then Ok (Pool (base_id p) (total_size p) (<[i := Node (n_data n) false]> (all_elements p))
           (<[Z.to_nat (unused_size p) := Z.of_nat i + 1]> (unused_ids p)) (unused_size p + 1))
    else Ub OobWrite.
Proof.
  pose proof (slot_bound p i n Hd Hi). pose proof Hd as (? & ? & ?). unfold ReleaseInternal.
  rewrite ConvertId_objid by done. rewrite (set_used_Ok _ i n) by (done || lia). cbn.
  destruct (Z.ltb_spec (unused_size p) (zlen (unused_ids p))).
  - rewrite store1_Ok by lia. cbn. by rewrite put_at_insert.
  - unfold store, check, in_range. cbn [length].
    destruct (Z.leb_spec (unused_size p + Z.of_nat 1) (zlen (unused_ids p))); [lia|].
    by rewrite !andb_false_r.
Qed.

Lemma load1_insert {A} (off : Z) (x : A) (l : list A) :
  0 ≤ off < zlen l → load1 off (<[Z.to_nat off := x]> l) = Ok x.
Proof. intros. apply load1_Ok; [lia|]. rewrite list_lookup_insert_eq; [done|lia]. Qed.

Lemma load1_insert_ne {A} (off j : Z) (x : A) (l : list A) :
  0 ≤ j → off ≠ j → load1 off (<[Z.to_nat j := x]> l) = load1 off l.
Proof.
  intros. unfold load1. destruct (Z.ltb_spec off 0); [done|].
  by rewrite list_lookup_insert_ne by lia.
Qed.

Lemma SafeAlloc_spec p (Hp : pool_inv p) (Hn : unused_size p ≠ 0) :
  ∃ i p', SafeAlloc p = Ok (objid_of p i, p') ∧ switched i true p p' ∧ pool_inv p'.
Proof.
  destruct (free_top p Hp Hn) as (i & n & Hid & Hi & Hu & Hf).
  pose proof (inv_unused p Hp).
  pose proof (SafeAlloc_top p i n (inv_dims p Hp) Hn Hid Hi) as Heq.
  do 2 eexists. split; [exact Heq|]. split; [by exists n|].
  eapply (switched_inv p _ i true); [by exists n|done|apply (inv_ids p Hp)|cbn; lia|cbn; lia|].
  rewrite Hf. unfold free_stack. cbn. by rewrite Permutation_app_comm.
Qed.

Lemma SafeAlloc_full p : unused_size p = 0 → SafeAlloc p = Ok (0, p).
Proof. intros Hu. unfold SafeAlloc. by rewrite Hu. Qed.

(** A slot in use leaves room on the id stack. *)
Lemma used_room p i n (Hp : pool_inv p) :
  all_elements p !! i = Some n → n_used n = true → unused_size p < total_size p.
Proof.
  intros Hi Hu. pose proof (slots_from_length 0 (all_elements p)) as Hl.
  assert (i ∈ slots_from true 0 (all_elements p)) as Hin by (apply slots_from_elem; eauto).
  assert (length (slots_from true 0 (all_elements p)) ≠ 0%nat).
  { intros He%length_zero_iff_nil. rewrite He in Hin. by apply elem_of_nil in Hin. }
  pose proof (inv_free p Hp) as Hf. apply Permutation_length in Hf.
  unfold free_stack, free_ids in Hf. rewrite length_take, length_fmap in Hf. destruct Hp. lia.
Qed.

Lemma ReleaseInternal_spec p i n (Hp : pool_inv p)
    (Hi : all_elements p !! i = Some n) (Hu : n_used n = true) :
  ∃ p', ReleaseInternal (objid_of p i) p = Ok p' ∧ switched i false p p' ∧ pool_inv p' ∧
    unused_size p' = unused_size p + 1 ∧
    load1 (unused_size p) (unused_ids p') = Ok (Z.of_nat i + 1).
Proof.
  pose proof (used_room p i n Hp Hi Hu). pose proof (inv_ids p Hp). pose proof (inv_unused p Hp).
  pose proof (ReleaseInternal_at p i n (inv_dims p Hp) ltac:(lia) Hi) as Heq.
  destruct (Z.ltb_spec (unused_size p) (zlen (unused_ids p))); [|lia].
  eexists. split; [exact Heq|]. split; [by exists n|]. split; [|split; [done|]].
  - eapply (switched_inv p _ i false); [by exists n|done|cbn; rewrite length_insert; lia|done|cbn; lia|].
    unfold free_stack. cbn. replace (Z.to_nat (unused_size p + 1)) with (S (Z.to_nat (unused_size p))) by lia.
    rewrite (take_S_r _ _ (Z.of_nat i + 1)) by (rewrite list_lookup_insert_eq; [done|lia]).
    rewrite take_insert_ge by lia. by rewrite Permutation_app_comm.
  - cbn. apply load1_insert. lia.
Qed.

Lemma find_unused_Some p id j (Hp : pool_inv p) :
  find_unused id p = Some j →
  0 ≤ j < unused_size p ∧ unused_ids p !! Z.to_nat j = Some id.
Proof.
  unfold find_unused. intros (Hj & Heq & _)%find_from_Some.
  destruct (unused_ids p !! Z.to_nat j) eqn:E; [|done].
  apply Z.eqb_eq in Heq as ->. split; [lia|done].
Qed.

Lemma find_unused_None p id (Hp : pool_inv p) :
  find_unused id p = None ↔ id ∉ free_ids (all_elements p).
Proof.
  pose proof Hp as []. unfold find_unused. rewrite find_from_None, <- inv_free0. split.
  - intros H Hin. unfold free_stack in Hin.
    apply elem_of_take in Hin as (k & Hk & Hlt).
    specialize (H (Z.of_nat k) ltac:(lia)). rewrite Nat2Z.id, Hk in H. by rewrite Z.eqb_refl in H.
  - intros H k Hk. destruct (unused_ids p !! Z.to_nat k) as [x|] eqn:E; [|done].
    apply Z.eqb_neq. intros ->. apply H. unfold free_stack. apply elem_of_take.
    exists (Z.to_nat k). split; [done|lia].
Qed.

(** Overwriting an entry with the last one and dropping the last removes the entry. *)
Lemma swap_remove {A} (l : list A) (k j : nat) (x y : A) :
  l !! k = Some y → l !! j = Some x → (j ≤ k)%nat →
  take (S k) l ≡ₚ x :: take k (<[j := y]> l).
Proof.
  intros Hk Hj Hle. rewrite (take_S_r l k y Hk).
  destruct (decide (j = k)) as [->|Hne].
  - rewrite take_insert_ge by lia. rewrite Hk in Hj. injection Hj as ->.
    by rewrite Permutation_app_comm.
  - rewrite take_insert_lt by lia. assert (take k l !! j = Some x) as Hj'.
    { by rewrite lookup_take_lt by lia. }
    rewrite insert_take_drop by (by eapply lookup_lt_Some).
    rewrite <- (take_drop_middle _ j x Hj') at 1.
    rewrite <- app_assoc. cbn. rewrite <- !Permutation_middle. constructor.
    by rewrite app_assoc, Permutation_app_comm.
Qed.

Lemma SafeAlloc_objid_spec p i n (Hp : pool_inv p)
    (Hi : all_elements p !! i = Some n) (Hu : n_used n = false) :
  ∃ p', SafeAlloc_objid (objid_of p i) p = Ok (objid_of p i, p') ∧
    switched i true p p' ∧ pool_inv p'.
Proof.
  pose proof (slot_bound p i n (inv_dims p Hp) Hi). pose proof (inv_total p Hp).
  pose proof (inv_width p Hp). pose proof (inv_base p Hp).
  pose proof (inv_ids p Hp). pose proof (inv_unused p Hp).
  unfold SafeAlloc_objid. rewrite ConvertId_objid by done.
  destruct (find_unused (Z.of_nat i + 1) p) as [j|] eqn:Hj.
  - apply find_unused_Some in Hj as [Hj Hid]; [|done].
    destruct (lookup_lt_is_Some_2 (unused_ids p) (Z.to_nat (unused_size p - 1))) as [tail Htail];
      [lia|].
    rewrite (load1_Ok _ _ tail) by (done || lia). cbn.
    rewrite store1_Ok by lia. cbn. rewrite (set_used_Ok _ i n) by (done || lia). cbn.
    eexists. split; [done|]. split; [by exists n|].
    eapply (switched_inv p _ i true); [by exists n|done|..]; cbn; rewrite ?length_put_at1; try lia.
    unfold free_stack. cbn. rewrite put_at_insert by lia.
    replace (Z.to_nat (unused_size p)) with (S (Z.to_nat (unused_size p - 1))) by lia.
    apply swap_remove; [done|done|lia].
  - exfalso. apply find_unused_None in Hj; [|done]. apply Hj. unfold free_ids.
    apply list_elem_of_fmap. exists i. split; [done|]. apply slots_from_elem. eauto.
Qed.

Lemma SafeAlloc_objid_used p o (Hp : pool_inv p) (Ho : 0 ≤ o < 2 ^ 32)
    (Hn : ∀ i n, all_elements p !! i = Some n → o = objid_of p i → n_used n = true) :
  SafeAlloc_objid o p = Ok (0, p).
Proof.
  unfold SafeAlloc_objid.
  destruct (find_unused (ConvertId (base_id p) (total_size p) o) p) as [j|] eqn:Hj; [|done].
  exfalso. assert (find_unused (ConvertId (base_id p) (total_size p) o) p ≠ None) as Hs by congruence.
  apply Hs, find_unused_None; [done|]. unfold free_ids. rewrite list_elem_of_fmap.
  setoid_rewrite slots_from_elem. intros (i & Hid & (k & n & Hk & Hu & ->)).
  pose proof (slot_bound p k n (inv_dims p Hp) Hk). pose proof Hp as [].
  rewrite (Hn k n Hk) in Hu; [done|]. unfold objid_of. unfold ConvertId, wrapu in Hid.
  Z.to_euclidean_division_equations. lia.
Qed.

(** The number of objects in use. *)
Lemma size_used p (Hp : pool_inv p) : Z.of_nat (size (used p)) = total_size p - unused_size p.
Proof.
  pose proof (slots_from_length 0 (all_elements p)) as Hl. pose proof Hp as [].
  apply Permutation_length in inv_free0. unfold free_stack, free_ids in inv_free0.
  rewrite length_take, length_fmap in inv_free0. unfold used.
  rewrite size_list_to_set by (apply NoDup_fmap_2; [intros i j; apply objid_of_inj|apply slots_from_nodup]).
  rewrite length_fmap. lia.
Qed.
End ops.

(** ** The objects in use as a map from slots *)

Section view.
Context {T : Type}.
Implicit Types p : pool T.

Definition node_data (n : node T) : option T := if n_used n then n_data n else None.
Definition view p : gmap nat T := omap node_data (map_seq 0 (all_elements p)).

(** Every object in use has been assigned. *)
Definition pool_ok p : Prop :=
  pool_inv p ∧ ∀ i n, all_elements p !! i = Some n → n_used n = true → is_Some (n_data n).

Lemma view_lookup p i : view p !! i = all_elements p !! i ≫= node_data.
Proof. unfold view. by rewrite lookup_omap, lookup_map_seq_0. Qed.

Lemma view_Some p i x : view p !! i = Some x ↔ all_elements p !! i = Some (Node (Some x) true).
Proof.
  rewrite view_lookup. destruct (all_elements p !! i) as [[d []]|]; cbn; unfold node_data; cbn; naive_solver.
Qed.

Lemma view_bound p i x : pool_ok p → view p !! i = Some x → Z.of_nat i < total_size p.
Proof. intros [Hp _] Hi%view_Some. by eapply slot_bound, Hi; apply inv_dims. Qed.

Lemma view_insert p p' i n :
  all_elements p' = <[i := n]> (all_elements p) → (i < length (all_elements p))%nat →
  view p' = partial_alter (λ _, node_data n) i (view p).
Proof.
  intros Hels Hi. apply map_eq. intros j. destruct (decide (i = j)) as [->|Hne].
  - rewrite lookup_partial_alter_eq, view_lookup, Hels. by rewrite list_lookup_insert_eq.
  - rewrite lookup_partial_alter_ne, !view_lookup, Hels by done. by rewrite list_lookup_insert_ne.
Qed.

Lemma deref_view p i x : view p !! i = Some x → deref i p = Ok x.
Proof. intros Hi%view_Some. unfold deref. by rewrite Hi. Qed.

(** An assignment to an object in use. *)
Lemma assign_view p i x y (Hp : pool_ok p) (Hi : view p !! i = Some x) :
  ∃ p', assign i y p = Ok p' ∧ pool_ok p' ∧ view p' = <[i := y]> (view p) ∧
    base_id p' = base_id p ∧ total_size p' = total_size p.
Proof.
  apply view_Some in Hi. pose proof (lookup_lt_Some _ _ _ Hi). destruct Hp as [Hp Hd].
  unfold assign. rewrite Hi. cbn [n_used]. eexists. split; [done|].
  pose proof (λ b, slots_from_data b 0 _ i _ (Some y) Hi) as Hs. cbn in Hs.
  split; [split|split; [|done]];
    [| |by refine (view_insert p _ i (Node (Some y) true) _ _)].
  - destruct Hp. split; cbn; rewrite ?length_insert; try done. unfold free_ids. by rewrite Hs.
  - intros j n Hj Hu. cbn in Hj. destruct (decide (j = i)) as [->|Hne].
    + rewrite list_lookup_insert_eq in Hj by done. by injection Hj as <-.
    + rewrite list_lookup_insert_ne in Hj by done. by eapply Hd.
Qed.

Lemma view_used p o (Hp : pool_ok p) : o ∈ used p ↔ ∃ i x, view p !! i = Some x ∧ o = objid_of p i.
Proof.
  rewrite elem_of_used. split.
  - intros (i & n & Hi & Hu & ->). destruct (proj2 Hp i n Hi Hu) as [x Hx]. exists i, x.
    split; [|done]. apply view_Some. rewrite Hi. destruct n. cbn in *. by subst.
  - intros (i & x & Hi%view_Some & ->). eauto.
Qed.

(** Handing out an object that is then assigned. *)
Lemma alloc_view p (Hp : pool_ok p) :
  (SafeAlloc p = Ok (0, p) ∧ ∀ i, Z.of_nat i < total_size p → is_Some (view p !! i)) ∨
  ∃ i p', SafeAlloc p = Ok (objid_of p i, p') ∧ 0 < objid_of p i ∧
    Get (objid_of p i) p' = Z.of_nat i ∧ view p !! i = None ∧
    ∀ y, ∃ p'', assign i y p' = Ok p'' ∧ pool_ok p'' ∧ view p'' = <[i := y]> (view p) ∧
      base_id p'' = base_id p ∧ total_size p'' = total_size p.
Proof.
  destruct Hp as [Hp Hd]. destruct (decide (unused_size p = 0)) as [Hz|Hz].
  - left. split; [by apply SafeAlloc_full|]. intros i Hi.
    destruct (lookup_lt_is_Some_2 (all_elements p) i) as [n Hn]; [rewrite <- (inv_total p Hp) in Hi; lia|].
    assert (n_used n = true) as Hu.
    { destruct (n_used n) eqn:Hu; [done|]. exfalso.
      pose proof (inv_free p Hp) as Hf. unfold free_stack in Hf. rewrite Hz in Hf.
      apply Permutation_nil_l in Hf. unfold free_ids in Hf. symmetry in Hf.
      apply fmap_nil_inv in Hf. assert (i ∈ slots_from false 0 (all_elements p)) as Hin
        by (apply slots_from_elem; eauto). rewrite Hf in Hin. by apply elem_of_nil in Hin. }
    rewrite view_lookup, Hn. cbn. unfold node_data. rewrite Hu. by eapply Hd.
  - right. destruct (SafeAlloc_spec p Hp Hz) as (i & p' & Heq & Hs & Hp'). exists i, p'.
    destruct Hs as (n & Hn & Hu & Hels & Hb & Ht). pose proof (lookup_lt_Some _ _ _ Hn).
    pose proof (slot_bound p i n (inv_dims p Hp) Hn). pose proof (inv_base p Hp).
    split; [done|]. split; [unfold objid_of; lia|].
    assert (objid_of p i = objid_of p' i) as Ho by (unfold objid_of; by rewrite Hb, Ht).
    split; [rewrite Ho; apply Get_objid; [by apply inv_dims|lia]|].
    split; [rewrite view_lookup, Hn; cbn in Hu |- *; unfold node_data; by rewrite Hu|].
    intros y. assert (all_elements p' !! i = Some (Node (n_data n) true)) as Hi'
      by (by rewrite Hels, list_lookup_insert_eq).
    pose proof (view_insert p (Pool (base_id p') (total_size p')
      (<[i := Node (Some y) true]> (all_elements p')) (unused_ids p') (unused_size p')) i
      (Node (Some y) true) ltac:(cbn; by rewrite Hels, list_insert_insert_eq) ltac:(done)) as Hview.
    unfold assign. rewrite Hi'. cbn [n_used]. eexists. split; [done|]. repeat split; cbn; try done.
    + apply (inv_base p' Hp'). + rewrite length_insert. apply (inv_total p' Hp').
    + apply (inv_width p' Hp'). + apply (inv_ids p' Hp'). + apply (inv_unused p' Hp').
    + apply (inv_unused p' Hp').
    + pose proof (slots_from_data false 0 _ i _ (Some y) Hi') as Hs. cbn in Hs.
      unfold free_ids. rewrite Hs. apply (inv_free p' Hp').
    + intros j m Hj Hm. rewrite Hels, list_insert_insert_eq in Hj.
      destruct (decide (j = i)) as [->|Hne].
      * rewrite list_lookup_insert_eq in Hj by done. by injection Hj as <-.
      * rewrite list_lookup_insert_ne in Hj by done. by eapply Hd.
Qed.

Lemma release_view p i x (Hp : pool_ok p) (Hi : view p !! i = Some x) :
  ∃ p', ReleaseInternal (objid_of p i) p = Ok p' ∧ pool_ok p' ∧ view p' = delete i (view p) ∧
    base_id p' = base_id p ∧ total_size p' = total_size p.
Proof.
  apply view_Some in Hi. destruct Hp as [Hp Hd]. pose proof (lookup_lt_Some _ _ _ Hi).
  destruct (ReleaseInternal_spec p i _ Hp Hi eq_refl) as (p' & Heq & Hs & Hp' & _).
  exists p'. split; [done|]. destruct Hs as (n & Hn & Hu & Hels & Hb & Ht).
  split; [split; [done|]|split; [|done]].
  - intros j m Hj Hm. rewrite Hels in Hj. destruct (decide (j = i)) as [->|Hne].
    + rewrite list_lookup_insert_eq in Hj by done. by injection Hj as <-.
    + rewrite list_lookup_insert_ne in Hj by done. by eapply Hd.
  - rewrite (view_insert p p' i _ Hels) by done. done.
Qed.

(** A loop over the objects in use, with an invariant of the slots done; the body may
    change the pool, but not its dimensions. *)
Lemma for_each_used_rule {S R} (pl : S → pool T) (body : nat → T → S → outcome (ctl S R))
    (t : Z) (I : nat → S → Prop) (Q : R → Prop) (s : S)
    (Hok : ∀ i s, I i s → pool_ok (pl s) ∧ total_size (pl s) = t)
    (Hused : ∀ i s x, I i s → view (pl s) !! i = Some x →
      ∃ c, body i x s = Ok c ∧ match c with Next s' => I (Datatypes.S i) s' | Return r => Q r end)
    (Hskip : ∀ i s, I i s → view (pl s) !! i = None → I (Datatypes.S i) s)
    (Hinit : I 0%nat s) :
  ∃ c, for_each_used pl body s = Ok c ∧
    match c with Next s' => I (Z.to_nat t) s' | Return r => Q r end.
Proof.
  assert (∀ n i s, I i s → (i + n = Z.to_nat t)%nat → ∃ c, iterate_used pl body n i s = Ok c ∧
    match c with Next s' => I (Z.to_nat t) s' | Return r => Q r end) as Hloop.
  { induction n as [|n IH]; intros i s' HI Hn; cbn [iterate_used].
    { exists (Next s'). split; [done|]. by replace (Z.to_nat t) with i by lia. }
    destruct (Hok i s' HI) as [[Hp Hd] Ht].
    destruct (lookup_lt_is_Some_2 (all_elements (pl s')) i) as [e He].
    { pose proof (inv_total _ Hp). lia. }
    rewrite He. destruct (n_used e) eqn:Hu.
    - destruct (Hd i e He Hu) as [x Hx]. rewrite Hx. cbn [from_option_ub mbind outcome_bind].
      destruct (Hused i s' x HI) as (c & -> & Hc).
      { rewrite view_lookup, He. cbn. unfold node_data. by rewrite Hu. }
      cbn [mbind outcome_bind]. destruct c as [s''|r]; [apply IH; [done|lia]|by exists (Return r)].
    - apply IH; [|lia]. apply Hskip; [done|]. rewrite view_lookup, He. cbn. unfold node_data. by rewrite Hu. }
  unfold for_each_used. rewrite (proj2 (Hok 0%nat s Hinit)). by apply Hloop.
Qed.
End view.

(** ** Refinement of a set of names *)

(** What the pool promises: it hands out names from [(base, base + total]] that are not
    in use, until all are. *)
Inductive pool_op := OAlloc | OAllocId (objid : Z) | ORelease (objid : Z).

Definition pool_step {T} (o : pool_op) (p : pool T) : outcome (Z * pool T) :=
  match o with
  | OAlloc => SafeAlloc p
  | OAllocId objid => SafeAlloc_objid objid p
  | ORelease objid => p' ← Release objid p; mret (0, p')
  end.

Inductive spec_step (base total : Z) (S : gset Z) : pool_op → Z → gset Z → Prop :=
  | spec_alloc o : base < o ≤ base + total → o ∉ S →
      spec_step base total S OAlloc o ({[o]} ∪ S)
  | spec_full : Z.of_nat (size S) = total → spec_step base total S OAlloc 0 S
  | spec_alloc_id o : base < o ≤ base + total → o ∉ S →
      spec_step base total S (OAllocId o) o ({[o]} ∪ S)
  | spec_refused o : o ∈ S → spec_step base total S (OAllocId o) 0 S
  | spec_release o : o ∈ S → spec_step base total S (ORelease o) 0 (S ∖ {[o]}).

(** The calls a client may make: ids are [unsigned int], those that are asked for by name are
    of this pool ([assert(1 <= id && id <= _total_size)]), and only an object in use is
    released ([assert(_all_elements[id - 1]._used)]). *)
Definition allowed {T} (p : pool T) (o : pool_op) : Prop :=
  match o with
  | OAlloc => True
  | OAllocId objid => 0 ≤ objid < 2 ^ 32 ∧ 1 ≤ ConvertId (base_id p) (total_size p) objid ≤ total_size p
  | ORelease objid => objid ∈ used p
  end.

Lemma ConvertId_range {T} (p : pool T) o (Hp : pool_inv p) (Ho : 0 ≤ o < 2 ^ 32)
    (Hc : 1 ≤ ConvertId (base_id p) (total_size p) o ≤ total_size p) : base_id p < o ≤ base_id p + total_size p.
Proof.
  destruct Hp as [Hb Ht Hw _ _ _]. unfold ConvertId, u32, wrapu in Hc.
  destruct (Z_le_gt_dec o (1 + base_id p + total_size p)); [rewrite Z.mod_small in Hc; lia|].
  rewrite <- (Z.mod_unique (1 + base_id p + total_size p - o) (2 ^ 32) (-1) (1 + base_id p + total_size p - o + 2 ^ 32)) in Hc; lia.
Qed.

(** C23: every operation of the pool that a client may make ([allowed]: with the code's
    assertions on the ids it is called with) runs without an access out of range, keeps the
    invariant (the id stack holds exactly the ids of the slots not in use), and changes the
    set of objects in use as the specification says. *)
Theorem pool_refines {T} (p : pool T) (o : pool_op) (Hp : pool_inv p) (Ho : allowed p o) :
  ∃ r p', pool_step o p = Ok (r, p') ∧ pool_inv p' ∧ base_id p' = base_id p ∧
    total_size p' = total_size p ∧ spec_step (base_id p) (total_size p) (used p) o r (used p').
Proof.
  assert (∀ i b p', switched i b p p' → base_id p' = base_id p ∧ total_size p' = total_size p)
    as Hbt by (intros i b p' (n & ?); tauto).
  assert (∀ i n, all_elements p !! i = Some n →
    base_id p < objid_of p i ≤ base_id p + total_size p) as Hrange.
  { intros i n Hi%(slot_bound p i n (inv_dims p Hp)). unfold objid_of. lia. }
  assert (∀ i n, all_elements p !! i = Some n → n_used n = false → objid_of p i ∉ used p) as Hfresh.
  { intros i n Hi Hn (j & m & Hj & Hm & ->%objid_of_inj)%elem_of_used. congruence. }
  destruct o as [|o|o]; cbn in Ho; cbn [pool_step].
  - destruct (decide (unused_size p = 0)) as [Hz|Hz].
    + exists 0, p. rewrite SafeAlloc_full by done. repeat (split; [done|]). apply spec_full.
      rewrite size_used by done. lia.
    + destruct (SafeAlloc_spec p Hp Hz) as (i & p' & Heq & Hs & Hp'). exists (objid_of p i), p'.
      repeat (split; [done || by eapply Hbt|]). rewrite (switched_used p p' i Hs).
      destruct Hs as (n & Hn & Hu & _). constructor; eauto.
  - destruct Ho as [Ho Hr%ConvertId_range]; [|done..]. destruct (decide (o ∈ used p)) as [Hin|Hnin].
    + exists 0, p. rewrite SafeAlloc_objid_used; [repeat (split; [done|]); by apply spec_refused|done|done|]. apply elem_of_used in Hin as (i & n & Hi & Hu & ->).
      intros j m Hj ->%objid_of_inj. congruence.
    + destruct (lookup_lt_is_Some_2 (all_elements p) (Z.to_nat (base_id p + total_size p - o)))
        as [n Hn]; [pose proof (inv_total p Hp); lia|].
      remember (Z.to_nat (base_id p + total_size p - o)) as i eqn:Hi.
      assert (o = objid_of p i) as Ho' by (unfold objid_of; lia). clear Hi. subst o.
      assert (n_used n = false) as Hu.
      { destruct (n_used n) eqn:Hu; [|done]. exfalso. apply Hnin, elem_of_used. eauto. }
      destruct (SafeAlloc_objid_spec p i n Hp Hn Hu) as (p' & Heq & Hs & Hp').
      exists (objid_of p i), p'. repeat (split; [done || by eapply Hbt|]).
      rewrite (switched_used p p' i Hs). constructor; eauto.
  - pose proof Ho as (i & n & Hi & Hu & ->)%elem_of_used.
    destruct (ReleaseInternal_spec p i n Hp Hi Hu) as (p' & Heq & Hs & Hp' & _).
    exists 0, p'. unfold Release. rewrite Heq. cbn. repeat (split; [done || by eapply Hbt|]).
    rewrite (switched_unused p p' i Hs). by constructor.
Qed.

(** an object that is released is the next one handed out, and that leaves the
    elements as they were before the release. *)
Theorem release_alloc_roundtrip {T} (p : pool T) (o : Z) (Hp : pool_inv p) (Ho : o ∈ used p) :
  ∃ p' p'', Release o p = Ok p' ∧ SafeAlloc p' = Ok (o, p'') ∧
    all_elements p'' = all_elements p ∧ used p'' = used p.
Proof.
  apply elem_of_used in Ho as (i & n & Hi & Hu & ->). pose proof (inv_unused p Hp).
  destruct (ReleaseInternal_spec p i n Hp Hi Hu) as (p' & Heq & Hs & Hp' & Hsz & Htop).
  destruct Hs as (m & Hm & _ & Hels & Hb & Ht). rewrite Hi in Hm. injection Hm as <-.
  pose proof (lookup_lt_Some _ _ _ Hi).
  replace (unused_size p) with (unused_size p' - 1) in Htop by lia.
  eexists p', _. split; [done|]. unfold objid_of. rewrite <- Hb, <- Ht.
  rewrite (SafeAlloc_top p' i (Node (n_data n) false));
    [|by apply inv_dims|lia|done|by rewrite Hels, list_lookup_insert_eq].
  split; [done|]. assert (<[i := Node (n_data n) true]> (all_elements p') = all_elements p) as Hback.
  { rewrite Hels, list_insert_insert_eq. apply list_insert_id. rewrite Hi.
    destruct n. cbn in Hu. by subst. }
  cbn [n_data]. split; [done|]. unfold used, objid_of. cbn. by rewrite Hback, Hb, Ht.
Qed.

(** releasing an object twice, which nothing but an assertion checks, makes the pool
    hand it out twice; if it was the last one in use, the second release stores behind
    the id stack. *)
Theorem double_release {T} (p : pool T) (o : Z) (Hp : pool_inv p) (Ho : o ∈ used p) :
  (2 ≤ size (used p) → ∃ p2 p3 p4, (p1 ← Release o p; Release o p1) = Ok p2 ∧
     SafeAlloc p2 = Ok (o, p3) ∧ SafeAlloc p3 = Ok (o, p4))%nat ∧
  (size (used p) = 1%nat → (p1 ← Release o p; Release o p1) = Ub OobWrite).
Proof.
  pose proof (size_used p Hp) as Hsize. pose proof (inv_unused p Hp).
  apply elem_of_used in Ho as (i & n & Hi & Hu & ->).
  destruct (ReleaseInternal_spec p i n Hp Hi Hu) as (p1 & Heq & (m & Hm & _ & Hels & Hb & Ht)
    & Hp1 & Hsz & Htop).
  pose proof (lookup_lt_Some _ _ _ Hi). pose proof (inv_ids p1 Hp1). pose proof (inv_dims p1 Hp1).
  rewrite Hi in Hm. injection Hm as <-.
  assert (all_elements p1 !! i = Some (Node (n_data n) false)) as Hi1
    by (by rewrite Hels, list_lookup_insert_eq).
  unfold Release. rewrite Heq. cbn.
  replace (objid_of p i) with (objid_of p1 i) by (unfold objid_of; by rewrite Hb, Ht).
  rewrite (ReleaseInternal_at p1 i _ ltac:(done) ltac:(lia) Hi1).
  destruct (Z.ltb_spec (unused_size p1) (zlen (unused_ids p1))); (split; [|by intros; lia || done]);
    [|intros; lia].
  intros Hge. eexists _, _, _. split; [done|]. rewrite (SafeAlloc_top _ i (Node (n_data n) false)).
  - split; [done|]. cbn. rewrite (SafeAlloc_top _ i (Node (n_data n) true)).
    + done.
    + unfold dims in *. cbn. by rewrite !length_insert.
    + cbn. lia.
    + cbn. rewrite load1_insert_ne by lia. replace (unused_size p1 + 1 - 1 - 1) with (unused_size p) by lia.
      done.
    + cbn. rewrite list_lookup_insert_eq; [done|]. rewrite length_insert. by eapply lookup_lt_Some.
  - unfold dims in *. cbn. by rewrite length_insert.
  - cbn. lia.
  - cbn. replace (unused_size p1 + 1 - 1) with (unused_size p1) by lia. apply load1_insert. lia.
  - cbn. rewrite list_lookup_insert_eq; [done|]. by eapply lookup_lt_Some.
Qed.

(** *** Witnesses *)

(** A pool of three whose second and third objects are in use. *)
Definition ex_pool : pool Z :=
  match (p ← mret (SafeInit 600000 3); '(_, p) ← SafeAlloc p; SafeAlloc p) with
  | Ok (_, p) => p | Ub _ => SafeInit 0 0 end.

Lemma ex_pool_inv : pool_inv ex_pool.
Proof.
  assert (pool_inv (SafeInit 600000 3 : pool Z)) as H0 by (apply SafeInit_inv; lia).
  destruct (SafeAlloc_spec _ H0 ltac:(done)) as (i1 & p1 & E1 & _ & H1).
  destruct (SafeAlloc_spec p1 H1) as (i2 & p2 & E2 & _ & H2).
  { cbn in E1. by injection E1 as _ <-. }
  unfold ex_pool. unfold mret, outcome_ret, mbind, outcome_bind. by rewrite E1, E2.
Qed.

Lemma pool_refines_witness :
  600001 ∈ used ex_pool ∧
  ∃ r p', pool_step (ORelease 600001) ex_pool = Ok (r, p') ∧ pool_inv p' ∧ base_id p' = base_id ex_pool ∧
    total_size p' = total_size ex_pool ∧
    spec_step (base_id ex_pool) (total_size ex_pool) (used ex_pool) (ORelease 600001) r (used p').
Proof.
  split; [vm_compute; reflexivity|]. apply (pool_refines ex_pool (ORelease 600001) ex_pool_inv).
  vm_compute. reflexivity.
Defined.

Lemma release_alloc_roundtrip_witness :
  ∃ p' p'', Release 600001 ex_pool = Ok p' ∧ SafeAlloc p' = Ok (600001, p'') ∧
    all_elements p'' = all_elements ex_pool ∧ used p'' = used ex_pool.
Proof. apply (release_alloc_roundtrip ex_pool 600001 ex_pool_inv). vm_compute. reflexivity. Defined.

Lemma double_release_witness :
  ∃ p2 p3 p4, (p1 ← Release 600001 ex_pool; Release 600001 p1) = Ok p2 ∧
     SafeAlloc p2 = Ok (600001, p3) ∧ SafeAlloc p3 = Ok (600001, p4).
Proof.
  apply (proj1 (double_release ex_pool 600001 ex_pool_inv ltac:(vm_compute; reflexivity))).
  vm_compute. lia.
Defined.
