(* ===== verification/AccountList.v ===== *)
(** * The accounts: [lobby/AccountStateList.cpp]

    [CAccountStateList] keeps the accounts in an [ObjectPool] and remembers the answers of
    its lookups in three hash maps.  An account is named by its slot, as the code names it
    by a pointer to it; a C string is its bytes without the NUL.  Assertions are left out. *)

From S2P Require Import Prelude City ObjectPool.

#[local] Open Scope Z_scope.

(** [ACC_CONNECTION_ONOFF] *)
Inductive onoff_t := OnoffInit | OnoffOnline | OnoffOffline.
#[export] Instance onoff_eq_dec : EqDecision onoff_t.
Proof. solve_decision. Defined.

(** [ACCOUNT_STATE]: [a_login_state] is [ACC_LOGIN_STATE], which this code only clears. *)
Record account := Account {
  keyid : Z;
  is_ready : bool;
  uid : bytes;
  nick : bytes;
  pwd : bytes;
  connid : Z;
  inner_uuid : Z;
  conn_impl : Z;
  onoff : onoff_t;
  onoff_time : Z;
  ext_data : Z;
  a_login_state : Z;
  conflict_keyid : Z
}.

(** [memset] of the whole object to 0, the key and the initial state. *)
Definition fresh_account (objid : Z) : account :=
  Account objid false [] [] [] 0 0 0 OnoffInit 0 0 0 0.

Definition set_route (uConnId uInnerUuid pConnImpl tmNow : Z) (a : account) : account :=
  Account (keyid a) (is_ready a) (uid a) (nick a) (pwd a) uConnId uInnerUuid pConnImpl
    OnoffOnline tmNow (ext_data a) (a_login_state a) (conflict_keyid a).
Definition set_onoff (o : onoff_t) (tmNow : Z) (a : account) : account :=
  Account (keyid a) (is_ready a) (uid a) (nick a) (pwd a) (connid a) (inner_uuid a) (conn_impl a)
    o tmNow (ext_data a) (a_login_state a) (conflict_keyid a).
Definition set_ready (b : bool) (a : account) : account :=
  Account (keyid a) b (uid a) (nick a) (pwd a) (connid a) (inner_uuid a) (conn_impl a)
    (onoff a) (onoff_time a) (ext_data a) (a_login_state a) (conflict_keyid a).
Definition set_names (u n p : bytes) (a : account) : account :=
  Account (keyid a) (is_ready a) u n p (connid a) (inner_uuid a) (conn_impl a)
    (onoff a) (onoff_time a) (ext_data a) (a_login_state a) (conflict_keyid a).
Definition set_conflict (k : Z) (a : account) : account :=
  Account (keyid a) (is_ready a) (uid a) (nick a) (pwd a) (connid a) (inner_uuid a) (conn_impl a)
    (onoff a) (onoff_time a) (ext_data a) (a_login_state a) k.

(** [CAccountStateList] *)
Record acc_list := AccList {
  acc_pool : pool account;
  online_count : Z;
  uid_map : gmap Z nat;
  conn_map : gmap Z nat;
  uuid_map : gmap Z nat
}.

Definition set_pool (p : pool account) (l : acc_list) : acc_list :=
  AccList p (online_count l) (uid_map l) (conn_map l) (uuid_map l).
Definition set_count (n : Z) (l : acc_list) : acc_list :=
  AccList (acc_pool l) n (uid_map l) (conn_map l) (uuid_map l).
Definition set_uid_map (m : gmap Z nat) (l : acc_list) : acc_list :=
  AccList (acc_pool l) (online_count l) m (conn_map l) (uuid_map l).
Definition set_conn_map (m : gmap Z nat) (l : acc_list) : acc_list :=
  AccList (acc_pool l) (online_count l) (uid_map l) m (uuid_map l).
Definition set_uuid_map (m : gmap Z nat) (l : acc_list) : acc_list :=
  AccList (acc_pool l) (online_count l) (uid_map l) (conn_map l) m.

(** [accState] of a slot, and an assignment to its fields. *)
Definition get_acc (i : nat) (l : acc_list) : outcome account := deref i (acc_pool l).
Definition upd_acc (i : nat) (f : account → account) (l : acc_list) : outcome acc_list :=
  a ← get_acc i l; p ← assign i (f a) (acc_pool l); Ok (set_pool p l).

(** [CAccountStateList (nReserve)] *)
Definition CAccountStateList (nReserve : Z) : acc_list :=
  AccList (SafeInit 600000 nReserve) 0 ∅ ∅ ∅.

Definition Alloc (l : acc_list) : outcome (option nat * acc_list) :=
  '(objid, p) ← SafeAlloc (acc_pool l);
  if 0 <? objid then
    let i := Z.to_nat (Get objid p) in
    p ← assign i (fresh_account objid) p;
    Ok (Some i, set_pool p l)
  else Ok (None, set_pool p l).

(** The loops that only count or search. *)
Definition count_accounts (o : onoff_t) (l : acc_list) : outcome Z :=
  c ← for_each_used (λ '(_, l), acc_pool l)
        (λ _ a '(n, l), Ok (Next (if decide (onoff a = o) then u64 (n + 1) else n, l))) (0, l);
  Ok (continued c).1.

Definition CalcOnlineCount : acc_list → outcome Z := count_accounts OnoffOnline.
Definition CalcOfflineCount : acc_list → outcome Z := count_accounts OnoffOffline.

Definition Online (i : nat) (uConnId uInnerUuid pConnImpl tmNow : Z) (l : acc_list) : outcome acc_list :=
  l ← upd_acc i (set_route uConnId uInnerUuid pConnImpl tmNow) l;
  n ← CalcOnlineCount l;
  Ok (set_count n l).

Definition Offline (i : nat) (tmNow : Z) (l : acc_list) : outcome acc_list :=
  a ← get_acc i l;
  let l := if decide (onoff a = OnoffOnline)
           then set_count (u64 (online_count l - 1)) l (* fast calc online count *) else l in
  upd_acc i (set_onoff OnoffOffline tmNow) l.

(** [strcmp (...) == 0] *)
Definition TestUserId (a : account) (sUid : bytes) : bool := bool_decide (uid a = sUid).

Definition OfflineByUid (sUid : bytes) (tmNow : Z) (l : acc_list) : outcome (option nat * acc_list) :=
  c ← for_each_used acc_pool
        (λ i a l, if TestUserId a sUid then l ← Offline i tmNow l; Ok (Return (i, l)) else Ok (Next l)) l;
  Ok (match c with Next l => (None, l) | Return (i, l) => (Some i, l) end).

Definition KeepAlive (i : nat) (tmNow : Z) (l : acc_list) : outcome acc_list :=
  a ← get_acc i l;
  if decide (onoff a = OnoffOnline) then upd_acc i (λ a, set_onoff (onoff a) tmNow a) l else Ok l.

Definition CheckKeepAlive (nLostContactToleranceSeconds tmNow : Z) (l : acc_list) : outcome acc_list :=
  c ← for_each_used acc_pool
        (λ i a l,
           if decide (onoff a = OnoffOnline) then
             if nLostContactToleranceSeconds <=? s64 (tmNow - onoff_time a)
             then l ← Offline i tmNow l; Ok (Next l) else Ok (Next l)
           else Ok (Next l)) l;
  Ok (continued c).

Definition uid_hash (u : bytes) : outcome Z := CityHash64 u (zlen u).

(** The walk of the lookups: the first account in use that satisfies [P]. *)
Definition find_account (P : account → bool) (l : acc_list) : outcome (option nat) :=
  c ← for_each_used acc_pool (λ i a l, Ok (if P a then Return i else Next l)) l;
  Ok (match c with Next _ => None | Return i => Some i end).

Definition GetByUid (sUid : bytes) (l : acc_list) : outcome (option nat * acc_list) :=
  uUidHash ← uid_hash sUid;
  match uid_map l !! uUidHash with
  | Some i => Ok (Some i, l)
  | None =>
      r ← find_account (λ a, TestUserId a sUid) l;
      Ok (match r with
          | Some i => (Some i, set_uid_map (<[uUidHash := i]> (uid_map l)) l) (* store it in map for speed *)
          | None => (None, l)
          end)
  end.

Definition GetByConnId (uConnId : Z) (l : acc_list) : outcome (option nat * acc_list) :=
  match conn_map l !! uConnId with
  | Some i => Ok (Some i, l)
  | None =>
      r ← find_account (λ a, uConnId =? connid a) l;
      Ok (match r with
          | Some i => (Some i, set_conn_map (<[uConnId := i]> (conn_map l)) l)
          | None => (None, l)
          end)
  end.

Definition GetByInnerUuid (uInnerUuid : Z) (l : acc_list) : outcome (option nat * acc_list) :=
  match uuid_map l !! uInnerUuid with
  | Some i => Ok (Some i, l)
  | None =>
      r ← find_account (λ a, uInnerUuid =? inner_uuid a) l;
      Ok (match r with
          | Some i => (Some i, set_uuid_map (<[uInnerUuid := i]> (uuid_map l)) l)
          | None => (None, l)
          end)
  end.

Definition KeepAliveByUid (sUid : bytes) (tmNow : Z) (l : acc_list) : outcome (option nat * acc_list) :=
  '(r, l) ← GetByUid sUid l;
  match r with
  | Some i => l ← KeepAlive i tmNow l; Ok (Some i, l)
  | None => Ok (None, l)
  end.

(** [CAccountStateList::ReleaseInternal] *)
Definition ReleaseAccount (i : nat) (tmNow : Z) (l : acc_list) : outcome acc_list :=
  a ← get_acc i l;
  if is_ready a then
    l ← upd_acc i (set_ready false) l;
    (* kick from uidhash map *)
    uUidHash ← uid_hash (uid a);
    let l := set_uid_map (delete uUidHash (uid_map l)) l in
    (* kick from connid map *)
    let l := if 0 <? connid a then set_conn_map (delete (connid a) (conn_map l)) l else l in
    (* kick from uuid map *)
    let l := if 0 <? inner_uuid a then set_uuid_map (delete (inner_uuid a) (uuid_map l)) l else l in
    (* offline *)
    l ← Offline i tmNow l;
    (* release accState by keyid *)
    p ← ReleaseInternal (keyid a) (acc_pool l);
    Ok (set_pool p l)
  else Ok l.

(** [Get (nIndexId)], which never is NULL. *)
Definition GetAccount (nIndexId : Z) (l : acc_list) : nat := Z.to_nat (Get nIndexId (acc_pool l)).

Definition Kick (nIndexId tmNow : Z) (l : acc_list) : outcome acc_list :=
  ReleaseAccount (GetAccount nIndexId l) tmNow l.

Definition KickByUid (sUid : bytes) (tmNow : Z) (l : acc_list) : outcome acc_list :=
  '(r, l) ← GetByUid sUid l;
  match r with Some i => ReleaseAccount i tmNow l | None => Ok l end.

(** [v] is [vOutKickedList]. *)
Definition KickOfflineMoreThan (nOfflineToleranceSeconds nKickNumMax tmNow : Z) (v : list nat)
    (l : acc_list) : outcome (list nat * acc_list) :=
  c ← for_each_used (λ s, acc_pool s.2)
        (λ i a '(v, l),
           if decide (onoff a = OnoffOffline) then
             if nOfflineToleranceSeconds <=? s64 (tmNow - onoff_time a) then
               l ← ReleaseAccount i tmNow l;
               let v := v ++ [i] in
               Ok (if nKickNumMax <=? zlen v then Return (v, l) else Next (v, l))
             else Ok (Next (v, l))
           else Ok (Next (v, l))) (v, l);
  Ok (match c with Next s => s | Return s => s end).

Definition ConfirmAccountIsReady (i : nat) (uConnId uInnerUuid pConnImpl tmNow : Z) (l : acc_list) :
    outcome acc_list :=
  l ← Online i uConnId uInnerUuid pConnImpl tmNow l;
  upd_acc i (set_ready true) l.

(** ** The list as a map of accounts *)

(** The accounts in use by slot, the count that is kept, and the three maps. *)
Record acc_abs := Abs {
  ab_accs : gmap nat account;
  ab_count : Z;
  ab_uid : gmap Z nat;
  ab_conn : gmap Z nat;
  ab_uuid : gmap Z nat
}.

Definition ab_set (i : nat) (a : account) (A : acc_abs) : acc_abs :=
  Abs (<[i := a]> (ab_accs A)) (ab_count A) (ab_uid A) (ab_conn A) (ab_uuid A).
Definition ab_set_count (n : Z) (A : acc_abs) : acc_abs :=
  Abs (ab_accs A) n (ab_uid A) (ab_conn A) (ab_uuid A).

(** [l] with object ids from [b], and [t] slots, represents [A]. *)
Record rep (b t : Z) (l : acc_list) (A : acc_abs) : Prop := Rep {
  rp_pool : pool_ok (acc_pool l);
  rp_base : base_id (acc_pool l) = b;
  rp_total : total_size (acc_pool l) = t;
  rp_accs : view (acc_pool l) = ab_accs A;
  rp_count : online_count l = ab_count A;
  rp_uid : uid_map l = ab_uid A;
  rp_conn : conn_map l = ab_conn A;
  rp_uuid : uuid_map l = ab_uuid A
}.

(** The accounts that satisfy [P]. *)
Definition those (P : account → bool) (m : gmap nat account) : gmap nat account :=
  filter (λ p, P p.2 = true) m.
Definition is_onoff (o : onoff_t) (a : account) : bool := bool_decide (onoff a = o).

(** What a walk finds: the first slot whose account satisfies [P]. *)
Definition first_of (P : account → bool) (m : gmap nat account) (r : option nat) : Prop :=
  match r with
  | Some i => ∃ a, m !! i = Some a ∧ P a = true ∧ ∀ j b, (j < i)%nat → m !! j = Some b → P b = false
  | None => ∀ j b, m !! j = Some b → P b = false
  end.

Section reps.
Context (b t : Z).
Implicit Types (l : acc_list) (A : acc_abs).

Lemma rep_bound l A i a (HA : rep b t l A) (Hi : ab_accs A !! i = Some a) : Z.of_nat i < t.
Proof. destruct HA. subst t. eapply view_bound; [done|]. by rewrite rp_accs0. Qed.

Lemma rep_dims l A (HA : rep b t l A) : 0 ≤ b ∧ 0 ≤ t ∧ b + t + 1 < 2 ^ 32.
Proof. destruct HA as [[Hp _] <- <-]. destruct Hp. lia. Qed.

Lemma get_acc_rep l A i a (HA : rep b t l A) (Hi : ab_accs A !! i = Some a) : get_acc i l = Ok a.
Proof. apply deref_view. by rewrite (rp_accs b t l A HA). Qed.

Lemma upd_acc_rep l A i a f (HA : rep b t l A) (Hi : ab_accs A !! i = Some a) :
  ∃ l', upd_acc i f l = Ok l' ∧ rep b t l' (ab_set i (f a) A).
Proof.
  unfold upd_acc. rewrite (get_acc_rep l A i a HA Hi). cbn.
  destruct HA. rewrite <- rp_accs0 in Hi.
  destruct (assign_view (acc_pool l) i a (f a) rp_pool0 Hi) as (p' & -> & Hp' & Hv & Hb & Ht).
  eexists. split; [done|]. split; cbn; try done; congruence.
Qed.

Lemma set_count_rep l A n (HA : rep b t l A) : rep b t (set_count n l) (ab_set_count n A).
Proof. by destruct HA. Qed.

(** Filters and single updates. *)
Lemma size_those_insert P m i a :
  Z.of_nat (size (those P (<[i := a]> m))) =
    Z.of_nat (size (those P (delete i m))) + (if P a then 1 else 0).
Proof.
  unfold those. rewrite <- (insert_delete_eq m), map_filter_insert. cbn. destruct (P a).
  - rewrite decide_True by done. rewrite map_size_insert_None; [lia|].
    apply map_lookup_filter_None. left. apply lookup_delete_eq.
  - rewrite decide_False by done. rewrite delete_delete_eq. lia.
Qed.

Lemma size_those_split P m i a : m !! i = Some a →
  Z.of_nat (size (those P m)) = Z.of_nat (size (those P (delete i m))) + (if P a then 1 else 0).
Proof. intros Hi. rewrite <- (insert_id m i a Hi) at 1. apply size_those_insert. Qed.

Lemma size_those_le P m : (size (those P m) ≤ size m)%nat.
Proof. apply map_subseteq_size, map_filter_subseteq. Qed.

Lemma rep_size l A (HA : rep b t l A) : Z.of_nat (size (ab_accs A)) ≤ t.
Proof.
  pose proof (rep_dims l A HA) as (_ & Ht & _).
  assert (dom (ab_accs A) ⊆ set_seq 0 (Z.to_nat t)) as Hsub.
  { intros i [a Hi]%elem_of_dom. apply (rep_bound l A i a HA) in Hi. apply elem_of_set_seq. lia. }
  apply subseteq_size in Hsub. rewrite size_dom, size_set_seq in Hsub. lia.
Qed.

(** The counting loop counts. *)
Lemma count_accounts_rep l A o (HA : rep b t l A) :
  count_accounts o l = Ok (Z.of_nat (size (those (is_onoff o) (ab_accs A)))).
Proof.
  set (upto := λ i : nat, filter (λ p : nat * account, (p.1 < i)%nat) (ab_accs A)).
  unfold count_accounts.
  destruct (for_each_used_rule (λ '(_, l), acc_pool l)
    (λ _ a '(n, l), Ok (Next (R := False) (if decide (onoff a = o) then u64 (n + 1) else n, l))) t
    (λ i s, s.2 = l ∧ s.1 = Z.of_nat (size (those (is_onoff o) (upto i))))
    (λ _ : False, True) (0, l)) as (c & -> & Hc).
  - intros i [n l'] [Hl _]. cbn in Hl |- *. subst l'. by destruct HA.
  - intros i [n l'] a [Hl Hn] Hi. cbn in Hl, Hn, Hi |- *. subst l'. eexists. split; [done|]. cbn. split; [done|].
    rewrite (rp_accs b t l A HA) in Hi.
    assert (upto (S i) = <[i := a]> (upto i)) as ->.
    { apply map_eq. intros j. unfold upto. destruct (decide (j = i)) as [->|Hne].
      - rewrite lookup_insert_eq. by apply map_lookup_filter_Some_2; [|cbn; lia].
      - rewrite lookup_insert_ne by done. rewrite !map_lookup_filter. cbn.
        destruct (ab_accs A !! j); cbn; [|done]. repeat case_guard; try done; cbn in *; lia. }
    rewrite size_those_insert, delete_id by (by apply map_lookup_filter_None; right; intros ? ?; cbn; lia).
    unfold is_onoff at 2. rewrite Hn. case_decide; [rewrite bool_decide_true by done|rewrite bool_decide_false by done]; [|lia].
    pose proof (rep_size l A HA). pose proof (rep_dims l A HA).
    pose proof (size_those_le (is_onoff o) (upto i)).
    assert (size (upto i) ≤ size (ab_accs A))%nat by (apply map_subseteq_size, map_filter_subseteq).
    rewrite u64_small; lia.
  - intros i [n l'] [Hl Hn] Hi. cbn in Hl, Hn, Hi |- *. subst l'. split; [done|]. rewrite Hn. do 3 f_equal.
    rewrite (rp_accs b t l A HA) in Hi. apply map_eq. intros j. unfold upto.
    rewrite !map_lookup_filter. destruct (decide (j = i)) as [->|Hne]; [by rewrite Hi|].
    destruct (ab_accs A !! j); cbn; [|done]. repeat case_guard; try done; cbn in *; lia.
  - split; [done|]. cbn. assert (upto 0%nat = ∅) as ->; [|done].
    apply map_empty. intros i. apply map_lookup_filter_None. right. intros x _. cbn. lia.
  - destruct c as [[n l']|[]]. destruct Hc as [_ Hn]. cbn in Hn |- *. rewrite Hn. do 3 f_equal.
    f_equal. apply map_filter_id. intros i a Hi. cbn. apply (rep_bound l A i a HA) in Hi. lia.
Qed.
End reps.

(** ** The operations on the map *)

Section ops.
Context (b t : Z).
Implicit Types (l : acc_list) (A : acc_abs).

Lemma find_account_rep l A P (HA : rep b t l A) :
  ∃ r, find_account P l = Ok r ∧ first_of P (ab_accs A) r.
Proof.
  unfold find_account.
  destruct (for_each_used_rule acc_pool (λ i a l, Ok (if P a then Return i else Next l)) t
    (λ i l', l' = l ∧ ∀ j a, (j < i)%nat → ab_accs A !! j = Some a → P a = false)
    (λ i, first_of P (ab_accs A) (Some i)) l) as (c & -> & Hc).
  - intros i l' [-> _]. by destruct HA.
  - intros i l' a [-> Hlt] Hi. rewrite (rp_accs b t l A HA) in Hi. eexists. split; [done|].
    destruct (P a) eqn:Ha; [by exists a|]. split; [done|]. intros j a' Hj Hja.
    destruct (decide (j = i)) as [->|Hne]; [congruence|]. apply (Hlt j); [lia|done].
  - intros i l' [-> Hlt] Hi. rewrite (rp_accs b t l A HA) in Hi. split; [done|]. intros j a Hj Hja.
    destruct (decide (j = i)) as [->|Hne]; [congruence|]. apply (Hlt j); [lia|done].
  - split; [done|]. lia.
  - cbn. destruct c as [l'|i]; eexists; (split; [done|]); [|done]. destruct Hc as [_ Hc].
    intros j a Hja. apply (Hc j); [|done]. apply (rep_bound b t l A j a HA) in Hja. lia.
Qed.

Definition ab_set_uid (m : gmap Z nat) A : acc_abs :=
  Abs (ab_accs A) (ab_count A) m (ab_conn A) (ab_uuid A).
Definition ab_set_conn (m : gmap Z nat) A : acc_abs :=
  Abs (ab_accs A) (ab_count A) (ab_uid A) m (ab_uuid A).
Definition ab_set_uuid (m : gmap Z nat) A : acc_abs :=
  Abs (ab_accs A) (ab_count A) (ab_uid A) (ab_conn A) m.

(** A lookup through a map: what the map says, or the first account with the key, which
    the map then remembers. *)
Definition cached (m : gmap Z nat) (k : Z) (P : account → bool) (accs : gmap nat account)
    (r : option nat) (m' : gmap Z nat) : Prop :=
  match m !! k with
  | Some i => r = Some i ∧ m' = m
  | None => first_of P accs r ∧ m' = match r with Some i => <[k := i]> m | None => m end
  end.

Lemma GetByUid_rep l A u h (HA : rep b t l A) (Hh : uid_hash u = Ok h) :
  ∃ r l' m', GetByUid u l = Ok (r, l') ∧ rep b t l' (ab_set_uid m' A) ∧
    cached (ab_uid A) h (λ a, TestUserId a u) (ab_accs A) r m'.
Proof.
  unfold GetByUid, cached. rewrite Hh. cbn [mbind outcome_bind]. rewrite (rp_uid b t l A HA).
  destruct (ab_uid A !! h) as [i|] eqn:Hi.
  - exists (Some i), l, (ab_uid A). by destruct HA.
  - destruct (find_account_rep l A (λ a, TestUserId a u) HA) as (r & -> & Hr). cbn.
    destruct r as [i|]; [eexists _, _, (<[h := i]> (ab_uid A))|eexists _, _, (ab_uid A)];
      (split; [done|]); (split; [|done]); destruct HA; split; cbn; congruence.
Qed.

Lemma GetByConnId_rep l A k (HA : rep b t l A) :
  ∃ r l' m', GetByConnId k l = Ok (r, l') ∧ rep b t l' (ab_set_conn m' A) ∧
    cached (ab_conn A) k (λ a, k =? connid a) (ab_accs A) r m'.
Proof.
  unfold GetByConnId, cached. rewrite (rp_conn b t l A HA).
  destruct (ab_conn A !! k) as [i|] eqn:Hi.
  - exists (Some i), l, (ab_conn A). by destruct HA.
  - destruct (find_account_rep l A (λ a, k =? connid a) HA) as (r & -> & Hr). cbn.
    destruct r as [i|]; [eexists _, _, (<[k := i]> (ab_conn A))|eexists _, _, (ab_conn A)];
      (split; [done|]); (split; [|done]); destruct HA; split; cbn; congruence.
Qed.

Lemma GetByInnerUuid_rep l A k (HA : rep b t l A) :
  ∃ r l' m', GetByInnerUuid k l = Ok (r, l') ∧ rep b t l' (ab_set_uuid m' A) ∧
    cached (ab_uuid A) k (λ a, k =? inner_uuid a) (ab_accs A) r m'.
Proof.
  unfold GetByInnerUuid, cached. rewrite (rp_uuid b t l A HA).
  destruct (ab_uuid A !! k) as [i|] eqn:Hi.
  - exists (Some i), l, (ab_uuid A). by destruct HA.
  - destruct (find_account_rep l A (λ a, k =? inner_uuid a) HA) as (r & -> & Hr). cbn.
    destruct r as [i|]; [eexists _, _, (<[k := i]> (ab_uuid A))|eexists _, _, (ab_uuid A)];
      (split; [done|]); (split; [|done]); destruct HA; split; cbn; congruence.
Qed.

(** A new account, or none because every slot is taken. *)
Lemma Alloc_rep l A (HA : rep b t l A) :
  (Alloc l = Ok (None, l) ∧ ∀ i, Z.of_nat i < t → is_Some (ab_accs A !! i)) ∨
  ∃ i l', Alloc l = Ok (Some i, l') ∧ ab_accs A !! i = None ∧
    rep b t l' (ab_set i (fresh_account (b + t - Z.of_nat i)) A).
Proof.
  pose proof HA as []. unfold Alloc.
  destruct (alloc_view (acc_pool l)) as [[-> Hfull]|(i & p' & -> & Hpos & Hget & Hi & Hy)]; [done|..].
  - left. cbn. split; [by destruct l|]. intros i Hi. rewrite <- rp_accs0. apply Hfull. lia.
  - right. cbn. destruct (Z.ltb_spec 0 (objid_of (acc_pool l) i)); [|lia]. rewrite Hget, Nat2Z.id.
    destruct (Hy (fresh_account (objid_of (acc_pool l) i))) as (p'' & -> & Hp & Hv & Hb & Ht).
    cbn. exists i. eexists. split; [done|]. split; [by rewrite <- rp_accs0|].
    split; cbn; try done; unfold objid_of in *; congruence.
Qed.

Definition ab_online (m : gmap nat account) : Z := Z.of_nat (size (those (is_onoff OnoffOnline) m)).

Lemma Online_rep l A i a uConnId uInnerUuid pConnImpl tmNow
    (HA : rep b t l A) (Hi : ab_accs A !! i = Some a) :
  let A' := ab_set i (set_route uConnId uInnerUuid pConnImpl tmNow a) A in
  ∃ l', Online i uConnId uInnerUuid pConnImpl tmNow l = Ok l' ∧
    rep b t l' (ab_set_count (ab_online (ab_accs A')) A').
Proof.
  intros A'. unfold Online.
  destruct (upd_acc_rep b t l A i a (set_route uConnId uInnerUuid pConnImpl tmNow) HA Hi)
    as (l' & -> & HA'). cbn [mbind outcome_bind].
  unfold CalcOnlineCount. rewrite (count_accounts_rep b t l' A' OnoffOnline HA').
  eexists. split; [done|]. by apply set_count_rep.
Qed.

(** Taking an account offline counts it out if it was online. *)
Lemma Offline_rep l A i a tmNow (HA : rep b t l A) (Hi : ab_accs A !! i = Some a) :
  let n := if is_onoff OnoffOnline a then u64 (ab_count A - 1) else ab_count A in
  ∃ l', Offline i tmNow l = Ok l' ∧
    rep b t l' (ab_set_count n (ab_set i (set_onoff OnoffOffline tmNow a) A)).
Proof.
  unfold Offline. rewrite (get_acc_rep b t l A i a HA Hi). cbn [mbind outcome_bind].
  unfold is_onoff. case_decide; [rewrite bool_decide_true by done|rewrite bool_decide_false by done].
  - pose proof (set_count_rep b t l A (u64 (online_count l - 1)) HA) as HA1.
    destruct (upd_acc_rep b t _ _ i a (set_onoff OnoffOffline tmNow) HA1 Hi) as (l' & -> & Hl').
    exists l'. split; [done|]. by rewrite (rp_count b t l A HA) in Hl'.
  - destruct (upd_acc_rep b t l A i a (set_onoff OnoffOffline tmNow) HA Hi) as (l' & -> & Hl').
    exists l'. split; [done|]. by destruct Hl'.
Qed.

(** Releasing a ready account takes it out of the map, and its keys out of the caches. *)
Definition ab_release (i : nat) (a : account) (h : Z) A : acc_abs :=
  Abs (delete i (ab_accs A))
    (if is_onoff OnoffOnline a then u64 (ab_count A - 1) else ab_count A)
    (delete h (ab_uid A))
    (if 0 <? connid a then delete (connid a) (ab_conn A) else ab_conn A)
    (if 0 <? inner_uuid a then delete (inner_uuid a) (ab_uuid A) else ab_uuid A).

Lemma ReleaseAccount_rep l A i a h tmNow (HA : rep b t l A) (Hi : ab_accs A !! i = Some a)
    (Hr : is_ready a = true) (Hk : keyid a = b + t - Z.of_nat i) (Hh : uid_hash (uid a) = Ok h) :
  ∃ l', ReleaseAccount i tmNow l = Ok l' ∧ rep b t l' (ab_release i a h A).
Proof.
  unfold ReleaseAccount. rewrite (get_acc_rep b t l A i a HA Hi). cbn [mbind outcome_bind]. rewrite Hr.
  destruct (upd_acc_rep b t l A i a (set_ready false) HA Hi) as (l1 & -> & H1).
  cbn [mbind outcome_bind]. rewrite Hh. cbn [mbind outcome_bind].
  set (l2 := if 0 <? inner_uuid a then _ else _).
  set (A2 := Abs (<[i := set_ready false a]> (ab_accs A)) (ab_count A) (delete h (ab_uid A))
    (if 0 <? connid a then delete (connid a) (ab_conn A) else ab_conn A)
    (if 0 <? inner_uuid a then delete (inner_uuid a) (ab_uuid A) else ab_uuid A)).
  assert (rep b t l2 A2) as H2.
  { destruct H1 as [? ? ? ? ? Hu Hc Hi']. cbn in Hu, Hc, Hi'. unfold l2.
    destruct (0 <? connid a) eqn:E1, (0 <? inner_uuid a) eqn:E2;
      split; cbn; rewrite ?E1, ?E2; try done; by rewrite ?Hu, ?Hc, ?Hi'. }
  assert (ab_accs A2 !! i = Some (set_ready false a)) as Hi2 by apply lookup_insert_eq.
  destruct (Offline_rep l2 A2 i _ tmNow H2 Hi2) as (l3 & -> & H3). cbn [mbind outcome_bind].
  pose proof H3 as [Hp Hb Ht Hv _ _ _ _].
  replace (keyid a) with (objid_of (acc_pool l3) i) by (unfold objid_of; congruence).
  destruct (release_view (acc_pool l3) i (set_onoff OnoffOffline tmNow (set_ready false a)) Hp)
    as (p & -> & Hp' & Hv' & Hb' & Ht').
  { rewrite Hv. cbn. apply lookup_insert_eq. }
  eexists. split; [done|]. destruct H3. split; cbn; try done; [congruence..|]. rewrite Hv', Hv. cbn.
  by rewrite !delete_insert_eq.
Qed.
End ops.
