(* ===== verification/AccountManager.v ===== *)
(** * Registration of accounts: [lobby/SimpleAccountManager.cpp]

    [CSimpleAccountManager] over its [CAccountStateList]: registering a user on a
    connection, with the handling of a second login, and unregistering. *)

From S2P Require Import Prelude FmtInt Vsnprintf VsnprintfSafe VsnprintfText SnprintfCall.
From S2P Require Import City ObjectPool AccountList.

#[local] Open Scope Z_scope.

(** [ACC_REG_RESULT] *)
Inductive reg_result :=
  | RegListIsFull | RegMainNotReady | RegTooManyTimes | RegUidOverflow | RegInvalidUid
  | RegOk | RegConflict | RegDuplicate.

Definition reg_code (r : reg_result) : Z :=
  match r with
  | RegListIsFull => -5 | RegMainNotReady => -4 | RegTooManyTimes => -3
  | RegUidOverflow => -2 | RegInvalidUid => -1
  | RegOk => 0 | RegConflict => 1 | RegDuplicate => 2
  end.

(** [Register] returns a result, and the account through [ppOutAccount] unless it is
    negative; or it throws. *)
Inductive registered := Registered (r : reg_result) (account : option nat) | Thrown.

Section manager.
Context {env : Env}.

(** The checks, up to [// check result]: the result, the account to bind and the list. *)
Definition choose_account (sUid sNick sPwd : bytes) (uConnId : Z) (l : acc_list) :
    outcome (registered * acc_list) :=
  if zlen sUid <=? 0 then Ok (Registered RegInvalidUid None, l)
  else if (36 <=? zlen sUid) || (36 <=? zlen sNick) || (40 <=? zlen sPwd) then
    Ok (Registered RegUidOverflow None, l)
  else
    (* check conflict *)
    '(conflictAccount, l) ← GetByUid sUid l;
    match conflictAccount with
    | Some c =>
        a ← get_acc c l;
        if 0 <? conflict_keyid a then
          (* target is already in conflict state *)
          Ok (Registered RegTooManyTimes None, l)
        else if ext_data a =? 0 then
          (* target's ext_data is not ready, must wait *)
          Ok (Registered RegMainNotReady None, l)
        else if negb (uConnId =? connid a) then
          (* conflict on different connection, alloc new account *)
          '(account, l) ← Alloc l;
          match account with
          | None => Ok (Registered RegListIsFull None, l)
          | Some i =>
              if decide (i = c) then Ok (Thrown, l)
              else
                (* mark conflict keyid each other *)
                a ← get_acc c l;
                l ← upd_acc i (set_conflict (keyid a)) l;
                b ← get_acc i l;
                l ← upd_acc c (set_conflict (keyid b)) l;
                Ok (Registered RegConflict (Some i), l)
          end
        else Ok (Registered RegDuplicate (Some c), l)
    | None =>
        '(account, l) ← Alloc l;
        Ok (match account with
            | None => Registered RegListIsFull None
            | Some i => Registered RegOk (Some i)
            end, l)
    end.

(** [// bind account info] *)
Definition bind_account (i : nat) (sUid sNick sPwd : bytes) (uConnId uInnerUuid pConnImpl tmNow : Z)
    (l : acc_list) : outcome acc_list :=
  u ← snprintf_text 36 "%s" [AText sUid];
  n ← snprintf_text 36 "%s" [AText sNick];
  p ← snprintf_text 40 "%s" [AText sPwd];
  l ← upd_acc i (set_names u n p) l;
  ConfirmAccountIsReady i uConnId uInnerUuid pConnImpl tmNow l.

Definition Register (sUid sNick sPwd : bytes) (uConnId uInnerUuid pConnImpl tmNow : Z) (l : acc_list) :
    outcome (registered * acc_list) :=
  '(r, l) ← choose_account sUid sNick sPwd uConnId l;
  match r with
  | Registered e (Some i) =>
      if 0 <=? reg_code e then
        l ← bind_account i sUid sNick sPwd uConnId uInnerUuid pConnImpl tmNow l;
        Ok (r, l)
      else Ok (r, l)
  | _ => Ok (r, l)
  end.

(** An account that is not ready is only reported. *)
Definition Unregister (i : nat) (tmNow : Z) (l : acc_list) : outcome acc_list :=
  a ← get_acc i l;
  if is_ready a then
    (* clear conflict keyid before release *)
    l ← (if 0 <? conflict_keyid a then
           let j := GetAccount (conflict_keyid a) l in
           l ← upd_acc i (set_conflict 0) l;
           upd_acc j (set_conflict 0) l
         else Ok l);
    ReleaseAccount i tmNow l
  else Ok l.

Definition UnregisterByConnId (uConnId tmNow : Z) (l : acc_list) : outcome acc_list :=
  c ← for_each_used acc_pool
        (λ i a l, if uConnId =? connid a then l ← Unregister i tmNow l; Ok (Next l) else Ok (Next l)) l;
  Ok (continued c).

Definition LookupAccountByInnerUuid : Z → acc_list → outcome (option nat * acc_list) := GetByInnerUuid.
End manager.

(** ** The invariant *)

(** A C string of less than [n] bytes. *)
Definition text_ok (n : Z) (s : bytes) : Prop := Forall (λ c, 0 < c < 256) s ∧ zlen s < n.

(** An account that has been registered, in slot [i]. *)
Record account_ok (b t : Z) (i : nat) (a : account) : Prop := AccountOk {
  ac_slot : Z.of_nat i < t;
  ac_key : keyid a = b + t - Z.of_nat i;
  ac_ready : is_ready a = true;
  ac_uid : text_ok 36 (uid a);
  ac_connid : 0 < connid a;
  ac_uuid : 0 < inner_uuid a
}.

Definition accounts_ok (b t : Z) (m : gmap nat account) : Prop :=
  0 ≤ b ∧ ∀ i a, m !! i = Some a → account_ok b t i a.

(** Each map leads to an account in use that has the key. *)
Record caches_ok (m : gmap nat account) (um cm im : gmap Z nat) : Prop := CachesOk {
  ca_uid : ∀ h i, um !! h = Some i → ∃ a, m !! i = Some a ∧ uid_hash (uid a) = Ok h;
  ca_conn : ∀ k i, cm !! k = Some i → ∃ a, m !! i = Some a ∧ connid a = k;
  ca_uuid : ∀ k i, im !! k = Some i → ∃ a, m !! i = Some a ∧ inner_uuid a = k
}.

(** Two accounts that a conflict ties together. *)
Definition tied (a a' : account) : Prop :=
  conflict_keyid a = keyid a' ∧ conflict_keyid a' = keyid a ∧ uid a = uid a'.

(** A conflict ties two accounts of one user, and two accounts of one user are tied. *)
Record ties_ok (m : gmap nat account) : Prop := TiesOk {
  ti_conflict : ∀ i a, m !! i = Some a → conflict_keyid a = 0 ∨
    ∃ j a', j ≠ i ∧ m !! j = Some a' ∧ tied a a';
  ti_twins : ∀ i j a a', i ≠ j → m !! i = Some a → m !! j = Some a' → uid a = uid a' → tied a a'
}.

(** The invariant between two calls. *)
Record acc_inv (b t : Z) (A : acc_abs) : Prop := AccInv {
  ai_accounts : accounts_ok b t (ab_accs A);
  ai_count : ab_count A = ab_online (ab_accs A);
  ai_caches : caches_ok (ab_accs A) (ab_uid A) (ab_conn A) (ab_uuid A);
  ai_ties : ties_ok (ab_accs A)
}.

(** A list and the accounts it holds. *)
Definition list_ok (b t : Z) (l : acc_list) (A : acc_abs) : Prop := rep b t l A ∧ acc_inv b t A.

Section inv.
Context (b t : Z).
Implicit Types (l : acc_list) (A : acc_abs).

Lemma uid_hash_total u n (Hu : text_ok n u) (Hn : n < 2 ^ 64) : ∃ h, uid_hash u = Ok h.
Proof.
  destruct Hu as [Hu Hl]. unfold uid_hash.
  assert (Forall byte_ok u) by (eapply Forall_impl; [exact Hu|]; unfold byte_ok; cbn; lia).
  destruct (CityHash64_gives u) as (h & Hh & _); eauto. lia.
Qed.

Lemma key_pos m i a (Hm : accounts_ok b t m) (Hi : m !! i = Some a) : 0 < keyid a.
Proof. destruct Hm as [Hb Hm]. destruct (Hm i a Hi). lia. Qed.

Lemma key_inj m i j a a' (Hm : accounts_ok b t m) (Hi : m !! i = Some a) (Hj : m !! j = Some a') :
  keyid a = keyid a' → i = j.
Proof. destruct Hm as [_ Hm]. destruct (Hm i a Hi), (Hm j a' Hj). lia. Qed.

Lemma accounts_ok_insert m i a (Hm : accounts_ok b t m) (Ha : account_ok b t i a) :
  accounts_ok b t (<[i := a]> m).
Proof.
  split; [apply Hm|]. intros j a' [[<- <-]|[_ Hj]]%lookup_insert_Some; [done|]. by apply Hm.
Qed.

Lemma accounts_ok_delete m i (Hm : accounts_ok b t m) : accounts_ok b t (delete i m).
Proof. split; [apply Hm|]. intros j a [_ Hj]%lookup_delete_Some. by apply Hm. Qed.

(** Maps that were right stay right while the accounts keep their keys. *)
Lemma caches_mono m m' um cm im (Hc : caches_ok m um cm im)
    (Hm : ∀ i a, m !! i = Some a → ∃ a', m' !! i = Some a' ∧ uid a' = uid a ∧
      connid a' = connid a ∧ inner_uuid a' = inner_uuid a) :
  caches_ok m' um cm im.
Proof.
  destruct Hc as [Hu Hc Hi]. split; intros k i Hk;
    [destruct (Hu k i Hk) as (a & Ha & Hka)|destruct (Hc k i Hk) as (a & Ha & Hka)
    |destruct (Hi k i Hk) as (a & Ha & Hka)];
    destruct (Hm i a Ha) as (a' & Ha' & E1 & E2 & E3); exists a'; split; congruence.
Qed.

Lemma caches_insert m um cm im i a' (Hc : caches_ok m um cm im)
    (Hi : ∀ a, m !! i = Some a → uid a' = uid a ∧ connid a' = connid a ∧ inner_uuid a' = inner_uuid a) :
  caches_ok (<[i := a']> m) um cm im.
Proof.
  eapply caches_mono; [done|]. intros j a Hj. destruct (decide (j = i)) as [->|Hne].
  - rewrite lookup_insert_eq. eauto.
  - rewrite lookup_insert_ne by done. eauto.
Qed.

(** Taking an account out, and its keys out of the maps. *)
Lemma caches_release m um cm im i a h (Hc : caches_ok m um cm im)
    (Hi : m !! i = Some a) (Hh : uid_hash (uid a) = Ok h) :
  caches_ok (delete i m) (delete h um) (delete (connid a) cm) (delete (inner_uuid a) im).
Proof.
  destruct Hc as [Hu Hc Hx]. split; intros k j [Hne Hk]%lookup_delete_Some.
  - destruct (Hu k j Hk) as (a' & Ha' & Hk'). exists a'. rewrite lookup_delete_ne; [done|].
    intros ->. congruence.
  - destruct (Hc k j Hk) as (a' & Ha' & Hk'). exists a'. rewrite lookup_delete_ne; [done|].
    intros ->. congruence.
  - destruct (Hx k j Hk) as (a' & Ha' & Hk'). exists a'. rewrite lookup_delete_ne; [done|].
    intros ->. congruence.
Qed.

(** A first account of a user. *)
Lemma ties_new m i a (Hm : ties_ok m) (Hi : m !! i = None) (Ha : conflict_keyid a = 0)
    (Hu : ∀ j a', m !! j = Some a' → uid a' ≠ uid a) :
  ties_ok (<[i := a]> m).
Proof.
  destruct Hm as [Hc Ht]. split.
  - intros j a1 [[<- <-]|[Hne Hj]]%lookup_insert_Some; [by left|].
    destruct (Hc j a1 Hj) as [?|(k & a' & Hk & Ha' & Htie)]; [by left|right].
    exists k, a'. rewrite lookup_insert_ne by congruence. done.
  - intros j k a1 a2 Hjk [[<- <-]|[Hj1 Hj]]%lookup_insert_Some [[<- <-]|[Hk1 Hk]]%lookup_insert_Some Heq.
    + done.
    + by destruct (Hu k a2 Hk).
    + by destruct (Hu j a1 Hj).
    + by apply (Ht j k).
Qed.

(** A second account of the user whose first has no conflict. *)
Lemma ties_second m i c a a' (Hok : accounts_ok b t m) (Hm : ties_ok m) (Hi : m !! i = None)
    (Hc : m !! c = Some a') (Hz : conflict_keyid a' = 0) (Hu : uid a' = uid a)
    (Ha : conflict_keyid a = keyid a') :
  ties_ok (<[c := set_conflict (keyid a) a']> (<[i := a]> m)).
Proof.
  assert (c ≠ i) as Hci by congruence. destruct Hm as [Hcf Ht].
  assert (∀ j a1, j ≠ c → m !! j = Some a1 → uid a1 ≠ uid a) as Hother.
  { intros j a1 Hj Hj1 Heq. destruct (Ht c j a' a1) as (Hk & _); [done|done|done|congruence|].
    pose proof (key_pos m j a1 Hok Hj1). lia. }
  assert (tied (set_conflict (keyid a) a') a) as Htie by done.
  assert (tied a (set_conflict (keyid a) a')) as Htie' by done.
  split.
  - intros j a1 [[<- <-]|[Hjc [[<- <-]|[Hji Hj]]%lookup_insert_Some]]%lookup_insert_Some.
    + right. exists i, a. rewrite lookup_insert_ne, lookup_insert_eq by done. done.
    + right. exists c. eexists. rewrite lookup_insert_eq. done.
    + destruct (Hcf j a1 Hj) as [?|(k & a2 & Hk & Ha2 & Htie2)]; [by left|right]. exists k, a2.
      split; [done|]. split; [|done]. rewrite !lookup_insert_ne; [done|congruence|].
      intros <-. rewrite Hc in Ha2. injection Ha2 as <-. destruct Htie2 as (_ & Hz2 & _).
      pose proof (key_pos m j a1 Hok Hj). lia.
  - intros j k a1 a2 Hjk [[<- <-]|[Hjc [[<- <-]|[Hji Hj]]%lookup_insert_Some]]%lookup_insert_Some
      [[<- <-]|[Hkc [[<- <-]|[Hki Hk]]%lookup_insert_Some]]%lookup_insert_Some Heq; try done.
    + cbn in Heq. rewrite Hu in Heq. by destruct (Hother k a2).
    + by destruct (Hother k a2).
    + cbn in Heq. rewrite Hu in Heq. by destruct (Hother j a1).
    + by destruct (Hother j a1).
    + by apply (Ht j k).
Qed.

(** An account that keeps its key, user and conflict. *)
Lemma tied_same a a' a2 (Hk : keyid a' = keyid a) (Hu : uid a' = uid a)
    (Hc : conflict_keyid a' = conflict_keyid a) : tied a a2 ↔ tied a' a2.
Proof. unfold tied. by rewrite Hk, Hu, Hc. Qed.

Lemma tied_comm a a' : tied a a' → tied a' a.
Proof. intros (? & ? & ?). done. Qed.

Lemma ties_same m i a a' (Hm : ties_ok m) (Hi : m !! i = Some a)
    (Hk : keyid a' = keyid a) (Hu : uid a' = uid a) (Hc : conflict_keyid a' = conflict_keyid a) :
  ties_ok (<[i := a']> m).
Proof.
  destruct Hm as [Hcf Ht]. pose proof (λ a2, tied_same a a' a2 Hk Hu Hc) as Hsame. split.
  - intros j a1 [[<- <-]|[Hne Hj]]%lookup_insert_Some.
    + destruct (Hcf i a Hi) as [?|(k & a2 & Hk2 & Ha2 & Htie)]; [left; congruence|right].
      exists k, a2. rewrite lookup_insert_ne by done. by rewrite <- Hsame.
    + destruct (Hcf j a1 Hj) as [?|(k & a2 & Hk2 & Ha2 & Htie)]; [by left|right].
      destruct (decide (k = i)) as [->|Hki].
      * exists i, a'. rewrite lookup_insert_eq. rewrite Hi in Ha2. injection Ha2 as <-.
        split; [done|]. split; [done|]. apply tied_comm, Hsame, tied_comm, Htie.
      * exists k, a2. by rewrite lookup_insert_ne.
  - intros j k a1 a2 Hjk [[<- <-]|[Hj1 Hj]]%lookup_insert_Some [[<- <-]|[Hk1 Hk2]]%lookup_insert_Some Heq.
    + done.
    + apply Hsame. apply (Ht i k); congruence.
    + apply tied_comm, Hsame, tied_comm. apply (Ht j i); congruence.
    + by apply (Ht j k).
Qed.

(** Taking out an account without a conflict. *)
Lemma ties_release m i a (Hok : accounts_ok b t m) (Hm : ties_ok m) (Hi : m !! i = Some a)
    (Hz : conflict_keyid a = 0) :
  ties_ok (delete i m).
Proof.
  destruct Hm as [Hcf Ht]. split.
  - intros j a1 [Hne Hj]%lookup_delete_Some.
    destruct (Hcf j a1 Hj) as [?|(k & a2 & Hk & Ha2 & Htie)]; [by left|right]. exists k, a2.
    rewrite lookup_delete_ne; [done|]. intros <-. rewrite Hi in Ha2. injection Ha2 as <-.
    destruct Htie as (_ & Hz2 & _). pose proof (key_pos m j a1 Hok Hj). lia.
  - intros j k a1 a2 Hjk [_ Hj]%lookup_delete_Some [_ Hk]%lookup_delete_Some.
    by apply (Ht j k).
Qed.

(** Taking out an account with a conflict, and freeing the other. *)
Lemma ties_untie m i j a a' (Hok : accounts_ok b t m) (Hm : ties_ok m) (Hi : m !! i = Some a)
    (Hj : m !! j = Some a') (Hij : j ≠ i) (Htie : tied a a') :
  ties_ok (delete i (<[j := set_conflict 0 a']> m)).
Proof.
  destruct Hm as [Hcf Ht]. destruct Htie as (H1 & H2 & H3).
  assert (∀ k a1, k ≠ i → k ≠ j → m !! k = Some a1 → uid a1 ≠ uid a') as Hother.
  { intros k a1 Hki Hkj Hk Heq. destruct (Ht j k a' a1) as (Hk' & _); [done..|].
    apply Hki. apply (key_inj m k i a1 a Hok Hk Hi). congruence. }
  split.
  - intros k a1 [Hki [[<- <-]|[Hkj Hk]]%lookup_insert_Some]%lookup_delete_Some; [by left|].
    destruct (Hcf k a1 Hk) as [?|(k2 & a2 & Hk2 & Ha2 & Htie2)]; [by left|right]. exists k2, a2.
    split; [done|]. split; [|done]. destruct Htie2 as (E1 & E2 & E3).
    rewrite lookup_delete_ne, lookup_insert_ne; [done|..].
    + intros <-. rewrite Hj in Ha2. injection Ha2 as <-.
      apply Hki. symmetry. apply (key_inj m k i a1 a Hok Hk Hi). congruence.
    + intros <-. rewrite Hi in Ha2. injection Ha2 as <-.
      apply Hkj. symmetry. apply (key_inj m k j a1 a' Hok Hk Hj). congruence.
  - intros k k2 a1 a2 Hkk [Hki [[<- <-]|[Hkj Hk]]%lookup_insert_Some]%lookup_delete_Some
      [Hki2 [[<- <-]|[Hkj2 Hk2]]%lookup_insert_Some]%lookup_delete_Some Heq; try done.
    + by destruct (Hother k2 a2).
    + by destruct (Hother k a1).
    + by apply (Ht k k2).
Qed.

(** A lookup through a right map gives a right answer and leaves the map right. *)
Lemma cached_sound (K : Z → account → Prop) (P : account → bool) um k m r um'
    (Hum : ∀ h i, um !! h = Some i → ∃ a, m !! i = Some a ∧ K h a)
    (HP : ∀ a, P a = true → K k a) (Hc : cached um k P m r um') :
  (∀ h i, um' !! h = Some i → ∃ a, m !! i = Some a ∧ K h a) ∧
  match r with
  | Some i => ∃ a, m !! i = Some a ∧ K k a
  | None => ∀ j a, m !! j = Some a → P a = false
  end.
Proof.
  unfold cached in Hc. destruct (um !! k) as [i|] eqn:Hk.
  - destruct Hc as [-> ->]. split; [done|]. by apply Hum.
  - destruct Hc as [Hr ->]. destruct r as [i|]; [|done].
    destruct Hr as (a & Ha & HPa & _). apply HP in HPa. split; [|eauto].
    intros h j [[<- <-]|[_ Hj]]%lookup_insert_Some; eauto.
Qed.

Lemma uid_cached A u h r um (Hi : acc_inv b t A) (Hh : uid_hash u = Ok h)
    (Hc : cached (ab_uid A) h (λ a, TestUserId a u) (ab_accs A) r um) :
  acc_inv b t (ab_set_uid um A) ∧
  match r with
  | Some i => ∃ a, ab_accs A !! i = Some a ∧ uid_hash (uid a) = Ok h
  | None => ∀ j a, ab_accs A !! j = Some a → uid a ≠ u
  end.
Proof.
  destruct Hi as [? ? [Hu Hk Hx] ?]. apply (cached_sound (λ h a, uid_hash (uid a) = Ok h)) in Hc as [Hu' Hr]; [|exact Hu|].
  - split; [split; try done; by split|]. destruct r; [done|]. intros j a Hj Heq.
    specialize (Hr j a Hj). unfold TestUserId in Hr. by rewrite bool_decide_true in Hr.
  - intros a Ha. unfold TestUserId in Ha. apply bool_decide_eq_true in Ha. by rewrite Ha.
Qed.

Lemma conn_cached A k r cm (Hi : acc_inv b t A)
    (Hc : cached (ab_conn A) k (λ a, k =? connid a) (ab_accs A) r cm) :
  acc_inv b t (ab_set_conn cm A) ∧
  match r with
  | Some i => ∃ a, ab_accs A !! i = Some a ∧ connid a = k
  | None => ∀ j a, ab_accs A !! j = Some a → connid a ≠ k
  end.
Proof.
  destruct Hi as [? ? [Hu Hk Hx] ?]. apply (cached_sound (λ k a, connid a = k)) in Hc as [Hk' Hr]; [|exact Hk|].
  - split; [split; try done; by split|]. destruct r; [done|]. intros j a Hj Heq.
    specialize (Hr j a Hj). cbn in Hr. lia.
  - intros a Ha. cbn in Ha |- *. lia.
Qed.

Lemma uuid_cached A k r im (Hi : acc_inv b t A)
    (Hc : cached (ab_uuid A) k (λ a, k =? inner_uuid a) (ab_accs A) r im) :
  acc_inv b t (ab_set_uuid im A) ∧
  match r with
  | Some i => ∃ a, ab_accs A !! i = Some a ∧ inner_uuid a = k
  | None => ∀ j a, ab_accs A !! j = Some a → inner_uuid a ≠ k
  end.
Proof.
  destruct Hi as [? ? [Hu Hk Hx] ?]. apply (cached_sound (λ k a, inner_uuid a = k)) in Hc as [Hx' Hr]; [|exact Hx|].
  - split; [split; try done; by split|]. destruct r; [done|]. intros j a Hj Heq.
    specialize (Hr j a Hj). cbn in Hr. lia.
  - intros a Ha. cbn in Ha |- *. lia.
Qed.

Lemma ab_online_insert m i a :
  ab_online (<[i := a]> m) = ab_online (delete i m) + (if is_onoff OnoffOnline a then 1 else 0).
Proof. apply size_those_insert. Qed.

Lemma ab_online_split m i a : m !! i = Some a →
  ab_online m = ab_online (delete i m) + (if is_onoff OnoffOnline a then 1 else 0).
Proof. apply size_those_split. Qed.

(** The account that registration leaves. *)
Definition bound (s n p : bytes) (conn uuid impl now : Z) (a : account) : account :=
  set_ready true (set_route conn uuid impl now (set_names s n p a)).

Definition ab_bind (i : nat) (a : account) A : acc_abs :=
  let m := <[i := a]> (ab_accs A) in Abs m (ab_online m) (ab_uid A) (ab_conn A) (ab_uuid A).

Lemma bind_account_rep `{!Env} l A i a s n p conn uuid impl now
    (HA : rep b t l A) (Hi : ab_accs A !! i = Some a)
    (Hs : text_ok 36 s) (Hn : text_ok 36 n) (Hp : text_ok 40 p) :
  ∃ l', bind_account i s n p conn uuid impl now l = Ok l' ∧
    rep b t l' (ab_bind i (bound s n p conn uuid impl now a) A).
Proof.
  assert (∀ k x, text_ok k x → snprintf_text k "%s" [AText x] = Ok x) as Hcopy.
  { intros k x [Hx Hl]. apply snprintf_text_s; [|done]. intros Hin%list_elem_of_In.
    eapply Forall_forall in Hx; [|exact Hin]. lia. }
  unfold bind_account. rewrite !Hcopy by done. cbn [mbind outcome_bind].
  destruct (upd_acc_rep b t l A i a (set_names s n p) HA Hi) as (l1 & -> & H1).
  cbn [mbind outcome_bind]. unfold ConfirmAccountIsReady.
  destruct (Online_rep b t l1 _ i _ conn uuid impl now H1 (lookup_insert_eq _ _ _)) as (l2 & -> & H2).
  cbn [mbind outcome_bind].
  destruct (upd_acc_rep b t l2 _ i _ (set_ready true) H2 (lookup_insert_eq _ _ _)) as (l3 & -> & H3).
  exists l3. split; [done|]. unfold ab_bind, bound.
  destruct H3 as [? ? ? Hv Hn' ? ? ?].
  split; try done; cbn [ab_accs ab_set ab_set_count ab_count] in *.
  - by rewrite Hv, !insert_insert_eq.
  - rewrite Hn', !insert_insert_eq, !ab_online_insert. done.
Qed.
End inv.

(** ** What [Register] promises *)

Section spec.
Context (b t : Z) (s n p : bytes) (conn uuid impl now : Z).
Implicit Types m : gmap nat account.

(** Every slot is taken. *)
Definition full m : Prop := ∀ i, Z.of_nat i < t → is_Some (m !! i).

(** The account of the user, before. *)
Definition holder m (j : nat) (a : account) : Prop := m !! j = Some a ∧ uid a = s.
Definition nobody m : Prop := ∀ j a, m !! j = Some a → uid a ≠ s.

Definition new_account (i : nat) : account := fresh_account (b + t - Z.of_nat i).
Definition bound_to : account → account := bound s n p conn uuid impl now.

(** [registers m r m']: with the accounts [m], the result is [r] and the accounts are
    [m'].  A user without an account gets one; the user of an account without a conflict
    gets it again on the same connection, and a second one, tied to it, on another. *)
Inductive registers m : registered → gmap nat account → Prop :=
  | reg_invalid_uid : zlen s = 0 → registers m (Registered RegInvalidUid None) m
  | reg_overflow : zlen s ≠ 0 → 36 ≤ zlen s ∨ 36 ≤ zlen n ∨ 40 ≤ zlen p →
      registers m (Registered RegUidOverflow None) m
  | reg_full : nobody m → full m → registers m (Registered RegListIsFull None) m
  | reg_ok i : nobody m → m !! i = None →
      registers m (Registered RegOk (Some i)) (<[i := bound_to (new_account i)]> m)
  | reg_too_many j a : holder m j a → conflict_keyid a ≠ 0 →
      registers m (Registered RegTooManyTimes None) m
  | reg_not_ready j a : holder m j a → conflict_keyid a = 0 → ext_data a = 0 →
      registers m (Registered RegMainNotReady None) m
  | reg_duplicate j a : holder m j a → conflict_keyid a = 0 → ext_data a ≠ 0 → connid a = conn →
      registers m (Registered RegDuplicate (Some j)) (<[j := bound_to a]> m)
  | reg_full_too j a : holder m j a → conflict_keyid a = 0 → ext_data a ≠ 0 → connid a ≠ conn →
      full m → registers m (Registered RegListIsFull None) m
  | reg_conflict j a i : holder m j a → conflict_keyid a = 0 → ext_data a ≠ 0 → connid a ≠ conn →
      m !! i = None →
      registers m (Registered RegConflict (Some i))
        (<[i := bound_to (set_conflict (keyid a) (new_account i))]>
          (<[j := set_conflict (b + t - Z.of_nat i) a]> m)).

(** What the caller must ensure, besides passing C strings: connection ids and inner
    uuids are positive, no other user's id has the hash of this one, and a user that
    registers again on its connection keeps its inner uuid. *)
Record register_pre m : Prop := RegisterPre {
  pre_s : Forall (λ c, 0 < c < 256) s;
  pre_n : Forall (λ c, 0 < c < 256) n;
  pre_p : Forall (λ c, 0 < c < 256) p;
  pre_conn : 0 < conn;
  pre_uuid : 0 < uuid;
  pre_hash : ∀ j a, m !! j = Some a → uid_hash (uid a) = uid_hash s → uid a = s;
  pre_same : ∀ j a, holder m j a → connid a = conn → inner_uuid a = uuid
}.

(** The invariant after each of the three bindings. *)
Lemma bound_ok i a (Hi : Z.of_nat i < t) (Hk : keyid a = b + t - Z.of_nat i)
    (Hs : text_ok 36 s) (Hc : 0 < conn) (Hu : 0 < uuid) :
  account_ok b t i (bound_to a).
Proof. by split. Qed.

Lemma bind_inv A i a (Hacc : accounts_ok b t (ab_accs A)) (Ha : account_ok b t i a)
    (Hca : caches_ok (<[i := a]> (ab_accs A)) (ab_uid A) (ab_conn A) (ab_uuid A))
    (Hti : ties_ok (<[i := a]> (ab_accs A))) :
  acc_inv b t (ab_bind i a A).
Proof. split; try done. by apply accounts_ok_insert. Qed.

Lemma reg_ok_inv A i (Hi : acc_inv b t A) (Hs : text_ok 36 s) (Hpre : register_pre (ab_accs A))
    (Hslot : Z.of_nat i < t) (Hnew : ab_accs A !! i = None) (Hno : nobody (ab_accs A)) :
  acc_inv b t (ab_bind i (bound_to (new_account i)) A).
Proof.
  destruct Hi, Hpre. apply bind_inv; [done|by apply bound_ok|..].
  - apply caches_insert; [done|]. intros a Ha. congruence.
  - by apply ties_new.
Qed.

Lemma reg_duplicate_inv A j a (Hi : acc_inv b t A) (Hs : text_ok 36 s)
    (Hpre : register_pre (ab_accs A)) (Hj : holder (ab_accs A) j a) (Hc : connid a = conn) :
  acc_inv b t (ab_bind j (bound_to a) A).
Proof.
  pose proof (pre_same _ Hpre j a Hj Hc) as Hu. destruct Hi, Hpre, Hj as [Hj Hsa].
  destruct (proj2 ai_accounts0 j a Hj). apply bind_inv; [done|by apply bound_ok|..].
  - apply caches_insert; [done|]. intros a' Ha'. rewrite Hj in Ha'. injection Ha' as <-. by subst.
  - by apply (ties_same _ j a).
Qed.

Lemma reg_conflict_inv A i j a (Hi : acc_inv b t A) (Hs : text_ok 36 s)
    (Hpre : register_pre (ab_accs A)) (Hslot : Z.of_nat i < t) (Hnew : ab_accs A !! i = None)
    (Hj : holder (ab_accs A) j a) (Hz : conflict_keyid a = 0) :
  acc_inv b t (ab_bind i (bound_to (set_conflict (keyid a) (new_account i)))
    (ab_set j (set_conflict (b + t - Z.of_nat i) a) A)).
Proof.
  destruct Hi, Hpre, Hj as [Hj Hsa]. destruct (proj2 ai_accounts0 j a Hj).
  assert (j ≠ i) as Hji by congruence.
  set (a' := bound_to (set_conflict (keyid a) (new_account i))).
  apply bind_inv; cbn [ab_accs ab_set ab_uid ab_conn ab_uuid].
  - apply accounts_ok_insert; [done|]. by split.
  - by apply bound_ok.
  - apply caches_insert; [apply caches_insert; [done|]|].
    + intros a1 Ha1. rewrite Hj in Ha1. by injection Ha1 as <-.
    + intros a1 Ha1. rewrite lookup_insert_ne in Ha1 by done. congruence.
  - rewrite insert_insert_ne by done. by apply (ties_second b t (ab_accs A) i j a' a).
Qed.
End spec.
