(* ===== verification/AccountSafety.v ===== *)
(** * The account manager keeps its promises

    The invariant of [AccountManager] holds of a new list and is kept by every call;
    [Register] and [Unregister] refine their contracts, the lookups find what is there,
    and the checks of a keep-alive period are exact. *)

From S2P Require Import Prelude FmtInt Vsnprintf VsnprintfSafe VsnprintfText SnprintfCall.
From S2P Require Import City ObjectPool AccountList AccountManager.

#[local] Open Scope Z_scope.

Section theorems.
Context {env : Env} (b t : Z).
Implicit Types (l : acc_list) (A : acc_abs).

(** The branch of a user that has an account already. *)
Lemma register_again s n p conn uuid impl now l A c a
    (HA : rep b t l A) (Hi : acc_inv b t A) (Hs : text_ok 36 s) (Hn : text_ok 36 n)
    (Hp : text_ok 40 p) (Hpre : register_pre s n p conn uuid (ab_accs A))
    (Hc : holder s (ab_accs A) c a) (Hz : conflict_keyid a = 0) (He : ext_data a ≠ 0)
    (Hcn : connid a ≠ conn) :
  (Alloc l = Ok (None, l) ∧ full t (ab_accs A)) ∨
  ∃ i l1 l2 l3 l4, Alloc l = Ok (Some i, l1) ∧ i ≠ c ∧ get_acc c l1 = Ok a ∧
    upd_acc i (set_conflict (keyid a)) l1 = Ok l2 ∧
    get_acc i l2 = Ok (set_conflict (keyid a) (new_account b t i)) ∧
    upd_acc c (set_conflict (keyid (set_conflict (keyid a) (new_account b t i)))) l2 = Ok l3 ∧
    bind_account i s n p conn uuid impl now l3 = Ok l4 ∧ ab_accs A !! i = None ∧
    list_ok b t l4 (ab_bind i (bound_to s n p conn uuid impl now (set_conflict (keyid a) (new_account b t i)))
      (ab_set c (set_conflict (b + t - Z.of_nat i) a) A)).
Proof.
  destruct (Alloc_rep b t l A HA) as [[Heq Hfull]|(i & l1 & Heq & Hnew & H1)]; [by left|right].
  destruct Hc as [Hc Hsa]. assert (c ≠ i) as Hci by congruence.
  assert (ab_accs (ab_set i (new_account b t i) A) !! c = Some a) as Hc1 by (cbn; by rewrite lookup_insert_ne).
  destruct (upd_acc_rep b t l1 _ i _ (set_conflict (keyid a)) H1 (lookup_insert_eq _ _ _)) as (l2 & E2 & H2).
  match type of H2 with rep _ _ _ ?A' => assert (ab_accs A' !! c = Some a) as Hc2
    by (cbn; by rewrite !lookup_insert_ne) end.
  destruct (upd_acc_rep b t l2 _ c _ (set_conflict (keyid (set_conflict (keyid a) (new_account b t i)))) H2 Hc2)
    as (l3 & E3 & H3).
  match type of H3 with rep _ _ _ ?A' =>
    assert (ab_accs A' !! i = Some (set_conflict (keyid a) (new_account b t i))) as Hi3
    by (cbn; rewrite lookup_insert_ne by done; by rewrite lookup_insert_eq) end.
  destruct (bind_account_rep b t l3 _ i _ s n p conn uuid impl now H3 Hi3 Hs Hn Hp) as (l4 & E4 & H4).
  exists i, l1, l2, l3, l4.
  split; [done|]. split; [done|]. split; [by eapply get_acc_rep|]. split; [done|].
  split; [eapply get_acc_rep; [done|apply lookup_insert_eq]|]. repeat (split; [done|]). split.
  - destruct H4 as [? ? ? Hv Hcnt ? ? ?]. unfold ab_bind in Hv, Hcnt. cbn in Hv, Hcnt.
    rewrite insert_insert_ne, !insert_insert_eq in Hv, Hcnt by done.
    split; try done; cbn; rewrite insert_insert_ne by done; unfold bound_to; congruence.
  - apply reg_conflict_inv; try done. eapply (rep_bound b t l1 _ i _ H1). apply lookup_insert_eq.
Qed.

(** The online count never wraps. *)
Lemma count_less l A i a (Hl : list_ok b t l A) (Hi : ab_accs A !! i = Some a)
    (Ho : is_onoff OnoffOnline a = true) :
  u64 (ab_count A - 1) = ab_online (delete i (ab_accs A)).
Proof.
  destruct Hl as [HA Hinv]. rewrite (ai_count _ _ _ Hinv), (ab_online_split _ i a Hi), Ho.
  pose proof (rep_size b t l A HA). pose proof (rep_dims b t l A HA).
  pose proof (ab_online_split _ i a Hi) as Hs. rewrite Ho in Hs.
  pose proof (size_those_le (is_onoff OnoffOnline) (ab_accs A)).
  unfold ab_online in *. rewrite u64_small; lia.
Qed.

(** An update that keeps all but the state of the connection. *)
Lemma onoff_inv l A i a o now (Hl : list_ok b t l A) (Hi : ab_accs A !! i = Some a) :
  acc_inv b t (ab_set_count (ab_online (<[i := set_onoff o now a]> (ab_accs A)))
    (ab_set i (set_onoff o now a) A)).
Proof.
  destruct Hl as [_ [Hacc Hn Hca Hti]]. destruct (proj2 Hacc i a Hi). split; try done; cbn.
  - apply accounts_ok_insert; [done|]. by split.
  - apply caches_insert; [done|]. intros a' Ha'. rewrite Hi in Ha'. by injection Ha' as <-.
  - by apply (ties_same _ i a).
Qed.

Lemma Offline_ok l A i a now (Hl : list_ok b t l A) (Hi : ab_accs A !! i = Some a) :
  ∃ l' A', Offline i now l = Ok l' ∧ list_ok b t l' A' ∧
    ab_accs A' = <[i := set_onoff OnoffOffline now a]> (ab_accs A).
Proof.
  pose proof (onoff_inv l A i a OnoffOffline now Hl Hi) as Hinv.
  destruct (Offline_rep b t l A i a now (proj1 Hl) Hi) as (l' & Heq & HA').
  eexists l', _. split; [done|]. split; [split; [|exact Hinv]|done].
  cbn zeta in HA'. rewrite ab_online_insert. cbn. rewrite Z.add_0_r.
  destruct (is_onoff OnoffOnline a) eqn:Ho; cbn [negb] in HA'.
  - by rewrite (count_less l A i a Hl Hi Ho) in HA'.
  - pose proof (ab_online_split _ i a Hi) as Hs. rewrite Ho, Z.add_0_r in Hs.
    rewrite (ai_count _ _ _ (proj2 Hl)), Hs in HA'. exact HA'.
Qed.

(** Releasing an account whose ties are undone. *)
Lemma release_ok l A i a now (HA : rep b t l A) (Hi : ab_accs A !! i = Some a)
    (Hn : ab_count A = ab_online (ab_accs A)) (Hacc : accounts_ok b t (ab_accs A))
    (Hca : caches_ok (ab_accs A) (ab_uid A) (ab_conn A) (ab_uuid A))
    (Hti : ties_ok (delete i (ab_accs A))) :
  ∃ l' A', ReleaseAccount i now l = Ok l' ∧ list_ok b t l' A' ∧ ab_accs A' = delete i (ab_accs A).
Proof.
  destruct (proj2 Hacc i a Hi) as [Hslot Hk Hr Hu Hc Hx].
  destruct (uid_hash_total (uid a) 36 Hu) as [h Hh]; [lia|].
  destruct (ReleaseAccount_rep b t l A i a h now HA Hi Hr Hk Hh) as (l' & Heq & HA').
  eexists l', _. split; [done|]. split; [split; [exact HA'|]|done].
  split; cbn; [by apply accounts_ok_delete| |rewrite !(proj2 (Z.ltb_lt _ _)) by done; by apply caches_release|done].
  pose proof (ab_online_split _ i a Hi) as Hs. rewrite Hn.
  destruct (is_onoff OnoffOnline a) eqn:Ho; [|lia].
  pose proof (rep_size b t l A HA). pose proof (rep_dims b t l A HA).
  pose proof (size_those_le (is_onoff OnoffOnline) (ab_accs A)).
  unfold ab_online in *. rewrite u64_small; lia.
Qed.

(** What [Unregister] does to the accounts: it takes one out, and frees the other account
    of the user from the conflict. *)
Definition unregisters (i : nat) (a : account) (m m' : gmap nat account) : Prop :=
  (conflict_keyid a = 0 ∧ m' = delete i m) ∨
  ∃ j a', j ≠ i ∧ m !! j = Some a' ∧ tied a a' ∧ m' = delete i (<[j := set_conflict 0 a']> m).

Lemma GetAccount_rep l A j a (HA : rep b t l A) (Hacc : accounts_ok b t (ab_accs A))
    (Hj : ab_accs A !! j = Some a) :
  GetAccount (keyid a) l = j.
Proof.
  destruct (proj2 Hacc j a Hj) as [Hs -> _ _ _ _]. pose proof HA as [[Hp _] Hb Ht _ _ _ _ _].
  unfold GetAccount. replace (b + t - Z.of_nat j) with (objid_of (acc_pool l) j) by (unfold objid_of; congruence).
  rewrite Get_objid; [lia|by apply inv_dims|congruence].
Qed.

Lemma Unregister_ok l A i a now (Hl : list_ok b t l A) (Hi : ab_accs A !! i = Some a) :
  ∃ l' A', Unregister i now l = Ok l' ∧ list_ok b t l' A' ∧ unregisters i a (ab_accs A) (ab_accs A').
Proof.
  pose proof Hl as [HA [Hacc Hn Hca Hti]]. pose proof (proj2 Hacc i a Hi) as [Hslot Hk Hr Hu Hc Hx].
  unfold Unregister. rewrite (get_acc_rep b t l A i a HA Hi). cbn [mbind outcome_bind]. rewrite Hr.
  destruct (ti_conflict _ Hti i a Hi) as [Hz|(j & a' & Hj & Ha' & Htie)].
  - rewrite Hz. cbn [mbind outcome_bind]. change (0 <? 0) with false. cbn iota.
    destruct (release_ok l A i a now HA Hi) as (l' & A' & Heq & Hl' & Hm); try done.
    { by apply (ties_release b t _ i a). }
    exists l', A'. split; [done|]. split; [done|]. by left.
  - pose proof (key_pos b t _ j a' Hacc Ha'). destruct Htie as (E1 & E2 & E3).
    rewrite E1, (proj2 (Z.ltb_lt 0 (keyid a'))) by done.
    rewrite (GetAccount_rep l A j a' HA Hacc Ha').
    destruct (upd_acc_rep b t l A i a (set_conflict 0) HA Hi) as (l1 & -> & H1). cbn [mbind outcome_bind].
    assert (ab_accs (ab_set i (set_conflict 0 a) A) !! j = Some a') as Ha1
      by (cbn; by rewrite lookup_insert_ne).
    destruct (upd_acc_rep b t l1 _ j a' (set_conflict 0) H1 Ha1) as (l2 & -> & H2). cbn [mbind outcome_bind].
    edestruct (release_ok l2 _ i (set_conflict 0 a) now H2) as (l' & A' & Heq & Hl' & Hm); cbn.
    + by rewrite lookup_insert_ne, lookup_insert_eq.
    + rewrite Hn, insert_insert_ne by done. rewrite ab_online_insert.
      rewrite delete_insert_ne by done. rewrite (ab_online_split _ i a Hi). f_equal.
      symmetry. rewrite (ab_online_insert). rewrite (ab_online_split (delete i _) j a').
      * done.
      * by rewrite lookup_delete_ne.
    + destruct (proj2 Hacc j a' Ha'). apply accounts_ok_insert; [apply accounts_ok_insert; [done|by split]|by split].
    + apply caches_insert; [apply caches_insert; [done|]|].
      * intros a1 Ha2. rewrite Hi in Ha2. by injection Ha2 as <-.
      * intros a1 Ha2. rewrite lookup_insert_ne in Ha2 by done. rewrite Ha' in Ha2. by injection Ha2 as <-.
    + rewrite insert_insert_ne, delete_insert_eq by done. by apply (ties_untie b t _ i j a a').
    + exists l', A'. split; [done|]. split; [done|]. right. exists j, a'. split; [done|].
      split; [done|]. split; [done|]. rewrite Hm. cbn. by rewrite insert_insert_ne, delete_insert_eq by done.
Qed.

(** An account as it was, or freed from its conflict. *)
Definition freed (a a' : account) : Prop := a' = a ∨ a' = set_conflict 0 a.

(** The accounts that are left when the ones of connection [k] are unregistered. *)
Definition without_conn (k : Z) (upto : nat) (m m' : gmap nat account) : Prop :=
  (∀ j a', m' !! j = Some a' → (j < upto)%nat → connid a' ≠ k) ∧
  (∀ j a', m' !! j = Some a' → ∃ a, m !! j = Some a ∧ freed a a') ∧
  (∀ j a, m !! j = Some a → connid a ≠ k → is_Some (m' !! j)).

Lemma unregisters_without k i a m0 m m' (Hm : without_conn k i m0 m) (Hi : m !! i = Some a)
    (Hk : connid a = k) (Hu : unregisters i a m m') :
  without_conn k (S i) m0 m'.
Proof.
  destruct Hm as (H1 & H2 & H3).
  assert (∀ j, m' !! j = None ↔ j = i ∨ m !! j = None) as Hnone.
  { intros j. destruct Hu as [(_ & ->)|(j0 & a' & Hj & Ha' & _ & ->)].
    - rewrite lookup_delete_None. naive_solver.
    - rewrite lookup_delete_None, lookup_insert_None. split; [naive_solver|].
      intros [->|Hn]; [by left|right]. split; [done|congruence]. }
  assert (∀ j a1, m' !! j = Some a1 → j ≠ i ∧ ∃ a2, m !! j = Some a2 ∧ freed a2 a1) as Hsome.
  { intros j a1 Hj1. destruct Hu as [(_ & ->)|(j0 & a' & Hj & Ha' & _ & ->)].
    - apply lookup_delete_Some in Hj1 as [Hne Hj1]. split; [done|]. exists a1. split; [done|by left].
    - apply lookup_delete_Some in Hj1 as [Hne Hj1]. split; [done|].
      apply lookup_insert_Some in Hj1 as [[<- <-]|[_ Hj1]]; [exists a'; split; [done|by right]|].
      exists a1. split; [done|by left]. }
  split; [|split].
  - intros j a1 Hj Hlt. destruct (Hsome j a1 Hj) as (Hne & a2 & Ha2 & Hf).
    assert (connid a1 = connid a2) as -> by (by destruct Hf as [->| ->]). apply (H1 j a2 Ha2). lia.
  - intros j a1 Hj. destruct (Hsome j a1 Hj) as (Hne & a2 & Ha2 & Hf).
    destruct (H2 j a2 Ha2) as (a0 & Ha0 & Hf0). exists a0. split; [done|].
    destruct Hf as [->| ->], Hf0 as [->| ->]; unfold freed; auto.
  - intros j a0 Hj Hc. destruct (m' !! j) eqn:E; [done|]. apply Hnone in E as [->|E].
    + destruct (H2 i a Hi) as (a0' & Ha0 & Hf). rewrite Hj in Ha0. injection Ha0 as <-.
      exfalso. apply Hc. rewrite <- Hk. by destruct Hf as [->| ->].
    + destruct (H3 j a0 Hj Hc) as [? He]. congruence.
Qed.

Lemma list_ok_pool l A (Hl : list_ok b t l A) :
  pool_ok (acc_pool l) ∧ total_size (acc_pool l) = t.
Proof. by destruct Hl as [[] _]. Qed.

Lemma list_ok_view l A i (Hl : list_ok b t l A) : view (acc_pool l) !! i = ab_accs A !! i.
Proof. by destruct Hl as [[] _]; congruence. Qed.

Lemma UnregisterByConnId_ok l A k now (Hl : list_ok b t l A) :
  ∃ l' A', UnregisterByConnId k now l = Ok l' ∧ list_ok b t l' A' ∧
    without_conn k (Z.to_nat t) (ab_accs A) (ab_accs A').
Proof.
  unfold UnregisterByConnId.
  destruct (for_each_used_rule acc_pool
    (λ i a l, if k =? connid a then l ← Unregister i now l; Ok (Next (R := False) l) else Ok (Next l)) t
    (λ i l', ∃ A', list_ok b t l' A' ∧ without_conn k i (ab_accs A) (ab_accs A')) (λ _, True) l)
    as (c & -> & Hc).
  - intros i l' (A' & Hl' & _). by eapply list_ok_pool.
  - intros i l' a (A' & Hl' & Hw) Hi. rewrite (list_ok_view l' A' i Hl') in Hi.
    destruct (Z.eqb_spec k (connid a)) as [Hk|Hk].
    + destruct (Unregister_ok l' A' i a now Hl' Hi) as (l2 & A2 & -> & Hl2 & Hu).
      eexists. split; [done|]. exists A2. split; [done|]. by eapply unregisters_without.
    + eexists. split; [done|]. exists A'. split; [done|]. destruct Hw as (H1 & H2 & H3).
      split; [|done]. intros j a1 Hj Hlt. destruct (decide (j = i)) as [->|Hne]; [|apply (H1 j a1 Hj); lia].
      rewrite Hi in Hj. injection Hj as <-. congruence.
  - intros i l' (A' & Hl' & Hw) Hi. rewrite (list_ok_view l' A' i Hl') in Hi. exists A'. split; [done|].
    destruct Hw as (H1 & H2 & H3). split; [|done]. intros j a1 Hj Hlt.
    destruct (decide (j = i)) as [->|Hne]; [congruence|]. apply (H1 j a1 Hj). lia.
  - exists A. split; [done|]. split; [lia|]. split; [|done]. intros j a' Hj. exists a'. split; [done|by left].
  - destruct c as [l'|[]]. destruct Hc as (A' & Hl' & Hw). by exists l', A'.
Qed.

(** The liveness check of one account. *)
Definition checked (tol now : Z) (a : account) : account :=
  if is_onoff OnoffOnline a && (tol <=? s64 (now - onoff_time a)) then set_onoff OnoffOffline now a else a.

Lemma CheckKeepAlive_ok l A tol now (Hl : list_ok b t l A) :
  ∃ l' A', CheckKeepAlive tol now l = Ok l' ∧ list_ok b t l' A' ∧
    ab_accs A' = checked tol now <$> ab_accs A.
Proof.
  unfold CheckKeepAlive.
  destruct (for_each_used_rule acc_pool
    (λ i a l, if decide (onoff a = OnoffOnline)
              then if tol <=? s64 (now - onoff_time a)
                   then l ← Offline i now l; Ok (Next (R := False) l) else Ok (Next l)
              else Ok (Next l)) t
    (λ i l', ∃ A', list_ok b t l' A' ∧
       ∀ j, ab_accs A' !! j = (if decide (j < i)%nat then checked tol now else id) <$> ab_accs A !! j)
    (λ _, True) l) as (c & -> & Hc).
  - intros i l' (A' & Hl' & _). by eapply list_ok_pool.
  - intros i l' a (A' & Hl' & Hm) Hi. rewrite (list_ok_view l' A' i Hl') in Hi.
    pose proof (Hm i) as Hmi. rewrite Hi, decide_False in Hmi by lia.
    assert (ab_accs A !! i = Some a) as Ha by (by destruct (ab_accs A !! i); cbn in Hmi; [injection Hmi as <-|]).
    assert (∀ A2, ab_accs A2 = <[i := checked tol now a]> (ab_accs A') → ∀ j, ab_accs A2 !! j =
      (if decide (j < S i)%nat then checked tol now else id) <$> ab_accs A !! j) as Hstep.
    { intros A2 -> j. destruct (decide (j = i)) as [->|Hne].
      - rewrite lookup_insert_eq, decide_True, Ha by lia. done.
      - rewrite lookup_insert_ne, Hm by done. repeat case_decide; try done; lia. }
    assert (is_onoff OnoffOnline a && (tol <=? s64 (now - onoff_time a)) = false →
      ab_accs A' = <[i := checked tol now a]> (ab_accs A')) as Hsame.
    { intros E. unfold checked. rewrite E. by rewrite insert_id. }
    unfold is_onoff in Hsame. case_decide as Ho.
    + rewrite bool_decide_true in Hsame by done. cbn in Hsame.
      destruct (tol <=? s64 (now - onoff_time a)) eqn:Et.
      * destruct (Offline_ok l' A' i a now Hl' Hi) as (l2 & A2 & -> & Hl2 & Hm2). eexists. split; [done|].
        exists A2. split; [done|]. apply Hstep. rewrite Hm2. unfold checked, is_onoff.
        by rewrite bool_decide_true, Et.
      * eexists. split; [done|]. exists A'. split; [done|]. by apply Hstep, Hsame.
    + rewrite bool_decide_false in Hsame by done. eexists. split; [done|]. exists A'. split; [done|].
      by apply Hstep, Hsame.
  - intros i l' (A' & Hl' & Hm) Hi. rewrite (list_ok_view l' A' i Hl') in Hi. exists A'. split; [done|].
    intros j. rewrite Hm. destruct (decide (j = i)) as [->|Hne]; [|repeat case_decide; try done; lia].
    pose proof (Hm i) as Hmi. rewrite Hi, decide_False in Hmi by lia. by destruct (ab_accs A !! i).
  - exists A. split; [done|]. intros j. rewrite decide_False by lia. by destruct (ab_accs A !! j).
  - destruct c as [l'|[]]. destruct Hc as (A' & Hl' & Hm). exists l', A'. split; [done|]. split; [done|].
    apply map_eq. intros j. rewrite Hm, lookup_fmap. case_decide; [done|].
    destruct (ab_accs A !! j) as [a|] eqn:Hj; [|done].
    apply (rep_bound b t l A j a (proj1 Hl)) in Hj. lia.
Qed.

(** The answer of a lookup: an account in use with the key, or none if there is none. *)
Definition answers (K : account → Prop) (m : gmap nat account) (r : option nat) : Prop :=
  match r with
  | Some i => ∃ a, m !! i = Some a ∧ K a
  | None => ∀ j a, m !! j = Some a → ¬ K a
  end.

(** No other user's id has the hash of [u]. *)
Definition no_collision (u : bytes) (m : gmap nat account) : Prop :=
  ∀ j a, m !! j = Some a → uid_hash (uid a) = uid_hash u → uid a = u.

Lemma GetByUid_ok l A u (Hl : list_ok b t l A) (Hu : text_ok 36 u) (Hh : no_collision u (ab_accs A)) :
  ∃ r l' A', GetByUid u l = Ok (r, l') ∧ list_ok b t l' A' ∧ ab_accs A' = ab_accs A ∧
    answers (λ a, uid a = u) (ab_accs A) r.
Proof.
  destruct Hl as [HA Hi]. destruct (uid_hash_total u 36 Hu) as [h Hhash]; [lia|].
  destruct (GetByUid_rep b t l A u h HA Hhash) as (r & l' & um & Heq & HA' & Hc).
  apply (uid_cached b t A u h) in Hc as [Hi' Hr]; [|done|done].
  exists r, l', (ab_set_uid um A). repeat (split; [done|]). destruct r as [i|]; [|done].
  destruct Hr as (a & Ha & Hha). exists a. split; [done|]. apply (Hh i a Ha). congruence.
Qed.

(** Without that: the account has the hash of the user id, and none means none. *)
Lemma GetByUid_hash l A u (Hl : list_ok b t l A) (Hu : text_ok 36 u) :
  ∃ r l' A', GetByUid u l = Ok (r, l') ∧ list_ok b t l' A' ∧ ab_accs A' = ab_accs A ∧
    match r with
    | Some i => ∃ a, ab_accs A !! i = Some a ∧ uid_hash (uid a) = uid_hash u
    | None => ∀ j a, ab_accs A !! j = Some a → uid a ≠ u
    end.
Proof.
  destruct Hl as [HA Hi]. destruct (uid_hash_total u 36 Hu) as [h Hhash]; [lia|].
  destruct (GetByUid_rep b t l A u h HA Hhash) as (r & l' & um & Heq & HA' & Hc).
  apply (uid_cached b t A u h) in Hc as [Hi' Hr]; [|done|done].
  exists r, l', (ab_set_uid um A). rewrite Hhash. by repeat (split; [done|]).
Qed.

(** A lookup answers the same again. *)
Lemma GetByUid_again l u r l' : GetByUid u l = Ok (r, l') → GetByUid u l' = Ok (r, l').
Proof.
  unfold GetByUid. destruct (uid_hash u) as [h|]; cbn [mbind outcome_bind]; [|done].
  destruct (uid_map l !! h) as [i|] eqn:E; [intros [= <- <-]; by rewrite E|].
  destruct (find_account _ l) as [[i|]|] eqn:Ef; cbn [mbind outcome_bind]; [| |done]; intros [= <- <-].
  - cbn. by rewrite lookup_insert_eq.
  - by rewrite E, Ef.
Qed.
Lemma GetByConnId_again l k r l' : GetByConnId k l = Ok (r, l') → GetByConnId k l' = Ok (r, l').
Proof.
  unfold GetByConnId. destruct (conn_map l !! k) as [i|] eqn:E; [intros [= <- <-]; by rewrite E|].
  destruct (find_account _ l) as [[i|]|] eqn:Ef; cbn [mbind outcome_bind]; [| |done]; intros [= <- <-].
  - cbn. by rewrite lookup_insert_eq.
  - by rewrite E, Ef.
Qed.
Lemma GetByInnerUuid_again l k r l' : GetByInnerUuid k l = Ok (r, l') → GetByInnerUuid k l' = Ok (r, l').
Proof.
  unfold GetByInnerUuid. destruct (uuid_map l !! k) as [i|] eqn:E; [intros [= <- <-]; by rewrite E|].
  destruct (find_account _ l) as [[i|]|] eqn:Ef; cbn [mbind outcome_bind]; [| |done]; intros [= <- <-].
  - cbn. by rewrite lookup_insert_eq.
  - by rewrite E, Ef.
Qed.

Lemma GetByConnId_ok l A k (Hl : list_ok b t l A) :
  ∃ r l' A', GetByConnId k l = Ok (r, l') ∧ list_ok b t l' A' ∧ ab_accs A' = ab_accs A ∧
    answers (λ a, connid a = k) (ab_accs A) r.
Proof.
  destruct Hl as [HA Hi]. destruct (GetByConnId_rep b t l A k HA) as (r & l' & cm & Heq & HA' & Hc).
  apply (conn_cached b t A k) in Hc as [Hi' Hr]; [|done]. by exists r, l', (ab_set_conn cm A).
Qed.

Lemma GetByInnerUuid_ok l A k (Hl : list_ok b t l A) :
  ∃ r l' A', GetByInnerUuid k l = Ok (r, l') ∧ list_ok b t l' A' ∧ ab_accs A' = ab_accs A ∧
    answers (λ a, inner_uuid a = k) (ab_accs A) r.
Proof.
  destruct Hl as [HA Hi]. destruct (GetByInnerUuid_rep b t l A k HA) as (r & l' & im & Heq & HA' & Hc).
  apply (uuid_cached b t A k) in Hc as [Hi' Hr]; [|done]. by exists r, l', (ab_set_uuid im A).
Qed.

Lemma KeepAlive_ok l A i a now (Hl : list_ok b t l A) (Hi : ab_accs A !! i = Some a) :
  ∃ l' A', KeepAlive i now l = Ok l' ∧ list_ok b t l' A'.
Proof.
  unfold KeepAlive. rewrite (get_acc_rep b t l A i a (proj1 Hl) Hi). cbn [mbind outcome_bind].
  case_decide; [|by exists l, A].
  pose proof (onoff_inv l A i a (onoff a) now Hl Hi) as Hinv.
  destruct (upd_acc_rep b t l A i a (λ a, set_onoff (onoff a) now a) (proj1 Hl) Hi) as (l' & Heq & HA').
  eexists l', _. split; [done|]. split; [|exact Hinv].
  destruct HA' as [? ? ? ? Hn ? ? ?]. split; try done. cbn. rewrite Hn. cbn.
  rewrite (ai_count _ _ _ (proj2 Hl)), ab_online_insert. by rewrite (ab_online_split _ i a Hi).
Qed.

Lemma OfflineByUid_ok l A u now (Hl : list_ok b t l A) :
  ∃ r l' A', OfflineByUid u now l = Ok (r, l') ∧ list_ok b t l' A'.
Proof.
  unfold OfflineByUid.
  destruct (for_each_used_rule acc_pool
    (λ i a l, if TestUserId a u then l ← Offline i now l; Ok (Return (i, l)) else Ok (Next l)) t
    (λ _ l', l' = l) (λ r, ∃ A', list_ok b t r.2 A') l) as (c & -> & Hc).
  - intros i l' ->. by eapply list_ok_pool.
  - intros i l' a -> Hi. rewrite (list_ok_view l A i Hl) in Hi. destruct (TestUserId a u).
    + destruct (Offline_ok l A i a now Hl Hi) as (l2 & A2 & -> & Hl2 & _). eexists. split; [done|]. by exists A2.
    + by eexists.
  - done.
  - done.
  - destruct c as [l'|[i l']]; cbn in Hc |- *; [subst l'; by eexists _, l, A|].
    destruct Hc as (A' & Hl'). by eexists _, l', A'.
Qed.

Lemma Register_ok (s n p : bytes) (conn uuid impl now : Z) (l : acc_list) (A : acc_abs)
    (Hl : list_ok b t l A) (Hpre : register_pre s n p conn uuid (ab_accs A)) :
  ∃ r l' A', Register s n p conn uuid impl now l = Ok (r, l') ∧ r ≠ Thrown ∧ list_ok b t l' A' ∧
    registers b t s n p conn uuid impl now (ab_accs A) r (ab_accs A').
Proof.
  destruct Hl as [HA Hi]. unfold Register, choose_account.
  destruct (Z.leb_spec (zlen s) 0).
  { exists (Registered RegInvalidUid None), l, A. repeat (split; [done|]). apply reg_invalid_uid. lia. }
  destruct ((36 <=? zlen s) || (36 <=? zlen n) || (40 <=? zlen p)) eqn:Elen.
  { exists (Registered RegUidOverflow None), l, A. repeat (split; [done|]). apply reg_overflow; [lia|].
    apply orb_true_iff in Elen as [Elen|Elen]; [apply orb_true_iff in Elen as [Elen|Elen]|]; zbool; tauto. }
  zbool. assert (text_ok 36 s) as Hs by (split; [apply Hpre|done]).
  assert (text_ok 36 n) as Hn by (split; [apply Hpre|done]).
  assert (text_ok 40 p) as Hp by (split; [apply Hpre|done]).
  destruct (uid_hash_total s 36 Hs) as [h Hh]; [lia|].
  destruct (GetByUid_rep b t l A s h HA Hh) as (c & l1 & um & -> & HR1 & Hc).
  apply (uid_cached b t A s h) in Hc as [Hi1 Hc]; [|done|done]. cbn [mbind outcome_bind].
  destruct c as [c|].
  - destruct Hc as (a & Ha & Hha).
    assert (holder s (ab_accs A) c a) as Hold.
    { split; [done|]. apply (pre_hash _ _ _ _ _ _ Hpre c a Ha). congruence. }
    rewrite (get_acc_rep b t l1 _ c a HR1 Ha). cbn [mbind outcome_bind].
    destruct (Z.ltb_spec 0 (conflict_keyid a)).
    { exists (Registered RegTooManyTimes None), l1, (ab_set_uid um A). repeat (split; [done|]).
      apply (reg_too_many _ _ _ _ _ _ _ _ _ _ c a); [done|lia]. }
    assert (conflict_keyid a = 0) as Hz.
    { destruct (ti_conflict _ (ai_ties _ _ _ Hi) c a Ha) as [?|(j & a' & _ & Hj & (Hk & _))]; [done|].
      pose proof (key_pos b t _ j a' (ai_accounts _ _ _ Hi) Hj). lia. }
    destruct (Z.eqb_spec (ext_data a) 0).
    { exists (Registered RegMainNotReady None), l1, (ab_set_uid um A). repeat (split; [done|]).
      by apply (reg_not_ready _ _ _ _ _ _ _ _ _ _ c a). }
    destruct (Z.eqb_spec conn (connid a)) as [Hconn|Hconn]; cbn [negb].
    + cbn [mbind outcome_bind reg_code]. change (0 <=? 2) with true. cbn iota.
      destruct (bind_account_rep b t l1 _ c a s n p conn uuid impl now HR1 Ha Hs Hn Hp) as (l2 & -> & HR2).
      cbn [mbind outcome_bind]. eexists _, l2, _. split; [done|]. split; [done|]. split; [split; [done|]|].
      * by apply (reg_duplicate_inv b t s n p conn uuid impl now (ab_set_uid um A)).
      * by apply reg_duplicate.
    + destruct (register_again s n p conn uuid impl now l1 (ab_set_uid um A) c a)
        as [[-> Hfull]|(i & l2 & l3 & l4 & l5 & -> & Hic & E2 & E3 & E4 & E5 & E6 & Hnew & Hl5)]; try done.
      * cbn. eexists _, l1, (ab_set_uid um A). repeat (split; [done|]).
        by apply (reg_full_too _ _ _ _ _ _ _ _ _ _ c a).
      * cbn [mbind outcome_bind]. rewrite decide_False by done. rewrite E2. cbn [mbind outcome_bind].
        rewrite E3. cbn [mbind outcome_bind]. rewrite E4. cbn [mbind outcome_bind]. rewrite E5.
        cbn [mbind outcome_bind reg_code]. change (0 <=? 1) with true. cbn iota. rewrite E6.
        cbn [mbind outcome_bind]. eexists _, l5, _. split; [done|]. split; [done|]. split; [done|].
        by apply (reg_conflict _ _ _ _ _ _ _ _ _ _ c a i).
  - destruct (Alloc_rep b t l1 _ HR1) as [[-> Hfull]|(i & l2 & -> & Hnew & HR2)]; cbn [mbind outcome_bind].
    + eexists _, l1, (ab_set_uid um A). repeat (split; [done|]). by apply reg_full.
    + cbn [reg_code]. change (0 <=? 0) with true. cbn iota.
      destruct (bind_account_rep b t l2 _ i _ s n p conn uuid impl now HR2 (lookup_insert_eq _ _ _) Hs Hn Hp)
        as (l3 & -> & HR3). cbn [mbind outcome_bind].
      pose proof (rep_bound b t l2 _ i _ HR2 (lookup_insert_eq _ _ _)) as Hslot.
      exists (Registered RegOk (Some i)), l3,
        (ab_bind i (bound_to s n p conn uuid impl now (new_account b t i)) (ab_set_uid um A)).
      split; [done|]. split; [done|]. split; [split|].
      * unfold ab_bind in HR3. cbn in HR3. rewrite !insert_insert_eq in HR3. exact HR3.
      * by apply reg_ok_inv.
      * by apply reg_ok.
Qed.

(** C19: in every state of the accounts that the invariant allows, and for a login that the
    caller prepared ([register_pre]: C strings, a positive connection id and inner uuid, no
    account of another user id with the same hash, and on the connection of an account of
    the same user its inner uuid again): [Register] returns, in the state and with the
    result its contract ([registers]) says, it never throws, and it keeps the invariant:
    the online count, the three lookup maps, and the tie between the two accounts of a
    user that has logged in twice.  Without the last condition it would not
    ([stale_inner_uuid]). *)
Theorem Register_refines (s n p : bytes) (conn uuid impl now : Z) (l : acc_list) (A : acc_abs)
    (Hl : list_ok b t l A) (Hpre : register_pre s n p conn uuid (ab_accs A)) :
  ∃ r l' A', Register s n p conn uuid impl now l = Ok (r, l') ∧ r ≠ Thrown ∧ list_ok b t l' A' ∧
    registers b t s n p conn uuid impl now (ab_accs A) r (ab_accs A').
Proof. by apply Register_ok. Qed.


(** [Unregister] of an account in use takes that account out and leaves the others as
    they are, but for the other account of the user, which it frees from the conflict;
    the invariant is kept. *)
Theorem Unregister_refines (i : nat) (a : account) (now : Z) (l : acc_list) (A : acc_abs)
    (Hl : list_ok b t l A) (Hi : ab_accs A !! i = Some a) :
  ∃ l' A', Unregister i now l = Ok l' ∧ list_ok b t l' A' ∧ unregisters i a (ab_accs A) (ab_accs A').
Proof. by apply Unregister_ok. Qed.

(** [UnregisterByConnId], which changes the accounts it walks over, leaves no account of
    the connection and every other one, at most freed from a conflict. *)
Theorem UnregisterByConnId_all (k now : Z) (l : acc_list) (A : acc_abs) (Hl : list_ok b t l A) :
  ∃ l' A', UnregisterByConnId k now l = Ok l' ∧ list_ok b t l' A' ∧
    (∀ j a', ab_accs A' !! j = Some a' → connid a' ≠ k ∧ ∃ a, ab_accs A !! j = Some a ∧ freed a a') ∧
    (∀ j a, ab_accs A !! j = Some a → connid a ≠ k → is_Some (ab_accs A' !! j)).
Proof.
  destruct (UnregisterByConnId_ok l A k now Hl) as (l' & A' & Heq & Hl' & (H1 & H2 & H3)).
  exists l', A'. split; [done|]. split; [done|]. split; [|done]. intros j a' Hj.
  split; [|by apply H2]. apply (H1 j a' Hj). apply (rep_bound b t l' A' j a' (proj1 Hl')) in Hj. lia.
Qed.

(** C36: the three lookups, which ask a hash map first and remember what they find: each runs,
    leaves the accounts and the invariant as they are, and asked again gives the same answer.
    By connection and by inner uuid the answer is an account in use with that key (one of
    them, if a user that has logged in twice has two), or none, and then no account has
    it.  By user id the map goes by the hash of the id alone: the answer is an account
    in use whose user id has that hash, or none, and then no account has that user id. *)
Theorem lookups_answer (u : bytes) (k : Z) (l : acc_list) (A : acc_abs) (Hl : list_ok b t l A) (Hu : text_ok 36 u) :
  (∃ r l' A', GetByUid u l = Ok (r, l') ∧ list_ok b t l' A' ∧ ab_accs A' = ab_accs A ∧ GetByUid u l' = Ok (r, l') ∧
    match r with
    | Some i => ∃ a, ab_accs A !! i = Some a ∧ uid_hash (uid a) = uid_hash u
    | None => ∀ j a, ab_accs A !! j = Some a → uid a ≠ u
    end) ∧
  (∃ r l' A', GetByConnId k l = Ok (r, l') ∧ list_ok b t l' A' ∧ ab_accs A' = ab_accs A ∧ GetByConnId k l' = Ok (r, l') ∧
    answers (λ a, connid a = k) (ab_accs A) r) ∧
  (∃ r l' A', LookupAccountByInnerUuid k l = Ok (r, l') ∧ list_ok b t l' A' ∧ ab_accs A' = ab_accs A ∧
    LookupAccountByInnerUuid k l' = Ok (r, l') ∧ answers (λ a, inner_uuid a = k) (ab_accs A) r).
Proof.
  split; [|split].
  - destruct (GetByUid_hash l A u Hl Hu) as (r & l' & A' & E & H1 & H2 & H3). exists r, l', A'. repeat (split; [done|]). split; [by eapply GetByUid_again|done].
  - destruct (GetByConnId_ok l A k Hl) as (r & l' & A' & E & H1 & H2 & H3). exists r, l', A'. repeat (split; [done|]). split; [by eapply GetByConnId_again|done].
  - destruct (GetByInnerUuid_ok l A k Hl) as (r & l' & A' & E & H1 & H2 & H3). exists r, l', A'.
    unfold LookupAccountByInnerUuid. repeat (split; [done|]). split; [by eapply GetByInnerUuid_again|done].
Qed.

(** [CheckKeepAlive] takes offline exactly the online accounts that have not been heard
    of for the tolerance, and the online count stays right. *)
Theorem CheckKeepAlive_exact (tol now : Z) (l : acc_list) (A : acc_abs) (Hl : list_ok b t l A) :
  ∃ l' A', CheckKeepAlive tol now l = Ok l' ∧ list_ok b t l' A' ∧
    ab_accs A' = checked tol now <$> ab_accs A ∧
    online_count l' = Z.of_nat (size (those (is_onoff OnoffOnline) (checked tol now <$> ab_accs A))).
Proof.
  destruct (CheckKeepAlive_ok l A tol now Hl) as (l' & A' & Heq & Hl' & Hm). exists l', A'.
  repeat (split; [done|]). rewrite <- Hm. destruct Hl' as [HA' Hi']. rewrite (rp_count _ _ _ _ HA').
  apply Hi'.
Qed.

(** *** Sequences of calls *)

(** The calls on the manager and its list; [CExtData] is the owner of an account setting
    its [ext_data]. *)
Inductive call :=
  | CRegister (s n p : bytes) (conn uuid impl now : Z)
  | CUnregister (i : nat) (now : Z)
  | CUnregisterByConnId (k now : Z)
  | CLookupAccountByInnerUuid (k : Z)
  | CGetByUid (u : bytes)
  | CGetByConnId (k : Z)
  | CKeepAliveByUid (u : bytes) (now : Z)
  | COfflineByUid (u : bytes) (now : Z)
  | CCheckKeepAlive (tol now : Z)
  | CExtData (i : nat) (p : Z).

Definition set_ext_data (p : Z) (a : account) : account :=
  Account (keyid a) (is_ready a) (uid a) (nick a) (pwd a) (connid a) (inner_uuid a) (conn_impl a)
    (onoff a) (onoff_time a) p (a_login_state a) (conflict_keyid a).

Definition run (c : call) (l : acc_list) : outcome acc_list :=
  match c with
  | CRegister s n p conn uuid impl now => snd <$> Register s n p conn uuid impl now l
  | CUnregister i now => Unregister i now l
  | CUnregisterByConnId k now => UnregisterByConnId k now l
  | CLookupAccountByInnerUuid k => snd <$> LookupAccountByInnerUuid k l
  | CGetByUid u => snd <$> GetByUid u l
  | CGetByConnId k => snd <$> GetByConnId k l
  | CKeepAliveByUid u now => snd <$> KeepAliveByUid u now l
  | COfflineByUid u now => snd <$> OfflineByUid u now l
  | CCheckKeepAlive tol now => CheckKeepAlive tol now l
  | CExtData i p => upd_acc i (set_ext_data p) l
  end.

Fixpoint run_all (cs : list call) (l : acc_list) : outcome acc_list :=
  match cs with [] => Ok l | c :: cs => l ← run c l; run_all cs l end.

(** What a caller must ensure in a state with these accounts. *)
Definition permitted (m : gmap nat account) (c : call) : Prop :=
  match c with
  | CRegister s n p conn uuid _ _ => register_pre s n p conn uuid m
  | CUnregister i _ | CExtData i _ => is_Some (m !! i)
  | CGetByUid u | CKeepAliveByUid u _ => text_ok 36 u ∧ no_collision u m
  | _ => True
  end.

Inductive permitted_all : acc_list → list call → Prop :=
  | permitted_nil l : permitted_all l []
  | permitted_cons l c cs : permitted (view (acc_pool l)) c →
      (∀ l', run c l = Ok l' → permitted_all l' cs) → permitted_all l (c :: cs).

Lemma run_ok c l A (Hl : list_ok b t l A) (Hc : permitted (ab_accs A) c) :
  ∃ l' A', run c l = Ok l' ∧ list_ok b t l' A'.
Proof.
  destruct c; cbn [run permitted] in *.
  - destruct (Register_ok s n p conn uuid impl now l A Hl Hc) as (r & l' & A' & -> & _ & Hl' & _).
    by exists l', A'.
  - destruct Hc as [a Ha]. destruct (Unregister_ok l A i a now Hl Ha) as (l' & A' & ? & ? & _).
    by exists l', A'.
  - destruct (UnregisterByConnId_ok l A k now Hl) as (l' & A' & ? & ? & _). by exists l', A'.
  - destruct (GetByInnerUuid_ok l A k Hl) as (r & l' & A' & Heq & ? & _).
    exists l', A'. split; [|done]. by rewrite (Heq : LookupAccountByInnerUuid k l = _).
  - destruct (GetByUid_ok l A u Hl) as (r & l' & A' & -> & ? & _); [tauto..|]. by exists l', A'.
  - destruct (GetByConnId_ok l A k Hl) as (r & l' & A' & -> & ? & _). by exists l', A'.
  - destruct (GetByUid_ok l A u Hl) as (r & l' & A' & Heq & Hl' & Hm & Hr); [tauto..|].
    unfold KeepAliveByUid. rewrite Heq. cbn [mbind outcome_bind]. destruct r as [i|]; [|by exists l', A'].
    destruct Hr as (a & Ha & _). rewrite <- Hm in Ha.
    destruct (KeepAlive_ok l' A' i a now Hl' Ha) as (l2 & A2 & -> & Hl2). by exists l2, A2.
  - destruct (OfflineByUid_ok l A u now Hl) as (r & l' & A' & -> & ?). by exists l', A'.
  - destruct (CheckKeepAlive_ok l A tol now Hl) as (l' & A' & ? & ? & _). by exists l', A'.
  - destruct Hc as [a Ha]. destruct Hl as [HA [Hacc Hn Hca Hti]].
    destruct (upd_acc_rep b t l A i a (set_ext_data p) HA Ha) as (l' & Heq & HA').
    eexists l', _. split; [done|]. split; [exact HA'|]. destruct (proj2 Hacc i a Ha). split; cbn.
    + apply accounts_ok_insert; [done|by split].
    + by rewrite Hn, ab_online_insert, (ab_online_split _ i a Ha).
    + apply caches_insert; [done|]. intros a' Ha'. rewrite Ha in Ha'. by injection Ha' as <-.
    + by apply (ties_same _ i a).
Qed.

Lemma run_all_ok cs l A (Hl : list_ok b t l A) (Hc : permitted_all l cs) :
  ∃ l' A', run_all cs l = Ok l' ∧ list_ok b t l' A'.
Proof.
  revert l A Hl Hc. induction cs as [|c cs IH]; intros l A Hl Hc; inversion Hc as [|? ? ? Hp Hcs]; subst.
  - by exists l, A.
  - assert (view (acc_pool l) = ab_accs A) as Hv by apply Hl. rewrite Hv in Hp.
    destruct (run_ok c l A Hl Hp) as (l1 & A1 & E1 & Hl1). cbn [run_all]. rewrite E1. cbn [mbind outcome_bind].
    by apply (IH l1 A1 Hl1), Hcs.
Qed.
End theorems.

(** A new list: no account, nothing remembered. *)
Lemma new_list_ok n (Hn : 0 ≤ n < 2 ^ 32 - 600001) :
  list_ok 600000 n (CAccountStateList n) (Abs ∅ 0 ∅ ∅ ∅).
Proof.
  destruct (SafeInit_inv (T := account) 600000 n) as [Hp _]; [lia..|].
  assert (∀ i x, all_elements (SafeInit 600000 n : pool account) !! i = Some x → x = Node None false) as Hel.
  { intros i x Hx. cbn in Hx. by apply lookup_replicate in Hx as [-> _]. }
  split; [split; try done|split; try done].
  - split; [done|]. intros i x Hx%Hel Hu. by subst.
  - apply map_empty. intros i. change (view (SafeInit 600000 n : pool account) !! i = None).
    rewrite view_lookup.
    destruct (all_elements _ !! i) as [x|] eqn:Hx; [|done]. by rewrite (Hel i x Hx).
Qed.

(** C20: from a new list of any size, every sequence of permitted calls (registrations,
    unregistrations, lookups, keep-alive checks, in any order) runs without undefined
    behaviour, and ends with the invariant: a user has at most two accounts, two are tied
    by their conflict, the online count is right and no lookup leads to an account that
    was released. *)
Theorem manager_safe {env : Env} (n : Z) (cs : list call) (Hn : 0 ≤ n < 2 ^ 32 - 600001)
    (Hcs : permitted_all (CAccountStateList n) cs) :
  ∃ l A, run_all cs (CAccountStateList n) = Ok l ∧ list_ok 600000 n l A.
Proof. by apply (run_all_ok 600000 n cs _ _ (new_list_ok n Hn)). Qed.

(** *** What the maps forget *)

Definition bob : bytes := txt "bob".
Definition ex_register {env : Env} (conn uuid : Z) : acc_list → outcome (registered * acc_list) :=
  Register bob bob [] conn uuid 1 0.

(** A user registers with inner uuid 100, is looked up by it, registers again on the same
    connection with inner uuid 200, and is unregistered.  [last] is the next call. *)
Definition ex_uuid_change {env : Env} {R} (last : acc_list → outcome R) : outcome R :=
  '(_, l) ← ex_register 7 100 (CAccountStateList 2);
  l ← upd_acc 1 (set_ext_data 9) l;
  '(_, l) ← LookupAccountByInnerUuid 100 l;
  '(r, l) ← ex_register 7 200 l;
  l ← Unregister 1 0 l;
  last l.

(** the inner uuid of a user that registers again on its connection may change, but the
    entry of the old one stays in its map: after the account is released a lookup by the
    old inner uuid still leads to its slot, though no account is in use, and the next
    user to register, whatever its inner uuid, is found under it. *)
Theorem stale_inner_uuid :
  @ex_uuid_change ex_env _ (λ l, r ← LookupAccountByInnerUuid 100 l; Ok (r.1, view (acc_pool l))) =
    Ok (Some 1%nat, ∅) ∧
  @ex_uuid_change ex_env _ (λ l,
    '(_, l) ← @Register ex_env (txt "eve") [] [] 8 300 1 0 l;
    '(r, l) ← LookupAccountByInnerUuid 100 l;
    a ← get_acc 1 l; Ok (r, uid a, inner_uuid a)) = Ok (Some 1%nat, txt "eve", 300).
Proof. split; vm_compute; reflexivity. Qed.

(** *** Witnesses *)

(** Decide a proposition on concrete accounts. *)
Ltac by_compute := refine (bool_decide_unpack _ _); vm_compute; exact I.

Definition abs_of (l : acc_list) : acc_abs :=
  Abs (view (acc_pool l)) (online_count l) (uid_map l) (conn_map l) (uuid_map l).

Lemma list_ok_abs b t l A : list_ok b t l A → list_ok b t l (abs_of l).
Proof. intros [[] Hi]. destruct A. cbn in *. subst. split; [split|]; done. Qed.

(** Bob has logged in on connection 7 and again on 8. *)
Definition ex_calls : list call :=
  [CRegister bob bob [] 7 100 1 0; CExtData 1 9; CRegister bob bob [] 8 101 1 0].
Definition ex_list : acc_list :=
  match @run_all ex_env ex_calls (CAccountStateList 2) with Ok l => l | Ub _ => CAccountStateList 0 end.

Lemma bob_pre conn uuid m (Hc : 0 < conn) (Hu : 0 < uuid)
    (Hm : map_Forall (λ _ a, uid a = bob ∧ connid a ≠ conn) m) :
  register_pre bob bob [] conn uuid m.
Proof.
  assert (Forall (λ c, 0 < c < 256) bob) by (by repeat constructor).
  split; try done.
  - intros j a Hj _. by apply (Hm j a Hj).
  - intros j a [Hj _] Hcn. by destruct (Hm j a Hj).
Qed.

Lemma ex_calls_permitted : @permitted_all ex_env (CAccountStateList 2) ex_calls.
Proof.
  apply permitted_cons; [apply bob_pre; [done..|]; by_compute|].
  intros l1 H1. vm_compute in H1. injection H1 as <-.
  apply permitted_cons; [vm_compute; eauto|].
  intros l2 H2. vm_compute in H2. injection H2 as <-.
  apply permitted_cons; [apply bob_pre; [done..|]; by_compute|].
  intros l3 H3. constructor.
Qed.

Lemma manager_safe_witness :
  ∃ l A, @run_all ex_env ex_calls (CAccountStateList 2) = Ok l ∧ list_ok 600000 2 l A.
Proof. apply (@manager_safe ex_env 2 ex_calls); [lia|]. exact ex_calls_permitted. Defined.

Lemma ex_list_ok : list_ok 600000 2 ex_list (abs_of ex_list).
Proof.
  destruct (@run_all_ok ex_env 600000 2 ex_calls _ _ (new_list_ok 2 ltac:(lia)) ex_calls_permitted)
    as (l & A & E & Hl).
  apply (list_ok_abs _ _ _ A). unfold ex_list. by rewrite E.
Qed.

Lemma Register_refines_witness :
  ∃ r l' A', @Register ex_env bob bob [] 7 100 1 0 (CAccountStateList 2) = Ok (r, l') ∧ r ≠ Thrown ∧
    list_ok 600000 2 l' A' ∧ registers 600000 2 bob bob [] 7 100 1 0 ∅ r (ab_accs A').
Proof.
  apply (@Register_refines ex_env 600000 2 bob bob [] 7 100 1 0 (CAccountStateList 2) (Abs ∅ 0 ∅ ∅ ∅)).
  - apply new_list_ok. lia.
  - apply bob_pre; [done..|]. by_compute.
Defined.

Definition ex_bob : account :=
  Account 600001 true bob bob [] 7 100 1 OnoffOnline 0 9 0 600002.

Lemma Unregister_refines_witness :
  ∃ l' A', Unregister 1 5 ex_list = Ok l' ∧ list_ok 600000 2 l' A' ∧
    unregisters 1 ex_bob (ab_accs (abs_of ex_list)) (ab_accs A').
Proof.
  apply (Unregister_refines 600000 2 1 ex_bob 5 ex_list (abs_of ex_list) ex_list_ok).
  vm_compute. reflexivity.
Defined.

Lemma UnregisterByConnId_all_witness :
  ∃ l' A', UnregisterByConnId 7 5 ex_list = Ok l' ∧ list_ok 600000 2 l' A' ∧
    (∀ j a', ab_accs A' !! j = Some a' → connid a' ≠ 7 ∧
       ∃ a, ab_accs (abs_of ex_list) !! j = Some a ∧ freed a a') ∧
    (∀ j a, ab_accs (abs_of ex_list) !! j = Some a → connid a ≠ 7 → is_Some (ab_accs A' !! j)).
Proof. apply (UnregisterByConnId_all 600000 2 7 5 ex_list (abs_of ex_list) ex_list_ok). Defined.

Lemma lookups_answer_witness :
  ∃ r l' A', GetByConnId 7 ex_list = Ok (r, l') ∧ list_ok 600000 2 l' A' ∧
    ab_accs A' = ab_accs (abs_of ex_list) ∧ GetByConnId 7 l' = Ok (r, l') ∧
    answers (λ a, connid a = 7) (ab_accs (abs_of ex_list)) r.
Proof. apply (lookups_answer 600000 2 bob 7 ex_list (abs_of ex_list) ex_list_ok). split; [by repeat constructor|done]. Defined.

Lemma CheckKeepAlive_exact_witness :
  ∃ l' A', CheckKeepAlive 60 100 ex_list = Ok l' ∧ list_ok 600000 2 l' A' ∧
    ab_accs A' = checked 60 100 <$> ab_accs (abs_of ex_list) ∧
    online_count l' = Z.of_nat (size (those (is_onoff OnoffOnline)
      (checked 60 100 <$> ab_accs (abs_of ex_list)))).
Proof. apply (CheckKeepAlive_exact 600000 2 60 100 ex_list (abs_of ex_list) ex_list_ok). Defined.
