(* ===== verification/MapOrder.v ===== *)
(** * Hash maps in an unknown order

    An [unordered_map] or [unordered_set] is a gmap; the order in which a loop walks it is
    the parameter [MapOrder].  A loop that erases the current entry and goes on leaves what
    a filter leaves, whatever the order. *)

From stdpp Require Export gmap.
From S2P Require Import Prelude.

#[local] Open Scope Z_scope.

(** The walk over an [unordered_map]: each entry once, in some order. *)
Class MapOrder := {
  entries : ∀ {A : Type}, gmap Z A → list (Z * A);
  entries_perm : ∀ {A} (m : gmap Z A), entries m ≡ₚ map_to_list m
}.

(** ** Walks that erase *)

Section walks.
Context {ord : MapOrder}.

Lemma elem_of_entries {A} (m : gmap Z A) k v : (k, v) ∈ entries m ↔ m !! k = Some v.
Proof. rewrite entries_perm. apply elem_of_map_to_list. Qed.

Lemma erase_lookup {A} (P : Z → A → bool) (l : list (Z * A)) (m : gmap Z A) k :
  foldl (λ m '(k, v), if P k v then delete k m else m) m l !! k =
    if bool_decide (Exists (λ p, p.1 = k ∧ P p.1 p.2 = true) l) then None else m !! k.
Proof.
  revert m. induction l as [|[k' v] l IH]; intros m; cbn [foldl]; [done|]. rewrite IH.
  destruct (decide (Exists (λ p, p.1 = k ∧ P p.1 p.2 = true) l)) as [He|He].
  - rewrite !bool_decide_true; [done|by right|done].
  - rewrite (bool_decide_false (Exists _ l)) by done.
    destruct (decide (k' = k ∧ P k' v = true)) as [[-> HP]|HP].
    + rewrite bool_decide_true by (by left). by rewrite HP, lookup_delete_eq.
    + rewrite bool_decide_false by (by intros [?|?]%Exists_cons).
      destruct (P k' v) eqn:E; [|done]. rewrite lookup_delete_ne; [done|]. intros ->. by apply HP.
Qed.

(** Erasing the entries that satisfy [P] while walking leaves the others. *)
Lemma erase_filter {A} (P : Z → A → bool) (m : gmap Z A) :
  foldl (λ m '(k, v), if P k v then delete k m else m) m (entries m) =
    filter (λ p, P p.1 p.2 = false) m.
Proof.
  apply map_eq. intros k. rewrite erase_lookup, map_lookup_filter.
  destruct (m !! k) as [v|] eqn:Hk; cbn [mbind option_bind].
  - destruct (P k v) eqn:E.
    + rewrite bool_decide_true; [case_guard; [cbn in *; congruence|done]|].
      apply Exists_exists. exists (k, v). by rewrite elem_of_entries.
    + case_guard; [|done]. rewrite bool_decide_false; [done|]. intros (p & Hp & <- & HP)%Exists_exists.
      destruct p as [k v']. apply elem_of_entries in Hp. cbn in *. congruence.
  - by destruct (bool_decide _).
Qed.
End walks.

(** *** An order for examples *)

#[refine] Definition ex_order : MapOrder := {| entries A m := map_to_list m |}.
Proof. done. Defined.
