(* ===== verification/ZoneManager.v ===== *)
(** * The registry of zones: [lobby/SimpleZoneManager.cpp]

    [CSimpleZoneManager] keeps the zones, the channels of the zones and the peers of the
    channels in three hash maps, and a list of addresses that may register.  The order
    in which a hash map is walked is the parameter [MapOrder].  A text in a fixed array
    is the C string it holds ([SnprintfCall]). *)

From stdpp Require Import gmap.
From S2P Require Import Prelude FmtInt AtoiTab Vsnprintf VsnprintfSafe VsnprintfText SnprintfCall BipSearch MyUtil MapOrder.

#[local] Open Scope Z_scope.

(** [MyZoneInfo]; [z_uConnId] is an [unsigned int]. *)
Record zone_info := ZoneInfo {
  z_nZoneId : Z; z_nType : Z; z_chName : bytes; z_chIp : bytes; z_chDomain : bytes;
  z_nPort : Z; z_uConnId : Z; z_misc : list Z
}.

(** [MyChannelInfo] *)
Record channel_info := ChannelInfo {
  ch_nChannelId : Z; ch_nChannelType : Z; ch_desc : bytes; ch_bHasLock : bool; ch_nZoneId : Z
}.

(** [MyChannelPeer] *)
Record channel_peer := ChannelPeer {
  p_nPeerId : Z; p_chNick : bytes; p_nSex : Z; p_nTitleId : Z; p_nFlag : Z
}.

(** [ip_pair_t] *)
Record ip_pair := IpPair { pair_ip : ip_nums; pair_mask : ip_nums }.

Record zone_manager := ZoneManager {
  m_zones : gmap Z zone_info;
  m_channels : gmap Z channel_info;
  m_peers : gmap Z (list channel_peer);
  m_white : list ip_pair
}.

Definition set_zones (m : gmap Z zone_info) (s : zone_manager) : zone_manager :=
  ZoneManager m (m_channels s) (m_peers s) (m_white s).
Definition set_channels (m : gmap Z channel_info) (s : zone_manager) : zone_manager :=
  ZoneManager (m_zones s) m (m_peers s) (m_white s).
Definition set_peers (m : gmap Z (list channel_peer)) (s : zone_manager) : zone_manager :=
  ZoneManager (m_zones s) (m_channels s) m (m_white s).
Definition set_white (l : list ip_pair) (s : zone_manager) : zone_manager :=
  ZoneManager (m_zones s) (m_channels s) (m_peers s) l.

(** What the map makes of a new entry. *)
Definition zero_zone : zone_info := ZoneInfo 0 0 [] [] [] 0 0 (replicate 6 0).

(** An array that was not assigned. *)
Definition no_nums : ip_nums := replicate 8 None.

Section manager.
Context {env : Env} {ord : MapOrder}.
Implicit Types s : zone_manager.

Definition GetZone (nZoneId : Z) s : option zone_info := m_zones s !! nZoneId.

Definition GetZoneWithCreate (nZoneId : Z) s : zone_info * zone_manager :=
  match m_zones s !! nZoneId with
  | Some z => (z, s)
  | None => (zero_zone, set_zones (<[nZoneId := zero_zone]> (m_zones s)) s)
  end.

Definition GetChannel (nChannelId : Z) s : option channel_info := m_channels s !! nChannelId.

Definition GetZoneByChannel (nChannelId : Z) s : option zone_info :=
  if 0 <? nChannelId then
    match GetChannel nChannelId s with
    | Some c => GetZone (ch_nZoneId c) s
    | None => None
    end
  else None.

Definition GetChannelPeers (nChannelId : Z) s : option (list channel_peer) := m_peers s !! nChannelId.

(** *** The white list *)

Definition num (i : Z) (av : ip_nums) : outcome Z := o ← load1 i av; from_option_ub Uninit o.

(** The loop over the [sizeof (ip_num_array_t)] numbers: [bAllMatched]. *)
Fixpoint match_from (n : nat) (i : Z) (ip nums mask : ip_nums) : outcome bool :=
  match n with
  | O => Ok true
  | S n =>
      n1 ← num i ip;
      n2 ← num i nums;
      nMask ← num i mask;
      if negb (Z.land n1 nMask =? Z.land n2 nMask) then Ok false
      else match_from n (i + 1) ip nums mask
  end.

Fixpoint match_any (ip : ip_nums) (l : list ip_pair) : outcome bool :=
  match l with
  | [] => Ok false
  | p :: l =>
      bAllMatched ← match_from 8 0 ip (pair_ip p) (pair_mask p);
      if bAllMatched : bool then Ok true else match_any ip l
  end.

Definition CheckIpInWhiteList (sIp : bytes) s : outcome bool :=
  if zlen (m_white s) <=? 0 then Ok true
  else
    chIp ← snprintf_text 32 "%s" [AText sIp];
    '(_, _, ip) ← split_ip (chIp ++ [0]) (zlen chIp) no_nums;
    match_any ip (m_white s).

(** The two strings are the caller's; [split_ip] writes into them. *)
Definition SetWhiteName (sIp sMask : bytes) s : outcome (bytes * bytes * zone_manager) :=
  '(_, ip', nums) ← split_ip (sIp ++ [0]) (zlen sIp) no_nums;
  '(_, mask', mask) ← split_ip (sMask ++ [0]) (zlen sMask) no_nums;
  Ok (ip', mask', set_white (m_white s ++ [IpPair nums mask]) s).

(** *** Channels and peers *)

Definition RegisterChannel (c : channel_info) s : zone_manager :=
  if 0 <=? ch_nChannelId c then set_channels (<[ch_nChannelId c := c]> (m_channels s)) s else s.

(** The loops that erase while they walk. *)
Definition RemoveDirtyChannels (nZoneId : Z) s : zone_manager :=
  set_channels (foldl (λ m '(k, c), if ch_nZoneId c =? nZoneId then delete k m else m)
                  (m_channels s) (entries (m_channels s))) s.

Definition RemoveDirtyPeers (nZoneId : Z) s : zone_manager :=
  set_peers (foldl (λ m '(k, _),
                 if match GetZoneByChannel k s with
                    | None => true
                    | Some z => z_nZoneId z =? nZoneId
                    end then delete k m else m) (m_peers s) (entries (m_peers s))) s.

(** The index of the peer in the list of the channel, which is made if there is none. *)
Definition AddChannelPeer (nChannelId nPeerId : Z) s : nat * zone_manager :=
  let l := default [] (m_peers s !! nChannelId) in
  match list_find (λ p, nPeerId = p_nPeerId p) l with
  | Some (i, _) => (i, set_peers (<[nChannelId := l]> (m_peers s)) s)
  | None => (length l, set_peers (<[nChannelId := l ++ [ChannelPeer nPeerId [] (-1) 0 0]]> (m_peers s)) s)
  end.

(** [pList->erase (it2)] of the first with the id. *)
Definition RemoveChannelPeer (nChannelId nPeerId : Z) s : zone_manager :=
  match m_peers s !! nChannelId with
  | None => s
  | Some l =>
      match list_find (λ p, nPeerId = p_nPeerId p) l with
      | Some (i, _) => set_peers (<[nChannelId := delete i l]> (m_peers s)) s
      | None => s
      end
  end.

(** *** Zones *)

Definition Register (nZoneId uConnId : Z) (sDomain sIp : bytes) (nPort : Z) s : outcome zone_manager :=
  bInWhiteList ← CheckIpInWhiteList sIp s;
  if negb bInWhiteList then Ok s
  else
    let '(z, s) := GetZoneWithCreate nZoneId s in
    chName ← snprintf_text 32 "Server%d" [AInt TInt nZoneId];
    chIp ← snprintf_text 32 "%s" [AText sIp];
    chDomain ← snprintf_text 64 "%s" [AText sDomain];
    let z := ZoneInfo nZoneId 0 chName chIp chDomain nPort (u32 uConnId) (z_misc z) in
    let s := set_zones (<[nZoneId := z]> (m_zones s)) s in
    (* remove invalid peers of this server *)
    let s := RemoveDirtyPeers nZoneId s in
    (* remove invalid channels of this server *)
    Ok (RemoveDirtyChannels nZoneId s).

Definition Unregister (nZoneId : Z) s : zone_manager :=
  match m_zones s !! nZoneId with
  | Some _ =>
      let s := set_zones (delete nZoneId (m_zones s)) s in
      (* remove invalid peers of this server *)
      let s := RemoveDirtyPeers nZoneId s in
      (* remove invalid channels of this server *)
      RemoveDirtyChannels nZoneId s
  | None => s
  end.

Definition UnregisterByConnId (uConnId : Z) s : zone_manager :=
  set_zones (foldl (λ m '(k, z), if z_uConnId z =? uConnId then delete k m else m)
               (m_zones s) (entries (m_zones s))) s.

(** The first zone of the connection in the order of the walk. *)
Definition GetZoneByConnId (uConnId : Z) s : option zone_info :=
  snd <$> (snd <$> list_find (λ '(_, z), z_uConnId z = uConnId) (entries (m_zones s))).
End manager.

(** ** Properties *)

Section theorems.
Context {env : Env} {ord : MapOrder}.
Implicit Types s : zone_manager.

(** Each zone is kept under its id, connection ids have the width of their field, and the
    peers of a channel have different ids. *)
Record zones_ok s : Prop := ZonesOk {
  zo_id : ∀ k z, m_zones s !! k = Some z → z_nZoneId z = k ∧ 0 ≤ z_uConnId z < 2 ^ 32;
  zo_peers : ∀ k l, m_peers s !! k = Some l → NoDup (p_nPeerId <$> l)
}.

(** Channel [k] is registered, and so is its zone. *)
Definition belongs s (k : Z) : Prop :=
  0 < k ∧ ∃ c, m_channels s !! k = Some c ∧ is_Some (m_zones s !! ch_nZoneId c).

(** The channels of other zones. *)
Definition other_channels (n : Z) s : gmap Z channel_info :=
  filter (λ p, (ch_nZoneId p.2 =? n) = false) (m_channels s).

Lemma RemoveDirtyChannels_eq n s : RemoveDirtyChannels n s = set_channels (other_channels n s) s.
Proof.
  unfold RemoveDirtyChannels, other_channels. f_equal.
  apply (erase_filter (λ _ c, ch_nZoneId c =? n)).
Qed.

(** Both clean-ups, of a state whose zones are in order. *)
Lemma clean_up n s (Hz : ∀ k z, m_zones s !! k = Some z → z_nZoneId z = k) :
  let s' := RemoveDirtyChannels n (RemoveDirtyPeers n s) in
  m_zones s' = m_zones s ∧ m_channels s' = other_channels n s ∧ m_white s' = m_white s ∧
  ∀ k l, m_peers s' !! k = Some l ↔ m_peers s !! k = Some l ∧ belongs s' k.
Proof.
  cbn zeta. rewrite RemoveDirtyChannels_eq. split; [done|]. split; [done|]. split; [done|]. intros k l.
  set (P := λ (k : Z) (_ : list channel_peer), match GetZoneByChannel k s with None => true | Some z => z_nZoneId z =? n end).
  cbn. change (foldl _ _ _) with
    (foldl (λ m '(k, v), if P k v then delete k m else m) (m_peers s) (entries (m_peers s))).
  rewrite erase_filter, map_lookup_filter_Some. cbn.
  assert (P k l = false ↔ belongs (set_channels (other_channels n s) (RemoveDirtyPeers n s)) k) as ->; [|done].
  unfold P, belongs, GetZoneByChannel, GetChannel, GetZone. cbn.
  destruct (Z.ltb_spec 0 k); [|split; [done|lia]].
  destruct (m_channels s !! k) as [c|] eqn:Hc.
  - destruct (m_zones s !! ch_nZoneId c) as [z|] eqn:Hzc.
    + rewrite (Hz _ _ Hzc). split.
      * intros Hne. split; [done|]. exists c. split; [|by rewrite Hzc].
        by apply map_lookup_filter_Some_2.
      * intros (_ & c' & [Hc' Hne]%map_lookup_filter_Some & _). cbn in Hne. congruence.
    + split; [done|]. intros (_ & c' & [Hc' _]%map_lookup_filter_Some & [z' Hz']). congruence.
  - split; [done|]. intros (_ & c' & [Hc' _]%map_lookup_filter_Some & _). congruence.
Qed.

(** The state that a zone change leaves: the zones as given, the channels of the others,
    and the peers whose channel still belongs to a zone. *)
Definition cleaned (n : Z) (zones : gmap Z zone_info) s s' : Prop :=
  m_zones s' = zones ∧ m_channels s' = other_channels n s ∧ m_white s' = m_white s ∧
  ∀ k l, m_peers s' !! k = Some l ↔ m_peers s !! k = Some l ∧ belongs s' k.

Lemma cleaned_ok n zones s s' (Hs : zones_ok s) (Hc : cleaned n zones s s')
    (Hz : ∀ k z, zones !! k = Some z → z_nZoneId z = k ∧ 0 ≤ z_uConnId z < 2 ^ 32) :
  zones_ok s'.
Proof.
  destruct Hs as [_ Hp0], Hc as (Hzs & _ & _ & Hp). split; [by rewrite Hzs|].
  intros k l [Hl _]%Hp. by apply (Hp0 k).
Qed.

(** [Unregister] of a zone removes the zone, its channels, and the peers of every
    channel that is left without a registered zone; nothing else changes. *)
Theorem Unregister_cleans (n : Z) s (Hs : zones_ok s) (Hn : is_Some (m_zones s !! n)) :
  cleaned n (delete n (m_zones s)) s (Unregister n s) ∧ zones_ok (Unregister n s).
Proof.
  destruct Hn as [z Hz]. unfold Unregister. rewrite Hz.
  set (s1 := set_zones (delete n (m_zones s)) s).
  assert (∀ k z, m_zones s1 !! k = Some z → z_nZoneId z = k ∧ 0 ≤ z_uConnId z < 2 ^ 32) as Hok.
  { intros k z'. cbn. intros [_ Hk]%lookup_delete_Some. by apply Hs. }
  destruct (clean_up n s1) as (H1 & H2 & H3 & H4); [intros k z' Hk; by apply Hok|].
  assert (cleaned n (delete n (m_zones s)) s (RemoveDirtyChannels n (RemoveDirtyPeers n s1))) as Hc.
  { split; [exact H1|]. split; [exact H2|]. split; [exact H3|exact H4]. }
  split; [exact Hc|]. exact (cleaned_ok n _ s _ Hs Hc Hok).
Qed.

Lemma dec_no_nul v : 0 ≤ v < 2 ^ 64 → ¬ In 0 (dec v).
Proof.
  intros Hv Hin. destruct (numeral_spec 10 v false ltac:(lia) Hv) as [_ [Hd _ _ _]].
  apply in_rev in Hin. apply list_elem_of_In in Hin.
  eapply Forall_forall in Hd; [|exact Hin]. destruct Hd as (d & Hd & Heq). unfold digit_char in Heq.
  rewrite (proj2 (Z.ltb_lt d 10)) in Heq by lia. change (chr "0") with 48 in Heq. lia.
Qed.

(** The name of a zone: [Server%d]. *)
Definition zone_name (n : Z) : bytes := txt "Server" ++ (if n <? 0 then chr "-" :: dec (- n) else dec n).

Lemma zone_name_text n (Hn : - 2 ^ 31 < n < 2 ^ 31) :
  snprintf_text 32 "Server%d" [AInt TInt n] = Ok (take 31 (zone_name n)).
Proof.
  set (its := (ILit <$> txt "Server") ++ [IDec TInt n]).
  assert (text_of its = zone_name n) as Ht.
  { unfold its, text_of, zone_name. cbn. by rewrite app_nil_r. }
  change [AInt TInt n] with (args_of its). rewrite (snprintf_text_items 32 "Server%d" its); rewrite ?Ht; try done.
  - unfold its. apply Forall_app. split; [|by apply Forall_singleton].
    apply Forall_fmap, Forall_forall. intros c Hc. cbn in Hc. set_unfold. naive_solver.
  - unfold zone_name. intros [Hin|Hin]%in_app_or.
    + by repeat (destruct Hin as [Hin|Hin]; [discriminate|]).
    + destruct (n <? 0) eqn:E; [destruct Hin as [Hin|Hin]; [discriminate|]|]; by apply dec_no_nul in Hin; [|lia].
Qed.


(** *** The white list *)

(** An address of four decimal numbers, short enough for the array. *)
Definition dotted (s : bytes) : Prop :=
  text s ∧ zlen s < 32 ∧ length (tokens (chr ".") 8 0 [] s) = 4%nat ∧
  Forall octet (tokens (chr ".") 8 0 [] s).*2.

(** Its numbers, as bytes. *)
Definition octets (s : bytes) : list Z := (λ t, u8 (dec_val t)) <$> (tokens (chr ".") 8 0 [] s).*2.

(** The addresses agree where the mask has ones. *)
Definition same_net (a b mask : list Z) : bool :=
  forallb (λ '(x, y, m), Z.land x m =? Z.land y m) (zip (zip a b) mask).

(** The list that [SetWhiteName] builds from addresses and masks. *)
Definition white_list (l : list (bytes * bytes)) : list ip_pair :=
  (λ '(i, m), IpPair (ip_of i no_nums) (ip_of m no_nums)) <$> l.

Lemma ip_of_dotted x (Hs : dotted x) :
  ip_of x no_nums = (Some <$> octets x) ++ replicate 4 None ∧ length (octets x) = 4%nat.
Proof.
  destruct Hs as (_ & _ & Hl & _). unfold ip_of, octets. change (length no_nums) with 8%nat.
  rewrite !length_fmap, Hl. split; [|done].
  destruct (tokens (chr ".") 8 0 [] x) as [|t1 [|t2 [|t3 [|t4 [|? ?]]]]]; try discriminate Hl. done.
Qed.

Lemma SetWhiteName_appends ip mask s (Hi : dotted ip) (Hm : dotted mask) :
  ∃ ip' mask', SetWhiteName ip mask s = Ok (ip', mask', set_white (m_white s ++ white_list [(ip, mask)]) s).
Proof.
  destruct Hi as (Hi & _ & _ & Hio), Hm as (Hm & _ & _ & Hmo). unfold SetWhiteName.
  rewrite (split_ip_nums ip [] (zlen ip) no_nums Hi (or_intror eq_refl) Hio). cbn [mbind outcome_bind].
  rewrite (split_ip_nums mask [] (zlen mask) no_nums Hm (or_intror eq_refl) Hmo). cbn [mbind outcome_bind].
  by eexists _, _.
Qed.

Lemma match_from_dotted a b m (Ha : length a = 4%nat) (Hb : length b = 4%nat) (Hm : length m = 4%nat) :
  match_from 8 0 ((Some <$> a) ++ replicate 4 None) ((Some <$> b) ++ replicate 4 None)
    ((Some <$> m) ++ replicate 4 None) = if same_net a b m then Ub Uninit else Ok false.
Proof.
  destruct a as [|a1 [|a2 [|a3 [|a4 [|]]]]]; try discriminate Ha.
  destruct b as [|b1 [|b2 [|b3 [|b4 [|]]]]]; try discriminate Hb.
  destruct m as [|m1 [|m2 [|m3 [|m4 [|]]]]]; try discriminate Hm.
  clear. cbv -[Z.land Z.eqb].
  repeat match goal with |- context [Z.eqb ?x ?y] => destruct (Z.eqb x y); [|reflexivity] end.
  reflexivity.
Qed.

(** the white list never lets an address in: it compares eight numbers of each entry,
    [split_ip] assigns four of them, so an address that an entry admits makes the check
    read numbers that were never assigned, and any other address is refused. *)
Theorem white_list_reads_uninit (ip : bytes) (l : list (bytes * bytes)) s (Hip : dotted ip)
    (Hl : Forall (λ p, dotted p.1 ∧ dotted p.2) l) (Hne : l ≠ []) (Hw : m_white s = white_list l) :
  CheckIpInWhiteList ip s =
    (if existsb (λ p, same_net (octets ip) (octets p.1) (octets p.2)) l then Ub Uninit else Ok false).
Proof.
  destruct (ip_of_dotted ip Hip) as [Hnums Hlen]. destruct Hip as (Htx & Hfit & _ & Hoct).
  unfold CheckIpInWhiteList. rewrite Hw.
  assert ((zlen (white_list l) <=? 0) = false) as ->.
  { apply Z.leb_gt. destruct l as [|[? ?] ?]; [done|]. cbn. lia. }
  rewrite snprintf_text_s; [| |exact Hfit].
  2:{ intros Hin%list_elem_of_In. eapply Forall_forall in Htx; [|exact Hin]. done. }
  cbn [mbind outcome_bind]. rewrite (split_ip_nums ip [] (zlen ip) no_nums Htx (or_intror eq_refl) Hoct).
  cbn [mbind outcome_bind]. clear Hne Hw. induction Hl as [|[i m] l [Hi Hm] Hl IH]; [done|].
  cbn [white_list fmap list_fmap match_any existsb pair_ip pair_mask fst snd].
  destruct (ip_of_dotted i Hi) as [Hni Hli], (ip_of_dotted m Hm) as [Hnm Hlm].
  rewrite Hnums, Hni, Hnm, match_from_dotted by done.
  destruct (same_net _ _ _); [done|]. cbn [mbind outcome_bind orb]. rewrite <- Hnums. exact IH.
Qed.

(** *** Peers and connections *)

Lemma filter_absent (p : Z) (l : list channel_peer) :
  p ∉ p_nPeerId <$> l → filter (λ q, p_nPeerId q ≠ p) l = l.
Proof.
  induction l as [|x l IH]; cbn [fmap list_fmap]; [done|].
  intros [Hne Hl]%not_elem_of_cons. rewrite filter_cons_True; [|congruence]. by rewrite IH.
Qed.

Lemma remove_found (p : Z) (l : list channel_peer) i q (Hnd : NoDup (p_nPeerId <$> l)) :
  list_find (λ q, p = p_nPeerId q) l = Some (i, q) → delete i l = filter (λ q, p_nPeerId q ≠ p) l.
Proof.
  revert i. induction l as [|x l IH]; intros i; cbn [list_find]; [done|].
  cbn in Hnd. apply NoDup_cons in Hnd as [Hx Hnd].
  destruct (decide (p = p_nPeerId x)) as [Hp|Hp].
  - intros [= <- <-]. rewrite filter_cons_False by naive_solver. cbn. symmetry.
    apply filter_absent. by rewrite Hp.
  - destruct (list_find _ l) as [[j y]|] eqn:E; [|done]. intros [= <- <-].
    rewrite filter_cons_True by congruence. cbn. f_equal. by apply IH.
Qed.

(** [AddChannelPeer] finds the peer of the channel or appends it, so the ids of a
    channel's peers stay different; [RemoveChannelPeer] removes exactly it. *)
Theorem channel_peers_roundtrip (c p : Z) s (Hs : zones_ok s) :
  let '(i, s') := AddChannelPeer c p s in
  zones_ok s' ∧
  (∃ l q, GetChannelPeers c s' = Some l ∧ l !! i = Some q ∧ p_nPeerId q = p) ∧
  (∀ c', c' ≠ c → GetChannelPeers c' s' = GetChannelPeers c' s) ∧
  GetChannelPeers c (RemoveChannelPeer c p s') =
    Some (filter (λ q, p_nPeerId q ≠ p) (default [] (GetChannelPeers c s))).
Proof.
  destruct Hs as [Hz Hp]. unfold AddChannelPeer, GetChannelPeers.
  set (l := default [] (m_peers s !! c)).
  assert (NoDup (p_nPeerId <$> l)) as Hnd.
  { unfold l. destruct (m_peers s !! c) eqn:E; [by eapply (Hp c)|constructor]. }
  assert (∀ l', NoDup (p_nPeerId <$> l') → zones_ok (set_peers (<[c := l']> (m_peers s)) s)) as Hok.
  { intros l' Hl'. split; [done|]. cbn. intros k l2 [[<- <-]|[_ Hk]]%lookup_insert_Some; [done|by eapply Hp]. }
  assert (∀ l' i q, NoDup (p_nPeerId <$> l') → list_find (λ q, p = p_nPeerId q) l' = Some (i, q) →
    filter (λ q, p_nPeerId q ≠ p) l' = filter (λ q, p_nPeerId q ≠ p) l →
    let s' := set_peers (<[c := l']> (m_peers s)) s in
    zones_ok s' ∧ (∃ l q, m_peers s' !! c = Some l ∧ l !! i = Some q ∧ p_nPeerId q = p) ∧
    (∀ c', c' ≠ c → m_peers s' !! c' = m_peers s !! c') ∧
    m_peers (RemoveChannelPeer c p s') !! c = Some (filter (λ q, p_nPeerId q ≠ p) l)) as Hgen.
  { intros l' i q Hl' Hf Hfl s'. split; [by apply Hok|]. cbn. split; [|split].
    - apply list_find_Some in Hf as (Hi & Hq & _). exists l', q. by rewrite lookup_insert_eq.
    - intros c' Hc'. by apply lookup_insert_ne.
    - unfold RemoveChannelPeer. cbn. rewrite lookup_insert_eq, Hf. cbn.
      rewrite insert_insert_eq, lookup_insert_eq, (remove_found p l' i q) by done. by rewrite Hfl. }
  destruct (list_find _ l) as [[i q]|] eqn:Hf; [by apply (Hgen l i q)|].
  apply list_find_None in Hf. set (x := ChannelPeer p [] (-1) 0 0).
  apply (Hgen (l ++ [x]) (length l) x).
  - rewrite fmap_app. apply NoDup_app. split; [done|]. split; [|by apply NoDup_singleton].
    intros y (z & -> & Hin)%list_elem_of_fmap Hzx%list_elem_of_singleton.
    eapply Forall_forall in Hf; [|exact Hin]. by apply Hf.
  - apply list_find_Some. rewrite lookup_app_r, Nat.sub_diag by done. split; [done|]. split; [done|].
    intros j y Hj Hlt. rewrite lookup_app_l in Hj by done. eapply Forall_forall in Hf; [exact Hf|].
    by eapply list_elem_of_lookup_2.
  - rewrite filter_app, filter_cons_False by naive_solver. by rewrite filter_nil, app_nil_r.
Qed.

(** [UnregisterByConnId] removes the zones of the connection and, unlike [Unregister],
    leaves their channels and peers; the zones keep 32 bits of a connection id, so a
    connection whose id needs more is never found and its zones stay. *)
Theorem UnregisterByConnId_zones (conn : Z) s (Hs : zones_ok s) :
  UnregisterByConnId conn s = set_zones (filter (λ p, (z_uConnId p.2 =? conn) = false) (m_zones s)) s ∧
  (GetZoneByConnId conn s = None ↔ ∀ n z, m_zones s !! n = Some z → z_uConnId z ≠ conn) ∧
  (2 ^ 32 ≤ conn → UnregisterByConnId conn s = s ∧ GetZoneByConnId conn s = None).
Proof.
  assert (UnregisterByConnId conn s =
    set_zones (filter (λ p, (z_uConnId p.2 =? conn) = false) (m_zones s)) s) as Heq.
  { unfold UnregisterByConnId. f_equal. apply (erase_filter (λ _ z, z_uConnId z =? conn)). }
  assert (GetZoneByConnId conn s = None ↔ ∀ n z, m_zones s !! n = Some z → z_uConnId z ≠ conn) as Hget.
  { unfold GetZoneByConnId. rewrite !fmap_None, list_find_None, Forall_forall. split.
    - intros Hn n z Hz. by apply (Hn (n, z)), elem_of_entries.
    - intros Hn [n z] Hz%elem_of_entries. by apply (Hn n). }
  split; [done|]. split; [done|]. intros Hc.
  assert (∀ n z, m_zones s !! n = Some z → z_uConnId z ≠ conn) as Hne.
  { intros n z Hz. destruct Hs as [Hzs _]. destruct (Hzs n z Hz). lia. }
  split; [|by apply Hget]. rewrite Heq, map_filter_id; [by destruct s|].
  intros n z Hz. cbn. apply Z.eqb_neq. by eapply Hne.
Qed.
End theorems.

(** ** Witnesses *)

Definition ex_channel : channel_info := ChannelInfo 5 1 [] false 2.

(** Two zones, a channel of the second, and a peer in it. *)
Definition ex_zones : zone_manager :=
  ZoneManager {[ 1 := ZoneInfo 1 0 (txt "Server1") [] [] 80 11 []; 2 := ZoneInfo 2 0 (txt "Server2") [] [] 80 12 [] ]}
    {[ 5 := ex_channel ]} {[ 5 := [ChannelPeer 7 [] (-1) 0 0] ]} [].

Lemma ex_zones_ok : zones_ok ex_zones.
Proof.
  split.
  - intros k z. cbn. rewrite !lookup_insert_Some, lookup_singleton_Some.
    intros [[<- <-]|[_ [<- <-]]]; cbn; lia.
  - intros k l. cbn. rewrite lookup_singleton_Some. intros [<- <-]. by apply NoDup_singleton.
Qed.

Lemma Unregister_cleans_witness :
  cleaned 2 (delete 2 (m_zones ex_zones)) ex_zones (@Unregister ex_order 2 ex_zones) ∧
  zones_ok (@Unregister ex_order 2 ex_zones) ∧
  m_peers (@Unregister ex_order 2 ex_zones) = ∅.
Proof.
  destruct (@Unregister_cleans ex_order 2 ex_zones ex_zones_ok) as [H1 H2]; [by eexists|].
  split; [exact H1|]. split; [exact H2|]. reflexivity.
Defined.

Lemma text_dec s : forallb (λ c, negb (c =? 0)) s = true → text s.
Proof.
  intros H. apply Forall_forall. intros c Hc Hz. rewrite forallb_forall in H.
  specialize (H c (proj1 (list_elem_of_In _ _) Hc)). rewrite Hz in H. discriminate.
Qed.


Lemma dotted_dec s : forallb (λ c, negb (c =? 0)) s = true → (zlen s <? 32) = true →
  length (tokens (chr ".") 8 0 [] s) = 4%nat →
  forallb (λ t, forallb isdigit t && (dec_val t <=? INT_MAX)) (tokens (chr ".") 8 0 [] s).*2 = true → dotted s.
Proof.
  intros Ht Hl Hn Ho. split; [by apply text_dec|]. split; [by apply Z.ltb_lt|]. split; [done|].
  apply Forall_forall. intros t Hin. rewrite forallb_forall in Ho.
  specialize (Ho t (proj1 (list_elem_of_In _ _) Hin)). apply andb_true_iff in Ho as [Hd Hv].
  split; [|by apply Z.leb_le]. apply Forall_forall. intros c Hc. rewrite forallb_forall in Hd.
  by apply Hd, list_elem_of_In.
Qed.

(** The net 192.168.0.0/16. *)
Definition ex_white : list (bytes * bytes) := [(txt "192.168.0.0", txt "255.255.0.0")].

Lemma white_list_reads_uninit_witness :
  @CheckIpInWhiteList ex_env (txt "192.168.3.4") (set_white (white_list ex_white) ex_zones) = Ub Uninit.
Proof.
  rewrite (@white_list_reads_uninit ex_env (txt "192.168.3.4") ex_white); [reflexivity| | |done|reflexivity].
  - by apply dotted_dec.
  - apply Forall_singleton. split; by apply dotted_dec.
Defined.

Lemma channel_peers_roundtrip_witness :
  let '(i, s') := AddChannelPeer 5 9 ex_zones in
  zones_ok s' ∧
  (∃ l q, GetChannelPeers 5 s' = Some l ∧ l !! i = Some q ∧ p_nPeerId q = 9) ∧
  (∀ c', c' ≠ 5 → GetChannelPeers c' s' = GetChannelPeers c' ex_zones) ∧
  GetChannelPeers 5 (RemoveChannelPeer 5 9 s') =
    Some (filter (λ q, p_nPeerId q ≠ 9) (default [] (GetChannelPeers 5 ex_zones))).
Proof. exact (channel_peers_roundtrip 5 9 ex_zones ex_zones_ok). Defined.

Lemma UnregisterByConnId_zones_witness :
  m_channels (@UnregisterByConnId ex_order 12 ex_zones) = m_channels ex_zones ∧
  @UnregisterByConnId ex_order (2 ^ 32 + 12) ex_zones = ex_zones.
Proof.
  destruct (@UnregisterByConnId_zones ex_order 12 ex_zones ex_zones_ok) as [-> _].
  destruct (@UnregisterByConnId_zones ex_order (2 ^ 32 + 12) ex_zones ex_zones_ok) as (_ & _ & [-> _]); [lia|].
  done.
Defined.
