(* ===== verification/Fifo.v ===== *)
(** * What a byte buffer promises to the connection code

    [ByteFifo] is the part of the buffer's contract that [tcp/ev] and [tcp/uv] rely
    on: creating, destroying and reserving, each stated on the abstract queue [aq].
    The mirror buffer of [BipBuf] is an instance. *)

From S2P Require Import Prelude CHeap BipBuf.

#[local] Open Scope Z_scope.

Class ByteFifo := {
  fmem : Type;   (* the memory the buffers live in *)
  fifo : Type;   (* one buffer *)
  fmem_ok : fmem → Prop;
  frep : fmem → fifo → aq → Prop;
  fcreate : Z → fmem → fmem * fifo;
  fdestroy : fmem → fifo → outcome fmem;
  freserve : fmem → fifo → outcome (fmem * fifo * option Z * Z);
  fcommit : fifo → Z → fifo;
  fdecommit : fifo → Z → fifo;
  (* a new buffer is empty and the others keep their contents *)
  fcreate_ok m cap : fmem_ok m → 0 ≤ cap < 2 ^ 63 →
    fmem_ok (fcreate cap m).1 ∧ frep (fcreate cap m).1 (fcreate cap m).2 (AQ cap [] None) ∧
    ∀ g q, frep m g q → frep (fcreate cap m).1 g q;
  fdestroy_ok m f q : frep m f q → ∃ m', fdestroy m f = Ok m' ∧ (fmem_ok m → fmem_ok m');
  (* all the free space is reserved, unless there is none or a block is reserved *)
  freserve_ok m f c d r : frep m f (AQ c d r) →
    ∃ m' f' p n, freserve m f = Ok (m', f', p, n) ∧ (fmem_ok m → fmem_ok m') ∧
      if decide (is_Some r ∨ zlen d = c) then p = None ∧ n = 0 ∧ frep m' f' (AQ c d r)
      else is_Some p ∧ n = c - zlen d ∧ ∃ w, zlen w = n ∧ frep m' f' (AQ c d (Some w));
  (* committing appends the start of the reserved block, if there is one, and gives it up *)
  fcommit_ok m f c d r n : frep m f (AQ c d r) → 0 ≤ n →
    frep m (fcommit f n) (AQ c (d ++ take (Z.to_nat n) (default [] r)) None);
  (* decommitting drops the start of the contents *)
  fdecommit_ok m f c d r n : frep m f (AQ c d r) → 0 ≤ n →
    frep m (fdecommit f n) (AQ c (drop (Z.to_nat n) d) r)
}.

Section bip.
Context {mal : Malloc}.

Definition bip_rep (h : heap) (bb : bip_buf) (q : aq) : Prop :=
  ∃ m, ring_ok h bb m ∧ abs m bb = q.

Lemma bip_create_ok h cap :
  heap_ok h → 0 ≤ cap < 2 ^ 63 →
  heap_ok (bip_buf_create cap h).1 ∧
  bip_rep (bip_buf_create cap h).1 (bip_buf_create cap h).2 (AQ cap [] None) ∧
  ∀ g q, bip_rep h g q → bip_rep (bip_buf_create cap h).1 g q.
Proof.
  intros Hh Hcap. destruct (create_ok cap h Hh Hcap) as (m & Hm & Hh' & Habs).
  split; [done|]. split; [by exists m|].
  intros g q (mg & [Hb ? ? ? ?] & Hg). exists mg. split; [|done]. split; [|done..].
  unfold bip_buf_create. pose proof (malloc_fresh h (u64 (cap * 2)) Hh) as Hf.
  destruct (malloc (u64 (cap * 2)) h) as [h' b] eqn:E. cbn [fst snd] in *.
  change h' with ((h', b).1). rewrite <- E, malloc_lookup_ne; [done|].
  rewrite E. cbn. intros Eb. rewrite Eb in Hb. congruence.
Qed.

Lemma bip_destroy_ok h bb q :
  bip_rep h bb q → ∃ h', bip_buf_destroy h bb = Ok h' ∧ (heap_ok h → heap_ok h').
Proof.
  intros (m & [Hb _ _ _ _] & _). unfold bip_buf_destroy. rewrite (free_Ok _ _ m) by done.
  eexists. split; [done|]. intros Hh b. cbn. rewrite lookup_delete. case_decide; [|apply Hh].
  by intros [].
Qed.

Lemma bip_reserve_ok h bb c d r :
  bip_rep h bb (AQ c d r) →
  ∃ h' bb' p n, bip_buf_reserve h bb = Ok (h', bb', p, n) ∧ (heap_ok h → heap_ok h') ∧
    if decide (is_Some r ∨ zlen d = c) then p = None ∧ n = 0 ∧ bip_rep h' bb' (AQ c d r)
    else is_Some p ∧ n = c - zlen d ∧ ∃ w, zlen w = n ∧ bip_rep h' bb' (AQ c d (Some w)).
Proof.
  intros (m & Hm & Habs). destruct (refines_reserve h bb m Hm) as (h' & bb' & m' & rt & E & Hm' & Hh & Hs).
  cbn [exec] in E. apply bind_Ok in E as ([[[h1 bb1] p] n] & E & [= -> -> <-]).
  exists h', bb', p, n. split; [done|]. split; [done|].
  rewrite Habs in Hs.
  assert (∀ q', abs m' bb' = q' → bip_rep h' bb' q') as Hrep by (intros; by exists m').
  generalize dependent (abs m' bb'). intros q' Hs Hrep. destruct p as [p|].
  - rewrite bool_decide_true in Hs by eauto. inversion Hs; subst.
    rewrite decide_False by (intros [[? [=]]|]; lia).
    split; [by eexists|]. split; [done|]. eexists. split; [eassumption|]. by apply Hrep.
  - rewrite bool_decide_false in Hs by (by intros [? [=]]). inversion Hs as [q Hq| | | | | | | | |]; subst.
    rewrite decide_True by done. split; [done|]. split; [done|]. by apply Hrep.
Qed.

(** The pointer it returns is the start of the reserved block. *)
Lemma reserve_base h bb h' bb' p n :
  bip_buf_reserve h bb = Ok (h', bb', Some p, n) → p = _r_start bb'.
Proof.
  unfold bip_buf_reserve. destruct (_ <? _); [done|]. destruct (_ =? 0); [done|].
  intros E. apply bind_Ok in E as ([h1 bb1] & _ & [= _ <- <- _]). done.
Qed.

(** The other calls, for the clients that read from the buffer. *)

(** Where the committed bytes lie. *)
Lemma bip_view h bb c d r :
  bip_rep h bb (AQ c d r) → ∃ m, block h (_buffer bb) = Ok m ∧
    0 ≤ bip_buf_get_contiguous_block bb ∧
    bip_buf_get_contiguous_block bb + zlen d ≤ zlen m ∧
    sub_at (bip_buf_get_contiguous_block bb) (zlen d) m = d ∧
    bip_buf_get_committed_size bb = zlen d ∧ bip_buf_get_capacity bb = c ∧ zlen d ≤ c.
Proof.
  intros (m & Hm & [= <- <- _]). pose proof (ring_bounds Hm) as Hb.
  pose proof (length_contents Hm) as Hl. exists m.
  split; [apply block_Ok, (ring_block _ _ _ Hm)|].
  rewrite (committed_size_eq Hm), Hl. unfold bip_buf_get_contiguous_block, bip_buf_get_capacity.
  split_and!; try done; lia.
Qed.

Lemma bip_op o h bb c d r :
  bip_rep h bb (AQ c d r) → (∀ m, ring_ok h bb m → refines o h bb m) →
  ∃ h' bb' q' rt, exec o h bb = Ok (h', bb', rt) ∧ bip_rep h' bb' q' ∧
    (heap_ok h → heap_ok h') ∧ aq_step (AQ c d r) o q' rt.
Proof.
  intros (m & Hm & <-) Hr. destruct (Hr m Hm) as (h' & bb' & m' & rt & ? & ? & ? & ?).
  exists h', bb', (abs m' bb'), rt. split; [done|]. split; [by exists m'|done].
Qed.

Lemma bip_write_ok h bb c d w off x :
  bip_rep h bb (AQ c d (Some w)) → 0 ≤ off → off + zlen x ≤ zlen w →
  ∃ h', hstore (_buffer bb) (_r_start bb + off) x h = Ok h' ∧ (heap_ok h → heap_ok h') ∧
    bip_rep h' bb (AQ c d (Some (put_at off x w))).
Proof.
  intros Hrep ??. destruct Hrep as (m & Hm & Hq).
  destruct (refines_write h bb m off x Hm) as (h' & bb' & m' & rt & E & Hm' & Hh & Hs);
    [by rewrite Hq|].
  rewrite Hq in Hs. cbn [exec] in E. apply bind_Ok in E as (h1 & E & [= -> <- <-]).
  exists h'. split; [done|]. split; [done|]. exists m'. split; [done|]. generalize dependent (abs m' bb). intros q Hs. by inversion Hs.
Qed.

Lemma bip_commit_ok h bb c d w n :
  bip_rep h bb (AQ c d (Some w)) → 0 ≤ n < 2 ^ 64 →
  bip_rep h (bip_buf_commit bb n) (AQ c (d ++ take (Z.to_nat n) w) None).
Proof.
  intros Hrep Hn. destruct (bip_op (OCommit n) h bb c d (Some w) Hrep) as (h' & bb' & q' & rt & E & Hr & _ & Hs).
  { intros m Hm. apply refines_commit; [done|lia]. }
  injection E as <- <- <-. by inversion Hs; subst.
Qed.

Lemma bip_decommit_ok h bb c d r n :
  bip_rep h bb (AQ c d r) → 0 ≤ n →
  bip_rep h (bip_buf_decommit bb n).1 (AQ c (drop (Z.to_nat n) d) r).
Proof.
  intros Hrep Hn. destruct (bip_op (ODecommit n) h bb c d r Hrep) as (h' & bb' & q' & rt & E & Hr & _ & Hs).
  { intros m Hm. by apply refines_decommit. }
  cbn [exec] in E. destruct (bip_buf_decommit bb n) as [bb2 k]. injection E as <- <- <-.
  by inversion Hs; subst.
Qed.

Lemma bip_commit_any h bb c d r n :
  bip_rep h bb (AQ c d r) → 0 ≤ n →
  bip_rep h (bip_buf_commit bb n) (AQ c (d ++ take (Z.to_nat n) (default [] r)) None).
Proof.
  intros Hrep Hn. destruct (bip_op (OCommit n) h bb c d r Hrep) as (h' & bb' & q' & rt & E & Hr & _ & Hs).
  { intros m Hm. by apply refines_commit. }
  injection E as <- <- <-. inversion Hs; subst; [done|]. cbn. by rewrite take_nil, app_nil_r.
Qed.

#[export] Instance bip_fifo : ByteFifo := {|
  fmem_ok := heap_ok;
  frep := bip_rep;
  fcreate := bip_buf_create;
  fdestroy := bip_buf_destroy;
  freserve := bip_buf_reserve;
  fcommit := bip_buf_commit;
  fdecommit bb n := (bip_buf_decommit bb n).1;
  fcreate_ok h cap := bip_create_ok h cap;
  fdestroy_ok := bip_destroy_ok;
  freserve_ok := bip_reserve_ok;
  fcommit_ok := bip_commit_any;
  fdecommit_ok := bip_decommit_ok
|}.
End bip.
