(* ===== verification/Io.v ===== *)
(** * The world of the connection code: its own memory and the event library

    The files of [tcp/ev], [tcp/uv] and [http/ev] in C glue the library's own objects
    (libevent, libuv, libevhtp) to memory they malloc themselves.  A [prog] runs in a
    [world]: the blocks malloc'ed by this code, the memory of its byte buffers, and the
    trace of the calls into the libraries.  What a library call answers is a parameter
    ([Lib]), a function of the trace so far; nothing is assumed of it unless a theorem
    says so.  A program returns, runs into undefined behaviour, or ends the process
    with [exit].

    A pointer is an integer, 0 is NULL; malloc is taken to succeed, as the code takes
    it.  A field that has not been assigned is [None], and reading it is [Uninit]. *)

From stdpp Require Export gmap.
From S2P Require Import Prelude CHeap BipBuf Fifo.

#[local] Open Scope Z_scope.

(** ** Library calls *)

Inductive arg := VInt (z : Z) | VPtr (p : Z) | VFun (f : string) | VStr (s : string).

(** A call: the function, its arguments and its answer. *)
Record event := Event { ev_fn : string; ev_args : list arg; ev_ret : Z }.

(** The answers of the libraries, and what they write through an out parameter; the
    trace has the latest call first. *)
Class Lib := {
  answer : list event → string → list arg → Z;
  answer_out : list event → string → list arg → Z
}.

(** ** Memory *)

(** [struct sockaddr_in]: port in network byte order, address. *)
Record sockaddr_in := SockAddr { sin_port : Z; sin_addr : Z }.

(** [client_handle_t] *)
Record client_handle := ClientHandle {
  clnt_fd : option Z;
  clnt_sin : option sockaddr_in;
  clnt_sockimpl : option Z;
  clnt_connimpl : option Z;
  clnt_bb : option Z
}.

Definition set_fd (fd : Z) (c : client_handle) : client_handle :=
  ClientHandle (Some fd) (clnt_sin c) (clnt_sockimpl c) (clnt_connimpl c) (clnt_bb c).
Definition set_sin (sin : sockaddr_in) (c : client_handle) : client_handle :=
  ClientHandle (clnt_fd c) (Some sin) (clnt_sockimpl c) (clnt_connimpl c) (clnt_bb c).
Definition set_sockimpl (p : Z) (c : client_handle) : client_handle :=
  ClientHandle (clnt_fd c) (clnt_sin c) (Some p) (clnt_connimpl c) (clnt_bb c).
Definition set_connimpl (p : Z) (c : client_handle) : client_handle :=
  ClientHandle (clnt_fd c) (clnt_sin c) (clnt_sockimpl c) (Some p) (clnt_bb c).
Definition set_bb (p : Z) (c : client_handle) : client_handle :=
  ClientHandle (clnt_fd c) (clnt_sin c) (clnt_sockimpl c) (clnt_connimpl c) (Some p).

(** What malloc leaves in a client handle. *)
Definition fresh_client : client_handle := ClientHandle None None None None None.

Definition TCP_STREAM_READ_SIZE : Z := 8192.

(** [htons] on a little-endian machine. *)
Definition htons (port : Z) : Z :=
  Z.lor (Z.shiftl (Z.land port 255) 8) (Z.land (Z.shiftr port 8) 255).

(** [server_handle_t] *)
Record server_handle := ServerHandle { srv_fd : Z; srv_port : Z; srv_impl : Z; srv_userdata : Z }.

(** [struct uvsrvr_impl_t]; callbacks are names. *)
Record uvsrvr_impl := UvSrvrImpl {
  ui_loop : Z; ui_server : Z; ui_server_closed : Z;
  ui_acceptcb : option string; ui_closecb : string; ui_readcb : string; ui_writecb : string
}.

(** A uv loop, handle or request in memory of this code: the user's field [data]; the
    others are the library's. *)
Record uv_object := UvObject { uv_data : option Z }.

(** [write_req_t]: the handle that [uv_write] stores in the request, and [buf.base]. *)
Record write_req := WriteReq { rq_handle : option Z; rq_base : Z }.

(** [CTcpEventManager]: the handlers by name; the empty name is the default handler, which
    does nothing. *)
Record event_manager := EventManager {
  em_ready : bool; em_handlers : list string; em_packet : string; em_inner : string
}.

(** The connection classes: [CUvClientConn] and [CUvIsolatedConn] with its copies.  The
    copies for the gate server notify the connection when its socket is closed; the copies
    for the outer packet differ in the packet's class. *)
Inductive packet_class := Inner | Outer.
Inductive conn_class := CClient (gate : bool) | CIsolated (gate : bool) (pc : packet_class).

(** A connection object.  [cn_ref] is the server of a client, the factory of an isolated
    connection; a client has no event manager and no timer of its own. *)
Record conn := Conn {
  cn_class : conn_class; cn_ref : Z; cn_events : Z; cn_id : Z;
  cn_clnt : Z; cn_base : Z; cn_packet : Z; cn_timer : Z;
  cn_running : bool; cn_connected : bool; cn_disposed : bool; cn_flushed : bool;
  cn_delay : bool;
  cn_fe_produce : Z; cn_be_consume : Z; cn_be_produce : Z; cn_fe_consume : Z;
  cn_ip : string; cn_port : Z
}.

(** [CUvServer]: where its member [_srvr] lies, its factory and event manager, the client
    handles that have no connection object yet, and [_closed]. *)
Record tcp_server := TcpServer {
  ts_srvr : Z; ts_factory : Z; ts_events : Z; ts_streams : gmap Z Z; ts_closed : bool
}.

(** [CUvConnFactoryBase] with its member [_connManager], a [CTcpConnManager]: the loop, the
    id generator, the clients by server and connection id, the isolated connections by
    id, the number of clients, the two recycler lists and the servers. *)
Record factory := Factory {
  fa_loop : Z; fa_next_id : Z; fa_entries : gmap Z (gmap Z Z); fa_isolated : gmap Z Z;
  fa_count : Z; fa_recycler : list Z; fa_safe : list Z;
  fa_servers : list Z; fa_closed : list Z
}.

Section world.
Context {fi : ByteFifo} {lib : Lib}.

Inductive obj :=
  | OClient (c : client_handle)
  | OFifo (f : fifo)
  | OUv (u : uv_object)
  | OReq (r : write_req)
  | OBytes (b : bytes)
  | OServer (s : server_handle)
  | OUvImpl (i : uvsrvr_impl)
  | OPacket (pc : packet_class)
  | OEvents (m : event_manager)
  | OConn (c : conn)
  | OTcp (s : tcp_server)
  | OFactory (f : factory).

(** The kinds of objects. *)
Class Kind (A : Type) := {
  inj : A → obj;
  prj : obj → option A;
  prj_inj a : prj (inj a) = Some a
}.

#[export] Instance client_kind : Kind client_handle.
Proof. by refine {| inj := OClient; prj o := match o with OClient c => Some c | _ => None end |}. Defined.
#[export] Instance fifo_kind : Kind fifo.
Proof. by refine {| inj := OFifo; prj o := match o with OFifo c => Some c | _ => None end |}. Defined.
#[export] Instance uv_kind : Kind uv_object.
Proof. by refine {| inj := OUv; prj o := match o with OUv c => Some c | _ => None end |}. Defined.
#[export] Instance req_kind : Kind write_req.
Proof. by refine {| inj := OReq; prj o := match o with OReq c => Some c | _ => None end |}. Defined.
#[export] Instance server_kind : Kind server_handle.
Proof. by refine {| inj := OServer; prj o := match o with OServer c => Some c | _ => None end |}. Defined.
#[export] Instance uv_impl_kind : Kind uvsrvr_impl.
Proof. by refine {| inj := OUvImpl; prj o := match o with OUvImpl c => Some c | _ => None end |}. Defined.
#[export] Instance packet_class_kind : Kind packet_class.
Proof. by refine {| inj := OPacket; prj o := match o with OPacket c => Some c | _ => None end |}. Defined.
#[export] Instance events_kind : Kind event_manager.
Proof. by refine {| inj := OEvents; prj o := match o with OEvents c => Some c | _ => None end |}. Defined.
#[export] Instance conn_kind : Kind conn.
Proof. by refine {| inj := OConn; prj o := match o with OConn c => Some c | _ => None end |}. Defined.
#[export] Instance tcp_kind : Kind tcp_server.
Proof. by refine {| inj := OTcp; prj o := match o with OTcp c => Some c | _ => None end |}. Defined.
#[export] Instance factory_kind : Kind factory.
Proof. by refine {| inj := OFactory; prj o := match o with OFactory c => Some c | _ => None end |}. Defined.

Record world := World {
  w_next : Z;
  w_heap : gmap Z obj;
  w_mem : fmem;
  w_trace : list event
}.

Definition world_ok (w : world) : Prop :=
  0 < w_next w ∧ (∀ p, is_Some (w_heap w !! p) → 0 < p < w_next w) ∧ fmem_ok (w_mem w).

Lemma world_fresh w p : world_ok w → w_next w ≤ p → w_heap w !! p = None.
Proof.
  intros (_ & Hd & _) Hp. apply eq_None_not_Some. intros Hs%Hd. lia.
Qed.

(** ** Programs *)

Inductive result (A : Type) :=
  | Ret (a : A) (w : world)
  | Exited (code : Z) (w : world)
  | Stuck (u : ub).

Definition prog (A : Type) : Type := world → result A.

#[export] Instance prog_ret : MRet prog := λ A a w, Ret A a w.
#[export] Instance prog_bind : MBind prog := λ A B f m w,
  match m w with
  | Ret _ a w => f a w
  | Exited _ code w => Exited B code w
  | Stuck _ u => Stuck B u
  end.

Definition lift {A} (m : outcome A) : prog A :=
  λ w, match m with Ok a => Ret A a w | Ub u => Stuck A u end.

Definition exit {A} (code : Z) : prog A := λ w, Exited A code w.

(** A library call; [call_out] also yields what is written through the out pointer. *)
Definition log (e : event) (w : world) : world :=
  World (w_next w) (w_heap w) (w_mem w) (e :: w_trace w).

Definition call (fn : string) (args : list arg) : prog Z := λ w,
  let r := answer (w_trace w) fn args in Ret Z r (log (Event fn args r) w).

Definition call_out (fn : string) (args : list arg) : prog (Z * Z) := λ w,
  let r := answer (w_trace w) fn args in
  let o := answer_out (w_trace w) fn args in
  Ret (Z * Z) (r, o) (log (Event fn args r) w).

Definition call_ (fn : string) (args : list arg) : prog unit := _ ← call fn args; mret tt.

(** ** Memory operations *)

Definition set_heap (h : gmap Z obj) (w : world) : world :=
  World (w_next w) h (w_mem w) (w_trace w).
Definition set_mem (m : fmem) (w : world) : world :=
  World (w_next w) (w_heap w) m (w_trace w).

Definition malloc (o : obj) : prog Z := λ w,
  Ret Z (w_next w) (World (w_next w + 1) (<[w_next w := o]> (w_heap w)) (w_mem w) (w_trace w)).

(** The object at an address, of any kind. *)
Definition read (p : Z) : prog obj := λ w,
  if p =? 0 then Stuck obj NullDeref
  else match w_heap w !! p with Some o => Ret obj o w | None => Stuck obj Dangling end.

Definition write (p : Z) (o : obj) : prog unit := λ w,
  Ret unit tt (set_heap (<[p := o]> (w_heap w)) w).

(** [free]: NULL is allowed; anything else must be a block of malloc. *)
Definition free (p : Z) : prog unit := λ w,
  if p =? 0 then Ret unit tt w
  else match w_heap w !! p with
       | Some _ => Ret unit tt (set_heap (delete p (w_heap w)) w)
       | None => Stuck unit Dangling
       end.

(** The object of a kind at an address; another kind there counts as dangling. *)
Definition get {A} `{Kind A} (p : Z) : prog A :=
  o ← read p; match prj o with Some a => mret a | None => lift (Ub Dangling) end.

(** [p->field = v] *)
Definition upd {A} `{Kind A} (p : Z) (f : A → A) : prog unit := a ← get p; write p (inj (f a)).

(** Read a field that may not have been assigned. *)
Definition init {A} (o : option A) : prog A := lift (from_option_ub Uninit o).

(** A call of the library on an object of this code's memory, which it reads. *)
Definition call_on (fn : string) (p : Z) (args : list arg) : prog Z :=
  read p;; call fn (VPtr p :: args).

(** ** The byte buffer as a heap object *)

(** [bip_buf_create (capacity)] *)
Definition bb_create (capacity : Z) : prog Z := λ w,
  let '(m, f) := fcreate capacity (w_mem w) in malloc (OFifo f) (set_mem m w).

(** [bip_buf_destroy (bb)] frees the buffer and the handle. *)
Definition destroy_fifo (bb : Z) (f : fifo) : prog unit := λ w,
  match fdestroy (w_mem w) f with
  | Ok m => free bb (set_mem m w)
  | Ub u => Stuck unit u
  end.
Definition bb_destroy (bb : Z) : prog unit := f ← get (A := fifo) bb; destroy_fifo bb f.

(** [bip_buf_reserve (bb, &size)]: the pointer (an offset, or [None]) and the size. *)
Definition reserve_fifo (bb : Z) (f : fifo) : prog (option Z * Z) := λ w,
  match freserve (w_mem w) f with
  | Ok (m, f, p, n) =>
      Ret (option Z * Z) (p, n) (set_heap (<[bb := OFifo f]> (w_heap w)) (set_mem m w))
  | Ub u => Stuck (option Z * Z) u
  end.
Definition bb_reserve (bb : Z) : prog (option Z * Z) := f ← get (A := fifo) bb; reserve_fifo bb f.

(** [bip_buf_commit (bb, n)] and [bip_buf_decommit (bb, n)] *)
Definition bb_commit (bb n : Z) : prog unit := upd (A := fifo) bb (λ f, fcommit f n).
Definition bb_decommit (bb n : Z) : prog unit := upd (A := fifo) bb (λ f, fdecommit f n).

(** A field update after a block was added. *)
Lemma insert_twice (h : gmap Z obj) n p x y z :
  p ≠ n → <[n := x]> (<[p := z]> (<[n := y]> h)) = <[n := x]> (<[p := z]> h).
Proof. intros. rewrite (insert_insert_ne _ p n) by done. apply insert_insert_eq. Qed.

(** ** Weakest preconditions *)

(** The other ways a program ends. *)
Inductive halt := HExit (code : Z) (w : world) | HFault (u : ub).

(** [wp m Q X w]: [m] returns from [w] with [Q], or ends the process or runs into
    undefined behaviour with [X]. *)
Definition wp {A} (m : prog A) (Q : A → world → Prop) (X : halt → Prop) (w : world) : Prop :=
  match m w with
  | Ret _ a w => Q a w
  | Exited _ c w => X (HExit c w)
  | Stuck _ u => X (HFault u)
  end.

Lemma wp_ret {A} (a : A) Q X w : Q a w → wp (mret a) Q X w.
Proof. done. Qed.

Lemma wp_bind {A B} (m : prog A) (f : A → prog B) Q X w :
  wp m (λ a, wp (f a) Q X) X w → wp (m ≫= f) Q X w.
Proof. unfold wp, mbind, prog_bind. by destruct (m w). Qed.

Lemma wp_mono {A} (m : prog A) (Q Q' : A → world → Prop) X w :
  wp m Q X w → (∀ a w, Q a w → Q' a w) → wp m Q' X w.
Proof. unfold wp. destruct (m w); auto. Qed.

Lemma wp_exit {A} c (Q : A → world → Prop) X w : X (HExit c w) → wp (exit c) Q X w.
Proof. done. Qed.

(** The rules for worlds in components. *)
Lemma wp_call fn args Q X n h m tr :
  (∀ r, r = answer tr fn args → Q r (World n h m (Event fn args r :: tr))) →
  wp (call fn args) Q X (World n h m tr).
Proof. intros H. by apply H. Qed.

Lemma wp_call_ fn args Q X n h m tr :
  (∀ r, r = answer tr fn args → Q tt (World n h m (Event fn args r :: tr))) →
  wp (call_ fn args) Q X (World n h m tr).
Proof. intros H. by apply H. Qed.

Lemma wp_call_out fn args (Q : Z * Z → world → Prop) X n h m tr :
  (∀ r o, r = answer tr fn args → Q (r, o) (World n h m (Event fn args r :: tr))) →
  wp (call_out fn args) Q X (World n h m tr).
Proof. intros H. by apply H. Qed.

Lemma wp_malloc o Q X n h m tr :
  Q n (World (n + 1) (<[n := o]> h) m tr) → wp (malloc o) Q X (World n h m tr).
Proof. done. Qed.

Lemma wp_free p o Q X n h m tr :
  p ≠ 0 → h !! p = Some o → Q tt (World n (delete p h) m tr) →
  wp (free p) Q X (World n h m tr).
Proof. intros Hp Ho HQ. unfold wp, free. cbn. by rewrite (proj2 (Z.eqb_neq p 0)), Ho. Qed.

Lemma wp_read p o Q X n h m tr :
  p ≠ 0 → h !! p = Some o → Q o (World n h m tr) → wp (read p) Q X (World n h m tr).
Proof. intros Hp Ho HQ. unfold wp, read. cbn. by rewrite (proj2 (Z.eqb_neq p 0)), Ho. Qed.

Lemma wp_get {A} `{Kind A} p (a : A) Q X n h m tr :
  p ≠ 0 → h !! p = Some (inj a) → Q a (World n h m tr) → wp (get p) Q X (World n h m tr).
Proof. intros Hp Ho HQ. eapply wp_bind, wp_read; [done..|]. by rewrite prj_inj. Qed.

Lemma wp_upd {A} `{Kind A} p (g : A → A) a Q X n h m tr :
  p ≠ 0 → h !! p = Some (inj a) → Q tt (World n (<[p := inj (g a)]> h) m tr) →
  wp (upd p g) Q X (World n h m tr).
Proof. intros. by eapply wp_bind, wp_get. Qed.

Lemma wp_call_on fn p args o Q X n h m tr :
  p ≠ 0 → h !! p = Some o →
  (∀ r, r = answer tr fn (VPtr p :: args) → Q r (World n h m (Event fn (VPtr p :: args) r :: tr))) →
  wp (call_on fn p args) Q X (World n h m tr).
Proof. intros. eapply wp_bind, wp_read; [done..|]. by apply wp_call. Qed.

Lemma wp_init {A} (a : A) Q X w : Q a w → wp (init (Some a)) Q X w.
Proof. done. Qed.

Lemma wp_init_eq {A} (o : option A) (a : A) Q X w : o = Some a → Q a w → wp (init o) Q X w.
Proof. by intros ->. Qed.

(** Reading what is not there. *)
Lemma wp_read_dangling p Q X n h m tr :
  p ≠ 0 → h !! p = None → X (HFault Dangling) → wp (read p) Q X (World n h m tr).
Proof. intros Hp Ho HX. unfold wp, read. cbn. by rewrite (proj2 (Z.eqb_neq p 0)), Ho. Qed.

Lemma wp_read_null Q X w : X (HFault NullDeref) → wp (read 0) Q X w.
Proof. done. Qed.

Lemma wp_init_none {A} (Q : A → world → Prop) X w :
  X (HFault Uninit) → wp (init None) Q X w.
Proof. done. Qed.

(** Creating a buffer: a block for the handle, and a new empty buffer; the buffers
    that exist keep their contents. *)
Lemma wp_bb_create cap Q X n h m tr :
  fmem_ok m → 0 ≤ cap < 2 ^ 63 →
  (∀ m' f, fmem_ok m' → frep m' f (AQ cap [] None) →
    (∀ g q, frep m g q → frep m' g q) →
    Q n (World (n + 1) (<[n := OFifo f]> h) m' tr)) →
  wp (bb_create cap) Q X (World n h m tr).
Proof.
  intros Hm Hcap HQ. unfold wp, bb_create. cbn.
  destruct (fcreate_ok m cap Hm Hcap) as (? & ? & ?).
  destruct (fcreate cap m) as [m' f]. by apply HQ.
Qed.

(** Committing, and destroying. *)
Lemma wp_bb_commit bb f cap d r k Q X n h m tr :
  bb ≠ 0 → h !! bb = Some (OFifo f) → frep m f (AQ cap d r) → 0 ≤ k →
  (∀ f', frep m f' (AQ cap (d ++ take (Z.to_nat k) (default [] r)) None) →
    Q tt (World n (<[bb := OFifo f']> h) m tr)) →
  wp (bb_commit bb k) Q X (World n h m tr).
Proof. intros Hbb Hf Hrep Hk HQ. eapply wp_upd; [done..|]. apply HQ. by apply fcommit_ok. Qed.

Lemma wp_bb_decommit bb f cap d r k Q X n h m tr :
  bb ≠ 0 → h !! bb = Some (OFifo f) → frep m f (AQ cap d r) → 0 ≤ k →
  (∀ f', frep m f' (AQ cap (drop (Z.to_nat k) d) r) → Q tt (World n (<[bb := OFifo f']> h) m tr)) →
  wp (bb_decommit bb k) Q X (World n h m tr).
Proof. intros Hbb Hf Hrep Hk HQ. eapply wp_upd; [done..|]. apply HQ. by apply fdecommit_ok. Qed.

Lemma wp_bb_destroy bb f q Q X n h m tr :
  bb ≠ 0 → h !! bb = Some (OFifo f) → frep m f q →
  (∀ m', (fmem_ok m → fmem_ok m') → Q tt (World n (delete bb h) m' tr)) →
  wp (bb_destroy bb) Q X (World n h m tr).
Proof.
  intros Hbb Hf Hrep HQ. eapply wp_bind, wp_get; [done..|].
  unfold wp, destroy_fifo. cbn [w_mem]. destruct (fdestroy_ok m f q Hrep) as (m' & -> & Hm).
  unfold set_mem, free. cbn. rewrite (proj2 (Z.eqb_neq bb 0)), Hf by done. by apply HQ.
Qed.

(** ** Objects of the libraries *)

(** The objects that the calls of [acq] returned and no call of [rel] was passed
    since, latest first. *)
Fixpoint remove1 (p : Z) (l : list Z) : list Z :=
  match l with [] => [] | x :: l => if x =? p then l else x :: remove1 p l end.

Definition first_ptr (args : list arg) : Z :=
  match args with VPtr p :: _ => p | _ => 0 end.

Fixpoint live (acq rel : string) (tr : list event) : list Z :=
  match tr with
  | [] => []
  | e :: tr =>
      let l := live acq rel tr in
      if String.eqb (ev_fn e) acq then if ev_ret e =? 0 then l else ev_ret e :: l
      else if String.eqb (ev_fn e) rel then remove1 (first_ptr (ev_args e)) l
      else l
  end.
End world.

Abbreviation get_client := (get (A := client_handle)).
Abbreviation upd_client := (upd (A := client_handle)).

Arguments Ret {fi A} a w.
Arguments Exited {fi A} code w.
Arguments Stuck {fi A} u.

(** Run a program symbolically: one rule per statement, the heap lookups by
    computation; a field update replaces the block. *)
Ltac neq_side := first [assumption | apply not_eq_sym; assumption | done | congruence | lia].
Ltac lookup_side :=
  first [assumption | rewrite lookup_insert_eq; reflexivity | eassumption
        | rewrite lookup_insert_ne by neq_side; lookup_side
        | rewrite lookup_delete_ne by neq_side; lookup_side].
Ltac heap_side :=
  lazymatch goal with
  | |- _ !! _ = _ => lookup_side
  | |- _ ≠ _ => neq_side
  | |- _ => first [done | lia | eassumption]
  end.
Ltac heap_simpl := rewrite ?insert_insert_eq, ?delete_insert_eq.
Ltac wp_step :=
  cbn beta iota;
  lazymatch goal with
  | |- wp (_ ≫= _) _ _ _ => apply wp_bind
  | |- wp (mret _) _ _ _ => apply wp_ret
  | |- wp (call _ _) _ _ _ => apply wp_call; intros ? ?
  | |- wp (call_ _ _) _ _ _ => apply wp_call_; intros ? ?
  | |- wp (call_out _ _) _ _ _ => apply wp_call_out; intros ? ? ?
  | |- wp (malloc _) _ _ _ => apply wp_malloc
  | |- wp (exit _) _ _ _ => apply wp_exit
  | |- wp (upd _ _) _ _ _ => eapply wp_upd; [heap_side..|heap_simpl]
  | |- wp (get _) _ _ _ => eapply wp_get; [heap_side..|]
  | |- wp (call_on _ _ _) _ _ _ => eapply wp_call_on; [heap_side..|intros ? ?]
  | |- wp (free _) _ _ _ => eapply wp_free; [heap_side..|heap_simpl]
  | |- wp (init _) _ _ _ => eapply wp_init_eq; [first [eassumption | reflexivity]|]
  | |- wp (bb_commit _ _) _ _ _ =>
      eapply wp_bb_commit; [heap_side|heap_side|eassumption|lia|intros ? ?; heap_simpl]
  | |- wp (bb_decommit _ _) _ _ _ =>
      eapply wp_bb_decommit; [heap_side|heap_side|eassumption|lia|intros ? ?; heap_simpl]
  | |- wp (bb_destroy _) _ _ _ =>
      eapply wp_bb_destroy; [heap_side|heap_side|eassumption|intros ? ?; heap_simpl]
  | |- wp (bb_create _) _ _ _ => apply wp_bb_create; [done|done|intros ? ? ? ? ?]
  | |- wp (if ?b then _ else _) _ _ _ =>
      first [replace b with true by reflexivity | replace b with false by reflexivity
            | destruct b eqn:?]
  end.

(** Two heaps that differ by updates are equal: compare them at every address. *)
Ltac heap_eq :=
  apply map_eq; intros ?k; repeat (rewrite lookup_insert || rewrite lookup_delete);
  repeat case_decide; subst; first [done | lia | congruence | f_equal; lia].

(** ** A world for examples *)

(** The mirror buffer over a debug allocator; no block, no call yet. *)
Definition ex_malloc : Malloc := malloc_fill 205.
Definition ex_fifo : ByteFifo := @bip_fifo ex_malloc.
Definition ex_world : @world ex_fifo := @World ex_fifo 1 ∅ empty_heap [].

(** A library whose answer depends on the function called only. *)
Definition ex_lib (f : string → Z) : Lib :=
  {| answer _ fn _ := f fn; answer_out _ _ _ := 0 |}.

Lemma ex_world_ok : world_ok ex_world.
Proof.
  split; [done|]. split; [|apply empty_heap_ok]. intros p [o Ho]. cbn in Ho.
  by rewrite lookup_empty in Ho.
Qed.
