(* ===== verification/EvClient.v ===== *)
(** * Connecting over libevent: [tcp/ev/ev_client.c]

    The functions in the world of [Io].  Console output is left out; the platform is
    Windows, the only one the file compiles on ([GetSystemInfo]).  The callbacks a
    connection is given are names. *)

From S2P Require Import Prelude BipBuf Fifo Io.

#[local] Open Scope string_scope.
#[local] Open Scope Z_scope.

Definition AF_INET : Z := 2.
Definition EV_READ : Z := 2.
Definition EV_WRITE : Z := 4.
Definition EV_PERSIST : Z := 16.
Definition BEV_OPT_CLOSE_ON_FREE : Z := 1.

Section client.
Context {fi : ByteFifo} {lib : Lib}.

(** ** The event loop *)

Definition ev_loop_new_ (flag use_threads : Z) : prog Z :=
  ret ← call "WSAStartup" [VInt 514];
  if negb (ret =? 0) then mret 0
  else
    (if 0 <? use_threads then call_ "evthread_use_windows_threads" [] else mret tt);;
    cfg ← call "event_config_new" [];
    if negb (cfg =? 0) then
      call_ "event_config_set_flag" [VPtr cfg; VInt flag];;
      '(_, dwNumberOfProcessors) ← call_out "GetSystemInfo" [];
      call_ "event_config_set_num_cpus_hint" [VPtr cfg; VInt dwNumberOfProcessors];;
      base ← call "event_base_new_with_config" [VPtr cfg];
      call_ "event_config_free" [VPtr cfg];;
      mret base
    else mret 0.

Definition ev_loop_delete_ (base seconds : Z) : prog unit :=
  call_ "event_base_loopexit" [VPtr base; VInt seconds];;
  call_ "event_base_dispatch" [VPtr base];;
  call_ "event_base_free" [VPtr base].

Definition ev_loop_run_ (base : Z) : prog Z := call "event_base_dispatch" [VPtr base].

Definition ev_loop_run_once_ (base flags : Z) : prog Z :=
  call "event_base_loop" [VPtr base; VInt flags].

Definition ev_close_ (sockimpl : Z) : prog unit :=
  if negb (sockimpl =? 0) then call_ "bufferevent_free" [VPtr sockimpl] else mret tt.

(** The hints are [AF_UNSPEC], [SOCK_STREAM], [IPPROTO_TCP] and [EVUTIL_AI_ADDRCONFIG];
    [answer] is NULL until the lookup sets it. *)
Definition ev_getaddrinfoforhost_ (hostname : string) (port : Z) : prog Z :=
  call_ "evutil_snprintf" [VInt 6; VInt (s32 port)];;
  '(err, answer) ← call_out "evutil_getaddrinfo" [VStr hostname; VInt 0; VInt 1; VInt 6; VInt 131072];
  if negb (err =? 0) then mret 0 else mret answer.

(** ** Connecting *)

Definition ev_real_connect_ (clnt base : Z) (on_recv on_send on_error : string) : prog Z :=
  sockimpl ← call "bufferevent_socket_new" [VPtr base; VInt (-1); VInt BEV_OPT_CLOSE_ON_FREE];
  if negb (sockimpl =? 0) then
    c ← get_client clnt;
    sin ← init (clnt_sin c);
    r ← call "bufferevent_socket_connect" [VPtr sockimpl; VInt (sin_port sin); VInt (sin_addr sin)];
    if r =? 0 then
      call_ "bufferevent_setcb" [VPtr sockimpl; VFun on_recv; VFun on_send; VFun on_error; VPtr clnt];;
      call_ "bufferevent_enable" [VPtr sockimpl; VInt (Z.lor EV_READ EV_WRITE)];;
      upd_client clnt (set_sockimpl sockimpl);;
      mret 0
    else
      call_ "bufferevent_free" [VPtr sockimpl];;
      mret (-1)
  else mret (-2).

Definition ev_connect_ (base : Z) (ip : string) (port : Z) (on_recv on_send on_error : string) :
    prog Z :=
  clnt ← malloc (OClient fresh_client);
  upd_client clnt (set_fd (-1));;
  upd_client clnt (set_sin (SockAddr (htons port) 0));;
  '(r, addr) ← call_out "evutil_inet_pton" [VInt AF_INET; VStr ip];
  if r <=? 0 then
    call_ "event_base_loopbreak" [VPtr base];;
    free clnt;;
    mret 0
  else
    upd_client clnt (set_sin (SockAddr (htons port) addr));;
    r ← ev_real_connect_ clnt base on_recv on_send on_error;
    if negb (r =? 0) then
      free clnt;;
      mret 0
    else
      upd_client clnt (set_connimpl 0);;
      bb ← bb_create TCP_STREAM_READ_SIZE;
      upd_client clnt (set_bb bb);;
      mret clnt.

(** ** Timers *)

Definition ev_create_timer_ (base : Z) (cb : string) (arg one_time : Z) : prog Z :=
  if one_time =? 0 then
    call "event_new" [VPtr base; VInt (-1); VInt EV_PERSIST; VFun cb; VPtr arg]
  else call "event_new" [VPtr base; VInt (-1); VInt 0; VFun cb; VPtr arg].

Definition ev_start_timer_ (timer_handle timeout : Z) : prog Z :=
  call "evtimer_add" [VPtr timer_handle; VInt timeout].

Definition ev_stop_and_free_timer_ (timer_handle : Z) : prog unit :=
  call_ "evtimer_del" [VPtr timer_handle];;
  free timer_handle.

(** ** Properties *)

(** The bufferevents that are alive. *)
Definition bevs (w : world) : list Z :=
  live "bufferevent_socket_new" "bufferevent_free" (w_trace w).

(** Nothing but the trace has changed: no block and no buffer is left over. *)
Definition unchanged (w w' : world) : Prop :=
  w_heap w' = w_heap w ∧ w_mem w' = w_mem w ∧ bevs w' = bevs w.

(** A client handle ready for use: every field is set, its socket is alive, its buffer
    empty; besides it there is only what was there before. *)
Definition connected (w w' : world) (clnt fd : Z) (sin : option sockaddr_in) (connimpl : Z) : Prop :=
  ∃ sockimpl bb f,
    sockimpl ≠ 0 ∧
    w_heap w' = <[clnt := OClient (ClientHandle (Some fd) sin (Some sockimpl) (Some connimpl) (Some bb))]>
                  (<[bb := OFifo f]> (w_heap w)) ∧
    w_heap w !! clnt = None ∧ w_heap w !! bb = None ∧ clnt ≠ bb ∧
    fmem_ok (w_mem w') ∧ frep (w_mem w') f (AQ TCP_STREAM_READ_SIZE [] None) ∧
    (∀ g q, frep (w_mem w) g q → frep (w_mem w') g q) ∧
    bevs w' = sockimpl :: bevs w.

(** The outcome of a connection attempt: NULL and nothing left behind, or a handle. *)
Definition connect_post (port : Z) (w : world) (clnt : Z) (w' : world) : Prop :=
  clnt = 0 ∧ unchanged w w' ∨
  clnt ≠ 0 ∧ ∃ addr, connected w w' clnt (-1) (Some (SockAddr (htons port) addr)) 0.

(** whatever the library answers, [ev_connect_] runs without undefined behaviour
    and either returns NULL and leaves nothing behind (no block, no bufferevent), or
    returns a new handle with every field set, a live connected bufferevent and an
    empty buffer of 8192 bytes, and nothing else. *)
Theorem ev_connect_all_or_nothing (base : Z) (ip : string) (port : Z)
    (on_recv on_send on_error : string) (w : world) (Hw : world_ok w) :
  wp (ev_connect_ base ip port on_recv on_send on_error)
    (connect_post port w) (λ _, False) w.
Proof.
  pose proof Hw as (Hpos & Hdom & Hmem).
  pose proof (world_fresh w (w_next w) Hw ltac:(lia)) as Hf1.
  pose proof (world_fresh w (w_next w + 1) Hw ltac:(lia)) as Hf2.
  destruct w as [n h m tr]. cbn [w_next w_heap w_mem w_trace] in *.
  unfold ev_connect_, ev_real_connect_.
  repeat wp_step; zbool; unfold connect_post, unchanged, connected, bevs; cbn [w_heap w_mem w_trace].
  - left. rewrite delete_id by done. done.
  - right. split; [lia|]. exists o, r0, (n + 1), f. split; [done|].
    rewrite insert_twice by lia. repeat (split; [first [done|lia]|]).
    cbn. by rewrite (proj2 (Z.eqb_neq r0 0)).
  - left. rewrite delete_id by done. repeat (split; [done|]).
    cbn. rewrite (proj2 (Z.eqb_neq r0 0)) by done. cbn. by rewrite Z.eqb_refl.
  - left. rewrite delete_id by done. repeat (split; [done|]).
    cbn. by rewrite (proj2 (Z.eqb_eq r0 0)).
Qed.

(** The event configurations that are alive. *)
Definition configs (w : world) : list Z :=
  live "event_config_new" "event_config_free" (w_trace w).

(** [ev_loop_new_] frees the configuration it makes on every path, and returns the
    base libevent made of it, or NULL. *)
Theorem ev_loop_new_frees (flag use_threads : Z) (w : world) :
  wp (ev_loop_new_ flag use_threads)
    (λ base w', configs w' = configs w ∧ w_heap w' = w_heap w ∧ w_mem w' = w_mem w ∧
       (base ≠ 0 → ∃ cfg r tr, w_trace w' =
          Event "event_config_free" [VPtr cfg] r ::
          Event "event_base_new_with_config" [VPtr cfg] base :: tr))
    (λ _, False) w.
Proof.
  destruct w as [n h m tr]. unfold ev_loop_new_.
  repeat wp_step; zbool; unfold configs; cbn [w_heap w_mem w_trace]; cbn;
    repeat match goal with
    | |- context [?x =? 0] => first [rewrite (proj2 (Z.eqb_neq x 0)) by done
                                    | rewrite (proj2 (Z.eqb_eq x 0)) by done]
    end; cbn; rewrite ?Z.eqb_refl; repeat (split; [done|]); try done; eauto.
Qed.

(** [ev_stop_and_free_timer_] passes to [free] the event that [event_new] allocated,
    which is no block of this code's malloc. *)
Theorem ev_timer_free_mismatch (base : Z) (cb : string) (arg one_time timer : Z) (w : world)
    (Hnew : ev_create_timer_ base cb arg one_time w =
            Ret timer (log (Event "event_new" [VPtr base; VInt (-1);
              VInt (if one_time =? 0 then EV_PERSIST else 0); VFun cb; VPtr arg] timer) w))
    (Hnull : timer ≠ 0) (Hown : w_heap w !! timer = None) :
  (timer ← ev_create_timer_ base cb arg one_time; ev_stop_and_free_timer_ timer) w = Stuck Dangling.
Proof.
  unfold mbind at 1, prog_bind at 1. rewrite Hnew. unfold ev_stop_and_free_timer_.
  unfold call_, call, free, mbind, prog_bind, mret, prog_ret. cbn -[lookup].
  by rewrite (proj2 (Z.eqb_neq timer 0)), Hown.
Qed.
End client.

(** *** Witnesses *)

(** A library that gives out the same bufferevent, and connects. *)
Definition ex_answers (fn : string) : Z :=
  if String.eqb fn "bufferevent_socket_new" then 77
  else if String.eqb fn "evutil_inet_pton" then 1
  else if String.eqb fn "event_new" then 88 else 0.

Lemma ev_connect_all_or_nothing_witness :
  @wp ex_fifo Z (@ev_connect_ ex_fifo (ex_lib ex_answers) 5 "127.0.0.1" 8080 "recv" "send" "error")
    (@connect_post ex_fifo 8080 ex_world) (λ _, False) ex_world.
Proof.
  exact (@ev_connect_all_or_nothing ex_fifo (ex_lib ex_answers) 5 "127.0.0.1" 8080
    "recv" "send" "error" ex_world ex_world_ok).
Defined.

(** The handle that is returned. *)
Definition ex_connected : option client_handle :=
  match @ev_connect_ ex_fifo (ex_lib ex_answers) 5 "127.0.0.1" 8080 "recv" "send" "error" ex_world with
  | Ret clnt w => match w_heap w !! clnt with Some (OClient c) => Some c | _ => None end
  | _ => None
  end.
Example ev_connect_example :
  ex_connected = Some (ClientHandle (Some (-1)) (Some (SockAddr 36895 0)) (Some 77) (Some 0) (Some 2)).
Proof. vm_compute. reflexivity. Qed.

Lemma ev_timer_free_mismatch_witness :
  (timer ← @ev_create_timer_ ex_fifo (ex_lib ex_answers) 5 "tick" 0 0;
   @ev_stop_and_free_timer_ ex_fifo (ex_lib ex_answers) timer) ex_world = Stuck Dangling.
Proof.
  apply (@ev_timer_free_mismatch ex_fifo (ex_lib ex_answers) 5 "tick" 0 0 88 ex_world).
  - reflexivity.
  - discriminate.
  - reflexivity.
Defined.
