(* ===== verification/UvClient.v ===== *)
(** * Connecting over libuv: [tcp/uv/uv_client.c]

    The functions in the world of [Io].  A uv handle or request is a block of this code's
    memory that libuv reads and writes; console output is left out.  The callbacks are
    names. *)

From S2P Require Import Prelude CHeap BipBuf Fifo Io.

#[local] Open Scope string_scope.
#[local] Open Scope Z_scope.

Section client.
Context {fi : ByteFifo} {lib : Lib}.

(** What malloc leaves in a uv object. *)
Definition fresh_uv : uv_object := UvObject None.
Definition set_uv_data (p : Z) (_ : uv_object) : uv_object := UvObject (Some p).

(** ** The event loop *)

Definition uv_loop_new_ : prog Z :=
  _ ← call "uv_loop_size" [];
  loop ← malloc (OUv fresh_uv);
  upd loop (set_uv_data 0);;
  _ ← call_on "uv_loop_init" loop [];
  mret loop.

Definition uv_loop_delete_ (loop : Z) : prog unit :=
  _ ← call_on "uv_loop_close" loop [];
  free loop.

Definition UV_RUN_DEFAULT : Z := 0.
Definition UV_RUN_NOWAIT : Z := 2.

Definition uv_loop_run_ (loop : Z) : prog Z := call_on "uv_run" loop [VInt UV_RUN_DEFAULT].
Definition uv_loop_run_once_ (loop : Z) : prog Z := call_on "uv_run" loop [VInt UV_RUN_NOWAIT].

Definition uv_close_ (sockimpl : Z) (on_sock_close : string) : prog unit :=
  if negb (sockimpl =? 0) then
    closing ← call_on "uv_is_closing" sockimpl [];
    if closing =? 0 then _ ← call_on "uv_close" sockimpl [VFun on_sock_close]; mret tt
    else mret tt
  else mret tt.

(** ** Connecting *)

Definition uv_real_connect_ (clnt loop : Z) (on_error : string) : prog Z :=
  (* create the tcp handle *)
  sockimpl ← malloc (OUv fresh_uv);
  r ← call_on "uv_tcp_init" loop [VPtr sockimpl];
  if r =? 0 then
    connect_req ← malloc (OUv fresh_uv);
    upd connect_req (set_uv_data clnt);;
    c ← get_client clnt;
    sin ← init (clnt_sin c);
    r ← call_on "uv_tcp_connect" connect_req
          [VPtr sockimpl; VInt (sin_port sin); VInt (sin_addr sin); VFun on_error];
    if r =? 0 then
      upd sockimpl (set_uv_data clnt);;
      upd_client clnt (set_sockimpl sockimpl);;
      mret 0
    else
      free sockimpl;;
      free connect_req;;
      mret (-1)
  else
    free sockimpl;;
    mret (-2).

(** [uv_ip4_addr] fills [_sin] when it answers 0. *)
Definition uv_connect_ (loop : Z) (ip : string) (port : Z) (on_error : string) : prog Z :=
  (* create client handle *)
  clnt ← malloc (OClient fresh_client);
  upd_client clnt (set_fd (-1));;
  (* parse ip *)
  '(r, addr) ← call_out "uv_ip4_addr" [VStr ip; VInt port];
  if negb (r =? 0) then
    free clnt;;
    mret 0
  else
    upd_client clnt (set_sin (SockAddr (htons port) addr));;
    (* start connect *)
    r ← uv_real_connect_ clnt loop on_error;
    if negb (r =? 0) then
      free clnt;;
      mret 0
    else
      upd_client clnt (set_connimpl 0);;
      (* buffer *)
      bb ← bb_create TCP_STREAM_READ_SIZE;
      upd_client clnt (set_bb bb);;
      mret clnt.

(** ** Timers *)

Definition on_timer_close (handle : Z) : prog unit := free handle.

Definition uv_create_timer_ (loop arg : Z) : prog Z :=
  timer_handle ← malloc (OUv fresh_uv);
  r ← call_on "uv_timer_init" loop [VPtr timer_handle];
  if r <? 0 then mret 0
  else
    upd timer_handle (set_uv_data arg);;
    mret timer_handle.

Definition uv_start_timer_ (timer_handle : Z) (cb : string) (timeout repeat : Z) : prog Z :=
  call_on "uv_timer_start" timer_handle [VFun cb; VInt timeout; VInt repeat].

Definition uv_stop_and_free_timer_ (timer_handle : Z) : prog unit :=
  _ ← call_on "uv_timer_stop" timer_handle [];
  _ ← call_on "uv_close" timer_handle [VFun "on_timer_close"];
  mret tt.

(** ** Properties *)

(** A handle that the loop knows: initialised as a TCP handle, and no close begun. *)
Definition arg_ptr (i : nat) (args : list arg) : Z :=
  match args !! i with Some (VPtr p) => p | _ => 0 end.

Fixpoint registered (tr : list event) : list Z :=
  match tr with
  | [] => []
  | e :: tr =>
      let l := registered tr in
      if String.eqb (ev_fn e) "uv_tcp_init" then if ev_ret e =? 0 then arg_ptr 1 (ev_args e) :: l else l
      else if String.eqb (ev_fn e) "uv_close" then remove1 (arg_ptr 0 (ev_args e)) l
      else l
  end.

(** The requests that are under way, with their handles. *)
Fixpoint connecting (tr : list event) : list (Z * Z) :=
  match tr with
  | [] => []
  | e :: tr =>
      let l := connecting tr in
      if String.eqb (ev_fn e) "uv_tcp_connect" then
        if ev_ret e =? 0 then (arg_ptr 0 (ev_args e), arg_ptr 1 (ev_args e)) :: l else l
      else l
  end.

(** A handle under connection: every field is set, socket and request are blocks that lead
    back to it, its buffer is empty; besides it there is only what was there before. *)
Definition uv_connected (w w' : world) (clnt : Z) (sin : sockaddr_in) : Prop :=
  ∃ sockimpl req bb f,
    w_heap w' =
      <[clnt := OClient (ClientHandle (Some (-1)) (Some sin) (Some sockimpl) (Some 0) (Some bb))]>
      (<[sockimpl := OUv (UvObject (Some clnt))]>
      (<[req := OUv (UvObject (Some clnt))]>
      (<[bb := OFifo f]> (w_heap w)))) ∧
    Forall (λ p, p ≠ 0 ∧ w_heap w !! p = None) [clnt; sockimpl; req; bb] ∧
    NoDup [clnt; sockimpl; req; bb] ∧
    frep (w_mem w') f (AQ TCP_STREAM_READ_SIZE [] None) ∧
    (∀ g q, frep (w_mem w) g q → frep (w_mem w') g q) ∧
    registered (w_trace w') = sockimpl :: registered (w_trace w) ∧
    connecting (w_trace w') = (req, sockimpl) :: connecting (w_trace w) ∧
    world_ok w'.

(** The outcome of a connection attempt.  When libuv refuses to connect, the memory of the
    handle is freed although the loop still knows it. *)
Definition uv_connect_post (port : Z) (w : world) (clnt : Z) (w' : world) : Prop :=
  clnt = 0 ∧ w_heap w' = w_heap w ∧ w_mem w' = w_mem w ∧
    connecting (w_trace w') = connecting (w_trace w) ∧
    (registered (w_trace w') = registered (w_trace w) ∨
     ∃ sockimpl, w_heap w' !! sockimpl = None ∧
       registered (w_trace w') = sockimpl :: registered (w_trace w)) ∨
  clnt ≠ 0 ∧ ∃ addr, uv_connected w w' clnt (SockAddr (htons port) addr).

Lemma uv_connect_ok (loop : Z) (ip : string) (port : Z) (on_error : string)
    (w : world) (Hw : world_ok w) (Hloop : is_Some (w_heap w !! loop)) :
  wp (uv_connect_ loop ip port on_error) (uv_connect_post port w) (λ _, False) w.
Proof.
  destruct Hloop as [lo Hloop]. pose proof Hw as (Hpos & Hdom & Hmem).
  pose proof (Hdom loop ltac:(eauto)) as Hl.
  pose proof (world_fresh w (w_next w) Hw ltac:(lia)) as Hf1.
  pose proof (world_fresh w (w_next w + 1) Hw ltac:(lia)) as Hf2.
  pose proof (world_fresh w (w_next w + 1 + 1) Hw ltac:(lia)) as Hf3.
  pose proof (world_fresh w (w_next w + 1 + 1 + 1) Hw ltac:(lia)) as Hf4.
  destruct w as [n h m tr]. cbn [w_next w_heap w_mem w_trace] in *.
  unfold uv_connect_, uv_real_connect_.
  repeat wp_step; zbool; unfold uv_connect_post, uv_connected; cbn [w_heap w_mem w_trace].
  - left. split; [done|]. split; [heap_eq|]. split; [done|]. split; [done|]. by left.
  - right. split; [lia|]. exists o, (n + 1), (n + 1 + 1), (n + 1 + 1 + 1), f. split; [heap_eq|].
    split; [repeat (apply Forall_cons_2; [split; [lia|done]|]); apply Forall_nil_2|].
    split; [repeat (apply NoDup_cons_2; [set_unfold; lia|]); apply NoDup_nil_2|].
    split; [done|]. split; [done|]. cbn. rewrite !(proj2 (Z.eqb_eq _ 0)) by done.
    split; [done|]. split; [done|]. split; [cbn; lia|]. split; [|done]. cbn. intros x Hx.
    repeat (rewrite lookup_insert in Hx; case_decide; [subst; clear Hx; lia|]). apply Hdom in Hx. lia.
  - left. split; [done|]. split; [heap_eq|]. split; [done|]. cbn.
    rewrite (proj2 (Z.eqb_eq r0 0)), (proj2 (Z.eqb_neq r1 0)) by done. split; [done|].
    right. exists (n + 1). split; [|done]. rewrite !lookup_delete. repeat case_decide; try done; try lia.
  - left. split; [done|]. split; [heap_eq|]. split; [done|]. cbn.
    rewrite (proj2 (Z.eqb_neq r0 0)) by done. split; [done|]. by left.
Qed.

(** C25: Whatever libuv answers, [uv_connect_] on a loop runs without undefined behaviour
    and either returns NULL, with the memory as it was before, or returns a new client
    handle with every field set, a socket and a request that lead back to it, and an empty
    buffer, and nothing else. *)
Theorem uv_connect_all_or_nothing (loop : Z) (ip : string) (port : Z) (on_error : string)
    (w : world) (Hw : world_ok w) (Hloop : is_Some (w_heap w !! loop)) :
  wp (uv_connect_ loop ip port on_error) (uv_connect_post port w) (λ _, False) w.
Proof. by apply uv_connect_ok. Qed.

(** A timer that libuv does not initialise is never freed. *)
Theorem uv_create_timer_leaks (loop arg : Z) (w : world) (Hw : world_ok w)
    (Hloop : is_Some (w_heap w !! loop)) :
  wp (uv_create_timer_ loop arg)
    (λ t w', w_mem w' = w_mem w ∧
       (t = w_next w ∧ w_heap w' = <[t := OUv (UvObject (Some arg))]> (w_heap w) ∨
        t = 0 ∧ w_heap w' = <[w_next w := OUv fresh_uv]> (w_heap w)))
    (λ _, False) w.
Proof.
  destruct Hloop as [lo Hloop]. pose proof Hw as (Hpos & Hdom & _).
  pose proof (Hdom loop ltac:(eauto)) as Hl. destruct w as [n h m tr]. cbn [w_next w_heap w_mem] in *.
  unfold uv_create_timer_. repeat wp_step; cbn; split; auto.
Qed.
End client.

(** *** Witness *)

(** A world with a loop at 1; the library answers 0 to every call. *)
Definition ex_loop_world : @world ex_fifo := @World ex_fifo 2 {[ 1 := OUv fresh_uv ]} empty_heap [].

Lemma ex_loop_world_ok : world_ok ex_loop_world.
Proof.
  split; [done|]. split; [|apply empty_heap_ok]. intros p [o Ho]. cbn in Ho.
  apply lookup_singleton_Some in Ho as [<- _]. cbn. lia.
Qed.

Lemma uv_connect_all_or_nothing_witness :
  wp (@uv_connect_ ex_fifo (ex_lib (λ _, 0)) 1 "127.0.0.1" 8080 "on_error")
    (uv_connect_post 8080 ex_loop_world) (λ _, False) ex_loop_world ∧
  match @uv_connect_ ex_fifo (ex_lib (λ _, 0)) 1 "127.0.0.1" 8080 "on_error" ex_loop_world with
  | Ret clnt w => clnt = 2 ∧ size (w_heap w) = 5%nat
  | _ => False
  end.
Proof.
  split; [|vm_compute; by split].
  apply (@uv_connect_all_or_nothing ex_fifo (ex_lib (λ _, 0)) 1 "127.0.0.1" 8080 "on_error" ex_loop_world
    ex_loop_world_ok). by eexists.
Defined.
