(* ===== verification/UvConn.v ===== *)
(** * Connection objects over libuv

    [tcp/TcpEventManager.cpp], [tcp/uv/UvIsolatedConn.cpp] with its copies
    [UvIsolatedConn2], [UvGateIsolatedConn] and [UvGateIsolatedConn2], and the methods of
    [UvClientConn] and [UvGateClientConn] that do not need the connection manager.  The
    methods are programs of [Io]; a virtual call looks at the class of the object.

    The packet object is an interface here ([IPacket]): a call through it needs a live
    object and is an event of the trace; what it does is in [TcpPacket].  The two static
    counters of the connection manager are the sums of the [s_send] and [s_recv] events.
    The application's handlers are calls too; they are assumed not to call back. *)

From S2P Require Import Prelude CHeap BipBuf Fifo Io UvClient.

#[local] Open Scope string_scope.
#[local] Open Scope Z_scope.

Definition CONNECTION_CONNECTED : Z := 1.
Definition CONNECTION_DISCONNECTED : Z := 2.
Definition TCP_EVENT_ID_MAX : nat := 4.
Definition UV_EOF : Z := -4095.
Definition UV_ECONNRESET : Z := -4077.
Definition ERROR_IO_PENDING : Z := 997.
Definition RECONNECT_DELAY_SECONDS : Z := 10.

(** *** Fields *)

Definition set_clnt (x : Z) (c : conn) : conn :=
  Conn (cn_class c) (cn_ref c) (cn_events c) (cn_id c) x (cn_base c) (cn_packet c) (cn_timer c)
    (cn_running c) (cn_connected c) (cn_disposed c) (cn_flushed c) (cn_delay c)
    (cn_fe_produce c) (cn_be_consume c) (cn_be_produce c) (cn_fe_consume c) (cn_ip c) (cn_port c).
Definition set_base (x : Z) (c : conn) : conn :=
  Conn (cn_class c) (cn_ref c) (cn_events c) (cn_id c) (cn_clnt c) x (cn_packet c) (cn_timer c)
    (cn_running c) (cn_connected c) (cn_disposed c) (cn_flushed c) (cn_delay c)
    (cn_fe_produce c) (cn_be_consume c) (cn_be_produce c) (cn_fe_consume c) (cn_ip c) (cn_port c).
Definition set_packet (x : Z) (c : conn) : conn :=
  Conn (cn_class c) (cn_ref c) (cn_events c) (cn_id c) (cn_clnt c) (cn_base c) x (cn_timer c)
    (cn_running c) (cn_connected c) (cn_disposed c) (cn_flushed c) (cn_delay c)
    (cn_fe_produce c) (cn_be_consume c) (cn_be_produce c) (cn_fe_consume c) (cn_ip c) (cn_port c).
Definition set_timer (x : Z) (c : conn) : conn :=
  Conn (cn_class c) (cn_ref c) (cn_events c) (cn_id c) (cn_clnt c) (cn_base c) (cn_packet c) x
    (cn_running c) (cn_connected c) (cn_disposed c) (cn_flushed c) (cn_delay c)
    (cn_fe_produce c) (cn_be_consume c) (cn_be_produce c) (cn_fe_consume c) (cn_ip c) (cn_port c).
Definition set_running (x : bool) (c : conn) : conn :=
  Conn (cn_class c) (cn_ref c) (cn_events c) (cn_id c) (cn_clnt c) (cn_base c) (cn_packet c) (cn_timer c)
    x (cn_connected c) (cn_disposed c) (cn_flushed c) (cn_delay c)
    (cn_fe_produce c) (cn_be_consume c) (cn_be_produce c) (cn_fe_consume c) (cn_ip c) (cn_port c).
Definition SetConnected (x : bool) (c : conn) : conn :=
  Conn (cn_class c) (cn_ref c) (cn_events c) (cn_id c) (cn_clnt c) (cn_base c) (cn_packet c) (cn_timer c)
    (cn_running c) x (cn_disposed c) (cn_flushed c) (cn_delay c)
    (cn_fe_produce c) (cn_be_consume c) (cn_be_produce c) (cn_fe_consume c) (cn_ip c) (cn_port c).
Definition SetDisposed (x : bool) (c : conn) : conn :=
  Conn (cn_class c) (cn_ref c) (cn_events c) (cn_id c) (cn_clnt c) (cn_base c) (cn_packet c) (cn_timer c)
    (cn_running c) (cn_connected c) x (cn_flushed c) (cn_delay c)
    (cn_fe_produce c) (cn_be_consume c) (cn_be_produce c) (cn_fe_consume c) (cn_ip c) (cn_port c).
Definition SetFlushed (x : bool) (c : conn) : conn :=
  Conn (cn_class c) (cn_ref c) (cn_events c) (cn_id c) (cn_clnt c) (cn_base c) (cn_packet c) (cn_timer c)
    (cn_running c) (cn_connected c) (cn_disposed c) x (cn_delay c)
    (cn_fe_produce c) (cn_be_consume c) (cn_be_produce c) (cn_fe_consume c) (cn_ip c) (cn_port c).
Definition set_delay (x : bool) (c : conn) : conn :=
  Conn (cn_class c) (cn_ref c) (cn_events c) (cn_id c) (cn_clnt c) (cn_base c) (cn_packet c) (cn_timer c)
    (cn_running c) (cn_connected c) (cn_disposed c) (cn_flushed c) x
    (cn_fe_produce c) (cn_be_consume c) (cn_be_produce c) (cn_fe_consume c) (cn_ip c) (cn_port c).
Definition set_target (ip : string) (port : Z) (c : conn) : conn :=
  Conn (cn_class c) (cn_ref c) (cn_events c) (cn_id c) (cn_clnt c) (cn_base c) (cn_packet c) (cn_timer c)
    (cn_running c) (cn_connected c) (cn_disposed c) (cn_flushed c) (cn_delay c)
    (cn_fe_produce c) (cn_be_consume c) (cn_be_produce c) (cn_fe_consume c) ip port.

Definition IncrFrontEndProduceNum (c : conn) : conn :=
  Conn (cn_class c) (cn_ref c) (cn_events c) (cn_id c) (cn_clnt c) (cn_base c) (cn_packet c) (cn_timer c)
    (cn_running c) (cn_connected c) (cn_disposed c) (cn_flushed c) (cn_delay c)
    (u32 (cn_fe_produce c + 1)) (cn_be_consume c) (cn_be_produce c) (cn_fe_consume c) (cn_ip c) (cn_port c).
Definition IncrBackEndConsumeNum (c : conn) : conn :=
  Conn (cn_class c) (cn_ref c) (cn_events c) (cn_id c) (cn_clnt c) (cn_base c) (cn_packet c) (cn_timer c)
    (cn_running c) (cn_connected c) (cn_disposed c) (cn_flushed c) (cn_delay c)
    (cn_fe_produce c) (u32 (cn_be_consume c + 1)) (cn_be_produce c) (cn_fe_consume c) (cn_ip c) (cn_port c).
Definition IncrBackEndProduceNum (c : conn) : conn :=
  Conn (cn_class c) (cn_ref c) (cn_events c) (cn_id c) (cn_clnt c) (cn_base c) (cn_packet c) (cn_timer c)
    (cn_running c) (cn_connected c) (cn_disposed c) (cn_flushed c) (cn_delay c)
    (cn_fe_produce c) (cn_be_consume c) (u32 (cn_be_produce c + 1)) (cn_fe_consume c) (cn_ip c) (cn_port c).
Definition IncrFrontEndConsumeNum (c : conn) : conn :=
  Conn (cn_class c) (cn_ref c) (cn_events c) (cn_id c) (cn_clnt c) (cn_base c) (cn_packet c) (cn_timer c)
    (cn_running c) (cn_connected c) (cn_disposed c) (cn_flushed c) (cn_delay c)
    (cn_fe_produce c) (cn_be_consume c) (cn_be_produce c) (u32 (cn_fe_consume c + 1)) (cn_ip c) (cn_port c).

Definition IsFrontEndClean (c : conn) : bool := cn_fe_produce c =? cn_be_consume c.
Definition IsBackEndClean (c : conn) : bool := cn_be_produce c =? cn_fe_consume c.

(** True when the socket is valid and not about to be closed. *)
Definition IsReady (c : conn) : bool := (0 <? cn_id c) && negb (cn_disposed c) && negb (cn_flushed c).

(** New objects: a client is running and not flushed, an isolated connection is neither
    running nor, having no stream, in need of a flush. *)
Definition new_conn (cls : conn_class) (uConnId ref events : Z) : conn :=
  match cls with
  | CClient _ => Conn cls ref 0 uConnId 0 0 0 0 true false false false false 0 0 0 0 "" 0
  | CIsolated _ _ => Conn cls ref events uConnId 0 0 0 0 false false false true false 0 0 0 0 "" 0
  end.

(** *** Event managers *)

Definition new_event_manager : event_manager :=
  EventManager false (replicate TCP_EVENT_ID_MAX "") "" "".

Definition ClearAllEventHandlers (m : event_manager) : event_manager :=
  EventManager (em_ready m) ((λ _, "") <$> em_handlers m) "" "".
Definition SetReady (b : bool) (m : event_manager) : event_manager :=
  EventManager b (em_handlers m) (em_packet m) (em_inner m).
Definition RegisterPacketHandler (d : string) (m : event_manager) : event_manager :=
  EventManager (em_ready m) (em_handlers m) d (em_inner m).
Definition RegisterInnerPacketHandler (d : string) (m : event_manager) : event_manager :=
  EventManager (em_ready m) (em_handlers m) (em_packet m) d.
Definition RegisterEventHandler (uEventId : Z) (d : string) (m : event_manager) : outcome event_manager :=
  check (in_range uEventId 1 (zlen (em_handlers m))) OobWrite
    (Ok (EventManager (em_ready m) (<[Z.to_nat uEventId := d]> (em_handlers m)) (em_packet m) (em_inner m))).

Section conns.
Context {fi : ByteFifo} {lib : Lib}.

Definition run_handler (d : string) (args : list arg) : prog unit :=
  if String.eqb d "" then mret tt else call_ d args.

Definition OnEvent (mgr nEventId pConn : Z) : prog unit :=
  m ← get (A := event_manager) mgr;
  d ← lift (load1 nEventId (em_handlers m));
  run_handler d [VPtr pConn].
Definition OnPacket (mgr pConn uSerialNo : Z) (sTypeName sBody : string) : prog unit :=
  m ← get (A := event_manager) mgr;
  run_handler (em_packet m) [VPtr pConn; VInt uSerialNo; VStr sTypeName; VStr sBody].
Definition OnInnerPacket (mgr pConn uInnerUuid uSerialNo : Z) (sTypeName sBody : string) : prog unit :=
  m ← get (A := event_manager) mgr;
  run_handler (em_inner m) [VPtr pConn; VInt uInnerUuid; VInt uSerialNo; VStr sTypeName; VStr sBody].

Definition GetEventManager (p : Z) : prog Z :=
  c ← get (A := conn) p;
  match cn_class c with
  | CClient _ => s ← get (A := tcp_server) (cn_ref c); mret (ts_events s)
  | CIsolated _ _ => mret (cn_events c)
  end.

(** *** Connected and disconnected *)

Definition OnConnect (p : Z) : prog unit :=
  c ← get (A := conn) p;
  (* connect event will be ignored if not running *)
  if cn_running c && negb (cn_connected c) then
    upd p (SetConnected true);;
    mgr ← GetEventManager p;
    OnEvent mgr CONNECTION_CONNECTED p
  else mret tt.

Definition OnDisconnect (p : Z) : prog unit :=
  c ← get (A := conn) p;
  if cn_connected c then
    upd p (SetConnected false);;
    mgr ← GetEventManager p;
    OnEvent mgr CONNECTION_DISCONNECTED p
  else mret tt.

(** *** Closing the stream, disposing *)

(** The close callback each class passes. *)
Definition stream_close_cb (cls : conn_class) : string :=
  match cls with
  | CClient _ => "on_client_stream_close"
  | CIsolated false _ => "on_isolated_stream_close"
  | CIsolated true _ => "on_gate_stream_close"
  end.

Definition FlushStream (p : Z) : prog unit :=
  c ← get (A := conn) p;
  if cn_clnt c =? 0 then mret tt
  else
    k ← get_client (cn_clnt c);
    sockimpl ← init (clnt_sockimpl k);
    if negb (sockimpl =? 0) && negb (cn_flushed c) then
      uv_close_ sockimpl (stream_close_cb (cn_class c));;
      upd_client (cn_clnt c) (set_sockimpl 0);;
      upd p (SetFlushed true)
    else mret tt.

(** [SAFE_DELETE (_packet)] *)
Definition delete_packet (p : Z) : prog unit :=
  c ← get (A := conn) p;
  if cn_packet c =? 0 then mret tt
  else free (cn_packet c);; upd p (set_packet 0).

(** [kill reconnect timer]: the isolated connections only. *)
Definition kill_timer (p : Z) : prog unit :=
  c ← get (A := conn) p;
  if cn_timer c =? 0 then mret tt
  else uv_stop_and_free_timer_ (cn_timer c);; upd p (set_timer 0).

Definition DisposeConnection (p : Z) : prog unit :=
  c ← get (A := conn) p;
  if cn_disposed c then mret tt
  else
    upd p (SetDisposed true);;
    (* dispose packet *)
    delete_packet p;;
    (* flush stream *)
    FlushStream p;;
    match cn_class c with CClient _ => mret tt | CIsolated _ _ => kill_timer p end.

(** The destructors, and the block of the object. *)
Definition delete_conn (p : Z) : prog unit :=
  c ← get (A := conn) p;
  match cn_class c with
  | CClient _ => mret tt
  | CIsolated _ _ => upd (cn_events c) ClearAllEventHandlers;; free (cn_events c)
  end;;
  (* free conn handle *)
  (if cn_clnt c =? 0 then mret tt
   else k ← get_client (cn_clnt c); bb ← init (clnt_bb k); bb_destroy bb;; free (cn_clnt c));;
  free p.

(** *** Sending *)

(** [CTcpConnManager::s_send += n] and [s_recv += n] *)
Definition count_bytes (counter : string) (n : Z) : prog unit :=
  λ w, Ret tt (log (Event counter [VInt n] 0) w).

(** The callback of a write: a client's is in its server. *)
Definition write_cb (c : conn) : prog string :=
  match cn_class c with
  | CClient _ =>
      s ← get (A := tcp_server) (cn_ref c);
      h ← get (A := server_handle) (ts_srvr s);
      i ← get (A := uvsrvr_impl) (srv_impl h);
      mret (ui_writecb i)
  | CIsolated _ _ => mret "on_isolated_send"
  end.

Definition SendRaw (p : Z) (buf : bytes) : prog Z :=
  c ← get (A := conn) p;
  wr ← malloc (OReq (WriteReq None 0));
  base ← malloc (OBytes buf);
  upd wr (λ r, WriteReq (rq_handle r) base);;
  writecb ← write_cb c;
  k ← get_client (cn_clnt c);
  sockimpl ← init (clnt_sockimpl k);
  r ← call_on "uv_write" sockimpl [VPtr wr; VPtr base; VInt (zlen buf); VFun writecb];
  if r <? 0 then
    DisposeConnection p;;
    mret 0
  else
    upd wr (λ r, WriteReq (Some sockimpl) (rq_base r));;   (* by [uv_write] *)
    count_bytes "s_send" (zlen buf);;
    mret (zlen buf).

(** The loop of [IPacket::Post], which uses the packet object after each page. *)
Fixpoint post_pages (p packet : Z) (pages : list bytes) : prog Z :=
  match pages with
  | [] => mret 0
  | page :: pages =>
      n ← SendRaw p page;
      _ ← get (A := packet_class) packet;
      n' ← post_pages p packet pages;
      mret (n + n')
  end.

(** [PostPacket], for the pages that the packet object makes of the message. *)
Definition PostPacket (p : Z) (pages : list bytes) : prog Z :=
  c ← get (A := conn) p;
  if cn_packet c =? 0 then mret 0
  else
    _ ← get (A := packet_class) (cn_packet c);
    if IsReady c then post_pages p (cn_packet c) pages else mret 0.

(** *** Receiving *)

(** [OnRawData]: a negative answer stands for an exception, which leaves through the C
    frames of libuv. *)
Definition OnRawData (p bb : Z) : prog unit :=
  c ← get (A := conn) p;
  _ ← get (A := packet_class) (cn_packet c);
  nConsumed ← call "IPacket::DecodeStream" [VPtr (cn_packet c); VPtr bb];
  if nConsumed <? 0 then lift (Ub BadArg)
  else
    bb_decommit bb nConsumed;;
    count_bytes "s_recv" nConsumed.

(** ** What the methods do to the heap *)

Implicit Types h : gmap Z obj.

(** A connection object with an event manager. *)
Definition conn_at h (p : Z) (c : conn) : Prop :=
  p ≠ 0 ∧ h !! p = Some (OConn c) ∧
  ∃ mgr em, mgr ≠ 0 ∧ h !! mgr = Some (OEvents em) ∧ length (em_handlers em) = TCP_EVENT_ID_MAX ∧
    match cn_class c with
    | CClient _ => ∃ s, cn_ref c ≠ 0 ∧ h !! cn_ref c = Some (OTcp s) ∧ ts_events s = mgr
    | CIsolated _ _ => cn_events c = mgr
    end.

Lemma wp_run_handler d args (Q : unit → world → Prop) X n h m tr :
  (∀ tr', Q tt (World n h m tr')) → wp (run_handler d args) Q X (World n h m tr).
Proof. intros HQ. unfold run_handler. destruct (String.eqb d ""); repeat wp_step; apply HQ. Qed.

Lemma wp_OnEvent mgr em id p (Q : unit → world → Prop) X n h m tr :
  mgr ≠ 0 → h !! mgr = Some (OEvents em) → length (em_handlers em) = TCP_EVENT_ID_MAX → 0 ≤ id < 4 →
  (∀ tr', Q tt (World n h m tr')) → wp (OnEvent mgr id p) Q X (World n h m tr).
Proof.
  intros Hm Hem Hl Hid HQ. unfold OnEvent. repeat wp_step.
  destruct (lookup_lt_is_Some_2 (em_handlers em) (Z.to_nat id)) as [d Hd]; [rewrite Hl; unfold TCP_EVENT_ID_MAX; lia|].
  rewrite (load1_Ok _ _ d) by (done || lia). by apply wp_run_handler.
Qed.

Lemma wp_GetEventManager p c (Q : Z → world → Prop) X n h m tr :
  conn_at h p c →
  (∀ mgr em, mgr ≠ 0 → h !! mgr = Some (OEvents em) → length (em_handlers em) = TCP_EVENT_ID_MAX →
    Q mgr (World n h m tr)) →
  wp (GetEventManager p) Q X (World n h m tr).
Proof.
  intros (Hp & Hc & mgr & em & Hm & Hem & Hl & Hcls) HQ. unfold GetEventManager. do 2 wp_step.
  destruct (cn_class c).
  - destruct Hcls as (s & Hr & Hs & Hse). repeat wp_step. rewrite Hse. by apply (HQ mgr em).
  - repeat wp_step. rewrite Hcls. by apply (HQ mgr em).
Qed.

Lemma conn_at_update h p c c' :
  conn_at h p c → cn_class c' = cn_class c → cn_ref c' = cn_ref c → cn_events c' = cn_events c →
  conn_at (<[p := OConn c']> h) p c'.
Proof.
  intros (Hp & Hc & mgr & em & Hm & Hem & Hl & Hcls) H1 H2 H3. split; [done|].
  split; [apply lookup_insert_eq|]. exists mgr, em. split; [done|].
  split; [heap_side|]. split; [done|]. rewrite H1, H2, H3. destruct (cn_class c); [|done].
  destruct Hcls as (s & Hr & Hs & Hse). exists s. split; [done|]. split; [heap_side|done].
Qed.

(** Blocks of other kinds may change. *)
Lemma conn_at_other h p c q o :
  conn_at h p c → q ≠ p →
  (∀ s, h !! q ≠ Some (OTcp s)) → (∀ em, h !! q ≠ Some (OEvents em)) → conn_at (<[q := o]> h) p c.
Proof.
  intros (Hp & Hc & mgr & em & Hm & Hem & Hl & Hcls) Hq Ht He. split; [done|]. split; [heap_side|].
  exists mgr, em. split; [done|]. split; [rewrite lookup_insert_ne; [done|]; intros ->; by eapply He|].
  split; [done|]. destruct (cn_class c); [|done]. destruct Hcls as (s & Hr & Hs & Hse). exists s.
  split; [done|]. split; [rewrite lookup_insert_ne; [done|]; intros ->; by eapply Ht|done].
Qed.

Lemma conn_at_delete h p c q :
  conn_at h p c → q ≠ p →
  (∀ s, h !! q ≠ Some (OTcp s)) → (∀ em, h !! q ≠ Some (OEvents em)) → conn_at (delete q h) p c.
Proof.
  intros (Hp & Hc & mgr & em & Hm & Hem & Hl & Hcls) Hq Ht He. split; [done|]. split; [heap_side|].
  exists mgr, em. split; [done|]. split; [rewrite lookup_delete_ne; [done|]; intros ->; by eapply He|].
  split; [done|]. destruct (cn_class c); [|done]. destruct Hcls as (s & Hr & Hs & Hse). exists s.
  split; [done|]. split; [rewrite lookup_delete_ne; [done|]; intros ->; by eapply Ht|done].
Qed.

(** [OnConnect] and [OnDisconnect] set the flag and call the handler on a change. *)
Lemma wp_OnConnect p c (Q : unit → world → Prop) X n h m tr :
  conn_at h p c →
  (∀ tr', Q tt (World n (<[p := OConn (if cn_running c then SetConnected true c else c)]> h) m tr')) →
  wp (OnConnect p) Q X (World n h m tr).
Proof.
  intros Hc HQ. pose proof Hc as (Hp & Hcp & _). unfold OnConnect. do 2 wp_step. cbn beta.
  destruct (cn_running c); cbn [andb].
  - destruct (cn_connected c) eqn:Hd; cbn [negb].
    + wp_step. specialize (HQ tr). rewrite insert_id in HQ; [done|]. rewrite Hcp. destruct c. cbn in *. by subst.
    + do 2 wp_step. wp_step.
      eapply wp_GetEventManager; [by apply (conn_at_update h p c)|]. intros mgr em Hm Hem Hl.
      eapply wp_OnEvent; [done..|unfold CONNECTION_CONNECTED; lia|]. apply HQ.
  - wp_step. specialize (HQ tr). by rewrite insert_id in HQ.
Qed.

Lemma wp_OnDisconnect p c (Q : unit → world → Prop) X n h m tr :
  conn_at h p c → (∀ tr', Q tt (World n (<[p := OConn (SetConnected false c)]> h) m tr')) →
  wp (OnDisconnect p) Q X (World n h m tr).
Proof.
  intros Hc HQ. pose proof Hc as (Hp & Hcp & _). unfold OnDisconnect. do 2 wp_step. cbn beta.
  destruct (cn_connected c) eqn:Hd.
  - do 2 wp_step. wp_step.
    eapply wp_GetEventManager; [by apply (conn_at_update h p c)|]. intros mgr em Hm Hem Hl.
    eapply wp_OnEvent; [done..|unfold CONNECTION_DISCONNECTED; lia|]. apply HQ.
  - wp_step. specialize (HQ tr). rewrite insert_id in HQ; [done|]. rewrite Hcp. destruct c. cbn in *. by subst.
Qed.

(** A client handle whose socket, if there is one, is a block. *)
Definition clnt_at h (clnt : Z) (k : client_handle) (sock : Z) : Prop :=
  clnt ≠ 0 ∧ h !! clnt = Some (OClient k) ∧ clnt_sockimpl k = Some sock ∧
  (sock ≠ 0 → ∃ u, h !! sock = Some (OUv u)).

Definition flush_conn (sock : Z) (c : conn) : conn := SetFlushed (cn_flushed c || negb (sock =? 0)) c.
Definition flush_clnt (flushed : bool) (k : client_handle) : client_handle :=
  if flushed then k else set_sockimpl 0 k.

Lemma wp_uv_close sock u cb (Q : unit → world → Prop) X n h m tr :
  (sock ≠ 0 → h !! sock = Some (OUv u)) → (∀ tr', Q tt (World n h m tr')) →
  wp (uv_close_ sock cb) Q X (World n h m tr).
Proof.
  intros Hs HQ. unfold uv_close_. destruct (Z.eqb_spec sock 0) as [->|Hne]; cbn [negb]; [wp_step; apply HQ|].
  specialize (Hs Hne). repeat wp_step; apply HQ.
Qed.

Lemma wp_FlushStream p c k sock (Q : unit → world → Prop) X n h m tr :
  p ≠ 0 → h !! p = Some (OConn c) → clnt_at h (cn_clnt c) k sock →
  (∀ tr', Q tt (World n (<[p := OConn (flush_conn sock c)]>
    (<[cn_clnt c := OClient (flush_clnt (cn_flushed c) k)]> h)) m tr')) →
  wp (FlushStream p) Q X (World n h m tr).
Proof.
  intros Hp Hc (Hk0 & Hk & Hsk & Hs) HQ. unfold FlushStream. do 2 wp_step. cbn beta.
  rewrite (proj2 (Z.eqb_neq (cn_clnt c) 0)) by done. do 4 wp_step. cbn beta.
  assert (flush_conn sock c = c ∧ flush_clnt (cn_flushed c) k = k ∨
    negb (sock =? 0) && negb (cn_flushed c) = true) as Hcase.
  { unfold flush_conn, flush_clnt. destruct (cn_flushed c) eqn:Hf; [left; split; [destruct c; cbn in *; by subst|done]|].
    destruct (Z.eqb_spec sock 0) as [->|]; [|by right]. left. cbn.
    split; [destruct c; cbn in *; by subst|destruct k; cbn in *; by subst]. }
  destruct (negb (sock =? 0) && negb (cn_flushed c)) eqn:Hb.
  - clear Hcase. apply andb_true_iff in Hb as [Hb1%negb_true_iff Hb2%negb_true_iff].
    apply Z.eqb_neq in Hb1. destruct (Hs Hb1) as [u Hu]. wp_step. eapply wp_uv_close; [done|]. intros tr'.
    repeat wp_step. specialize (HQ tr'). unfold flush_conn, flush_clnt in HQ.
    rewrite Hb2, (proj2 (Z.eqb_neq sock 0)) in HQ by done. exact HQ.
  - destruct Hcase as [[E1 E2]|]; [|done]. rewrite E1, E2 in HQ. wp_step. specialize (HQ tr).
    rewrite !insert_id in HQ; [done|done|]. rewrite insert_id; done.
Qed.

(** The state of the packet and the timer of a connection. *)
Definition packet_at h (c : conn) : Prop :=
  cn_packet c = 0 ∨ cn_packet c ≠ 0 ∧ ∃ pc, h !! cn_packet c = Some (OPacket pc).
Definition timer_at h (c : conn) : Prop :=
  cn_timer c = 0 ∨ cn_timer c ≠ 0 ∧ ∃ u, h !! cn_timer c = Some (OUv u).

Definition dispose_conn (sock : Z) (c : conn) : conn :=
  flush_conn sock (set_packet 0 (SetDisposed true c)).
Definition end_timer (c : conn) : conn :=
  match cn_class c with CClient _ => c | CIsolated _ _ => set_timer 0 c end.

Lemma wp_delete_packet p c (Q : unit → world → Prop) X n h m tr :
  p ≠ 0 → h !! p = Some (OConn c) → h !! 0 = None → packet_at h c →
  Q tt (World n (<[p := OConn (set_packet 0 c)]> (delete (cn_packet c) h)) m tr) →
  wp (delete_packet p) Q X (World n h m tr).
Proof.
  intros Hp Hc H0 Hpk HQ. unfold delete_packet. do 2 wp_step. cbn beta. destruct Hpk as [Hpk|[Hpk [pc Hpc]]].
  - rewrite Hpk in HQ |- *. rewrite Z.eqb_refl, delete_id in * by done. wp_step.
    rewrite insert_id in HQ; [done|]. rewrite Hc. destruct c; cbn in *; by subst.
  - rewrite (proj2 (Z.eqb_neq _ 0)) by done. wp_step. wp_step.
    assert (cn_packet c ≠ p) as Hne by (intros E; rewrite E, Hc in Hpc; done). wp_step. done.
Qed.

Lemma wp_kill_timer p c (Q : unit → world → Prop) X n h m tr :
  p ≠ 0 → h !! p = Some (OConn c) → timer_at h c →
  (∀ tr', Q tt (World n (<[p := OConn (set_timer 0 c)]> h) m tr')) → wp (kill_timer p) Q X (World n h m tr).
Proof.
  intros Hp Hc Ht HQ. unfold kill_timer. do 2 wp_step. cbn beta. destruct Ht as [Ht|[Ht [u Hu]]].
  - rewrite Ht, Z.eqb_refl. wp_step. specialize (HQ tr). rewrite insert_id in HQ; [done|].
    rewrite Hc. destruct c; cbn in *; by subst.
  - rewrite (proj2 (Z.eqb_neq (cn_timer c) 0)) by done. unfold uv_stop_and_free_timer_. repeat wp_step. apply HQ.
Qed.

(** [DisposeConnection], given what [FlushStream] does. *)
Lemma wp_dispose_by p c c2 h2 (Q : unit → world → Prop) X n h m tr :
  p ≠ 0 → h !! p = Some (OConn c) → h !! 0 = None → packet_at h c → cn_disposed c = false →
  (∀ (Q' : unit → world → Prop) tr, (∀ tr', Q' tt (World n (<[p := OConn c2]> h2) m tr')) →
    wp (FlushStream p) Q' X (World n (<[p := OConn (set_packet 0 (SetDisposed true c))]> (delete (cn_packet c) h)) m tr)) →
  timer_at (<[p := OConn c2]> h2) c2 → cn_class c2 = cn_class c →
  (∀ tr', Q tt (World n (<[p := OConn (end_timer c2)]> h2) m tr')) →
  wp (DisposeConnection p) Q X (World n h m tr).
Proof.
  intros Hp Hc H0 Hpk Hd Hflush Ht Hcl HQ. unfold DisposeConnection. do 2 wp_step. cbn beta. rewrite Hd. do 3 wp_step.
  assert (packet_at (<[p := OConn (SetDisposed true c)]> h) (SetDisposed true c)) as Hpk'.
  { destruct Hpk as [?|[Hne [pc Hpc]]]; [by left|right]. split; [done|]. exists pc. cbn [cn_packet SetDisposed]. 
    assert (cn_packet c ≠ p) by (intros E; rewrite E, Hc in Hpc; done). heap_side. }
  eapply (wp_delete_packet p (SetDisposed true c)); [done|heap_side|heap_side|exact Hpk'|].
  cbn [cn_packet SetDisposed]. cbn beta. wp_step.
  assert (cn_packet c ≠ p) as Hne.
  { intros E. destruct Hpk as [?|[_ [pc Hpc]]]; [congruence|]. rewrite E, Hc in Hpc; done. }
  match goal with |- wp _ _ _ (World _ ?h' _ _) =>
    replace h' with (<[p := OConn (set_packet 0 (SetDisposed true c))]> (delete (cn_packet c) h)) by heap_eq end.
  apply Hflush. intros tr'. cbn beta. unfold end_timer in HQ. rewrite Hcl in HQ.
  destruct (cn_class c) eqn:E; [wp_step; apply HQ|].
  eapply (wp_kill_timer p c2); [done|heap_side|done|]. intros tr2. rewrite insert_insert_eq. apply HQ.
Qed.

(** Disposing of a connection: the packet is deleted, the stream closed, the timer
    closed, and the object says so. *)
Lemma wp_DisposeConnection p c k sock (Q : unit → world → Prop) X n h m tr :
  p ≠ 0 → h !! p = Some (OConn c) → h !! 0 = None → clnt_at h (cn_clnt c) k sock → packet_at h c →
  timer_at h c → cn_disposed c = false →
  (∀ tr', Q tt (World n (<[p := OConn (end_timer (dispose_conn sock c))]>
    (<[cn_clnt c := OClient (flush_clnt (cn_flushed c) k)]> (delete (cn_packet c) h))) m tr')) →
  wp (DisposeConnection p) Q X (World n h m tr).
Proof.
  intros Hp Hc H0 Hk Hpk Ht Hd HQ. pose proof Hk as (Hk0 & Hkk & Hks & Hksock).
  assert (∀ x o, h !! x = Some o → (∀ pc, o ≠ OPacket pc) → cn_packet c ≠ x) as Hpx.
  { intros x o Hx Ho <-. destruct Hpk as [E|[_ [pc Hpc]]]; [by rewrite E, H0 in Hx|].
    rewrite Hx in Hpc. injection Hpc as ->. by eapply Ho. }
  pose proof (Hpx _ _ Hkk ltac:(done)) as Hpk1.
  set (c1 := set_packet 0 (SetDisposed true c)).
  eapply (wp_dispose_by p c (dispose_conn sock c) (<[cn_clnt c := OClient (flush_clnt (cn_flushed c) k)]>
    (delete (cn_packet c) h))); [done..| | |done|exact HQ].
  - intros Q' tr' HQ'. eapply (wp_FlushStream p c1 k sock); [done|heap_side| |].
    + split; [done|]. cbn [cn_clnt c1 set_packet SetDisposed]. split; [heap_side|]. split; [done|].
      intros Hs. destruct (Hksock Hs) as [u Hu]. exists u. pose proof (Hpx _ _ Hu ltac:(done)). heap_side.
    + intros tr2. cbn [cn_clnt cn_flushed c1 set_packet SetDisposed].
      match goal with |- Q' _ (World _ ?h' _ _) => replace h' with (<[p := OConn (dispose_conn sock c)]>
        (<[cn_clnt c := OClient (flush_clnt (cn_flushed c) k)]> (delete (cn_packet c) h))) by heap_eq end.
      apply HQ'.
  - destruct Ht as [?|[Ht [u Hu]]]; [by left|right]. split; [done|]. exists u. cbn [cn_timer dispose_conn flush_conn
      SetFlushed set_packet SetDisposed]. pose proof (Hpx _ _ Hu ltac:(done)). heap_side.
Qed.

(** The same without a client handle. *)
Lemma wp_dispose_null p c (Q : unit → world → Prop) X n h m tr :
  p ≠ 0 → h !! p = Some (OConn c) → h !! 0 = None → cn_clnt c = 0 → packet_at h c → timer_at h c →
  cn_disposed c = false →
  (∀ tr', Q tt (World n (<[p := OConn (end_timer (set_packet 0 (SetDisposed true c)))]> (delete (cn_packet c) h)) m tr')) →
  wp (DisposeConnection p) Q X (World n h m tr).
Proof.
  intros Hp Hc H0 Hk Hpk Ht Hd HQ.
  eapply (wp_dispose_by p c (set_packet 0 (SetDisposed true c)) (delete (cn_packet c) h)); [done..| | |done|exact HQ].
  - intros Q' tr' HQ'. unfold FlushStream. do 2 wp_step. cbn beta. cbn [cn_clnt set_packet SetDisposed].
    rewrite Hk, Z.eqb_refl. wp_step. apply HQ'.
  - destruct Ht as [?|[Ht [u Hu]]]; [by left|right]. split; [done|]. exists u. cbn [cn_timer set_packet SetDisposed].
    assert (cn_packet c ≠ cn_timer c).
    { intros E. rewrite <- E in Hu. destruct Hpk as [E2|[_ [pc Hpc]]]; [by rewrite E2, H0 in Hu|congruence]. }
    heap_side.
Qed.
End conns.
