(* ===== verification/UvIsolated.v ===== *)
(** * Outgoing connections that reconnect: [tcp/uv/UvIsolatedConn.cpp] and its copies

    Connecting, the reconnect timer, closing, and the callbacks that libuv calls.  The four
    copies of the class differ in the packet they make ([UvIsolatedConn2],
    [UvGateIsolatedConn2]: the outer one) and in what the gate's classes do when the
    stream is closed.

    The life of such a connection is the state machine over [stage]; [isolated_refines] is the
    simulation, with the events that end it: undefined behaviour ([iso_fault]) or a freed
    client handle ([iso_orphan]). *)

From S2P Require Import Prelude CHeap BipBuf Fifo Io UvClient UvConn.

#[local] Open Scope string_scope.
#[local] Open Scope Z_scope.

(** [is_ip_address]: digits and points; a character above 127 is outside [isdigit]. *)
Fixpoint is_ip_address (ip : string) : outcome bool :=
  match ip with
  | EmptyString => Ok true
  | String a ip =>
      let c := Z.of_N (N_of_ascii a) in
      check (c <? 128) BadArg
        (if ((48 <=? c) && (c <=? 57)) || (c =? 46) then is_ip_address ip else Ok false)
  end.

Section isolated.
Context {fi : ByteFifo} {lib : Lib}.

(** ** Methods *)

Definition DelayReconnect (p nDelaySeconds : Z) : prog unit :=
  c ← get (A := conn) p;
  if negb (cn_delay c) && negb (cn_disposed c) then
    upd p (set_delay true);;
    (* reconnect timer *)
    ms ← lift (check (in_range (nDelaySeconds * 1000 + 2 ^ 31) 1 (2 ^ 32)) BadArg (Ok (u64 (nDelaySeconds * 1000))));
    _ ← uv_start_timer_ (cn_timer c) "client_reconnect_timer_cb" ms 0;
    mret tt
  else mret tt.

Definition OnIsolatedError (p : Z) : prog unit :=
  (* clear packet because isolated may be reused *)
  c ← get (A := conn) p;
  _ ← get (A := packet_class) (cn_packet c);
  call_ "IPacket::Clear" [VPtr (cn_packet c)];;
  (* trigger disconnect event *)
  OnDisconnect p;;
  (* check running *)
  c ← get (A := conn) p;
  if cn_running c then DelayReconnect p RECONNECT_DELAY_SECONDS else mret tt.

(** [_refConnFactory->ReleaseConnection (this)] disposes of the connection. *)
Definition Disconnect_isolated (p : Z) : prog unit :=
  c ← get (A := conn) p;
  if negb (cn_disposed c) && cn_running c then
    upd p (set_running false);;
    OnDisconnect p;;
    DisposeConnection p
  else mret tt.

Definition packet_of (cls : conn_class) : packet_class :=
  match cls with CClient g => if g then Outer else Inner | CIsolated _ pc => pc end.

Definition Connect (p base : Z) (sIp_or_Hostname : string) (nPort : Z) : prog Z :=
  (* is IP or hostname ? *)
  is_ip ← lift (is_ip_address sIp_or_Hostname);
  if negb is_ip then mret (-1)
  else
    (* init ip and port *)
    upd p (set_target sIp_or_Hostname nPort);;
    (* init base *)
    upd p (set_base base);;
    (* init packet *)
    c ← get (A := conn) p;
    (if cn_packet c =? 0 then
       packet ← malloc (OPacket (packet_of (cn_class c))); upd p (set_packet packet)
     else mret tt);;
    (* init reconnect timer *)
    timer ← uv_create_timer_ base p;
    upd p (set_timer timer);;
    (* low level connect *)
    clnt ← uv_connect_ base sIp_or_Hostname nPort "on_isolated_connect_error";
    upd p (set_clnt clnt);;
    if negb (clnt =? 0) then
      upd_client clnt (set_connimpl p);;
      upd p (set_running true);;
      upd p (SetFlushed false);;
      mret 0
    else mret (-2).

Definition Reconnect (p : Z) : prog unit :=
  (* clear delay reconnecting flag *)
  c ← get (A := conn) p;
  (if cn_delay c then upd p (set_delay false) else mret tt);;
  (* recover running *)
  (if negb (cn_running c) then upd p (set_running true) else mret tt);;
  (* check flushed *)
  if cn_flushed c then
    upd p (SetFlushed false);;
    (* low level connect *)
    _ ← uv_real_connect_ (cn_clnt c) (cn_base c) "on_isolated_connect_error";
    mret tt
  else mret tt.

(** [IsolatedConnDelayReconnect] of the factory is [DelayReconnect]. *)
Definition Reopen (p nDelaySeconds : Z) : prog unit :=
  c ← get (A := conn) p;
  if negb (cn_disposed c) then
    (if cn_connected c then Disconnect_isolated p else mret tt);;
    DelayReconnect p nDelaySeconds
  else mret tt.

(** ** Callbacks *)

Definition on_sock_close (handle : Z) : prog unit := free handle.
Definition on_isolated_stream_close (handle : Z) : prog unit := free handle.

Definition on_gate_stream_close (handle : Z) : prog unit :=
  u ← get (A := uv_object) handle;
  clnt ← init (uv_data u);
  k ← get_client clnt;
  pConn ← init (clnt_connimpl k);
  (if negb (pConn =? 0) then
     (* dispose and error *)
     upd pConn (SetFlushed true);;
     OnIsolatedError pConn
   else mret tt);;
  free handle.

(** A client handle without a connection object: close, and free the handle. *)
Definition drop_client (clnt : Z) : prog unit :=
  k ← get_client clnt;
  sockimpl ← init (clnt_sockimpl k);
  uv_close_ sockimpl "on_sock_close";;
  bb ← init (clnt_bb k);
  bb_destroy bb;;
  free clnt.

(** [alloc_cb]: where libuv may put bytes, and how many. *)
Definition alloc_cb (stream1 suggested_size : Z) : prog (option Z * Z) :=
  u ← get (A := uv_object) stream1;
  clnt ← init (uv_data u);
  k ← get_client clnt;
  bb ← init (clnt_bb k);
  bb_reserve bb.

(** [bip_buf_commit (clnt->_bb, n)] *)
Definition commit_client (clnt n : Z) : prog unit :=
  k ← get_client clnt; bb ← init (clnt_bb k); bb_commit bb n.

(** [if (pConn) flush and error, else drop] *)
Definition isolated_failed (clnt pConn : Z) : prog unit :=
  if negb (pConn =? 0) then
    FlushStream pConn;;
    OnIsolatedError pConn
  else drop_client clnt.

Definition on_isolated_recv (stream nread : Z) : prog unit :=
  u ← get (A := uv_object) stream;
  clnt ← init (uv_data u);
  k ← get_client clnt;
  pConn ← init (clnt_connimpl k);
  if nread <? 0 then
    (* Error or EOF *)
    if (nread =? UV_EOF) || (nread =? UV_ECONNRESET) then
      (* Free the read/write buffer *)
      commit_client clnt 0;;
      isolated_failed clnt pConn
    else (* Keep waiting *) mret tt
  else if nread =? 0 then
    (* Everything OK, but nothing read. *)
    commit_client clnt 0
  else
    (* read ok *)
    commit_client clnt nread;;
    (* connection read data *)
    if negb (pConn =? 0) then k ← get_client clnt; bb ← init (clnt_bb k); OnRawData pConn bb
    else mret tt.

(** Free the read/write buffer and the request. *)
Definition free_write (req : Z) (wr : write_req) : prog unit := free (rq_base wr);; free req.

Definition on_isolated_send (req status : Z) : prog unit :=
  wr ← get (A := write_req) req;
  if negb (status =? 0) then
    err ← call "GetLastError" [];
    if negb (err =? ERROR_IO_PENDING) then
      tcp ← init (rq_handle wr);
      u ← get (A := uv_object) tcp;
      clnt ← init (uv_data u);
      k ← get_client clnt;
      pConn ← init (clnt_connimpl k);
      isolated_failed clnt pConn;;
      _ ← get (A := uv_object) tcp;   (* printed *)
      free_write req wr
    else mret tt
  else free_write req wr.

Definition on_isolated_connect_error (req status : Z) : prog unit :=
  q ← get (A := uv_object) req;
  clnt ← init (uv_data q);
  k ← get_client clnt;
  sockimpl ← init (clnt_sockimpl k);
  pConn ← init (clnt_connimpl k);
  if 0 =? status then
    fd ← call_on "uv_tcp_t::socket" sockimpl [];
    upd_client clnt (set_fd fd);;
    r ← call_on "uv_tcp_nodelay" sockimpl [VInt 1];
    if negb (r =? 0) then drop_client clnt
    else
      r ← call_on "uv_read_start" sockimpl [VFun "alloc_cb"; VFun "on_isolated_recv"];
      if negb (r =? 0) then drop_client clnt
      else
        (* connected *)
        OnConnect pConn;;
        free req
  else
    isolated_failed clnt pConn;;
    free req.

Definition client_reconnect_timer_cb (timer : Z) : prog unit :=
  u ← get (A := uv_object) timer;
  pConn ← init (uv_data u);
  if negb (pConn =? 0) then Reconnect pConn else mret tt.

(** ** What the methods do to the heap *)

Implicit Types h : gmap Z obj.

Lemma wp_uv_start_timer timer u cb ms r0 (Q : Z → world → Prop) X n h m tr :
  timer ≠ 0 → h !! timer = Some (OUv u) → (∀ r tr', Q r (World n h m tr')) →
  wp (uv_start_timer_ timer cb ms r0) Q X (World n h m tr).
Proof. intros Ht Hu HQ. unfold uv_start_timer_. wp_step. apply HQ. Qed.

Lemma wp_DelayReconnect p c s (Q : unit → world → Prop) X n h m tr :
  p ≠ 0 → h !! p = Some (OConn c) → cn_timer c ≠ 0 → timer_at h c → cn_disposed c = false →
  - 2 ^ 31 ≤ s * 1000 < 2 ^ 31 →
  (∀ tr', Q tt (World n (<[p := OConn (set_delay true c)]> h) m tr')) →
  wp (DelayReconnect p s) Q X (World n h m tr).
Proof.
  intros Hp Hc Ht [?|[_ [u Hu]]] Hd Hs HQ; [done|]. unfold DelayReconnect. do 2 wp_step. cbn beta.
  rewrite Hd. destruct (cn_delay c) eqn:Hdl; cbn [negb andb].
  - wp_step. specialize (HQ tr). rewrite insert_id in HQ; [done|]. rewrite Hc. destruct c; cbn in *; by subst.
  - do 3 wp_step. unfold in_range. rewrite check_true by (zbool; lia). apply wp_ret.
    wp_step. eapply (wp_uv_start_timer _ u); [done|heap_side|]. intros r tr'. wp_step. apply HQ.
Qed.

Lemma wp_OnIsolatedError p c (Q : unit → world → Prop) X n h m tr :
  conn_at h p c → cn_packet c ≠ 0 → packet_at h c → cn_timer c ≠ 0 → timer_at h c →
  cn_disposed c = false → cn_running c = true →
  (∀ tr', Q tt (World n (<[p := OConn (set_delay true (SetConnected false c))]> h) m tr')) →
  wp (OnIsolatedError p) Q X (World n h m tr).
Proof.
  intros Hc Hpk [?|[_ [pc Hpc]]] Ht Hta Hd Hr HQ; [done|]. pose proof Hc as (Hp & Hcp & _).
  unfold OnIsolatedError. repeat wp_step. eapply (wp_OnDisconnect p c); [done|]. intros tr'.
  do 2 wp_step. cbn beta. cbn [cn_running SetConnected]. rewrite Hr.
  eapply (wp_DelayReconnect p (SetConnected false c)); [done|heap_side|done| |done|unfold RECONNECT_DELAY_SECONDS; lia|].
  - destruct Hta as [?|[_ [u Hu]]]; [done|]. right. split; [done|]. exists u. cbn [cn_timer SetConnected]. heap_side.
  - intros tr2. rewrite insert_insert_eq. apply HQ.
Qed.

(** ** The life of a connection *)

(** Where it stands: connecting, connected, its stream closed and the reconnect to come,
    without a stream after a reconnect that failed, disposed of (with or without the mark of
    a flushed stream). *)
Inductive stage := Connecting | Up | Flushed | Stranded | Gone (flushed : bool).
#[export] Instance stage_eq_dec : EqDecision stage.
Proof. solve_decision. Defined.

(** The stages with a stream, the last one, and the mark of a flushed stream. *)
Definition has_stream (st : stage) : bool := match st with Connecting | Up => true | _ => false end.
Definition gone (st : stage) : bool := match st with Gone _ => true | _ => false end.
Definition marked (st : stage) : bool := match st with Flushed => true | Gone fl => fl | _ => false end.
Definition is_up (st : stage) : bool := match st with Up => true | _ => false end.

(** The blocks of an isolated connection [p] after [Connect], on a heap below [n]. *)
Record iso (n : Z) h (m : fmem) (p : Z) (c : conn) (k : client_handle) (sock : Z) (em : event_manager)
    (bb : Z) (f : fifo) (q : aq) (b : uv_object) : Prop := Iso {
  iso_below : ∀ x, is_Some (h !! x) → 0 < x < n;
  iso_mem : fmem_ok m;
  iso_p : p ≠ 0;
  iso_conn : h !! p = Some (OConn c);
  iso_class : ∃ g pc, cn_class c = CIsolated g pc;
  iso_ev : cn_events c ≠ 0;
  iso_events : h !! cn_events c = Some (OEvents em);
  iso_handlers : length (em_handlers em) = TCP_EVENT_ID_MAX;
  iso_clnt : cn_clnt c ≠ 0;
  iso_client : h !! cn_clnt c = Some (OClient k);
  iso_sin : is_Some (clnt_sin k);
  iso_sockimpl : clnt_sockimpl k = Some sock;
  iso_connimpl : clnt_connimpl k = Some p;
  iso_bb : clnt_bb k = Some bb;
  iso_bb0 : bb ≠ 0;
  iso_fifo : h !! bb = Some (OFifo f);
  iso_queue : frep m f q;
  iso_base : cn_base c ≠ 0;
  iso_loop : h !! cn_base c = Some (OUv b);
  iso_sock : sock ≠ 0 → h !! sock = Some (OUv (UvObject (Some (cn_clnt c))));
  iso_sock_base : sock ≠ cn_base c;
  iso_packet : cn_packet c ≠ 0 → h !! cn_packet c = Some (OPacket (packet_of (cn_class c)));
  iso_timer : cn_timer c ≠ 0 → h !! cn_timer c = Some (OUv (UvObject (Some p)));
  iso_timer_base : cn_timer c ≠ cn_base c;
  iso_timer_sock : sock ≠ 0 → cn_timer c ≠ sock
}.

(** The flags, pointers and reconnect flag that belong to a stage. *)
Record in_stage (st : stage) (d : bool) (c : conn) (sock : Z) : Prop := InStage {
  is_running : cn_running c = negb (gone st);
  is_connected : cn_connected c = is_up st;
  is_disposed : cn_disposed c = gone st;
  is_flushed : cn_flushed c = marked st;
  is_delay : cn_delay c = d;
  is_stream : (sock =? 0) = negb (has_stream st);
  is_packet : (cn_packet c =? 0) = gone st;
  is_timer : (cn_timer c =? 0) = gone st;
  is_wait : st = Flushed → d = true
}.

(** The connection [p] in a world. *)
Definition iso_rep (p : Z) (st : stage) (d : bool) (w : world) : Prop :=
  ∃ c k sock em bb f q b, iso (w_next w) (w_heap w) (w_mem w) p c k sock em bb f q b ∧ in_stage st d c sock.

(** What happens to a connection: the callbacks of libuv, the timer, the application.  Which
    close callback libuv was given depends on the class ([stream_close_cb]). *)
Inductive iso_event :=
  | EConnectCb (req status : Z)
  | EReadCb (stream nread : Z)
  | EWriteCb (req status : Z)
  | ECloseCb (gate : bool) (handle : Z)
  | ETimerCb (timer : Z)
  | EPost (pages : list bytes)
  | EDisconnect
  | EReopen (nDelaySeconds : Z).

Definition run_event (p : Z) (e : iso_event) : prog unit :=
  match e with
  | EConnectCb req status => on_isolated_connect_error req status
  | EReadCb stream nread => on_isolated_recv stream nread
  | EWriteCb req status => on_isolated_send req status
  | ECloseCb gate handle => if gate then on_gate_stream_close handle else on_isolated_stream_close handle
  | ETimerCb timer => client_reconnect_timer_cb timer
  | EPost pages => _ ← PostPacket p pages; mret tt
  | EDisconnect => Disconnect_isolated p
  | EReopen s => Reopen p s
  end.

(** The transitions, with the reconnect flag. *)
Inductive iso_step : stage * bool → iso_event → stage * bool → Prop :=
  | step_connected d req : iso_step (Connecting, d) (EConnectCb req 0) (Up, d)
  | step_refused st d req s : s ≠ 0 → st = Connecting ∨ st = Flushed → iso_step (st, d) (EConnectCb req s) (Flushed, true)
  | step_read d x s : s ≠ UV_EOF → s ≠ UV_ECONNRESET → iso_step (Up, d) (EReadCb x s) (Up, d)
  | step_eof d x s : s = UV_EOF ∨ s = UV_ECONNRESET → iso_step (Up, d) (EReadCb x s) (Flushed, true)
  | step_written st d req s : iso_step (st, d) (EWriteCb req s) (st, d)
  | step_write_failed st d req s :
      s ≠ 0 → st = Up ∨ st = Connecting ∨ st = Flushed → iso_step (st, d) (EWriteCb req s) (Flushed, true)
  | step_closed st d g x : iso_step (st, d) (ECloseCb g x) (st, d)
  | step_reconnect x : iso_step (Flushed, true) (ETimerCb x) (Connecting, false)
  | step_stranded x : iso_step (Flushed, true) (ETimerCb x) (Stranded, false)
  | step_timer st d x : st ≠ Flushed → gone st = false → iso_step (st, d) (ETimerCb x) (st, false)
  | step_post st d l : iso_step (st, d) (EPost l) (st, d)
  | step_disconnect st d : gone st = false → iso_step (st, d) EDisconnect (Gone (bool_decide (st ≠ Stranded)), d)
  | step_disconnected fl d : iso_step (Gone fl, d) EDisconnect (Gone fl, d)
  | step_reopen st d s : st ≠ Up → gone st = false → iso_step (st, d) (EReopen s) (st, true)
  | step_reopen_up d s : iso_step (Up, d) (EReopen s) (Gone true, d)
  | step_reopen_gone fl d s : iso_step (Gone fl, d) (EReopen s) (Gone fl, d).

(** An event may also be the end of the machine.  A handler runs into undefined behaviour:
    what was under way when the connection was disposed of follows the cleared packet
    pointer; a stream that cannot be decoded throws through libuv; a write that libuv
    refuses disposes of the packet that is posting, and one without a stream goes to a null
    handle.  *)
Inductive iso_fault : stage → iso_event → ub → Prop :=
  | fault_cancelled fl req s : s ≠ 0 → iso_fault (Gone fl) (EConnectCb req s) NullDeref
  | fault_unwritten fl req s : s ≠ 0 → iso_fault (Gone fl) (EWriteCb req s) NullDeref
  | fault_gate_closed fl x : iso_fault (Gone fl) (ECloseCb true x) NullDeref
  | fault_decode x s tr args :
      0 < s → answer tr "IPacket::DecodeStream" args < 0 → iso_fault Up (EReadCb x s) BadArg
  | fault_no_stream pages : pages ≠ [] → iso_fault Stranded (EPost pages) NullDeref
  | fault_refused_write st pages tr args :
      has_stream st = true → pages ≠ [] → answer tr "uv_write" args < 0 → iso_fault st (EPost pages) Dangling.

(** Or the handler frees the client handle of the object, which keeps the pointer: libuv
    refuses an option of a stream that has just connected. *)
Inductive iso_orphan : stage → iso_event → Prop :=
  | orphan_connected req fn tr args :
      fn = "uv_tcp_nodelay" ∨ fn = "uv_read_start" → answer tr fn args ≠ 0 → iso_orphan Connecting (EConnectCb req 0).
Definition orphaned (p : Z) (w : world) : Prop :=
  ∃ c, w_heap w !! p = Some (OConn c) ∧ cn_running c = true ∧ cn_connected c = false ∧
    cn_clnt c ≠ 0 ∧ w_heap w !! cn_clnt c = None.

(** What libuv and the application may do at a stage.  A callback gets live objects of the
    connection.  A connect succeeds only while one is under way, and may fail as long as its
    request is pending, a closed stream's included; bytes come from the open stream; no
    write is pending when a connection is stranded, whose stream was closed before the
    attempt; the stream of a gate's connection calls back before the next one is opened;
    there is no callback of a timer that was closed.  Of the application only that the delay
    in milliseconds fits its [int]. *)
Definition permitted (p : Z) (st : stage) (e : iso_event) (w : world) : Prop :=
  ∀ c k sock, w_heap w !! p = Some (OConn c) → w_heap w !! cn_clnt c = Some (OClient k) →
    clnt_sockimpl k = Some sock →
  match e with
  | EConnectCb req status =>
      (if decide (status = 0) then st = Connecting else st ≠ Up ∧ st ≠ Stranded) ∧
      req ≠ 0 ∧ w_heap w !! req = Some (OUv (UvObject (Some (cn_clnt c)))) ∧
      req ≠ sock ∧ req ≠ cn_timer c ∧ req ≠ cn_base c
  | EReadCb stream nread => st = Up ∧ stream = sock
  | EWriteCb req status =>
      (status ≠ 0 → st ≠ Stranded) ∧ req ≠ 0 ∧
      ∃ tcp base l, w_heap w !! req = Some (OReq (WriteReq (Some tcp) base)) ∧
        base ≠ 0 ∧ w_heap w !! base = Some (OBytes l) ∧
        tcp ≠ 0 ∧ w_heap w !! tcp = Some (OUv (UvObject (Some (cn_clnt c))))
  | ECloseCb gate handle =>
      handle ≠ 0 ∧ handle ≠ sock ∧ handle ≠ cn_timer c ∧ handle ≠ cn_base c ∧
      w_heap w !! handle = Some (OUv (UvObject (Some (cn_clnt c)))) ∧
      (∃ pc, cn_class c = CIsolated gate pc) ∧ (gate = true → has_stream st = false ∧ st ≠ Stranded)
  | ETimerCb timer => gone st = false ∧ timer = cn_timer c
  | EPost _ | EDisconnect => True
  | EReopen s => - 2 ^ 31 ≤ s * 1000 < 2 ^ 31
  end.

Definition iso_post (p : Z) (st : stage) (d : bool) (e : iso_event) : unit → world → Prop :=
  λ _ w, (∃ st' d', iso_step (st, d) e (st', d') ∧ iso_rep p st' d' w) ∨ iso_orphan st e ∧ orphaned p w.
Definition iso_halt (st : stage) (e : iso_event) : halt → Prop := λ x, ∃ f, x = HFault f ∧ iso_fault st e f.
Lemma iso_post_step p st d e st' d' w : iso_step (st, d) e (st', d') → iso_rep p st' d' w → iso_post p st d e tt w.
Proof. intros Hs Hr. left. by exists st', d'. Qed.
Lemma iso_halt_fault st e f : iso_fault st e f → iso_halt st e (HFault f).
Proof. intros Hf. by exists f. Qed.

Lemma iso_conn_at n h m p c k sock em bb f q b :
  iso n h m p c k sock em bb f q b → conn_at h p c.
Proof.
  intros []. split; [done|]. split; [done|]. exists (cn_events c), em. split; [done|]. split; [done|].
  split; [done|]. destruct iso_class0 as (g & pc & ->). done.
Qed.

Lemma iso_clnt_at n h m p c k sock em bb f q b :
  iso n h m p c k sock em bb f q b → clnt_at h (cn_clnt c) k sock.
Proof. intros []. split; [done|]. split; [done|]. split; [done|]. intros. by eexists; apply iso_sock0. Qed.

Lemma iso_packet_at n h m p c k sock em bb f q b :
  iso n h m p c k sock em bb f q b → packet_at h c.
Proof.
  intros []. destruct (decide (cn_packet c = 0)); [by left|right]. split; [done|]. by eexists; apply iso_packet0.
Qed.

Lemma iso_timer_at n h m p c k sock em bb f q b :
  iso n h m p c k sock em bb f q b → timer_at h c.
Proof.
  intros []. destruct (decide (cn_timer c = 0)); [by left|right]. split; [done|]. by eexists; apply iso_timer0.
Qed.

Lemma below_insert n h x o : (∀ x, is_Some (h !! x) → 0 < x < n) → 0 < x < n →
  ∀ y, is_Some (<[x := o]> h !! y) → 0 < y < n.
Proof. intros Hb Hx y. rewrite lookup_insert. case_decide; [by subst|]. apply Hb. Qed.
Lemma below_update n h x o o' : (∀ x, is_Some (h !! x) → 0 < x < n) → h !! x = Some o' →
  ∀ y, is_Some (<[x := o]> h !! y) → 0 < y < n.
Proof. intros Hb Hx. apply below_insert; [done|]. by apply Hb. Qed.
Lemma below_delete n h x : (∀ x, is_Some (h !! x) → 0 < x < n) →
  ∀ y, is_Some (delete x h !! y) → 0 < y < n.
Proof. intros Hb y. rewrite lookup_delete. case_decide; [by intros []|]. apply Hb. Qed.

(** One field of [iso] for an updated heap. *)
Ltac iso_tac :=
  try lazymatch goal with
  | |- ∀ x, is_Some _ → _ =>
      repeat first [assumption | apply below_delete | eapply below_update; [|heap_side]]
  | |- _ → _ =>
      let H := fresh in intros H;
      repeat match goal with H2 : ?a ≠ 0 → _, H : ?a ≠ 0 |- _ => specialize (H2 H) end; heap_side
  | |- _ => heap_side
  end.

(** New fields for the object and the client handle. *)
Lemma iso_put n h m p c k sock em bb f q b c' k' sock' :
  iso n h m p c k sock em bb f q b →
  cn_class c' = cn_class c → cn_events c' = cn_events c → cn_clnt c' = cn_clnt c → cn_base c' = cn_base c →
  (cn_packet c' = cn_packet c ∨ cn_packet c' = 0) → (cn_timer c' = cn_timer c ∨ cn_timer c' = 0) →
  clnt_connimpl k' = clnt_connimpl k → clnt_sin k' = clnt_sin k → clnt_bb k' = clnt_bb k →
  clnt_sockimpl k' = Some sock' → (sock' = sock ∨ sock' = 0) →
  iso n (<[p := OConn c']> (<[cn_clnt c := OClient k']> h)) m p c' k' sock' em bb f q b.
Proof.
  intros [] E1 E2 E3 E4 Hpk Htm E5 E6 E7 E8 Hsk.
  split; rewrite ?E1, ?E2, ?E3, ?E4, ?E5, ?E6, ?E7; try done; iso_tac.
  - destruct Hsk as [->| ->]; [iso_tac|done].
  - destruct Hpk as [->|E]; [iso_tac|by rewrite E].
  - destruct Htm as [->|E]; [iso_tac|by rewrite E].
Qed.

(** The stream of a connection is flushed and its error handled. *)
Lemma wp_isolated_failed n h m tr p c k sock em bb f q b st d (Q : unit → world → Prop) X :
  iso n h m p c k sock em bb f q b → in_stage st d c sock → gone st = false → st ≠ Stranded →
  (∀ tr' c' k', 
     iso n (<[p := OConn c']> (<[cn_clnt c := OClient k']> h)) m p c' k' 0 em bb f q b →
     cn_clnt c' = cn_clnt c → cn_timer c' = cn_timer c → cn_base c' = cn_base c → in_stage Flushed true c' 0 →
     Q tt (World n (<[p := OConn c']> (<[cn_clnt c := OClient k']> h)) m tr')) →
  wp (isolated_failed (cn_clnt c) p) Q X (World n h m tr).
Proof.
  intros Hi Hst Hg Hns HQ. pose proof (iso_conn_at _ _ _ _ _ _ _ _ _ _ _ _ Hi) as Hca.
  pose proof (iso_clnt_at _ _ _ _ _ _ _ _ _ _ _ _ Hi) as Hka.
  pose proof (iso_timer_at _ _ _ _ _ _ _ _ _ _ _ _ Hi) as Hta.
  destruct Hi, Hst. unfold isolated_failed. rewrite (proj2 (Z.eqb_neq p 0)) by done. cbn [negb]. wp_step.
  eapply (wp_FlushStream p c k sock); [done|done|done|]. intros tr1. cbn beta.
  set (c1 := flush_conn sock c). set (k1 := flush_clnt (cn_flushed c) k).
  rewrite Hg in *. cbn [negb] in *. zbool.
  assert (cn_flushed c1 = true ∧ clnt_sockimpl k1 = Some 0) as (Hf1 & Hk1).
  { unfold c1, k1, flush_conn, flush_clnt. cbn. rewrite is_flushed0, is_stream0.
    destruct st; try done; cbn in *; zbool; subst; done. }
  set (c2 := set_delay true (SetConnected false c1)).
  assert (∀ c', c' = c1 ∨ c' = c2 →
    iso n (<[p := OConn c']> (<[cn_clnt c := OClient k1]> h)) m p c' k1 0 em bb f q b) as Hi1.
  { intros c' Hc'. eapply iso_put; [done|..]; try done; try (by right);
      try (by destruct Hc' as [-> | ->]); try (by destruct Hc' as [-> | ->]; left);
      unfold k1, flush_clnt; by destruct (cn_flushed c). }
  specialize (Hi1 c1 (or_introl eq_refl)) as Hi2. specialize (Hi1 c2 (or_intror eq_refl)).
  eapply (wp_OnIsolatedError p c1).
  - by eapply iso_conn_at.
  - done.
  - by eapply iso_packet_at.
  - done.
  - by eapply iso_timer_at.
  - done.
  - done.
  - intros tr'. rewrite insert_insert_eq. apply HQ; try done. split; try done. cbn. by apply Z.eqb_neq.
  by apply Z.eqb_neq.
Qed.

(** A block that is not the connection's may go, and a new one come. *)
Definition foreign h (c : conn) (sock x : Z) : Prop :=
  x ≠ sock ∧ x ≠ cn_timer c ∧ x ≠ cn_base c ∧
  match h !! x with
  | Some (OUv _) | Some (OReq _) | Some (OBytes _) => True
  | _ => False
  end.

Lemma iso_delete n h m p c k sock em bb f q b x :
  iso n h m p c k sock em bb f q b → foreign h c sock x → iso n (delete x h) m p c k sock em bb f q b.
Proof.
  intros [] (H1 & H2 & H3 & Hx).
  assert (∀ y o, h !! y = Some o → y ≠ x → delete x h !! y = Some o) as Hl.
  { intros y o Ho Hy. by rewrite lookup_delete_ne. }
  split; try done; try (by apply below_delete).
  all: try (apply Hl; [done|]; intros <-; by simplify_option_eq).
  all: intros Hy; apply Hl; [by auto|]; intros <-; try done.
  specialize (iso_packet0 Hy). by simplify_option_eq.
Qed.

Lemma iso_extend n h m p c k sock em bb f q b o :
  iso n h m p c k sock em bb f q b → iso (n + 1) (<[n := o]> h) m p c k sock em bb f q b.
Proof.
  intros []. assert (∀ x, is_Some (h !! x) → x ≠ n) as Hn by (intros x Hx%iso_below0; lia).
  assert (∀ x y, h !! x = Some y → <[n := o]> h !! x = Some y) as Hl.
  { intros x o' Ho. rewrite lookup_insert_ne; [done|]. apply not_eq_sym, Hn. by eexists. }
  split; try done; try (by apply Hl); try (intros ?; apply Hl; auto).
  intros x. rewrite lookup_insert. case_decide; [subst; intros _|intros Hx%iso_below0; lia].
  specialize (iso_below0 p). rewrite iso_conn0 in iso_below0. specialize (iso_below0 ltac:(by eexists)). lia.
Qed.

Lemma wp_no_fault {A} (t : prog A) (Q : A → world → Prop) X w : wp t Q (λ _, False) w → wp t Q X w.
Proof. unfold wp. by destruct (t w). Qed.

Lemma permitted_intro p st e n h m tr c k sock em bb f q b :
  iso n h m p c k sock em bb f q b → permitted p st e (World n h m tr) →
  permitted p st e (World n h m tr) ∧ h !! p = Some (OConn c) ∧ h !! cn_clnt c = Some (OClient k) ∧
  clnt_sockimpl k = Some sock.
Proof. by intros []. Qed.

(** *** After the connection is disposed of *)

Lemma wp_get_null {A} `{Kind A} (Q : A → world → Prop) (X : halt → Prop) w :
  X (HFault NullDeref) → wp (get 0) Q X w.
Proof. intros HX. by apply wp_bind, wp_read_null. Qed.

(** [_packet->Clear ()] without a packet. *)
Lemma wp_error_disposed n h m tr p c k sock em bb f q b d fl (Q : unit → world → Prop) (X : halt → Prop) :
  iso n h m p c k sock em bb f q b → in_stage (Gone fl) d c 0 → X (HFault NullDeref) →
  wp (OnIsolatedError p) Q X (World n h m tr).
Proof.
  intros [] [] HX. cbn in is_packet0. zbool. unfold OnIsolatedError. do 2 wp_step. cbn beta. wp_step.
  rewrite is_packet0. by apply wp_get_null.
Qed.

Lemma flush_conn_0 c : flush_conn 0 c = c.
Proof. destruct c. unfold flush_conn, SetFlushed. cbn. by rewrite orb_false_r. Qed.

(** New fields for the object only. *)
Lemma iso_put_conn n h m p c k sock em bb f q b c' :
  iso n h m p c k sock em bb f q b →
  cn_class c' = cn_class c → cn_events c' = cn_events c → cn_clnt c' = cn_clnt c → cn_base c' = cn_base c →
  cn_packet c' = cn_packet c → cn_timer c' = cn_timer c →
  iso n (<[p := OConn c']> h) m p c' k sock em bb f q b.
Proof.
  intros Hi E1 E2 E3 E4 E5 E6. pose proof Hi as [].
  rewrite <- (insert_id h (cn_clnt c) (OClient k)) by done. eapply iso_put; [done|..]; try done; by left.
Qed.

(** New fields for the client handle only. *)
Lemma iso_put_clnt n h m p c k sock em bb f q b k' :
  iso n h m p c k sock em bb f q b →
  clnt_connimpl k' = clnt_connimpl k → clnt_sin k' = clnt_sin k → clnt_bb k' = clnt_bb k → clnt_sockimpl k' = clnt_sockimpl k →
  iso n (<[cn_clnt c := OClient k']> h) m p c k' sock em bb f q b.
Proof.
  intros Hi E1 E2 E3 E4. pose proof Hi as [].
  rewrite <- (insert_id (<[cn_clnt c := OClient k']> h) p (OConn c)) by heap_side.
  eapply iso_put; [done|..]; try done; try (by left). congruence.
Qed.

(** The error handler finds no packet. *)
Lemma wp_failed_gone n h m tr p c k em bb f q b fl d (Q : unit → world → Prop) (X : halt → Prop) :
  iso n h m p c k 0 em bb f q b → in_stage (Gone fl) d c 0 → X (HFault NullDeref) →
  wp (isolated_failed (cn_clnt c) p) Q X (World n h m tr).
Proof.
  intros Hi Hst HX. pose proof Hi as []. unfold isolated_failed. rewrite (proj2 (Z.eqb_neq p 0)) by done. cbn [negb]. wp_step.
  eapply (wp_FlushStream p c k 0); [done|done|by eapply iso_clnt_at|]. intros tr2. cbn beta. rewrite flush_conn_0.
  eapply wp_error_disposed; [eapply iso_put; [exact Hi|..]; try done; try (by left)|exact Hst|done];
    by unfold flush_clnt; destruct (cn_flushed c).
Qed.
Lemma gone_stream fl d c sock : in_stage (Gone fl) d c sock → sock = 0.
Proof. intros []. cbn in *. by zbool. Qed.

(** *** The connect callback *)

(** A client handle is dropped while the object points to it. *)
Lemma wp_drop_client n h m tr p c k sock em bb f q b (Q : unit → world → Prop) X :
  iso n h m p c k sock em bb f q b → sock ≠ 0 →
  (∀ m' tr', Q tt (World n (delete (cn_clnt c) (delete bb h)) m' tr')) → wp (drop_client (cn_clnt c)) Q X (World n h m tr).
Proof.
  intros [] Hs HQ. specialize (iso_sock0 Hs). unfold drop_client. do 5 wp_step. cbn beta.
  eapply wp_uv_close; [by intros _|]. intros tr'. cbn beta. do 5 wp_step. apply HQ.
Qed.
Lemma orphaned_intro n h m m' tr p c k sock em bb f q b :
  iso n h m p c k sock em bb f q b → cn_running c = true → cn_connected c = false →
  orphaned p (World n (delete (cn_clnt c) (delete bb h)) m' tr).
Proof.
  intros [] Hr Hc. exists c. cbn [w_heap]. split; [heap_side|]. do 3 (split; [done|]). by rewrite lookup_delete_eq.
Qed.

(** The stream opens. *)
Lemma run_connected p d req w (Hrep : iso_rep p Connecting d w) (Hperm : permitted p Connecting (EConnectCb req 0) w) :
  wp (on_isolated_connect_error req 0) (iso_post p Connecting d (EConnectCb req 0)) (iso_halt Connecting (EConnectCb req 0)) w.
Proof.
  destruct Hrep as (c & k & sock & em & bb & f & q & b & Hi & Hst), w as [n h m tr]. cbn [w_next w_heap w_mem] in *.
  pose proof Hi as []. destruct (Hperm c k sock) as (_ & Hreq0 & Hreq & Hr1 & Hr2 & Hr3); [done..|].
  clear Hperm. cbn [w_heap] in *. pose proof Hst as []. cbn in is_stream0. zbool. specialize (iso_sock0 is_stream0).
  unfold on_isolated_connect_error. do 2 wp_step. cbn beta. cbn [uv_data]. do 8 wp_step. cbn beta.
  do 5 wp_step. set (k1 := set_fd r k).
  assert (iso n (<[cn_clnt c := OClient k1]> h) m p c k1 sock em bb f q b) as Hi0 by (by eapply iso_put_clnt).
  assert (∀ fn tr2 args tr' m', fn = "uv_tcp_nodelay" ∨ fn = "uv_read_start" → answer tr2 fn args ≠ 0 →
    iso_post p Connecting d (EConnectCb req 0) tt (World n (delete (cn_clnt c) (delete bb (<[cn_clnt c := OClient k1]> h))) m' tr')) as Horph.
  { intros fn tr2 args tr' m' Hfn Hans. right. split; [by econstructor|]. eapply orphaned_intro; [exact Hi0|exact is_running0|exact is_connected0]. }
  do 2 wp_step. cbn beta. destruct (Z.eqb_spec r0 0) as [Hr0|Hr0]; cbn [negb]; subst r0.
  2: { eapply wp_drop_client; [exact Hi0|done|]. intros m' tr'. by eapply Horph; [left|]. }
  do 2 wp_step. cbn beta. destruct (Z.eqb_spec r0 0) as [Hr4|Hr4]; cbn [negb]; subst r0.
  2: { eapply wp_drop_client; [exact Hi0|done|]. intros m' tr'. by eapply Horph; [right|]. }
  wp_step. set (c1 := SetConnected true c).
  eapply (wp_OnConnect p c); [by eapply iso_conn_at|].
  intros tr'. rewrite is_running0. cbn [negb gone]. cbn beta. wp_step.
  eapply (iso_post_step _ _ _ _ Up d); [constructor|]. exists c1, k1, sock, em, bb, f, q, b. split; [|by destruct Hst; split].
  cbn [w_heap w_next w_mem]. apply iso_delete; [by eapply iso_put_conn|].
  unfold foreign. cbn [c1 cn_timer cn_base SetConnected].
  do 3 (split; [done|]). rewrite !lookup_insert_ne by congruence. by rewrite Hreq.
Qed.

(** It does not, or its request is cancelled. *)
Lemma run_connect_cb p st d req status w (Hrep : iso_rep p st d w)
    (Hperm : permitted p st (EConnectCb req status) w) :
  wp (on_isolated_connect_error req status) (iso_post p st d (EConnectCb req status)) (iso_halt st (EConnectCb req status)) w.
Proof.
  destruct (decide (status = 0)) as [->|Hs].
  { assert (st = Connecting) as ->; [|by apply run_connected].
    destruct Hrep as (c & k & sock & em & bb & f & q & b & [] & _). by destruct (Hperm c k sock). }
  destruct Hrep as (c & k & sock & em & bb & f & q & b & Hi & Hst), w as [n h m tr]. cbn [w_next w_heap w_mem] in *.
  pose proof Hi as []. destruct (Hperm c k sock) as (Hst' & Hreq0 & Hreq & Hr1 & Hr2 & Hr3); [done..|].
  clear Hperm. rewrite decide_False in Hst' by done. destruct Hst' as [Hnu Hns]. cbn [w_heap] in *.
  unfold on_isolated_connect_error. do 2 wp_step. cbn beta. cbn [uv_data]. do 8 wp_step. cbn beta.
  rewrite (proj2 (Z.eqb_neq 0 status)) by done. wp_step. destruct (gone st) eqn:Hg.
  { destruct st as [| | | |fl]; try done. pose proof (gone_stream _ _ _ _ Hst) as ->.
    eapply wp_failed_gone; [done|done|]. by apply iso_halt_fault; constructor. }
  eapply wp_isolated_failed; [done..|]. intros tr' c' k' Hi' E1 E2 E3 Hst'. cbn beta. wp_step.
  eapply (iso_post_step _ _ _ _ Flushed true); [constructor; [done|]; destruct st; try done; auto|].
  exists c', k', 0, em, bb, f, q, b. split; [|done].
  apply iso_delete; [exact Hi'|]. unfold foreign. rewrite E2, E3. repeat (split; [done||congruence|]).
  rewrite !lookup_insert_ne by congruence. by rewrite Hreq.
Qed.

(** *** The read callback *)

Lemma iso_fifo_put n h m p c k sock em bb f q b f' q' :
  iso n h m p c k sock em bb f q b → frep m f' q' →
  iso n (<[bb := OFifo f']> h) m p c k sock em bb f' q' b.
Proof. intros [] Hf. split; try done; iso_tac. Qed.

Lemma wp_commit_client n h m tr p c k sock em bb f q b x (Q : unit → world → Prop) X :
  iso n h m p c k sock em bb f q b → 0 ≤ x →
  (∀ f' q', iso n (<[bb := OFifo f']> h) m p c k sock em bb f' q' b →
     Q tt (World n (<[bb := OFifo f']> h) m tr)) →
  wp (commit_client (cn_clnt c) x) Q X (World n h m tr).
Proof.
  intros Hi Hx HQ. pose proof Hi as []. destruct q as [cap dat r]. unfold commit_client.
  do 4 wp_step. wp_step. eapply HQ. by eapply iso_fifo_put.
Qed.

Lemma wp_OnRawData n h m tr p c k sock em bb f q b (Q : unit → world → Prop) X :
  iso n h m p c k sock em bb f q b → cn_packet c ≠ 0 →
  (∀ tr args, answer tr "IPacket::DecodeStream" args < 0 → X (HFault BadArg)) →
  (∀ tr' f' q', iso n (<[bb := OFifo f']> h) m p c k sock em bb f' q' b →
     Q tt (World n (<[bb := OFifo f']> h) m tr')) →
  wp (OnRawData p bb) Q X (World n h m tr).
Proof.
  intros Hi Hp Hans HQ. pose proof Hi as []. specialize (iso_packet0 Hp). destruct q as [cap dat r].
  unfold OnRawData. do 6 wp_step. cbn beta. destruct (Z.ltb_spec r0 0); [subst r0; by eapply Hans|]. do 2 wp_step. cbn beta.
  unfold count_bytes, wp. eapply HQ. by eapply iso_fifo_put.
Qed.

Lemma run_read_cb p st d stream nread w (Hrep : iso_rep p st d w)
    (Hperm : permitted p st (EReadCb stream nread) w) :
  wp (on_isolated_recv stream nread) (iso_post p st d (EReadCb stream nread)) (iso_halt st (EReadCb stream nread)) w.
Proof.
  destruct Hrep as (c & k & sock & em & bb & f & q & b & Hi & Hst), w as [n h m tr]. cbn [w_next w_heap w_mem] in *.
  pose proof Hi as []. destruct (Hperm c k sock) as (-> & ->); [done..|]. clear Hperm.
  pose proof Hst as []. cbn in is_stream0, is_packet0. zbool. specialize (iso_sock0 is_stream0).
  unfold on_isolated_recv. do 2 wp_step. cbn beta. cbn [uv_data]. do 6 wp_step. cbn beta.
  assert (∀ n' h' m' f' q' tr', iso n' h' m' p c k sock em bb f' q' b →
    nread ≠ UV_EOF → nread ≠ UV_ECONNRESET →
    iso_post p Up d (EReadCb sock nread) tt (World n' h' m' tr')) as Hup.
  { intros n' h' m' f' q' tr' Hi' H1 H2. eapply iso_post_step; [by constructor|]. by exists c, k, sock, em, bb, f', q', b. }
  destruct (Z.ltb_spec nread 0) as [Hn|Hn].
  - destruct ((nread =? UV_EOF) || (nread =? UV_ECONNRESET)) eqn:He; zbool.
    + wp_step. eapply wp_commit_client; [done|lia|]. intros f' q' Hi'. cbn beta.
      eapply wp_isolated_failed; [exact Hi'|exact Hst|done|done|]. intros tr' c' k' Hi2 _ _ _ Hst'.
      eapply (iso_post_step _ _ _ _ Flushed true); [by constructor; destruct He; zbool; auto|].
      by exists c', k', 0, em, bb, f', q', b.
    + wp_step. eapply Hup; [exact Hi|done..].
  - destruct (Z.eqb_spec nread 0) as [->|Hne].
    + eapply wp_commit_client; [done|lia|]. intros f' q' Hi'. by eapply Hup.
    + wp_step. eapply wp_commit_client; [done|lia|]. intros f' q' Hi'. cbn beta.
      rewrite (proj2 (Z.eqb_neq p 0)) by done. cbn [negb]. pose proof Hi' as [].
      do 4 wp_step. eapply wp_OnRawData; [exact Hi'|done|intros; apply iso_halt_fault; econstructor; [lia|eassumption]|]. intros tr' f2 q2 Hi2.
      eapply Hup; [exact Hi2|unfold UV_EOF; lia|unfold UV_ECONNRESET; lia].
Qed.

(** *** The write and close callbacks *)

Lemma foreign_write n h m p c k sock em bb f q b x :
  iso n h m p c k sock em bb f q b → x ≠ 0 →
  (∃ r, h !! x = Some (OReq r)) ∨ (∃ l, h !! x = Some (OBytes l)) → foreign h c sock x.
Proof.
  intros [] Hx Ho.
  assert (∀ y, (y ≠ 0 → ∃ u, h !! y = Some (OUv u)) → x ≠ y) as Hne.
  { intros y Hy <-. destruct (Hy Hx) as [u Hu]. rewrite Hu in Ho. by destruct Ho as [[? ?]|[? ?]]. }
  split; [|split; [|split]].
  - apply Hne. intros H. by eexists; apply iso_sock0.
  - apply Hne. intros H. by eexists; apply iso_timer0.
  - apply Hne. intros _. by eexists.
  - by destruct Ho as [[? ->]|[? ->]].
Qed.

(** Both blocks of a write are freed. *)
Lemma wp_free_write n h m tr p c k sock em bb f q b req t base l (Q : unit → world → Prop) X :
  iso n h m p c k sock em bb f q b → req ≠ 0 → base ≠ 0 →
  h !! req = Some (OReq (WriteReq t base)) → h !! base = Some (OBytes l) →
  (∀ h', iso n h' m p c k sock em bb f q b → Q tt (World n h' m tr)) →
  wp (free_write req (WriteReq t base)) Q X (World n h m tr).
Proof.
  intros Hi Hr Hb Hreq Hbase HQ. unfold free_write. cbn [rq_base]. do 3 wp_step. apply HQ.
  assert (iso n (delete base h) m p c k sock em bb f q b) as Hi1.
  { eapply iso_delete; [done|]. eapply foreign_write; [done|done|]. right. by eexists. }
  eapply iso_delete; [exact Hi1|]. eapply foreign_write; [exact Hi1|done|]. left. eexists. heap_side.
Qed.

Lemma run_write_cb p st d req status w (Hrep : iso_rep p st d w)
    (Hperm : permitted p st (EWriteCb req status) w) :
  wp (on_isolated_send req status) (iso_post p st d (EWriteCb req status)) (iso_halt st (EWriteCb req status)) w.
Proof.
  destruct Hrep as (c & k & sock & em & bb & f & q & b & Hi & Hst), w as [n h m tr]. cbn [w_next w_heap w_mem] in *.
  pose proof Hi as []. destruct (Hperm c k sock) as (Hns & Hr0 & tcp & base & l & Hreq & Hb0 & Hbase & Ht0 & Htcp);
    [done..|]. clear Hperm. cbn [w_heap] in *.
  assert (∀ h' tr', iso n h' m p c k sock em bb f q b → iso_post p st d (EWriteCb req status) tt (World n h' m tr')) as Hsame.
  { intros h' tr' Hi'. eapply iso_post_step; [constructor|]. by exists c, k, sock, em, bb, f, q, b. }
  unfold on_isolated_send. do 2 wp_step. cbn beta. destruct (Z.eqb_spec status 0) as [->|Hs]; cbn [negb].
  - eapply wp_free_write; [done..|]. intros h' Hi'. by apply Hsame.
  - specialize (Hns Hs). do 2 wp_step. cbn beta.
    destruct (negb (r =? ERROR_IO_PENDING)); [|wp_step; by apply Hsame].
    cbn [rq_handle]. do 4 wp_step. cbn beta. cbn [uv_data]. do 6 wp_step. cbn beta.
    wp_step. destruct (gone st) eqn:Hg.
    { destruct st as [| | | |fl]; try done. pose proof (gone_stream _ _ _ _ Hst) as ->.
      eapply wp_failed_gone; [done|done|]. by apply iso_halt_fault; constructor. }
    eapply wp_isolated_failed; [exact Hi|exact Hst|done|done|].
    intros tr' c' k' Hi' E1 E2 E3 Hst'. do 2 wp_step. cbn beta.
    eapply (wp_free_write n _ m tr' p c'); [exact Hi'|done|done|heap_side|heap_side|].
    intros h' Hi2. eapply (iso_post_step _ _ _ _ Flushed true); [|by exists c', k', 0, em, bb, f, q, b].
    constructor; [done|]. destruct st; try done; auto.
Qed.

(** The gate treats the close of its stream as one more error. *)
Lemma run_gate_close p st d handle w (Hrep : iso_rep p st d w) (Hperm : permitted p st (ECloseCb true handle) w) :
  wp (on_gate_stream_close handle) (iso_post p st d (ECloseCb true handle)) (iso_halt st (ECloseCb true handle)) w.
Proof.
  destruct Hrep as (c & k & sock & em & bb & f & q & b & Hi & Hst), w as [n h m tr]. cbn [w_next w_heap w_mem] in *.
  pose proof Hi as []. destruct (Hperm c k sock) as (H0 & H1 & H2 & H3 & Hu & _ & Hs); [done..|]. destruct (Hs eq_refl) as [Hs1 Hs2].
  clear Hperm Hs. cbn [w_heap] in *. unfold on_gate_stream_close. do 2 wp_step. cbn beta. cbn [uv_data]. do 7 wp_step. cbn beta.
  rewrite (proj2 (Z.eqb_neq p 0)) by done. cbn [negb]. do 2 wp_step. cbn beta. set (c1 := SetFlushed true c).
  assert (iso n (<[p := OConn c1]> h) m p c1 k sock em bb f q b) as Hi1 by (by eapply iso_put_conn).
  destruct st as [| | | |fl]; try done.
  - pose proof Hst as []. cbn in is_stream0, is_packet0, is_timer0. zbool. subst sock.
    eapply (wp_OnIsolatedError p c1); [by eapply iso_conn_at|done|by eapply iso_packet_at|done|by eapply iso_timer_at|done|done|].
    intros tr'. rewrite insert_insert_eq. cbn beta. wp_step. set (c2 := set_delay true (SetConnected false c1)).
    eapply iso_post_step; [constructor|]. exists c2, k, 0, em, bb, f, q, b. cbn [w_heap w_next w_mem]. split.
    + apply iso_delete; [by eapply iso_put_conn|]. unfold foreign. repeat (split; [done|]). rewrite lookup_insert_ne by congruence.
      by rewrite Hu.
    + specialize (is_wait0 eq_refl). subst d. split; try done; cbn; by apply Z.eqb_neq.
  - pose proof (gone_stream _ _ _ _ Hst) as ->.
    eapply (wp_error_disposed _ _ _ _ _ _ _ _ _ _ _ _ _ d true); [exact Hi1|by destruct Hst; split|].
    by apply iso_halt_fault; constructor.
Qed.

Lemma run_close_cb p st d gate handle w (Hrep : iso_rep p st d w) (Hperm : permitted p st (ECloseCb gate handle) w) :
  wp (if gate then on_gate_stream_close handle else on_isolated_stream_close handle)
    (iso_post p st d (ECloseCb gate handle)) (iso_halt st (ECloseCb gate handle)) w.
Proof.
  destruct gate; [by apply run_gate_close|].
  destruct Hrep as (c & k & sock & em & bb & f & q & b & Hi & Hst), w as [n h m tr]. cbn [w_next w_heap w_mem] in *.
  pose proof Hi as []. destruct (Hperm c k sock) as (H0 & H1 & H2 & H3 & Hu & _); [done..|]. cbn [w_heap] in *.
  unfold on_isolated_stream_close. wp_step. eapply iso_post_step; [constructor|].
  exists c, k, sock, em, bb, f, q, b. split; [|done]. apply iso_delete; [done|]. unfold foreign. by rewrite Hu.
Qed.

(** *** The timer *)

Lemma iso_below_S n n' h m p c k sock em bb f q b :
  iso n h m p c k sock em bb f q b → n ≤ n' → iso n' h m p c k sock em bb f q b.
Proof. intros [] Hn. split; try done. intros x Hx%iso_below0. lia. Qed.

Lemma iso_set_sock n h m p c k sock em bb f q b x :
  iso n h m p c k sock em bb f q b → h !! x = Some (OUv (UvObject (Some (cn_clnt c)))) →
  x ≠ cn_base c → cn_timer c ≠ x →
  iso n (<[cn_clnt c := OClient (set_sockimpl x k)]> h) m p c (set_sockimpl x k) x em bb f q b.
Proof. intros [] Hx Hb Ht. split; try done; iso_tac. Qed.

(** libuv refuses a stream. *)
Definition refused : Prop :=
  ∃ tr args, answer tr "uv_tcp_init" args ≠ 0 ∨ answer tr "uv_tcp_connect" args ≠ 0.

(** A new stream for the client handle, or none and the memory as before. *)
Lemma wp_reconnect n h m tr p c k em bb f q b cb (Q : Z → world → Prop) X :
  iso n h m p c k 0 em bb f q b →
  (∀ n' tr' r, n ≤ n' → refused → r ≠ 0 → Q r (World n' h m tr')) →
  (∀ n' h' tr', iso n' h' m p c (set_sockimpl n k) n em bb f q b → n ≠ 0 → Q 0 (World n' h' m tr')) →
  wp (uv_real_connect_ (cn_clnt c) (cn_base c) cb) Q X (World n h m tr).
Proof.
  intros Hi Q1 Q0. pose proof Hi as []. destruct iso_sin0 as [sin Hsin].
  assert (0 < n) as Hn by (specialize (iso_below0 p); rewrite iso_conn0 in iso_below0; specialize (iso_below0 ltac:(by eexists)); lia).
  assert (h !! n = None) as Hfr by (apply eq_None_not_Some; intros Hx%iso_below0; lia).
  assert (h !! (n + 1) = None) as Hfr1 by (apply eq_None_not_Some; intros Hx%iso_below0; lia).
  assert (∀ x, is_Some (h !! x) → x ≠ n ∧ x ≠ n + 1) as Hne by (intros x Hx%iso_below0; lia).
  unfold uv_real_connect_. do 2 wp_step. cbn beta.
  destruct (Hne (cn_base c)) as [Hb1 Hb2]; [by eexists|].
  destruct (Hne (cn_clnt c)) as [Hc1 Hc2]; [by eexists|].
  do 2 wp_step. cbn beta. destruct (Z.eqb_spec r 0).
  - do 10 wp_step. cbn beta. destruct (Z.eqb_spec r0 0).
    + do 5 wp_step.
      set (u := OUv (UvObject (Some (cn_clnt c)))).
      assert (iso (n + 1 + 1) (<[n + 1 := u]> (<[n := u]> h)) m p c k 0 em bb f q b) as Hi2
        by (by do 2 apply iso_extend).
      eapply Q0; [|lia].
      replace (<[n := _]> (<[n + 1 := _]> (<[n := _]> h))) with (<[n + 1 := u]> (<[n := u]> h)) by heap_eq.
      eapply iso_set_sock; [exact Hi2|heap_side|done|]. intros Ht. destruct (decide (cn_timer c = 0)); [lia|].
      destruct (Hne (cn_timer c)); [|done]. by eexists; apply iso_timer0.
    + do 5 wp_step. match goal with |- Q _ (World _ ?h' _ _) => replace h' with h by heap_eq end.
      apply Q1; [lia| |done].
      eexists _, _. right. by subst r0.
  - do 3 wp_step. match goal with |- Q _ (World _ ?h' _ _) => replace h' with h by heap_eq end.
    apply Q1; [lia| |done].
    eexists _, _. left. by subst r.
Qed.

(** [Reconnect] on a live connection: a flushed one gets a stream, or is stranded. *)
Lemma wp_Reconnect p st d w (Hrep : iso_rep p st d w) (Hg : gone st = false) :
  wp (Reconnect p) (λ _ w', ∃ st', iso_rep p st' false w' ∧
    (st ≠ Flushed ∧ st' = st ∨ st = Flushed ∧ d = true ∧ (st' = Connecting ∨ st' = Stranded ∧ refused)))
    (λ _, False) w.
Proof.
  destruct Hrep as (c & k & sock & em & bb & f & q & b & Hi & Hst), w as [n h m tr]. cbn [w_next w_heap w_mem] in *.
  pose proof Hi as []. pose proof Hst as []. rewrite Hg in *. cbn [negb] in *. zbool.
  unfold Reconnect. do 2 wp_step. cbn beta. set (c1 := set_delay false c).
  assert (∀ Q : unit → world → Prop, Q tt (World n (<[p := OConn c1]> h) m tr) →
    wp (if cn_delay c then upd p (set_delay false) else mret tt) Q (λ _, False) (World n h m tr)) as Hdel.
  { intros Q HQ. destruct (cn_delay c) eqn:E; [by wp_step|]. wp_step. rewrite insert_id in HQ; [done|].
    rewrite iso_conn0. unfold c1. destruct c; cbn in *; by subst. }
  wp_step. apply Hdel. cbn beta. wp_step. rewrite is_running0. cbn [negb]. wp_step. cbn beta. rewrite is_flushed0.
  assert (iso n (<[p := OConn c1]> h) m p c1 k sock em bb f q b) as Hi1 by (by eapply iso_put_conn).
  destruct (decide (st = Flushed)) as [->|Hnf].
  - specialize (is_wait0 eq_refl). subst d. cbn in is_stream0. zbool. subst sock. cbn [marked]. do 3 wp_step.
    set (c2 := SetFlushed false c1).
    assert (iso n (<[p := OConn c2]> h) m p c2 k 0 em bb f q b) as Hi2 by (by eapply iso_put_conn).
    eapply (wp_reconnect n _ m tr p c2); [exact Hi2| |].
    + intros n' tr' r Hn Hr _. wp_step. exists Stranded. split; [|by auto 7].
      exists c2, k, 0, em, bb, f, q, b. split; [by eapply iso_below_S|]. split; try done; by apply Z.eqb_neq.
    + intros n' h' tr' Hi' Hn0. wp_step. exists Connecting. split; [|by auto 7].
      eexists c2, _, n, em, bb, f, q, b. split; [exact Hi'|]. split; try done; by apply Z.eqb_neq.
  - destruct (marked st) eqn:Hm; [by destruct st|]. wp_step. exists st. split; [|by left].
    exists c1, k, sock, em, bb, f, q, b. split; [exact Hi1|].
    split; try done; cbn; rewrite ?Hg; first [done | by apply Z.eqb_neq | congruence].
Qed.

Lemma wp_timer_cb p st d c w (Hrep : iso_rep p st d w) (Hg : gone st = false) (Hc : w_heap w !! p = Some (OConn c)) :
  wp (client_reconnect_timer_cb (cn_timer c)) (λ _ w', ∃ st', iso_rep p st' false w' ∧
    (st ≠ Flushed ∧ st' = st ∨ st = Flushed ∧ d = true ∧ (st' = Connecting ∨ st' = Stranded ∧ refused)))
    (λ _, False) w.
Proof.
  pose proof (wp_Reconnect p st d w Hrep Hg) as Hok. destruct Hrep as (c0 & k & sock & em & bb & f & q & b & Hi & Hst).
  pose proof Hi as []. assert (c0 = c) as -> by congruence. destruct w as [n h m tr]. cbn [w_next w_heap w_mem] in *.
  destruct Hst. rewrite Hg in *. zbool. specialize (iso_timer0 is_timer0).
  unfold client_reconnect_timer_cb. do 2 wp_step. cbn beta. cbn [uv_data]. do 2 wp_step. cbn beta.
  rewrite (proj2 (Z.eqb_neq p 0)) by done. cbn [negb]. exact Hok.
Qed.

Lemma run_timer_cb p st d timer w (Hrep : iso_rep p st d w) (Hperm : permitted p st (ETimerCb timer) w) :
  wp (client_reconnect_timer_cb timer) (iso_post p st d (ETimerCb timer)) (iso_halt st (ETimerCb timer)) w.
Proof.
  pose proof Hrep as (c & k & sock & em & bb & f & q & b & Hi & _).
  destruct (Hperm c k sock) as (Hg & ->); [by destruct Hi..|].
  eapply wp_no_fault, wp_mono; [eapply wp_timer_cb; [exact Hrep|done|by destruct Hi]|].
  intros [] w' (st' & Hrep' & [[Hns ->]|(-> & -> & [->|[-> _]])]); by eapply iso_post_step; [constructor|].
Qed.

(** *** The application's calls *)

(** The handlers of the event manager, and a block of another kind, may change. *)
Lemma iso_put_events n h m p c k sock em bb f q b em' :
  iso n h m p c k sock em bb f q b → length (em_handlers em') = TCP_EVENT_ID_MAX →
  iso n (<[cn_events c := OEvents em']> h) m p c k sock em' bb f q b.
Proof. intros [] Hl. split; try done; iso_tac. Qed.

Lemma iso_put_factory n h m p c k sock em bb f q b x fa fa' :
  iso n h m p c k sock em bb f q b → h !! x = Some (OFactory fa) →
  iso n (<[x := OFactory fa']> h) m p c k sock em bb f q b.
Proof. intros [] Hx. split; try done; iso_tac. Qed.


(** Disconnecting a live connection: the packet goes, the stream and the timer are closed. *)
Lemma wp_disconnect n h m tr p c k sock em bb f q b st d (Q : unit → world → Prop) X :
  iso n h m p c k sock em bb f q b → in_stage st d c sock → gone st = false →
  (∀ tr' c' k' h', h' = <[p := OConn c']> (<[cn_clnt c := OClient k']> (delete (cn_packet c) h)) →
     iso n h' m p c' k' 0 em bb f q b → cn_clnt c' = cn_clnt c →
     in_stage (Gone (bool_decide (st ≠ Stranded))) d c' 0 → Q tt (World n h' m tr')) →
  wp (Disconnect_isolated p) Q X (World n h m tr).
Proof.
  intros Hi Hst Hg HQ. pose proof Hi as []. pose proof Hst as []. unfold Disconnect_isolated. do 2 wp_step. cbn beta.
  rewrite is_disposed0, is_running0, Hg. rewrite Hg in *. cbn [negb andb] in *.
  zbool. do 3 wp_step. set (c1 := set_running false c).
  assert (iso n (<[p := OConn c1]> h) m p c1 k sock em bb f q b) as Hi1 by (by eapply iso_put_conn).
  eapply (wp_OnDisconnect p c1); [by eapply iso_conn_at|]. intros tr1. cbn beta. rewrite insert_insert_eq.
  set (c2 := SetConnected false c1).
  assert (iso n (<[p := OConn c2]> h) m p c2 k sock em bb f q b) as Hi2 by (by eapply iso_put_conn).
  eapply (wp_DisposeConnection p c2 k sock);
    [done|heap_side| |by eapply iso_clnt_at|by eapply iso_packet_at|by eapply iso_timer_at|done|].
  { apply eq_None_not_Some. intros Hx%(iso_below _ _ _ _ _ _ _ _ _ _ _ _ Hi2). lia. }
  intros tr2. destruct iso_class0 as (g & pc & Hcl). unfold end_timer. cbn [c2 c1 cn_class dispose_conn flush_conn
    SetFlushed set_packet SetDisposed SetConnected set_running]. rewrite Hcl.
  cbn [cn_clnt cn_flushed cn_packet c2 c1 SetConnected set_running].
  set (c3 := set_timer 0 _). set (k1 := flush_clnt (cn_flushed c) k). clear Hi1 Hi2.
  specialize (iso_packet0 is_packet0). specialize (iso_timer0 is_timer0).
  assert (clnt_sockimpl k1 = Some 0) as Hk1.
  { unfold k1, flush_clnt. rewrite is_flushed0. destruct st; try done; cbn in *; zbool; congruence. }
  eapply (HQ tr2 c3 k1); [heap_eq| |done|].
  - split; cbn [c3 c2 c1 set_timer cn_class cn_events cn_clnt cn_base cn_packet cn_timer dispose_conn flush_conn SetFlushed
      set_packet SetDisposed SetConnected set_running]; try done; iso_tac;
      try (by unfold k1, flush_clnt; destruct (cn_flushed c)).
    by exists g, pc.
  - split; cbn; try done.
    rewrite is_flushed0. destruct st; try done; cbn in is_stream0; by rewrite is_stream0.
Qed.

Lemma run_disconnect_ok p st d w (Hrep : iso_rep p st d w) :
  wp (Disconnect_isolated p)
    (λ _ w', iso_rep p (if gone st then st else Gone (bool_decide (st ≠ Stranded))) d w') (λ _, False) w.
Proof.
  destruct Hrep as (c & k & sock & em & bb & f & q & b & Hi & Hst), w as [n h m tr]. cbn [w_next w_heap w_mem] in *.
  destruct (gone st) eqn:Hg.
  - pose proof Hi as []. pose proof Hst as []. unfold Disconnect_isolated. do 2 wp_step. cbn beta.
    rewrite is_disposed0, Hg. wp_step. by exists c, k, sock, em, bb, f, q, b.
  - eapply wp_disconnect; [done..|]. intros tr' c' k' h' _ Hi' _ Hst'. by exists c', k', 0, em, bb, f, q, b.
Qed.

Lemma run_disconnect p st d w (Hrep : iso_rep p st d w) :
  wp (Disconnect_isolated p) (iso_post p st d EDisconnect) (iso_halt st EDisconnect) w.
Proof.
  eapply wp_no_fault, wp_mono; [by apply run_disconnect_ok|]. intros [] w' Hw. destruct (gone st) eqn:Hg.
  - destruct st; try done. by eapply iso_post_step; [constructor|].
  - by eapply iso_post_step; [by constructor|].
Qed.

Lemma wp_delay p st d s w (Hrep : iso_rep p st d w) (Hs : - 2 ^ 31 ≤ s * 1000 < 2 ^ 31) :
  wp (DelayReconnect p s) (λ _ w', iso_rep p st (if gone st then d else true) w') (λ _, False) w.
Proof.
  destruct Hrep as (c & k & sock & em & bb & f & q & b & Hi & Hst), w as [n h m tr]. cbn [w_next w_heap w_mem] in *.
  pose proof Hi as []. pose proof Hst as []. destruct (gone st) eqn:Hg; cbn [negb] in *; zbool.
  - unfold DelayReconnect. do 2 wp_step. cbn beta. rewrite is_disposed0, andb_false_r. wp_step.
    by exists c, k, sock, em, bb, f, q, b.
  - eapply (wp_DelayReconnect p c); [done|done|done|by eapply iso_timer_at|done|done|]. intros tr'.
    exists (set_delay true c), k, sock, em, bb, f, q, b. split; [by eapply iso_put_conn|].
    split; try done; cbn; rewrite ?Hg; first [done | by apply Z.eqb_neq].
Qed.

Lemma run_reopen p st d s w (Hrep : iso_rep p st d w) (Hs : - 2 ^ 31 ≤ s * 1000 < 2 ^ 31) :
  wp (Reopen p s) (iso_post p st d (EReopen s)) (iso_halt st (EReopen s)) w.
Proof.
  apply wp_no_fault.
  pose proof Hrep as (c & k & sock & em & bb & f & q & b & Hi & Hst).
  assert (wp (Disconnect_isolated p)
    (λ _ w', iso_rep p (if gone st then st else Gone (bool_decide (st ≠ Stranded))) d w') (λ _, False) w) as Hdis
    by (by apply run_disconnect_ok).
  destruct w as [n h m tr]. cbn [w_next w_heap w_mem] in *. pose proof Hi as []. pose proof Hst as [].
  unfold Reopen. do 2 wp_step. cbn beta. rewrite is_disposed0. destruct (gone st) eqn:Hg; cbn [negb].
  { wp_step. destruct st; try done. by eapply iso_post_step; [constructor|]. }
  wp_step. rewrite is_connected0. destruct (is_up st) eqn:Hu.
  - destruct st; try done. eapply wp_mono; [exact Hdis|]. intros [] w' Hw'. cbn beta.
    eapply wp_mono; [by eapply wp_delay|]. intros [] w2 Hw2. by eapply (iso_post_step _ _ _ _ (Gone true)); [constructor|].
  - wp_step. eapply wp_mono; [by eapply wp_delay|]. intros [] w2 Hw2. rewrite Hg in Hw2.
    eapply iso_post_step; [|exact Hw2]. constructor; [by intros ->|done].
Qed.
(** *** Sending *)

(** A request that libuv takes: two more blocks, and the bytes are counted.  When it refuses
    the connection is disposed of, and with it the packet. *)
Lemma wp_SendRaw n h m tr p c k sock em bb f q b buf (Q : Z → world → Prop) X :
  iso n h m p c k sock em bb f q b → sock ≠ 0 → cn_packet c ≠ 0 → cn_disposed c = false →
  (∀ n' h' tr', iso n' h' m p c k sock em bb f q b → Q (zlen buf) (World n' h' m tr')) →
  (∀ tr' args n' h', answer tr' "uv_write" args < 0 → h' !! cn_packet c = None → ∀ tr2, Q 0 (World n' h' m tr2)) →
  wp (SendRaw p buf) Q X (World n h m tr).
Proof.
  intros Hi Hs Hpk Hd HQ HQ0. pose proof Hi as []. specialize (iso_sock0 Hs).
  assert (∀ x, is_Some (h !! x) → x ≠ n ∧ x ≠ n + 1) as Hne by (intros x Hx%iso_below0; lia).
  destruct (Hne p) as [Hp1 Hp2]; [by eexists|]. destruct (Hne (cn_clnt c)) as [Hc1 Hc2]; [by eexists|].
  destruct (Hne sock) as [Hs1 Hs2]; [by eexists|].
  assert (n ≠ 0) as Hn by (specialize (iso_below0 p); rewrite iso_conn0 in iso_below0; specialize (iso_below0 ltac:(by eexists)); lia).
  destruct iso_class0 as (g & pc & Hcl). unfold SendRaw. do 8 wp_step.
  unfold write_cb at 1. rewrite Hcl. do 8 wp_step. cbn beta.
  set (o1 := OBytes buf). 
  assert (∀ o2 h', h' = <[n + 1 := o1]> (<[n := OReq o2]> h) → iso (n + 1 + 1) h' m p c k sock em bb f q b) as Hi2
    by (intros o2 h' ->; by do 2 apply iso_extend).
  destruct (Z.ltb_spec r 0) as [Hr|Hr]; subst r.
  - wp_step. match goal with |- wp _ _ _ (World _ ?h' _ _) => set (h1 := h') end.
    assert (iso (n + 1 + 1) h1 m p c k sock em bb f q b) as Hi1 by (apply (Hi2 (WriteReq None (n + 1))); unfold h1; heap_eq).
    eapply (wp_DisposeConnection p c k sock); [done|by destruct Hi1| |by eapply iso_clnt_at|by eapply iso_packet_at|by eapply iso_timer_at|done|].
    { apply eq_None_not_Some. intros Hx%(iso_below _ _ _ _ _ _ _ _ _ _ _ _ Hi1). lia. }
    intros tr2. cbn beta. wp_step. eapply HQ0; [exact Hr|].
    specialize (iso_packet0 Hpk). rewrite !lookup_insert_ne by congruence. apply lookup_delete_eq.
  - do 2 wp_step. cbn beta. wp_step. unfold count_bytes, wp. cbn. apply HQ. apply (Hi2 (WriteReq (Some sock) (n + 1))). cbn [w_heap]. heap_eq.
Qed.

Lemma wp_post_pages p c k sock em bb f q b m pages n h tr (Q : Z → world → Prop) X :
  iso n h m p c k sock em bb f q b → sock ≠ 0 → cn_packet c ≠ 0 → cn_disposed c = false →
  (pages ≠ [] → ∀ tr args, answer tr "uv_write" args < 0 → X (HFault Dangling)) →
  (∀ n' h' tr', iso n' h' m p c k sock em bb f q b → Q (zlen (mjoin pages)) (World n' h' m tr')) →
  wp (post_pages p (cn_packet c) pages) Q X (World n h m tr).
Proof.
  intros Hi Hs Hp Hd HX. revert n h tr Q Hi. induction pages as [|page pages IH]; intros n h tr Q Hi HQ; cbn [post_pages].
  { wp_step. by apply HQ. }
  specialize (HX ltac:(done)).
  wp_step. eapply wp_SendRaw; [done..| |].
  - intros n1 h1 tr1 Hi1. cbn beta. pose proof (iso_packet _ _ _ _ _ _ _ _ _ _ _ _ Hi1 Hp). do 3 wp_step. cbn beta.
    eapply IH; [intros _; exact HX|done|]. intros n2 h2 tr2 Hi2. wp_step.
    replace (zlen page + zlen (mjoin pages)) with (zlen (mjoin (page :: pages))); [by apply HQ|].
    change (mjoin (page :: pages)) with (app page (mjoin pages)). rewrite length_app. lia.
  - intros tr1 args n1 h1 Ha Hn1 tr2. cbn beta. wp_step. apply wp_bind, wp_read_dangling; [done..|]. by eapply HX.
Qed.

(** A connection without a stream that is taken for one with: the handle is null. *)
Lemma wp_post_no_stream n h m tr p c k em bb f q b pages (Q : Z → world → Prop) X :
  iso n h m p c k 0 em bb f q b → (pages ≠ [] → X (HFault NullDeref)) → (pages = [] → Q 0 (World n h m tr)) →
  wp (post_pages p (cn_packet c) pages) Q X (World n h m tr).
Proof.
  intros [] HX HQ. destruct pages as [|page pages]; cbn [post_pages]; [wp_step; by apply HQ|]. specialize (HX ltac:(done)).
  assert (∀ x, is_Some (h !! x) → x ≠ n ∧ x ≠ n + 1) as Hne by (intros x Hx%iso_below0; lia).
  destruct (Hne p) as [Hp1 Hp2]; [by eexists|]. destruct (Hne (cn_clnt c)) as [Hc1 Hc2]; [by eexists|].
  assert (n ≠ 0) as Hn by (specialize (iso_below0 p); rewrite iso_conn0 in iso_below0; specialize (iso_below0 ltac:(by eexists)); lia).
  destruct iso_class0 as (g & pc & Hcl). wp_step. unfold SendRaw. do 8 wp_step.
  unfold write_cb at 1. rewrite Hcl. do 6 wp_step. cbn beta. unfold call_on. by apply wp_bind, wp_bind, wp_read_null.
Qed.

Lemma run_post p st d pages w (Hrep : iso_rep p st d w) :
  wp (_ ← PostPacket p pages; mret tt) (iso_post p st d (EPost pages)) (iso_halt st (EPost pages)) w.
Proof.
  destruct Hrep as (c & k & sock & em & bb & f & q & b & Hi & Hst), w as [n h m tr]. cbn [w_next w_heap w_mem] in *.
  pose proof Hi as []. pose proof Hst as [].
  assert (∀ n' h' tr', iso n' h' m p c k sock em bb f q b → iso_post p st d (EPost pages) tt (World n' h' m tr')) as Hdone.
  { intros n' h' tr' Hi'. eapply iso_post_step; [constructor|]. by exists c, k, sock, em, bb, f, q, b. }
  wp_step. unfold PostPacket. do 2 wp_step. cbn beta. destruct (gone st) eqn:Hg.
  { rewrite is_packet0. do 2 wp_step. by apply Hdone. }
  specialize (iso_packet0 ltac:(by apply Z.eqb_neq)). rewrite is_packet0. do 2 wp_step. cbn beta.
  unfold IsReady. rewrite is_disposed0, is_flushed0. zbool.
  destruct (0 <? cn_id c); cbn [negb andb]; rewrite ?andb_true_r, ?andb_false_r; [|do 2 wp_step; by apply Hdone].
  destruct (has_stream st) eqn:Hs; cbn [negb] in *; zbool.
  - destruct (marked st) eqn:Hm; [by destruct st|]. cbn [negb].
    eapply wp_post_pages; [exact Hi|done|done|done| |].
    + intros Hp tr' args Ha. apply iso_halt_fault. by econstructor.
    + intros n' h' tr' Hi'. wp_step. by apply Hdone.
  - subst sock. destruct st; try done; cbn [marked negb]; [wp_step; by apply Hdone|].
    eapply wp_post_no_stream; [exact Hi| |].
    + intros Hp. apply iso_halt_fault. by constructor.
    + intros ->. wp_step. by apply Hdone.
Qed.

(** *** The machine *)

Lemma run_event_ok p e st d w (Hrep : iso_rep p st d w) (Hperm : permitted p st e w) :
  wp (run_event p e) (iso_post p st d e) (iso_halt st e) w.
Proof.
  destruct e as [req s|x s|req s|g x|x|pages| |s]; cbn [run_event].
  - by apply run_connect_cb.
  - by apply run_read_cb.
  - by apply run_write_cb.
  - by apply run_close_cb.
  - by apply run_timer_cb.
  - by apply run_post.
  - by apply run_disconnect.
  - apply run_reopen; [done|].
    destruct Hrep as (c & k & sock & em & bb & f & q & b & Hi & _). by apply (Hperm c k sock); destruct Hi.
Qed.

(** C8: One event of a connection object after [Connect]: a callback of libuv for its stream
    (connect, read, write, close), of its timer, or a call of the application, the failing
    ones included, with libuv as [permitted] says and any answers of its functions.  Either
    the handler returns, and takes the object, its client handle, stream, packet, timer and
    buffer from a state of its stage to a state of a stage that the machine [iso_step] allows;
    or it is one of the failures of the code that are listed: the six of [iso_fault], with
    that undefined behaviour and no other (from a disposed connection a cancelled connect
    and the close of a gate's stream always end so), or the one of [iso_orphan], which
    leaves the object with a client handle that was freed.  The handler never ends the
    process. *)
Theorem isolated_refines (p : Z) (e : iso_event) (st : stage) (d : bool) (w : world)
    (Hrep : iso_rep p st d w) (Hperm : permitted p st e w) :
  wp (run_event p e)
    (λ _ w', (∃ st' d', iso_step (st, d) e (st', d') ∧ iso_rep p st' d' w') ∨ iso_orphan st e ∧ orphaned p w')
    (λ x, ∃ f, x = HFault f ∧ iso_fault st e f) w.
Proof. by apply run_event_ok. Qed.

(** *** Connecting *)

(** The address of a connection in seven-bit characters. *)
Fixpoint ascii_text (ip : string) : bool :=
  match ip with EmptyString => true | String a ip => (Z.of_N (N_of_ascii a) <? 128) && ascii_text ip end.

Lemma is_ip_address_ok ip : ascii_text ip = true → ∃ b, is_ip_address ip = Ok b.
Proof.
  induction ip as [|a ip IH]; cbn [ascii_text is_ip_address]; [by eexists|]. intros [-> Hip]%andb_true_iff.
  cbn. case_match; [by apply IH|by eexists].
Qed.

(** The rest of [Connect], once the packet and the timer are made. *)
Lemma wp_connect_new n h m tr p c base ip nPort em b (Q : Z → world → Prop) :
  world_ok (World n h m tr) → h !! p = Some (OConn c) → (∃ g pc, cn_class c = CIsolated g pc) →
  h !! cn_events c = Some (OEvents em) → length (em_handlers em) = TCP_EVENT_ID_MAX →
  cn_base c = base → h !! base = Some (OUv b) → cn_packet c ≠ 0 → cn_timer c ≠ 0 →
  h !! cn_packet c = Some (OPacket (packet_of (cn_class c))) →
  h !! cn_timer c = Some (OUv (UvObject (Some p))) → cn_timer c ≠ base →
  cn_running c = false → cn_connected c = false → cn_disposed c = false → cn_delay c = false →
  (∀ w', iso_rep p Connecting false w' → Q 0 w') →
  (∀ n' m' tr', Q (-2) (World n' (<[p := OConn (set_clnt 0 c)]> h) m' tr')) →
  wp (clnt ← uv_connect_ base ip nPort "on_isolated_connect_error";
      upd p (set_clnt clnt);;
      if negb (clnt =? 0) then
        upd_client clnt (set_connimpl p);;
        upd p (set_running true);;
        upd p (SetFlushed false);;
        mret 0
      else mret (-2)) Q (λ _, False) (World n h m tr).
Proof.
  intros Hw Hp Hcl Hev Hem Hcb Hb Hpk0 Ht0 Hpk Ht Htb Hr Hco Hd Hdl Q0 Q2.
  pose proof Hw as (Hpos & Hdom & Hmem). cbn [w_next w_heap w_mem] in *.
  assert (∀ x o, h !! x = Some o → x ≠ 0) as Hnz by (intros x o Hx; specialize (Hdom x ltac:(by eexists)); lia).
  wp_step. eapply wp_mono; [apply uv_connect_ok; [exact Hw|by eexists]|].
  intros clnt [n' h' m' tr'] [(-> & Eh & _)|(Hclnt & addr & sk & req & bb & f & Eh & Hnew & Hnd & Hf & _ & _ & _ & Hw')];
    cbn [w_next w_heap w_mem w_trace] in *; subst h'; cbn beta.
  { pose proof (Hnz p _ Hp). do 3 wp_step. apply Q2. }
  apply Forall_cons in Hnew as [[_ Hn1] [[Hn2' Hn2] [[_ Hn3] [[Hn4' Hn4] _]%Forall_cons]%Forall_cons]%Forall_cons].
  assert (∀ x o, h !! x = Some o → x ≠ clnt ∧ x ≠ sk ∧ x ≠ req ∧ x ≠ bb) as Hne
    by (intros x o Hx; repeat split; intros ->; congruence).
  assert (clnt ≠ sk ∧ clnt ≠ req ∧ clnt ≠ bb ∧ sk ≠ req ∧ sk ≠ bb ∧ req ≠ bb) as (? & ? & ? & ? & ? & ?).
  { repeat (apply NoDup_cons in Hnd as [? Hnd]). set_unfold. naive_solver. }
  pose proof (Hnz p _ Hp). destruct (Hne p _ Hp) as (? & ? & ? & ?). destruct (Hne base _ Hb) as (? & ? & ? & ?).
  destruct (Hne _ _ Hev) as (? & ? & ? & ?). destruct (Hne _ _ Hpk) as (? & ? & ? & ?). destruct (Hne _ _ Ht) as (? & ? & ? & ?).
  do 2 wp_step. cbn beta. rewrite (proj2 (Z.eqb_neq clnt 0)) by done. cbn [negb].
  do 7 wp_step. apply Q0. destruct Hw' as (_ & Hdom' & Hmem'). cbn [w_next w_heap w_mem] in *.
  set (c' := SetFlushed false (set_running true (set_clnt clnt c))).
  match goal with |- iso_rep _ _ _ (World _ (<[p := _]> (<[clnt := inj ?k]> _)) _ _) => set (k' := k) end.
  exists c', k', sk, em, bb, f, (AQ TCP_STREAM_READ_SIZE [] None), b. cbn [w_next w_heap w_mem]. split.
  - split; cbn [c' k' cn_class cn_events cn_clnt cn_base cn_packet cn_timer SetFlushed set_running set_clnt
      clnt_sin clnt_sockimpl clnt_connimpl clnt_bb set_connimpl]; rewrite ?Hcb; try done; try (by eapply Hnz);
      try (intros _); try iso_tac.
  - split; cbn; rewrite ?Hr, ?Hco, ?Hd, ?Hdl; try done; by apply Z.eqb_neq.
Qed.

(** [Connect] on a new connection object: a host name is refused and nothing changes;
    otherwise it answers 0 and the connection is connecting, or -2, and then the object
    keeps its packet and its timer but has no client handle. *)
Definition Connect_post (p : Z) (w : world) (r : Z) (w' : world) : Prop :=
  r = -1 ∧ w' = w ∨ r = 0 ∧ iso_rep p Connecting false w' ∨
  r = -2 ∧ ∃ c, w_heap w' !! p = Some (OConn c) ∧ cn_clnt c = 0 ∧ cn_running c = false ∧
    w_heap w' !! cn_packet c = Some (OPacket (packet_of (cn_class c))) ∧
    w_heap w' !! cn_timer c = Some (OUv (UvObject (Some p))).

Lemma Connect_ok (p base : Z) (ip : string) (nPort id ref ev : Z) (g : bool) (pc : packet_class)
    (em : event_manager) (w : world) (Hw : world_ok w) (Hip : ascii_text ip = true)
    (Hp : w_heap w !! p = Some (OConn (new_conn (CIsolated g pc) id ref ev)))
    (Hev : w_heap w !! ev = Some (OEvents em)) (Hem : length (em_handlers em) = TCP_EVENT_ID_MAX)
    (Hbase : ∃ u, w_heap w !! base = Some (OUv u))
    (Htimer : ∀ tr args, answer tr "uv_timer_init" args = 0) :
  wp (Connect p base ip nPort) (Connect_post p w) (λ _, False) w.
Proof.
  pose proof Hw as (Hpos & Hdom & Hmem). destruct Hbase as [u Hb].
  destruct w as [n h m tr]. cbn [w_next w_heap w_mem] in *.
  pose proof (Hdom p ltac:(by eexists)). pose proof (Hdom ev ltac:(by eexists)). pose proof (Hdom base ltac:(by eexists)).
  assert (∀ x, n ≤ x → h !! x = None) as Hfr by (intros x Hx; apply eq_None_not_Some; intros Hs%Hdom; lia).
  destruct (is_ip_address_ok ip Hip) as [b Hb']. unfold Connect. wp_step. rewrite Hb'. apply wp_ret. cbn beta.
  destruct b; cbn [negb]; [|wp_step; by left].
  do 6 wp_step. cbn beta. cbn [cn_packet set_base set_target new_conn cn_class]. do 4 wp_step. cbn beta.
  unfold uv_create_timer_. do 6 wp_step. cbn beta. subst r. rewrite Htimer. cbn [Z.ltb Z.compare]. do 4 wp_step. cbn beta.
  wp_step.
  match goal with |- wp _ _ _ (World _ (<[p := inj ?c]> _) _ _) => set (c1 := c) end.
  match goal with |- wp _ _ _ (World ?n1 ?h1' _ ?tr1) => eapply (wp_connect_new n1 h1' m tr1 p c1 base ip nPort em) end;
    cbn [cn_events cn_packet cn_timer cn_class c1 set_timer set_packet set_base set_target]; try done; try heap_side.
  - unfold world_ok. cbn. split; [lia|]. split; [|done]. intros x Hx.
    repeat (rewrite lookup_insert in Hx; case_decide; [subst; clear Hx; lia|]). apply Hdom in Hx. lia.
  - by exists g, pc.
  - intros w' Hrep. by right; left.
  - intros n' m' tr'. right. right. split; [done|]. exists (set_clnt 0 c1). cbn [w_heap].
    split; [heap_side|]. repeat (split; [done|]).
    cbn [cn_packet cn_timer cn_class c1 set_clnt set_timer set_packet set_base set_target]. split; heap_side.
Qed.

(** [Connect] on a new connection object runs without undefined behaviour whatever libuv
    answers to it (a timer apart): it refuses a host name and changes nothing; it starts
    connecting, in the state the machine starts from; or it fails without a client handle,
    and then the packet and the reconnect timer that it made stay with the object. *)
Theorem Connect_starts (p base : Z) (ip : string) (nPort id ref ev : Z) (g : bool) (pc : packet_class)
    (em : event_manager) (w : world) (Hw : world_ok w) (Hip : ascii_text ip = true)
    (Hp : w_heap w !! p = Some (OConn (new_conn (CIsolated g pc) id ref ev)))
    (Hev : w_heap w !! ev = Some (OEvents em)) (Hem : length (em_handlers em) = TCP_EVENT_ID_MAX)
    (Hbase : ∃ u, w_heap w !! base = Some (OUv u))
    (Htimer : ∀ tr args, answer tr "uv_timer_init" args = 0) :
  wp (Connect p base ip nPort) (Connect_post p w) (λ _, False) w.
Proof. by eapply Connect_ok. Qed.
(** *** Callbacks that come after the connection is disposed of *)

(** libuv still calls back for what was under way: the request of a connection that is
    connecting, cancelled by the close of its handle.  If the application disconnects
    before, that callback follows the packet pointer that [DisposeConnection] cleared. *)
Theorem cancelled_connect_crashes (p req status : Z) (d : bool) (w : world) (Hrep : iso_rep p Connecting d w)
    (Hreq : req ≠ 0) (Hclnt : ∃ c, w_heap w !! p = Some (OConn c) ∧
      w_heap w !! req = Some (OUv (UvObject (Some (cn_clnt c))))) (Hs : status ≠ 0) :
  wp (Disconnect_isolated p;; on_isolated_connect_error req status)
    (λ _ _, False) (λ x, x = HFault NullDeref) w.
Proof.
  destruct Hrep as (c & k & sock & em & bb & f & q & b & Hi & Hst), w as [n h m tr]. cbn [w_next w_heap w_mem] in *.
  pose proof Hi as []. pose proof Hst as []. destruct Hclnt as (c0 & Hc0 & Hr).
  assert (c0 = c) as -> by congruence. cbn [gone] in *. zbool.
  specialize (iso_packet0 is_packet0). wp_step. eapply wp_disconnect; [done..|].
  intros tr' c' k' h' -> Hi' E Hst'. pose proof Hi' as [].
  assert (cn_packet c ≠ req) as Hpr by (intros Hx; rewrite Hx, Hr in iso_packet0; done).
  cbn beta. unfold on_isolated_connect_error. do 2 wp_step. cbn beta. cbn [uv_data]. do 2 wp_step. cbn beta.
  rewrite <- E in *. do 6 wp_step. cbn beta.
  rewrite (proj2 (Z.eqb_neq 0 status)) by done. wp_step. unfold isolated_failed.
  rewrite (proj2 (Z.eqb_neq p 0)) by done. cbn [negb]. wp_step.
  eapply (wp_FlushStream p c' k' 0); [done|done|by eapply iso_clnt_at|]. intros tr2. cbn beta.
  rewrite flush_conn_0.
  eapply wp_error_disposed; [eapply iso_put; [exact Hi'|..]; try done; try (by left)|exact Hst'|done];
    by unfold flush_clnt; destruct (cn_flushed c').
Qed.

(** The gate's classes treat every close of their stream as an error; the close that
    disconnecting asks for reaches the cleared packet pointer. *)
Theorem gate_disconnect_crashes (p sock : Z) (st : stage) (d : bool) (w : world) (Hrep : iso_rep p st d w)
    (Hst : has_stream st = true) (Hsock : ∃ c k, w_heap w !! p = Some (OConn c) ∧
      w_heap w !! cn_clnt c = Some (OClient k) ∧ clnt_sockimpl k = Some sock) :
  wp (Disconnect_isolated p;; on_gate_stream_close sock) (λ _ _, False) (λ x, x = HFault NullDeref) w.
Proof.
  destruct Hrep as (c & k & sk & em & bb & f & q & b & Hi & Hs), w as [n h m tr]. cbn [w_next w_heap w_mem] in *.
  pose proof Hi as []. pose proof Hs as []. destruct Hsock as (c0 & k0 & Hc0 & Hk0 & Hsk).
  assert (c0 = c) as -> by congruence. assert (k0 = k) as -> by congruence. assert (sk = sock) as -> by congruence.
  assert (gone st = false) as Hg by (by destruct st). rewrite Hst, Hg in *. cbn [negb] in *. zbool.
  specialize (iso_packet0 is_packet0). specialize (iso_sock0 is_stream0).
  wp_step. eapply wp_disconnect; [done..|]. intros tr' c' k' h' -> Hi' E Hst'. pose proof Hi' as [].
  assert (cn_packet c ≠ sock) as Hpr by (intros Hx; rewrite Hx, iso_sock0 in iso_packet0; done).
  cbn beta. unfold on_gate_stream_close. do 2 wp_step. cbn beta. cbn [uv_data]. do 2 wp_step. cbn beta.
  rewrite <- E in *. do 4 wp_step. cbn beta. rewrite (proj2 (Z.eqb_neq p 0)) by done. cbn [negb]. do 3 wp_step.
  assert (iso n (<[p := OConn (SetFlushed true c')]> (<[cn_clnt c' := OClient k']> (delete (cn_packet c) h))) m p
    (SetFlushed true c') k' 0 em bb f q b) as Hi2.
  { rewrite <- (insert_insert_eq _ p _ (OConn c')). by eapply iso_put_conn. }
  eapply (wp_error_disposed _ _ _ _ _ _ _ _ _ _ _ _ _ d true); [exact Hi2|by destruct Hst'; split|done].
Qed.

(** *** Histories *)

(** A history: events that libuv and the application may bring at the stage they come. *)
Inductive runs (p : Z) : world → list iso_event → world → Prop :=
  | runs_nil w : runs p w [] w
  | runs_cons w e l w1 w2 st d :
      iso_rep p st d w → permitted p st e w → run_event p e w = Ret tt w1 → runs p w1 l w2 → runs p w (e :: l) w2.

(** A world shows the stage of a connection. *)
Lemma iso_rep_stage p w st d st' d' : iso_rep p st d w → iso_rep p st' d' w → st = st' ∧ d = d'.
Proof.
  intros (c & k & sock & em & bb & f & q & b & Hi & Hst) (c2 & k2 & sock2 & em2 & bb2 & f2 & q2 & b2 & Hi2 & Hst2).
  destruct Hi, Hi2. simplify_eq. destruct Hst, Hst2. split; [|congruence].
  assert (gone st = gone st') as E1 by congruence. assert (is_up st = is_up st') as E2 by congruence.
  assert (marked st = marked st') as E3 by congruence.
  assert (negb (has_stream st) = negb (has_stream st')) as E4 by congruence.
  destruct st, st'; cbn in *; congruence.
Qed.

(** C30: A second attempt to connect that libuv refuses is the last: the answer of
    [uv_real_connect_] is dropped, and whatever comes then, no event opens a stream again. *)
Theorem stranded_forever (p : Z) (l : list iso_event) (d : bool) (w w' : world) (Hrep : iso_rep p Stranded d w)
    (Hruns : runs p w l w') : ∃ st d', iso_rep p st d' w' ∧ has_stream st = false.
Proof.
  assert (∃ st d, iso_rep p st d w ∧ (st = Stranded ∨ ∃ fl, st = Gone fl)) as Hinv by eauto. clear Hrep d.
  induction Hruns as [w|w e l w1 w2 st d Hst Hperm Hrun Hruns IH].
  - destruct Hinv as (st & d & Hrep & [->|[fl ->]]); by eauto.
  - apply IH. destruct Hinv as (st0 & d0 & Hrep & Hcase). destruct (iso_rep_stage _ _ _ _ _ _ Hrep Hst) as [<- <-].
    pose proof (run_event_ok p e st0 d0 w Hrep Hperm) as Hok. unfold wp in Hok. rewrite Hrun in Hok.
    destruct Hok as [(st' & d' & Hstep & Hrep')|[Ho _]]; [|exfalso; destruct Hcase as [->|[fl ->]]; by inversion Ho].
    exists st', d'. split; [done|].
    destruct Hcase as [->|[fl ->]]; inversion Hstep; subst; eauto; try (by destruct_or?); naive_solver.
Qed.

(** The reconnect timer of a connection whose stream was closed brings it back to
    connecting when libuv takes the new stream. *)
Theorem reconnects (p timer : Z) (w : world) (Hrep : iso_rep p Flushed true w)
    (Htimer : ∃ c, w_heap w !! p = Some (OConn c) ∧ cn_timer c = timer)
    (Hinit : ∀ tr args, answer tr "uv_tcp_init" args = 0) (Hconn : ∀ tr args, answer tr "uv_tcp_connect" args = 0) :
  wp (client_reconnect_timer_cb timer) (λ _ w', iso_rep p Connecting false w') (λ _, False) w.
Proof.
  destruct Htimer as (c & Hc & <-). eapply wp_mono; [eapply wp_timer_cb; [exact Hrep|done|exact Hc]|].
  intros [] w' (st' & Hrep' & [[? _]|(_ & _ & [->|[_ (tr & args & [Hr|Hr])]])]); by rewrite ?Hinit, ?Hconn in Hr || done.
Qed.
End isolated.

(** ** Witnesses *)

(** A loop at 1, an event manager at 2 and a new connection object at 3. *)
Definition ex_iso_world (g : bool) : @world ex_fifo :=
  @World ex_fifo 4 (<[1 := OUv fresh_uv]> (<[2 := OEvents new_event_manager]>
    {[ 3 := OConn (new_conn (CIsolated g Inner) 7 0 2) ]})) empty_heap [].

Lemma ex_iso_world_ok g : world_ok (ex_iso_world g).
Proof.
  split; [done|]. split; [|apply empty_heap_ok]. intros x Hx. cbn [ex_iso_world w_heap w_next] in *.
  repeat (rewrite lookup_insert in Hx; case_decide; [subst; clear Hx; lia|]).
  destruct Hx as [o [<- _]%lookup_singleton_Some]. lia.
Qed.

(** libuv takes the first stream; it answers [again] to a further request to connect, and
    0 to every other call. *)
Definition ex_uv (again : Z) : Lib :=
  {| answer tr fn _ :=
       if String.eqb fn "uv_tcp_connect" && existsb (λ e, String.eqb (ev_fn e) fn) tr then again else 0;
     answer_out _ _ _ := 0 |}.

(** The world after a program. *)
Definition after {A} (m : @prog ex_fifo A) (w : world) : world :=
  match m w with Ret _ w' => w' | _ => w end.

Definition ex_connecting (again : Z) (g : bool) : world :=
  after (@Connect ex_fifo (ex_uv again) 3 1 "10.0.0.1" 80) (ex_iso_world g).

Lemma ex_connecting_rep again g :
  @iso_rep ex_fifo 3 Connecting false (ex_connecting again g).
Proof.
  pose proof (@Connect_ok ex_fifo (ex_uv again) 3 1 "10.0.0.1" 80 7 0 2 g Inner new_event_manager (ex_iso_world g)
    (ex_iso_world_ok g) eq_refl eq_refl eq_refl eq_refl (ex_intro _ _ eq_refl) (λ _ _, eq_refl)) as Hok.
  assert (match @Connect ex_fifo (ex_uv again) 3 1 "10.0.0.1" 80 (ex_iso_world g) with
    | Ret r _ => r = 0 | _ => False end) as Hr by (destruct g; by vm_compute).
  unfold wp in Hok. unfold ex_connecting, after.
  destruct (@Connect ex_fifo (ex_uv again) 3 1 "10.0.0.1" 80 (ex_iso_world g)); [|done..]. subst a.
  by destruct Hok as [[? _]|[[_ ?]|[? _]]].
Qed.

(** The object of a kind at a concrete address. *)
Definition ex_prj {A} `{@Kind ex_fifo A} (o : option (@obj ex_fifo)) : option A := o ≫= prj.
Ltac ex_at A H :=
  apply (f_equal (ex_prj (A := A))) in H; unfold ex_prj at 2 in H; cbn in H; vm_compute in H; injection H as <-.

(** The pieces of [permitted] at a concrete heap. *)
Ltac ex_permitted :=
  let Hc := fresh in let Hk := fresh in let Hs := fresh in
  intros ? ? ? Hc Hk Hs; ex_at conn Hc; ex_at client_handle Hk; vm_compute in Hs; injection Hs as <-.

Lemma ex_connect_permitted again g s :
  @permitted ex_fifo 3 Connecting (EConnectCb 8 s) (ex_connecting again g).
Proof.
  ex_permitted. split; [by destruct (decide (s = 0))|]. split; [done|]. split; [exact eq_refl|]. repeat (split; [by vm_compute|]). by vm_compute.
Qed.

Lemma after_event {lib : Lib} p e st d (w : @world ex_fifo) :
  iso_rep p st d w → permitted p st e w → (∀ f, ¬ iso_fault st e f) → ¬ iso_orphan st e →
  ∃ st' d', iso_step (st, d) e (st', d') ∧ iso_rep p st' d' (after (run_event p e) w).
Proof.
  intros Hrep Hperm Hf Ho. pose proof (run_event_ok p e st d w Hrep Hperm) as Hok. unfold wp in Hok. unfold after.
  destruct (run_event p e w) as [[] w'|c w'|u]; [by destruct Hok as [?|[? _]]|destruct Hok as (f & ? & ?)|destruct Hok as (f & ? & ?)]; by edestruct Hf.
Qed.

(** Refused when it connects, and then when it reconnects. *)
Definition ex_flushed (again : Z) : world :=
  after (@run_event ex_fifo (ex_uv again) 3 (EConnectCb 8 (-111))) (ex_connecting again false).
Definition ex_stranded : world := after (@run_event ex_fifo (ex_uv (-1)) 3 (ETimerCb 5)) (ex_flushed (-1)).

Lemma ex_flushed_rep again : iso_rep 3 Flushed true (ex_flushed again).
Proof.
  destruct (@after_event (ex_uv again) 3 (EConnectCb 8 (-111)) Connecting false _ (ex_connecting_rep again false)
    (ex_connect_permitted again false (-111))) as (st & d & Hstep & Hrep); [by inversion 1..|]. by inversion Hstep; subst.
Qed.

Lemma ex_timer_permitted again : @permitted ex_fifo 3 Flushed (ETimerCb 5) (ex_flushed again).
Proof. by ex_permitted. Qed.

Lemma ex_stranded_rep : iso_rep 3 Stranded false ex_stranded.
Proof.
  destruct (@after_event (ex_uv (-1)) 3 (ETimerCb 5) Flushed true _ (ex_flushed_rep (-1)) (ex_timer_permitted (-1)))
    as (st & d & Hstep & Hrep); [by inversion 1..|].
  inversion Hstep; subst; [|done|done]. exfalso. destruct Hrep as (c & k & sock & em & bb & f & q & b & [] & []).
  ex_at conn iso_conn0. ex_at client_handle iso_client0. vm_compute in iso_sockimpl0. by injection iso_sockimpl0 as <-.
Qed.

(** The objects of the example. *)
Lemma ex_connecting_objs again g : ∃ c k,
  w_heap (ex_connecting again g) !! 3 = Some (OConn c) ∧ w_heap (ex_connecting again g) !! cn_clnt c = Some (OClient k) ∧
  clnt_sockimpl k = Some 7 ∧ w_heap (ex_connecting again g) !! 8 = Some (OUv (UvObject (Some (cn_clnt c)))).
Proof.
  destruct (ex_connecting_rep again g) as (c & k & sock & em & bb & f & q & b & [] & _).
  exists c, k. split; [done|]. split; [done|].
  ex_at conn iso_conn0. ex_at client_handle iso_client0. split; exact eq_refl.
Qed.

Lemma Connect_starts_witness :
  wp (@Connect ex_fifo (ex_uv 0) 3 1 "10.0.0.1" 80) (Connect_post 3 (ex_iso_world false)) (λ _, False)
    (ex_iso_world false).
Proof.
  apply (@Connect_starts ex_fifo (ex_uv 0) 3 1 "10.0.0.1" 80 7 0 2 false Inner new_event_manager (ex_iso_world false)
    (ex_iso_world_ok false) eq_refl eq_refl eq_refl eq_refl (ex_intro _ _ eq_refl) (λ _ _, eq_refl)).
Defined.

Lemma isolated_refines_witness :
  wp (@run_event ex_fifo (ex_uv 0) 3 (EConnectCb 8 0))
    (λ _ w', (∃ st' d', iso_step (Connecting, false) (EConnectCb 8 0) (st', d') ∧ iso_rep 3 st' d' w') ∨
      @iso_orphan (ex_uv 0) Connecting (EConnectCb 8 0) ∧ orphaned 3 w')
    (λ x, ∃ f, x = HFault f ∧ @iso_fault (ex_uv 0) Connecting (EConnectCb 8 0) f)
    (ex_connecting 0 false).
Proof.
  apply (@isolated_refines ex_fifo (ex_uv 0)); [apply ex_connecting_rep|apply ex_connect_permitted].
Defined.

Lemma cancelled_connect_crashes_witness :
  wp (@Disconnect_isolated ex_fifo (ex_uv 0) 3;; @on_isolated_connect_error ex_fifo (ex_uv 0) 8 (-4081))
    (λ _ _, False) (λ x, x = HFault NullDeref) (ex_connecting 0 false).
Proof.
  apply (@cancelled_connect_crashes ex_fifo (ex_uv 0) 3 8 (-4081) false); [apply ex_connecting_rep|lia| |lia].
  destruct (ex_connecting_objs 0 false) as (c & k & Hc & _ & _ & Hr). exists c. split; [exact Hc|exact Hr].
Defined.

Lemma gate_disconnect_crashes_witness :
  wp (@Disconnect_isolated ex_fifo (ex_uv 0) 3;; @on_gate_stream_close ex_fifo (ex_uv 0) 7)
    (λ _ _, False) (λ x, x = HFault NullDeref) (ex_connecting 0 true).
Proof.
  apply (@gate_disconnect_crashes ex_fifo (ex_uv 0) 3 7 Connecting false); [apply ex_connecting_rep|done|].
  destruct (ex_connecting_objs 0 true) as (c & k & Hc & Hk & Hs & _). exists c, k.
  split; [exact Hc|]. split; [exact Hk|exact Hs].
Defined.

Lemma stranded_forever_witness :
  ∃ st d, @iso_rep ex_fifo 3 st d ex_stranded ∧ has_stream st = false.
Proof. apply (@stranded_forever ex_fifo (ex_uv (-1)) 3 [] false _ _ ex_stranded_rep). constructor. Defined.

Lemma reconnects_witness :
  wp (@client_reconnect_timer_cb ex_fifo (ex_uv 0) 5) (λ _ w', iso_rep 3 Connecting false w') (λ _, False) (ex_flushed 0).
Proof.
  apply (@reconnects ex_fifo (ex_uv 0) 3 5); [apply ex_flushed_rep| | |].
  - destruct (ex_flushed_rep 0) as (c & k & sock & em & bb & f & q & b & [] & _). exists c. split; [exact iso_conn0|].
    by ex_at conn iso_conn0.
  - by intros.
  - intros tr args. unfold answer. cbn. by destruct (existsb _ tr).
Defined.
