(* ===== verification/ConnManager.v ===== *)
(** * Connection manager and factory: [tcp/TcpConnManager.cpp], [tcp/uv/UvConnFactoryBase.cpp]

    [CTcpConnManager] is a member of the factory object: the clients of each server and the
    isolated connections by connection id, the number of clients, and the recycler: a
    released connection waits there until nothing refers to it, then it is deleted.

    The factory's requests to the back end and its callbacks to the front end call straight
    through (there is one thread).  A range-for walks a map in the order of [MapOrder];
    moving on from an entry that is gone is undefined.  Assertions are compiled out. *)

From S2P Require Import Prelude CHeap BipBuf Fifo Io MapOrder UvClient UvConn UvIsolated.

#[local] Open Scope string_scope.
#[local] Open Scope list_scope.
#[local] Open Scope Z_scope.

Definition TCP_CONNID_BASE : Z := 1000000000.
Definition TCP_CONNID_MAX : Z := 1000000000000.

(** *** Fields *)

Definition set_next_id (x : Z) (f : factory) : factory :=
  Factory (fa_loop f) x (fa_entries f) (fa_isolated f) (fa_count f) (fa_recycler f) (fa_safe f) (fa_servers f) (fa_closed f).
Definition set_entries (x : gmap Z (gmap Z Z)) (f : factory) : factory :=
  Factory (fa_loop f) (fa_next_id f) x (fa_isolated f) (fa_count f) (fa_recycler f) (fa_safe f) (fa_servers f) (fa_closed f).
Definition set_isolated (x : gmap Z Z) (f : factory) : factory :=
  Factory (fa_loop f) (fa_next_id f) (fa_entries f) x (fa_count f) (fa_recycler f) (fa_safe f) (fa_servers f) (fa_closed f).
Definition set_count (x : Z) (f : factory) : factory :=
  Factory (fa_loop f) (fa_next_id f) (fa_entries f) (fa_isolated f) x (fa_recycler f) (fa_safe f) (fa_servers f) (fa_closed f).
Definition set_recycler (x : list Z) (f : factory) : factory :=
  Factory (fa_loop f) (fa_next_id f) (fa_entries f) (fa_isolated f) (fa_count f) x (fa_safe f) (fa_servers f) (fa_closed f).
Definition set_safe (x : list Z) (f : factory) : factory :=
  Factory (fa_loop f) (fa_next_id f) (fa_entries f) (fa_isolated f) (fa_count f) (fa_recycler f) x (fa_servers f) (fa_closed f).
Definition set_servers (x : list Z) (f : factory) : factory :=
  Factory (fa_loop f) (fa_next_id f) (fa_entries f) (fa_isolated f) (fa_count f) (fa_recycler f) (fa_safe f) x (fa_closed f).
Definition set_closed_servers (x : list Z) (f : factory) : factory :=
  Factory (fa_loop f) (fa_next_id f) (fa_entries f) (fa_isolated f) (fa_count f) (fa_recycler f) (fa_safe f) (fa_servers f) x.

(** *** Connection ids *)

Definition GetNextConnectionId (f : factory) : Z * factory :=
  let id := u64 (fa_next_id f + 1) in
  (* skip TCP_CONNID_MAX *)
  let id := if TCP_CONNID_MAX <=? id then TCP_CONNID_BASE + 1 else id in
  (id, set_next_id id f).

(** *** The maps *)

(** [_mapServerEntry[serverptr]._mapClients[uConnId] = pClient; ++_szClientCount] *)
Definition add_client (srv id cl : Z) (f : factory) : factory :=
  set_count (u64 (fa_count f + 1))
    (set_entries (<[srv := <[id := cl]> (default ∅ (fa_entries f !! srv))]> (fa_entries f)) f).

(** [entry._mapClients.erase (it2)] *)
Definition erase_client (srv id : Z) (f : factory) : factory :=
  set_entries (alter (delete id) srv (fa_entries f)) f.

Definition decr_count (f : factory) : factory := set_count (u64 (fa_count f - 1)) f.

Definition GetClientCount (f : factory) : Z := fa_count f.

(** Ready to be deleted: disconnected, no request or event under way, disposed, flushed. *)
Definition releasable (c : conn) : bool :=
  negb (cn_connected c) && IsBackEndClean c && IsFrontEndClean c && cn_disposed c && cn_flushed c.

Section manager.
Context {fi : ByteFifo} {lib : Lib} {ord : MapOrder}.

Definition new_factory : prog Z :=
  loop ← uv_loop_new_;
  malloc (OFactory (Factory loop TCP_CONNID_BASE ∅ ∅ 0 [] [] [] [])).

(** The connections of a factory are released by disposing of them. *)
Definition ReleaseConnection (p : Z) : prog unit := DisposeConnection p.

Definition OnAddClient (fac srv cl : Z) : prog unit :=
  c ← get (A := conn) cl;
  upd fac (add_client srv (cn_id c) cl).

Definition OnAddIsolated (fac p : Z) : prog unit :=
  c ← get (A := conn) p;
  upd fac (λ f, set_isolated (<[cn_id c := p]> (fa_isolated f)) f).

Definition RecyclerPush (fac p : Z) : prog unit :=
  upd fac (λ f, set_recycler (fa_recycler f ++ [p]) f).

Definition OnRemoveClient (fac srv cl : Z) : prog unit :=
  c ← get (A := conn) cl;
  f ← get (A := factory) fac;
  match fa_entries f !! srv with
  | None => mret tt
  | Some clients =>
      match clients !! cn_id c with
      | None => mret tt
      | Some pClient2 =>
          (* discard connection to backend through factory *)
          _ ← get (A := tcp_server) srv;
          ReleaseConnection pClient2;;
          upd fac (erase_client srv (cn_id c));;
          (* recycle connection *)
          RecyclerPush fac pClient2;;
          upd fac decr_count
      end
  end.

(** The loop of [ReleaseAllClients]. *)
Fixpoint release_clients (fac : Z) (l : list (Z * Z)) : prog unit :=
  match l with
  | [] => mret tt
  | (_, pClient) :: l =>
      ReleaseConnection pClient;;
      RecyclerPush fac pClient;;
      upd fac decr_count;;
      release_clients fac l
  end.

Definition ReleaseAllClients (fac srv : Z) : prog unit :=
  (* must clear because handler may be released already *)
  s ← get (A := tcp_server) srv;
  upd (ts_events s) ClearAllEventHandlers;;
  f ← get (A := factory) fac;
  match fa_entries f !! srv with
  | None => mret tt
  | Some clients =>
      release_clients fac (entries clients);;
      upd fac (λ f, set_entries (<[srv := ∅]> (fa_entries f)) f)
  end.

(** The loop of [ReleaseAllIsolateds]. *)
Fixpoint release_isolateds (fac : Z) (l : list (Z * Z)) : prog unit :=
  match l with
  | [] => mret tt
  | (_, pIsolated) :: l =>
      c ← get (A := conn) pIsolated;
      upd (cn_events c) ClearAllEventHandlers;;
      (* stop running *)
      Disconnect_isolated pIsolated;;
      (* discard connection to backend through factory *)
      ReleaseConnection pIsolated;;
      (* recycle connection *)
      RecyclerPush fac pIsolated;;
      release_isolateds fac l
  end.

Definition ReleaseAllIsolateds (fac : Z) : prog unit :=
  f ← get (A := factory) fac;
  release_isolateds fac (entries (fa_isolated f));;
  upd fac (set_isolated ∅).

(** *** Disconnecting a client *)

Definition AddClientDisconnectCb (fac srv cl : Z) : prog unit :=
  OnDisconnect cl;;
  (* remove and dispose conn *)
  OnRemoveClient fac srv cl.

(** [CUvClientConn::Disconnect] *)
Definition Disconnect_client (cl : Z) : prog unit :=
  c ← get (A := conn) cl;
  if negb (cn_disposed c) && cn_running c then
    upd cl (set_running false);;
    OnDisconnect cl;;
    (* remove and dispose conn *)
    s ← get (A := tcp_server) (cn_ref c);
    OnRemoveClient (ts_factory s) (cn_ref c) cl
  else mret tt.

(** The loop of [DisposeDownStreams]; the iterator moves on from its entry. *)
Fixpoint dispose_down_streams (fac srv : Z) (l : list (Z * Z)) : prog unit :=
  match l with
  | [] => mret tt
  | (uConnId, pClient) :: l =>
      (if negb (pClient =? 0) then
         c ← get (A := conn) pClient;
         if cn_id c =? uConnId then
           DisposeConnection pClient;;
           (* disconnect cb to front end *)
           AddClientDisconnectCb fac srv pClient
         else mret tt
       else mret tt);;
      f ← get (A := factory) fac;
      match fa_entries f !! srv ≫= lookup uConnId with
      | Some _ => dispose_down_streams fac srv l
      | None => lift (Ub Dangling)
      end
  end.

Definition DisposeDownStreams (fac srv : Z) : prog unit :=
  f ← get (A := factory) fac;
  match fa_entries f !! srv with
  | None => mret tt
  | Some clients => dispose_down_streams fac srv (entries clients)
  end.

Fixpoint lookup_client (l : list (Z * gmap Z Z)) (uConnId : Z) : Z :=
  match l with
  | [] => 0
  | (_, clients) :: l => match clients !! uConnId with Some p => p | None => lookup_client l uConnId end
  end.
Definition LookupClientByConnId (fac uConnId : Z) : prog Z :=
  f ← get (A := factory) fac; mret (lookup_client (entries (fa_entries f)) uConnId).

(** *** The recycler *)

(** The loop of [RecyclerPop]: what stays, and what is safe to release. *)
Fixpoint recycler_loop (l : list Z) : prog (list Z * list Z) :=
  match l with
  | [] => mret ([], [])
  | p :: l =>
      c ← get (A := conn) p;
      '(kept, safe) ← recycler_loop l;
      mret (if releasable c then (kept, p :: safe) else (p :: kept, safe))
  end.

Definition RecyclerPop (fac : Z) : prog unit :=
  f ← get (A := factory) fac;
  '(kept, safe) ← recycler_loop (fa_recycler f);
  upd fac (λ f, set_safe (fa_safe f ++ safe) (set_recycler kept f)).

Fixpoint delete_conns (l : list Z) : prog unit :=
  match l with
  | [] => mret tt
  | p :: l => (if p =? 0 then mret tt else delete_conn p);; delete_conns l
  end.

Definition SafeRelease (fac : Z) : prog unit :=
  f ← get (A := factory) fac;
  delete_conns (fa_safe f);;
  upd fac (set_safe []).

Definition Recycle (fac : Z) : prog bool :=
  RecyclerPop fac;;
  SafeRelease fac;;
  f ← get (A := factory) fac;
  mret (0 <? zlen (fa_recycler f)).

(** *** The factory *)

Definition CreateTcpClientOnServer (g : bool) (fac srv : Z) : prog Z :=
  f ← get (A := factory) fac;
  let '(uConnId, f') := GetNextConnectionId f in
  upd fac (λ _, f');;
  pClient ← malloc (OConn (new_conn (CClient g) uConnId srv 0));
  OnAddClient fac srv pClient;;
  mret pClient.

(** [CreateTcpIsolated] and [CreateTcpIsolated2]: the class of the object. *)
Definition CreateTcpIsolated (cls : conn_class) (fac : Z) : prog Z :=
  f ← get (A := factory) fac;
  let '(uConnId, f') := GetNextConnectionId f in
  upd fac (λ _, f');;
  evts ← malloc (OEvents new_event_manager);
  pIsolated ← malloc (OConn (new_conn cls uConnId fac evts));
  OnAddIsolated fac pIsolated;;
  mret pIsolated.

Definition IsolatedConnConnect (fac p : Z) (sIp_or_Hostname : string) (nPort : Z) : prog Z :=
  f ← get (A := factory) fac; Connect p (fa_loop f) sIp_or_Hostname nPort.
Definition IsolatedConnDelayReconnect (p nDelaySeconds : Z) : prog unit := DelayReconnect p nDelaySeconds.

Definition AddIsolatedConnectCb (p : Z) : prog unit := OnConnect p.
Definition AddIsolatedDisconnectCb (p : Z) : prog unit := OnDisconnect p.

(** [AddClientPacketCb] and the other three: the handler of the connection's manager. *)
Definition AddPacketCb (p uSerialNo : Z) (sTypeName sBody : string) : prog unit :=
  mgr ← GetEventManager p; OnPacket mgr p uSerialNo sTypeName sBody.
Definition AddInnerPacketCb (p uInnerUuid uSerialNo : Z) (sTypeName sBody : string) : prog unit :=
  mgr ← GetEventManager p; OnInnerPacket mgr p uInnerUuid uSerialNo sTypeName sBody.

Definition OnUpdate (fac : Z) : prog unit :=
  f ← get (A := factory) fac;
  _ ← uv_loop_run_once_ (fa_loop f);
  _ ← Recycle fac;
  mret tt.

(** *** Shutting down *)

(** [wait and recycle]; false when [fuel] rounds are not enough. *)
Fixpoint wait_recycle (fuel : nat) (fac : Z) : prog bool :=
  more ← Recycle fac;
  if negb more then mret true
  else match fuel with
  | O => mret false
  | S fuel => OnUpdate fac;; call_ "util_sleep" [VInt 10];; wait_recycle fuel fac
  end.

Fixpoint updates (n : nat) (fac : Z) : prog unit :=
  match n with O => mret tt | S n => OnUpdate fac;; updates n fac end.

Fixpoint release_servers (fac : Z) (l : list Z) : prog unit :=
  match l with [] => mret tt | srv :: l => ReleaseAllClients fac srv;; release_servers fac l end.

(** [~CUvServer] and its block. *)
Definition delete_server (srv : Z) : prog unit :=
  s ← get (A := tcp_server) srv; free (ts_events s);; free (ts_srvr s);; free srv.
Fixpoint delete_servers (l : list Z) : prog unit :=
  match l with
  | [] => mret tt
  | srv :: l => (if srv =? 0 then mret tt else delete_server srv);; delete_servers l
  end.

Definition OnDelete (fuel : nat) (fac : Z) : prog bool :=
  (* remove all isolated *)
  ReleaseAllIsolateds fac;;
  (* remove all clients *)
  f ← get (A := factory) fac;
  release_servers fac (fa_closed f);;
  (* wait and recycle *)
  recycled ← wait_recycle fuel fac;
  if negb recycled then mret false
  else
    (* wait loop clear *)
    f ← get (A := factory) fac;
    (if fa_loop f =? 0 then mret tt else updates (Z.to_nat 10000) fac);;
    (* real delete closed server *)
    f ← get (A := factory) fac;
    delete_servers (fa_closed f);;
    upd fac (set_closed_servers []);;
    mret true.

(** ** Disposing of any connection *)

Implicit Types h : gmap Z obj.

(** What a connection object owns is there; two objects own different blocks. *)
Record conn_ok h (c : conn) : Prop := {
  ok_packet : packet_at h c;
  ok_clnt : cn_clnt c = 0 ∨ ∃ k sock, clnt_at h (cn_clnt c) k sock;
  ok_timer : timer_at h c
}.
Definition apart (c c' : conn) : Prop :=
  (cn_packet c ≠ 0 → cn_packet c ≠ cn_packet c') ∧ (cn_clnt c ≠ 0 → cn_clnt c ≠ cn_clnt c').
Record conns_ok h : Prop := {
  ok_null : h !! 0 = None;
  ok_conn p c : h !! p = Some (OConn c) → conn_ok h c;
  ok_apart p p' c c' : p ≠ p' → h !! p = Some (OConn c) → h !! p' = Some (OConn c') → apart c c'
}.

(** A block that is no connection, packet, client handle or uv object may come and change. *)
Definition plain (o : obj) : Prop :=
  match o with OConn _ | OPacket _ | OClient _ | OUv _ => False | _ => True end.

Lemma conn_ok_weaken h h' c :
  (∀ x o, h !! x = Some o → ¬ plain o → match o with OConn _ => True | _ => h' !! x = Some o end) →
  conn_ok h c → conn_ok h' c.
Proof.
  intros Hh [Hp Hk Ht]. split.
  - destruct Hp as [?|[Hne [pc Hpc]]]; [by left|right]. split; [done|]. exists pc. exact (Hh _ _ Hpc (λ x, x)).
  - destruct Hk as [?|(k & sock & Hk0 & Hkk & Hs & Hsock)]; [by left|right]. exists k, sock. split; [done|].
    split; [exact (Hh _ _ Hkk (λ x, x))|]. split; [done|]. intros Hne. destruct (Hsock Hne) as [u Hu]. exists u.
    exact (Hh _ _ Hu (λ x, x)).
  - destruct Ht as [?|[Hne [u Hu]]]; [by left|right]. split; [done|]. exists u. exact (Hh _ _ Hu (λ x, x)).
Qed.

Lemma conns_ok_plain h x o : conns_ok h → x ≠ 0 → plain o → (∀ o', h !! x = Some o' → plain o') →
  conns_ok (<[x := o]> h).
Proof.
  intros [H0 Hc Ha] Hx Ho Hold.
  assert (∀ y c, <[x := o]> h !! y = Some (OConn c) → h !! y = Some (OConn c)) as Hback.
  { intros y c. rewrite lookup_insert. case_decide; [|done]. intros [= ->]. done. }
  split.
  - by rewrite lookup_insert_ne.
  - intros p c Hp%Hback. eapply conn_ok_weaken; [|by eapply Hc]. intros y oy Hy Hny.
    destruct (decide (y = x)) as [->|]; [by destruct (Hny (Hold _ Hy))|]. destruct oy; try done; by rewrite lookup_insert_ne by congruence.
  - intros p p' c c' Hne Hp%Hback Hp'%Hback. by eapply Ha.
Qed.

(** An object that loses what it owned. *)
Lemma conns_ok_put h p c c' :
  conns_ok h → h !! p = Some (OConn c) → (cn_packet c' = cn_packet c ∨ cn_packet c' = 0) →
  cn_clnt c' = cn_clnt c → (cn_timer c' = cn_timer c ∨ cn_timer c' = 0) → conns_ok (<[p := OConn c']> h).
Proof.
  intros [H0 Hc Ha] Hp Hpk Hk Ht.
  assert (p ≠ 0) as Hp0 by congruence.
  assert (∀ d, conn_ok h d → conn_ok (<[p := OConn c']> h) d) as Hw.
  { intros d. apply conn_ok_weaken. intros x o Hx _. destruct (decide (x = p)) as [->|]; [by simplify_eq|].
    destruct o; try done; by rewrite lookup_insert_ne by congruence. }
  assert (∀ x d, <[p := OConn c']> h !! x = Some (OConn d) →
    (x = p ∧ d = c') ∨ (x ≠ p ∧ h !! x = Some (OConn d))) as Hback.
  { intros x d. rewrite lookup_insert. case_decide; [intros [= <-]; by left|by right]. }
  split.
  - by rewrite lookup_insert_ne.
  - intros x d [[-> ->]|[Hx Hd]]%Hback; [|by eapply Hw, Hc]. apply Hw. destruct (Hc _ _ Hp) as [H1 H2 H3]. split.
    + destruct Hpk as [E|E]; [unfold packet_at; by rewrite E|by left].
    + by rewrite Hk.
    + destruct Ht as [E|E]; [unfold timer_at; by rewrite E|by left].
  - intros x x' d d' Hne [[-> ->]|[Hx Hd]]%Hback [[-> ->]|[Hx' Hd']]%Hback; [done| | |exact (Ha _ _ _ _ Hne Hd Hd')].
    + destruct (Ha _ _ _ _ Hne Hp Hd') as [A1 A2]. split; [|by rewrite Hk].
      destruct Hpk as [->| ->]; [done|done].
    + destruct (Ha _ _ _ _ Hne Hd Hp) as [A1 A2]. split; [|by rewrite Hk].
      destruct Hpk as [->| ->]; [done|by intros ? ?].
Qed.

(** A client handle that loses its socket. *)
Lemma conns_ok_clnt h x k k' : conns_ok h → h !! x = Some (OClient k) →
  clnt_sockimpl k' = clnt_sockimpl k ∨ clnt_sockimpl k' = Some 0 → conns_ok (<[x := OClient k']> h).
Proof.
  intros [H0 Hc Ha] Hx Hk. assert (x ≠ 0) as Hx0 by congruence.
  assert (∀ y c, <[x := OClient k']> h !! y = Some (OConn c) → h !! y = Some (OConn c)) as Hback.
  { intros y c. rewrite lookup_insert. case_decide; [|done]. by intros [=]. }
  split.
  - by rewrite lookup_insert_ne.
  - intros p c Hp%Hback. destruct (Hc _ _ Hp) as [H1 H2 H3]. split.
    + destruct H1 as [?|[Hne [pc Hpc]]]; [by left|right]. split; [done|]. exists pc.
      rewrite lookup_insert_ne; [done|]. congruence.
    + destruct H2 as [?|(kk & sock & Hk0 & Hkk & Hs & Hsock)]; [by left|right].
      destruct (decide (x = cn_clnt c)) as [->|Hne].
      * assert (kk = k) as -> by congruence. exists k', (if decide (clnt_sockimpl k' = clnt_sockimpl k) then sock else 0).
        split; [done|]. split; [apply lookup_insert_eq|]. case_decide; [split; [congruence|]|split; [by destruct Hk|done]].
        intros Hne. destruct (Hsock Hne) as [u Hu]. exists u. rewrite lookup_insert_ne; [done|congruence].
      * exists kk, sock. split; [done|]. split; [by rewrite lookup_insert_ne|]. split; [done|]. intros Hn0.
        destruct (Hsock Hn0) as [u Hu]. exists u. rewrite lookup_insert_ne; [done|congruence].
    + destruct H3 as [?|[Hne [u Hu]]]; [by left|right]. split; [done|]. exists u. rewrite lookup_insert_ne; [done|congruence].
  - intros p p' c c' Hne Hp%Hback Hp'%Hback. by eapply Ha.
Qed.

(** A packet that no object owns any more. *)
Lemma conns_ok_packet h x pc : conns_ok h → h !! x = Some (OPacket pc) →
  (∀ p c, h !! p = Some (OConn c) → cn_packet c ≠ x) → conns_ok (delete x h).
Proof.
  intros [H0 Hc Ha] Hx Hfree.
  assert (∀ y o, delete x h !! y = Some o → y ≠ x ∧ h !! y = Some o) as Hback.
  { intros y o. rewrite lookup_delete. case_decide; [done|]. by split. }
  split.
  - rewrite lookup_delete. by case_decide.
  - intros p c [Hne Hp]%Hback. specialize (Hfree _ _ Hp). destruct (Hc _ _ Hp) as [H1 H2 H3].
    assert (∀ y o, h !! y = Some o → y ≠ x → delete x h !! y = Some o) as Hl by (intros; by rewrite lookup_delete_ne).
    split.
    + destruct H1 as [?|[Hn0 [pc' Hpc]]]; [by left|right]. split; [done|]. exists pc'. by apply Hl.
    + destruct H2 as [?|(k & sock & Hk0 & Hkk & Hs & Hsock)]; [by left|right]. exists k, sock. split; [done|].
      split; [apply Hl; congruence|]. split; [done|]. intros Hn0. destruct (Hsock Hn0) as [u Hu]. exists u. apply Hl; congruence.
    + destruct H3 as [?|[Hn0 [u Hu]]]; [by left|right]. split; [done|]. exists u. apply Hl; congruence.
  - intros p p' c c' Hne [_ Hp]%Hback [_ Hp']%Hback. by eapply Ha.
Qed.

(** Nothing changes but the object, packets and client handles. *)
Definition kept_but (p : Z) h h' : Prop :=
  ∀ x o, x ≠ p → h !! x = Some o →
    match o with OPacket _ | OClient _ => True | _ => h' !! x = Some o end.

(** The same connection later; once it is disposed of nothing changes. *)
Record kin (c c' : conn) : Prop := {
  kin_class : cn_class c' = cn_class c;
  kin_id : cn_id c' = cn_id c;
  kin_ref : cn_ref c' = cn_ref c;
  kin_events : cn_events c' = cn_events c;
  kin_disposed : cn_disposed c = true → c' = c
}.

Lemma kin_refl c : kin c c.
Proof. by split. Qed.
Lemma kin_trans c1 c2 c3 : kin c1 c2 → kin c2 c3 → kin c1 c3.
Proof. intros [A1 A2 A3 A4 A5] [B1 B2 B3 B4 B5]. split; try congruence. intros E. rewrite A5 in * by done. auto. Qed.

(** The same connection, disposed of. *)
Definition disposed_as (c c' : conn) : Prop := cn_disposed c' = true ∧ kin c c'.

Lemma kept_but_refl p h : kept_but p h h.
Proof. by intros x [] _ Hx. Qed.

(** [DisposeConnection], on any connection object and any number of times. *)
Lemma wp_dispose p c (Q : unit → world → Prop) X n h m tr :
  conns_ok h → h !! p = Some (OConn c) →
  (∀ tr' c' h', conns_ok h' → h' !! p = Some (OConn c') → disposed_as c c' → kept_but p h h' → Q tt (World n h' m tr')) →
  wp (DisposeConnection p) Q X (World n h m tr).
Proof.
  intros Hok Hp HQ. pose proof (ok_null _ Hok) as H0. assert (p ≠ 0) as Hp0 by congruence.
  destruct (ok_conn _ Hok _ _ Hp) as [Hpk Hk Ht].
  destruct (cn_disposed c) eqn:Hd.
  { unfold DisposeConnection. do 2 wp_step. cbn beta. rewrite Hd. wp_step. by eapply HQ; [done|done|split; [done|apply kin_refl]|apply kept_but_refl]. }
  (* the packet of the object is deleted last *)
  assert (∀ c' h1 h', conns_ok h1 → h1 !! p = Some (OConn c') → cn_packet c' = 0 →
    (∀ x d, x ≠ p → h1 !! x = Some (OConn d) → h !! x = Some (OConn d)) →
    (∀ pc, h !! cn_packet c = Some (OPacket pc) → h1 !! cn_packet c = Some (OPacket pc)) →
    h' = delete (cn_packet c) h1 → conns_ok h') as Hdel.
  { intros c' h1 h' Hok1 Hp1 Hc' Hback Hpkt ->. destruct Hpk as [E|[Hne [pc Hpc]]].
    - rewrite E, delete_id; [done|]. by apply ok_null.
    - eapply conns_ok_packet; [done|by apply Hpkt|]. intros x d Hx. destruct (decide (x = p)) as [->|Hxp].
      + congruence.
      + specialize (Hback _ _ Hxp Hx). destruct (ok_apart _ Hok p x c d) as [A _]; [done..|]. specialize (A Hne). congruence. }
  assert (∀ pc, h !! cn_packet c = Some (OPacket pc) → cn_packet c ≠ p) as Hpp by (intros pc E1 E2; congruence).
  assert (∀ sock, cn_packet (end_timer (dispose_conn sock c)) = 0 ∧ cn_clnt (end_timer (dispose_conn sock c)) = cn_clnt c ∧
    (cn_timer (end_timer (dispose_conn sock c)) = cn_timer c ∨ cn_timer (end_timer (dispose_conn sock c)) = 0) ∧
    disposed_as c (end_timer (dispose_conn sock c))) as Hfields.
  { intros sock. unfold end_timer. cbn [cn_class dispose_conn flush_conn SetFlushed set_packet SetDisposed].
    destruct (cn_class c) eqn:E; cbn; (split; [done|]; split; [done|]; split; [by auto|split; [done|split; try done; congruence]]). }
  destruct Hk as [Hk0|(k & sock & Hka)].
  - assert (set_packet 0 (SetDisposed true c) = dispose_conn 0 c) as E.
    { unfold dispose_conn, flush_conn. cbn. rewrite orb_false_r. by destruct c. }
    eapply wp_dispose_null; [done..|]. rewrite E. intros tr'. destruct (Hfields 0) as (F1 & F2 & F3 & F4).
    set (c' := end_timer (dispose_conn 0 c)) in *. eapply (HQ tr' c'); [|by rewrite lookup_insert_eq|done|].
    + eapply (Hdel c' (<[p := OConn c']> h)); [|apply lookup_insert_eq|done| | |].
      * eapply conns_ok_put; [done..|by right|done|done].
      * intros x d Hx. by rewrite lookup_insert_ne.
      * intros pc Hpc. rewrite lookup_insert_ne; [done|]. by apply not_eq_sym, (Hpp pc).
      * destruct (decide (cn_packet c = p)) as [Ep|Ep]; [|heap_eq]. destruct Hpk as [?|[_ [pc ?]]]; [lia|by destruct (Hpp pc)].
    + intros x o Hx Ho. rewrite lookup_insert_ne by done. destruct o; try done; rewrite lookup_delete_ne; try done;
        intros <-; destruct Hpk as [?|[_ [pc ?]]]; congruence.
  - pose proof Hka as (Hk0 & Hkk & Hks & Hsock). eapply wp_DisposeConnection; [done..|]. intros tr'.
    destruct (Hfields sock) as (F1 & F2 & F3 & F4). set (c' := end_timer (dispose_conn sock c)) in *.
    set (k' := flush_clnt (cn_flushed c) k).
    assert (cn_clnt c ≠ p) as Hkp by congruence.
    assert (cn_packet c ≠ cn_clnt c) as Hpkk by (intros E; destruct Hpk as [?|[_ [pc ?]]]; congruence).
    eapply (HQ tr' c'); [|by rewrite lookup_insert_eq|done|].
    + eapply (Hdel c' (<[cn_clnt c := OClient k']> (<[p := OConn c']> h))).
      * eapply (conns_ok_clnt _ _ k); [|by rewrite lookup_insert_ne by done|].
        -- eapply conns_ok_put; [done..|by right|done|done].
        -- unfold k', flush_clnt. destruct (cn_flushed c); [by left|by right].
      * by rewrite lookup_insert_ne, lookup_insert_eq by done.
      * done.
      * intros x d Hx. rewrite lookup_insert. case_decide; [done|]. by rewrite lookup_insert_ne.
      * intros pc Hpc. specialize (Hpp pc Hpc). by rewrite !lookup_insert_ne by congruence.
      * destruct (decide (cn_packet c = p)) as [Ep|Ep]; [|heap_eq]. destruct Hpk as [?|[_ [pc ?]]]; [lia|by destruct (Hpp pc)].
    + intros x o Hx Ho. rewrite lookup_insert_ne by done.
      destruct o; try done; rewrite lookup_insert_ne, lookup_delete_ne; try done; intros <-; try congruence;
        destruct Hpk as [?|[_ [pc ?]]]; congruence.
Qed.

(** ** The manager's invariant *)

(** How many clients the maps hold. *)
Definition total (e : gmap Z (gmap Z Z)) : Z := map_fold (λ _ m acc, Z.of_nat (size m) + acc) 0 e.

Definition is_client (c : conn) : bool := match cn_class c with CClient _ => true | CIsolated _ _ => false end.

Record mgr_ok h (f : factory) : Prop := {
  mg_client srv m id cl : fa_entries f !! srv = Some m → m !! id = Some cl →
    (cl ∉ fa_recycler f ++ fa_safe f) ∧
    ∃ c, h !! cl = Some (OConn c) ∧ cn_id c = id ∧ cn_ref c = srv ∧ is_client c = true;
  mg_isolated id p : fa_isolated f !! id = Some p →
    (p ∉ fa_recycler f ++ fa_safe f) ∧ ∃ c, h !! p = Some (OConn c) ∧ cn_id c = id ∧ is_client c = false;
  mg_recycler p : p ∈ fa_recycler f → ∃ c, h !! p = Some (OConn c) ∧ cn_disposed c = true;
  mg_safe p : p ∈ fa_safe f → ∃ c, h !! p = Some (OConn c) ∧ releasable c = true;
  mg_once : NoDup (fa_recycler f ++ fa_safe f);
  mg_count : fa_count f = u64 (total (fa_entries f))
}.

(** The factory object at [fac], with its connections. *)
Definition manager_rep (fac : Z) (f : factory) h : Prop :=
  h !! fac = Some (OFactory f) ∧ conns_ok h ∧ mgr_ok h f.

Lemma total_at e srv m : e !! srv = Some m → total e = Z.of_nat (size m) + total (delete srv e).
Proof.
  intros He. unfold total. rewrite <- (insert_delete_id e srv m) at 1 by done.
  rewrite map_fold_insert_L; [done|intros; lia|by rewrite lookup_delete_eq].
Qed.

Lemma total_insert e srv m : total (<[srv := m]> e) = Z.of_nat (size m) + total (delete srv e).
Proof. rewrite (total_at _ srv m) by apply lookup_insert_eq. by rewrite delete_insert_eq. Qed.

Lemma total_absent e srv : e !! srv = None → total (delete srv e) = total e.
Proof. intros. by rewrite delete_id. Qed.

Lemma u64_succ x y : x = u64 y → u64 (x + 1) = u64 (y + 1).
Proof. intros ->. unfold u64, wrapu. by rewrite Zplus_mod_idemp_l. Qed.
Lemma u64_pred x y : x = u64 y → u64 (x - 1) = u64 (y - 1).
Proof. intros ->. unfold u64, wrapu. by rewrite Zminus_mod_idemp_l. Qed.

(** Ready to be deleted, for an address. *)
Definition ready_at h (p : Z) : bool := match h !! p with Some (OConn c) => releasable c | _ => false end.

(** The operations of the manager that register, release and recycle connections.  Not here
    are [DisposeDownStreams], which is undefined as soon as there is a client
    ([dispose_down_streams_invalidates]), [LookupClientByConnId], which changes nothing, and
    [SafeRelease], which deletes what [MPop] moved to its list. *)
Inductive mgr_op :=
  | MCreate (g : bool) (srv : Z)
  | MCreateIsolated (g : bool) (pc : packet_class)
  | MRemove (srv cl : Z)
  | MReleaseAll (srv : Z)
  | MReleaseIsolateds
  | MDisconnect (cl : Z)
  | MPop.

Definition run_mgr (fac : Z) (op : mgr_op) : prog unit :=
  match op with
  | MCreate g srv => _ ← CreateTcpClientOnServer g fac srv; mret tt
  | MCreateIsolated g pc => _ ← CreateTcpIsolated (CIsolated g pc) fac; mret tt
  | MRemove srv cl => OnRemoveClient fac srv cl
  | MReleaseAll srv => ReleaseAllClients fac srv
  | MReleaseIsolateds => ReleaseAllIsolateds fac
  | MDisconnect cl => Disconnect_client cl
  | MPop => RecyclerPop fac
  end.

(** What the manager's fields become; [n] is the address of the new object. *)
Inductive mgr_step (n : Z) h : mgr_op → factory → factory → Prop :=
  | mgr_create g srv f :
      mgr_step n h (MCreate g srv) f (add_client srv (GetNextConnectionId f).1 n (GetNextConnectionId f).2)
  | mgr_create_isolated g pc f id f1 : GetNextConnectionId f = (id, f1) →
      mgr_step n h (MCreateIsolated g pc) f (set_isolated (<[id := n + 1]> (fa_isolated f)) f1)
  | mgr_remove srv cl c m cl2 f : h !! cl = Some (OConn c) →
      fa_entries f !! srv = Some m → m !! cn_id c = Some cl2 →
      mgr_step n h (MRemove srv cl) f
        (decr_count (set_recycler (fa_recycler f ++ [cl2]) (erase_client srv (cn_id c) f)))
  | mgr_remove_none srv cl c f : h !! cl = Some (OConn c) → fa_entries f !! srv ≫= lookup (cn_id c) = None →
      mgr_step n h (MRemove srv cl) f f
  | mgr_release_all srv m f : fa_entries f !! srv = Some m →
      mgr_step n h (MReleaseAll srv) f
        (set_entries (<[srv := ∅]> (fa_entries f))
          (set_count (u64 (fa_count f - Z.of_nat (size m))) (set_recycler (fa_recycler f ++ (entries m).*2) f)))
  | mgr_release_isolateds f :
      mgr_step n h MReleaseIsolateds f (set_isolated ∅ (set_recycler (fa_recycler f ++ (entries (fa_isolated f)).*2) f))
  | mgr_release_none srv f : fa_entries f !! srv = None → mgr_step n h (MReleaseAll srv) f f
  | mgr_disconnect cl c f f' : h !! cl = Some (OConn c) → cn_disposed c = false → cn_running c = true →
      mgr_step n h (MRemove (cn_ref c) cl) f f' → mgr_step n h (MDisconnect cl) f f'
  | mgr_disconnected cl c f : h !! cl = Some (OConn c) → negb (cn_disposed c) && cn_running c = false →
      mgr_step n h (MDisconnect cl) f f
  | mgr_pop f :
      mgr_step n h MPop f (set_safe (fa_safe f ++ filter (λ p, ready_at h p = true) (fa_recycler f))
        (set_recycler (filter (λ p, ready_at h p = false) (fa_recycler f)) f)).

(** What the heap may have become: connections are as they were, or disposed of. *)
Definition evolves h h' : Prop :=
  ∀ x o, h !! x = Some o →
    match o with
    | OPacket _ | OClient _ | OFactory _ => True
    | OConn c => ∃ c', h' !! x = Some (OConn c') ∧ kin c c'
    | OEvents em => ∃ em', h' !! x = Some (OEvents em') ∧ length (em_handlers em') = length (em_handlers em)
    | _ => h' !! x = Some o
    end.

Lemma evolves_refl h : evolves h h.
Proof. intros x [] Hx; eauto using kin_refl. Qed.

Lemma evolves_trans h1 h2 h3 : evolves h1 h2 → evolves h2 h3 → evolves h1 h3.
Proof.
  intros H12 H23 x o Hx. specialize (H12 x o Hx). destruct o; try done; try (by apply (H23 _ _ H12)).
  - destruct H12 as (em & Hem & E). destruct (H23 _ _ Hem) as (em2 & Hem2 & E2). exists em2. split; [done|congruence].
  - destruct H12 as (c2 & Hc2 & Hk2). destruct (H23 _ _ Hc2) as (c3 & Hc3 & Hk3). exists c3.
    split; [done|by eapply kin_trans].
Qed.

Lemma evolves_dispose p c c' h h' :
  h !! p = Some (OConn c) → h' !! p = Some (OConn c') → disposed_as c c' → kept_but p h h' → evolves h h'.
Proof.
  intros Hp Hp' Hd Hk x o Hx. destruct (decide (x = p)) as [->|Hxp].
  - rewrite Hp in Hx. injection Hx as <-. exists c'. by destruct Hd.
  - specialize (Hk x o Hxp Hx). destruct o; eauto using kin_refl.
Qed.

(** Blocks that are added, or a factory or event manager that changes. *)
Lemma evolves_insert x o h : (∀ o', h !! x = Some o' →
    match o' with OFactory _ => True | OEvents em => ∃ em', o = OEvents em' ∧ length (em_handlers em') = length (em_handlers em) | _ => False end) → evolves h (<[x := o]> h).
Proof.
  intros Hx y oy Hy. rewrite lookup_insert. case_decide as E.
  - subst. specialize (Hx _ Hy). destruct oy; try done. destruct Hx as (em & -> & E). by exists em.
  - destruct oy; eauto using kin_refl.
Qed.

Lemma mgr_ok_evolves h h' f : evolves h h' → mgr_ok h f → mgr_ok h' f.
Proof.
  intros He [H1 H2 H3 H4 H5 H6].
  assert (∀ p c, h !! p = Some (OConn c) → ∃ c', h' !! p = Some (OConn c') ∧ cn_id c' = cn_id c ∧ cn_ref c' = cn_ref c ∧
    is_client c' = is_client c ∧ (cn_disposed c = true → c' = c)) as Hc.
  { intros p c (c' & Hc' & [K1 K2 K3 K4 K5])%He. exists c'. unfold is_client. by rewrite K1. }
  split; [| | | |done|done].
  - intros srv m id cl Hm Hcl. destruct (H1 _ _ _ _ Hm Hcl) as (? & c & Hcc & E1 & E2 & E3).
    split; [done|]. destruct (Hc _ _ Hcc) as (c' & Hc' & F1 & F2 & F3 & _). exists c'. repeat split; congruence.
  - intros id p Hp. destruct (H2 _ _ Hp) as (? & c & Hcc & E1 & E2). split; [done|].
    destruct (Hc _ _ Hcc) as (c' & Hc' & F1 & F2 & F3 & _). exists c'. repeat split; congruence.
  - intros p Hp. destruct (H3 _ Hp) as (c & Hcc & E). destruct (Hc _ _ Hcc) as (c' & Hc' & _ & _ & _ & F).
    exists c'. rewrite Hc', (F E) in *. done.
  - intros p Hp. destruct (H4 _ Hp) as (c & Hcc & E). destruct (Hc _ _ Hcc) as (c' & Hc' & _ & _ & _ & F).
    assert (cn_disposed c = true) as Hdd.
    { unfold releasable in E. by destruct (cn_disposed c); rewrite ?andb_false_r in E. }
    exists c. by rewrite (F Hdd) in Hc'.
Qed.

(** *** Each operation *)

Lemma mgr_nz fac f h x o : manager_rep fac f h → h !! x = Some o → x ≠ 0.
Proof. intros (_ & Hok & _) Hx ->. by rewrite (ok_null _ Hok) in Hx. Qed.

(** New fields for the factory. *)
Lemma manager_put fac f f' h :
  manager_rep fac f h → mgr_ok h f' → manager_rep fac f' (<[fac := OFactory f']> h) ∧ evolves h (<[fac := OFactory f']> h).
Proof.
  intros (Hf & Hok & Hm) Hm'. assert (fac ≠ 0) as H0 by (intros ->; by rewrite (ok_null _ Hok) in Hf).
  assert (evolves h (<[fac := OFactory f']> h)) as He.
  { apply evolves_insert. intros o' Ho. by simplify_eq. }
  split; [|done]. split; [apply lookup_insert_eq|]. split; [|by eapply mgr_ok_evolves].
  apply conns_ok_plain; [done..|]. intros o' Ho. by simplify_eq.
Qed.

Lemma manager_dispose fac f h h' p c c' :
  manager_rep fac f h → h !! p = Some (OConn c) → conns_ok h' → h' !! p = Some (OConn c') → disposed_as c c' →
  kept_but p h h' → manager_rep fac f h' ∧ evolves h h'.
Proof.
  intros (Hf & Hok & Hm) Hp Hok' Hp' Hd Hk. pose proof (evolves_dispose _ _ _ _ _ Hp Hp' Hd Hk) as He.
  split; [|done]. split; [|split; [done|by eapply mgr_ok_evolves]].
  assert (fac ≠ p) as Hne by congruence. apply (Hk fac (OFactory f) Hne Hf).
Qed.

Lemma elem_erase f srv id m srv' m' id' cl :
  fa_entries f !! srv = Some m → fa_entries (erase_client srv id f) !! srv' = Some m' → m' !! id' = Some cl →
  (∃ m0, fa_entries f !! srv' = Some m0 ∧ m0 !! id' = Some cl) ∧ (srv', id') ≠ (srv, id).
Proof.
  intros Hm. cbn. destruct (decide (srv' = srv)) as [->|Hne].
  - rewrite lookup_alter_eq, Hm. intros [= <-]. rewrite lookup_delete. case_decide; [done|].
    intros Hcl. split; [by exists m|]. congruence.
  - rewrite lookup_alter_ne by done. intros Hm' Hcl. split; [by exists m'|]. congruence.
Qed.

Lemma total_erase e srv m id cl : e !! srv = Some m → m !! id = Some cl → total (alter (delete id) srv e) = total e - 1.
Proof.
  intros Hm Hcl. rewrite (total_at e srv m) by done. rewrite (total_at _ srv (delete id m)).
  - rewrite map_size_delete_Some by by eexists. assert (delete srv (alter (delete id) srv e) = delete srv e) as ->.
    { apply map_eq. intros k. rewrite !lookup_delete. case_decide; [done|]. by rewrite lookup_alter_ne. }
    assert (size m ≠ 0%nat). { intros E%map_size_empty_inv. subst. done. } lia.
  - by rewrite lookup_alter_eq, Hm.
Qed.

(** A client leaves the map for the recycler. *)
Lemma mgr_ok_remove h f srv m id cl c :
  mgr_ok h f → fa_entries f !! srv = Some m → m !! id = Some cl → h !! cl = Some (OConn c) → cn_disposed c = true →
  mgr_ok h (decr_count (set_recycler (fa_recycler f ++ [cl]) (erase_client srv id f))).
Proof.
  intros [H1 H2 H3 H4 H5 H6] Hm Hcl Hc Hd. destruct (H1 _ _ _ _ Hm Hcl) as (Hnew & c0 & Hc0 & E1 & E2 & E3).
  assert (c0 = c) as -> by congruence.
  assert (∀ x, x ∈ (fa_recycler f ++ [cl]) ++ fa_safe f → x ∈ fa_recycler f ++ fa_safe f ∨ x = cl) as Hin.
  { intros x. rewrite !elem_of_app, list_elem_of_singleton. naive_solver. }
  split.
  - intros srv' m' id' cl' Hm' Hcl'. destruct (elem_erase f srv id m srv' m' id' cl') as [(m0 & Hm0 & Hcl0) Hne]; [done..|].
    destruct (H1 _ _ _ _ Hm0 Hcl0) as (Hout & c' & Hc' & F1 & F2 & F3). split; [|by exists c'].
    intros [?| ->]%Hin; [done|]. apply Hne. congruence.
  - intros id' p Hp. destruct (H2 _ _ Hp) as (Hout & c' & Hc' & F1 & F2). split; [|by exists c'].
    intros [?| ->]%Hin; [done|]. congruence.
  - intros p. cbn. rewrite elem_of_app, list_elem_of_singleton. intros [Hp| ->]; [by apply H3|]. by exists c.
  - done.
  - cbn. rewrite <- (assoc_L (++)). cbn [app]. rewrite <- Permutation_middle. by constructor.
  - cbn. rewrite (total_erase _ _ _ _ _ Hm Hcl). by apply u64_pred.
Qed.

Lemma wp_OnRemoveClient fac f srv s cl c (Q : unit → world → Prop) X n h m tr :
  manager_rep fac f h → h !! cl = Some (OConn c) → h !! srv = Some (OTcp s) →
  (∀ tr' f' h', mgr_step n h (MRemove srv cl) f f' → manager_rep fac f' h' → evolves h h' → Q tt (World n h' m tr')) →
  wp (OnRemoveClient fac srv cl) Q X (World n h m tr).
Proof.
  intros Hrep Hcl Hsrv HQ. pose proof Hrep as (Hf & Hok & Hm).
  pose proof (mgr_nz _ _ _ _ _ Hrep Hcl). pose proof (mgr_nz _ _ _ _ _ Hrep Hsrv). pose proof (mgr_nz _ _ _ _ _ Hrep Hf).
  unfold OnRemoveClient. do 4 wp_step. cbn beta.
  destruct (fa_entries f !! srv) as [clients|] eqn:Ee; [|wp_step; eapply HQ; [|exact Hrep|apply evolves_refl];
    eapply mgr_remove_none; [done|by rewrite Ee]].
  destruct (clients !! cn_id c) as [cl2|] eqn:Ei; [|wp_step; eapply HQ; [|exact Hrep|apply evolves_refl];
    eapply mgr_remove_none; [done|by rewrite Ee]].
  destruct (mg_client _ _ Hm _ _ _ _ Ee Ei) as (Hout & c2 & Hc2 & E1 & E2 & E3).
  do 3 wp_step. unfold ReleaseConnection. eapply (wp_dispose cl2 c2); [done..|].
  intros tr' c2' h' Hok' Hc2' Hd Hk. destruct (manager_dispose _ _ _ _ _ _ _ Hrep Hc2 Hok' Hc2' Hd Hk) as [Hrep' He'].
  pose proof Hrep' as (Hf' & _ & Hm'). cbn beta. do 2 wp_step. cbn beta. wp_step. unfold RecyclerPush. do 2 wp_step. cbn beta.
  pose proof (mgr_ok_remove h' f srv clients (cn_id c) cl2 c2' Hm' Ee Ei Hc2' (proj1 Hd)) as Hnew.
  destruct (manager_put _ _ _ _ Hrep' Hnew) as [Hrep2 He2].
  eapply HQ; [by eapply mgr_remove|exact Hrep2|by eapply evolves_trans].
Qed.

Lemma wp_release_clients fac l f n h m tr (Q : unit → world → Prop) X :
  h !! fac = Some (OFactory f) → conns_ok h → (∀ cl, cl ∈ l.*2 → ∃ c, h !! cl = Some (OConn c)) →
  u64 (fa_count f) = fa_count f →
  (∀ tr' h', h' !! fac = Some (OFactory (set_count (u64 (fa_count f - zlen l)) (set_recycler (fa_recycler f ++ l.*2) f))) →
    conns_ok h' → evolves h h' → (∀ cl, cl ∈ l.*2 → ∃ c, h' !! cl = Some (OConn c) ∧ cn_disposed c = true) →
    Q tt (World n h' m tr')) →
  wp (release_clients fac l) Q X (World n h m tr).
Proof.
  revert f h tr. induction l as [|[id cl] l IH]; intros f h tr Hf Hok Hl Hcount HQ; cbn [release_clients].
  { wp_step. eapply HQ; [|done|apply evolves_refl|intros ? []%not_elem_of_nil].
    cbn. rewrite Z.sub_0_r, app_nil_r, Hcount. rewrite Hf. by destruct f. }
  destruct (Hl cl) as [c Hc]; [by left|].
  assert (fac ≠ 0) as Hf0 by (intros ->; by rewrite (ok_null _ Hok) in Hf).
  wp_step. unfold ReleaseConnection. eapply (wp_dispose cl c); [done..|]. intros tr' c' h' Hok' Hc' Hd Hk.
  assert (h' !! fac = Some (OFactory f)) as Hf' by (apply (Hk fac (OFactory f)); congruence).
  pose proof (evolves_dispose _ _ _ _ _ Hc Hc' Hd Hk) as He. cbn beta. unfold RecyclerPush. do 4 wp_step. cbn beta.
  assert (∀ f', conns_ok (<[fac := OFactory f']> h') ∧ evolves h' (<[fac := OFactory f']> h')) as Hput.
  { intros f'. split; [apply conns_ok_plain; [done..|]; intros o Ho; by simplify_eq|].
    apply evolves_insert. intros o Ho. by simplify_eq. }
  match goal with |- wp _ _ _ (World _ (<[fac := Io.inj ?g]> _) _ _) => set (f1 := g); destruct (Hput f1) as [Hok1 He1] end.
  assert (evolves h (<[fac := OFactory f1]> h')) as He2 by (by eapply evolves_trans).
  eapply (IH f1); [apply lookup_insert_eq|exact Hok1| | |].
  - intros cl' Hcl'. destruct (Hl cl') as [c0 Hc0]; [by right|]. destruct (He2 _ _ Hc0) as (c1 & Hc1 & _). by exists c1.
  - cbn. unfold u64, wrapu. by rewrite Zmod_mod.
  - intros tr2 h2 Hf2 Hok2 He3 Hdis. eapply HQ; [|done|by eapply evolves_trans|].
    + rewrite Hf2. cbn. f_equal. f_equal. unfold set_count, set_recycler. cbn. f_equal.
      * unfold u64, wrapu. rewrite Zminus_mod_idemp_l. f_equal. lia.
      * by rewrite <- (assoc_L (++)).
    + intros cl' [->|Hcl']%elem_of_cons; [|by apply Hdis]. assert (fac ≠ cl) as Hne by congruence.
      assert (<[fac := OFactory f1]> h' !! cl = Some (OConn c')) as Hx by (by rewrite lookup_insert_ne).
      destruct (He3 _ _ Hx) as (c2 & Hc2 & Hcase). exists c2. split; [done|].
      rewrite (kin_disposed _ _ Hcase (proj1 Hd)). by destruct Hd.
Qed.

Lemma entries_elem (m : gmap Z Z) cl : cl ∈ (entries m).*2 ↔ ∃ id, m !! id = Some cl.
Proof.
  rewrite list_elem_of_fmap. split.
  - intros ([id v] & -> & Hin%elem_of_entries). by exists id.
  - intros [id Hid]. exists (id, cl). split; [done|]. by apply elem_of_entries.
Qed.

Lemma entries_length (m : gmap Z Z) : zlen (entries m) = Z.of_nat (size m).
Proof. by rewrite (entries_perm m), length_map_to_list. Qed.

(** All clients of a server leave for the recycler. *)
Lemma mgr_ok_release_all h f srv m :
  mgr_ok h f → fa_entries f !! srv = Some m →
  (∀ cl, cl ∈ (entries m).*2 → ∃ c, h !! cl = Some (OConn c) ∧ cn_disposed c = true) →
  mgr_ok h (set_entries (<[srv := ∅]> (fa_entries f))
    (set_count (u64 (fa_count f - Z.of_nat (size m))) (set_recycler (fa_recycler f ++ (entries m).*2) f))).
Proof.
  intros [H1 H2 H3 H4 H5 H6] Hm Hd.
  assert (∀ x, x ∈ (fa_recycler f ++ (entries m).*2) ++ fa_safe f →
    x ∈ fa_recycler f ++ fa_safe f ∨ ∃ id, m !! id = Some x) as Hin.
  { intros x. rewrite !elem_of_app, entries_elem. naive_solver. }
  split.
  - cbn. intros srv' m' id' cl' Hm' Hcl'. rewrite lookup_insert in Hm'. case_decide; [by simplify_eq|].
    destruct (H1 _ _ _ _ Hm' Hcl') as (Hout & c' & Hc' & F1 & F2 & F3). split; [|by exists c'].
    intros [?|[id Hid]]%Hin; [done|]. destruct (H1 _ _ _ _ Hm Hid) as (_ & c2 & ? & ? & ? & ?). congruence.
  - intros id' p Hp. destruct (H2 _ _ Hp) as (Hout & c' & Hc' & F1 & F2). split; [|by exists c'].
    intros [?|[id Hid]]%Hin; [done|]. destruct (H1 _ _ _ _ Hm Hid) as (_ & c2 & ? & ? & ? & ?). congruence.
  - intros p. cbn. rewrite elem_of_app. intros [Hp|Hp]; [by apply H3|by apply Hd].
  - done.
  - cbn. rewrite <- (assoc_L (++)), (comm (++) (entries m).*2), (assoc_L (++)). apply NoDup_app. split; [done|]. split.
    + intros x Hx [id Hid]%entries_elem. by destruct (H1 _ _ _ _ Hm Hid).
    + apply NoDup_fmap_2_strong.
      * intros [i1 v1] [i2 v2] E1%elem_of_entries E2%elem_of_entries. cbn. intros <-.
        destruct (H1 _ _ _ _ Hm E1) as (_ & c1 & ? & ? & _). destruct (H1 _ _ _ _ Hm E2) as (_ & c2 & ? & ? & _). congruence.
      * rewrite entries_perm. apply NoDup_map_to_list.
  - cbn. rewrite total_insert, H6, (total_at _ _ _ Hm). unfold u64, wrapu. rewrite Zminus_mod_idemp_l. f_equal.
    rewrite map_size_empty. lia.
Qed.

Lemma wp_ReleaseAllClients fac f srv s em (Q : unit → world → Prop) X n h m tr :
  manager_rep fac f h → h !! srv = Some (OTcp s) → h !! ts_events s = Some (OEvents em) →
  (∀ tr' f' h', mgr_step n h (MReleaseAll srv) f f' → manager_rep fac f' h' → evolves h h' → Q tt (World n h' m tr')) →
  wp (ReleaseAllClients fac srv) Q X (World n h m tr).
Proof.
  intros Hrep Hsrv Hem HQ. pose proof Hrep as (Hf & Hok & Hm).
  pose proof (mgr_nz _ _ _ _ _ Hrep Hsrv). pose proof (mgr_nz _ _ _ _ _ Hrep Hf). pose proof (mgr_nz _ _ _ _ _ Hrep Hem).
  unfold ReleaseAllClients. do 4 wp_step. cbn beta.
  set (h1 := <[ts_events s := _]> h).
  assert (evolves h h1) as He1. { apply evolves_insert. intros o Ho. simplify_eq. eexists. split; [done|]. cbn. by rewrite length_fmap. }
  assert (manager_rep fac f h1) as Hrep1.
  { assert (fac ≠ ts_events s) by congruence. split; [by unfold h1; rewrite lookup_insert_ne|]. split; [|by eapply mgr_ok_evolves].
    apply conns_ok_plain; [done..|]. intros o Ho. by simplify_eq. }
  pose proof Hrep1 as (Hf1 & Hok1 & Hm1). do 2 wp_step. cbn beta.
  destruct (fa_entries f !! srv) as [clients|] eqn:Ee;
    [|wp_step; eapply HQ; [by eapply mgr_release_none|exact Hrep1|exact He1]].
  wp_step. eapply (wp_release_clients fac (entries clients) f); [exact Hf1|exact Hok1| | |].
  { intros cl [id Hid]%entries_elem. destruct (mg_client _ _ Hm1 _ _ _ _ Ee Hid) as (_ & c & Hc & _). by exists c. }
  { rewrite (mg_count _ _ Hm). unfold u64, wrapu. by rewrite Zmod_mod. }
  intros tr' h2 Hf2 Hok2 He2 Hdis. rewrite entries_length in Hf2. cbn beta. wp_step.
  assert (evolves h h2) as He3 by (by eapply evolves_trans).
  pose proof (mgr_ok_release_all h2 f srv clients (mgr_ok_evolves _ _ _ He3 Hm) Ee Hdis) as Hnew.
  match goal with |- Q _ (World _ (<[fac := Io.inj ?g]> _) _ _) => set (f' := g) end.
  assert (conns_ok (<[fac := OFactory f']> h2) ∧ evolves h2 (<[fac := OFactory f']> h2)) as [Hok3 He4].
  { split; [apply conns_ok_plain; [done..|]; intros o Ho; by simplify_eq|].
    apply evolves_insert. intros o Ho. by simplify_eq. }
  eapply (HQ tr' f'); [exact (mgr_release_all n h srv clients f Ee)| |by eapply evolves_trans].
  split; [apply lookup_insert_eq|]. split; [exact Hok3|]. by eapply mgr_ok_evolves.
Qed.

(** *** Releasing the isolated connections *)

(** A connection with its event manager stays one. *)
Lemma evolves_conn_at h h' p c : is_client c = false → evolves h h' → conn_at h p c →
  ∃ c', conn_at h' p c' ∧ kin c c' ∧ h' !! p = Some (OConn c').
Proof.
  unfold is_client. intros Hcl He (Hp & Hc & mgr & em & Hm & Hem & Hl & Hcls). destruct (cn_class c) eqn:E; [done|].
  destruct (He _ _ Hc) as (c' & Hc' & Hk). destruct (He _ _ Hem) as (em' & Hem' & El). pose proof Hk as [K1 _ _ K4 _].
  exists c'. split; [|by split]. split; [done|]. split; [done|]. exists mgr, em'. split; [done|]. split; [done|]. split; [congruence|].
  rewrite K1, E. congruence.
Qed.
Lemma kin_disposed_as c c1 c2 : cn_disposed c = false → kin c c1 → disposed_as c1 c2 → disposed_as c c2.
Proof. intros Hd K1 [? K2]. split; [done|]. by eapply kin_trans. Qed.
Lemma kept_but_put p h h' c : kept_but p (<[p := OConn c]> h) h' → kept_but p h h'.
Proof. intros Hk x o Hx Ho. apply (Hk x o Hx). by rewrite lookup_insert_ne. Qed.

(** [Disconnect], whatever the connection's state. *)
Lemma wp_Disconnect_isolated p c (Q : unit → world → Prop) X n h m tr :
  conns_ok h → conn_at h p c →
  (∀ tr' c' h', conns_ok h' → h' !! p = Some (OConn c') → kin c c' → kept_but p h h' → Q tt (World n h' m tr')) →
  wp (Disconnect_isolated p) Q X (World n h m tr).
Proof.
  intros Hok Hat HQ. pose proof Hat as (Hp & Hc & _). unfold Disconnect_isolated. do 2 wp_step. cbn beta.
  destruct (negb (cn_disposed c) && cn_running c) eqn:E;
    [|wp_step; by eapply HQ; [..|apply kin_refl|apply kept_but_refl]].
  apply andb_true_iff in E as [Hd%negb_true_iff Hr]. do 3 wp_step.
  eapply (wp_OnDisconnect p (set_running false c)); [by apply (conn_at_update h p c)|].
  intros tr1. rewrite insert_insert_eq. cbn beta. set (c2 := SetConnected false (set_running false c)).
  assert (conns_ok (<[p := OConn c2]> h)) as Hok2 by (eapply conns_ok_put; [done..|by left|done|by left]).
  eapply (wp_dispose p c2); [exact Hok2|apply lookup_insert_eq|]. intros tr2 c3 h3 Hok3 Hc3 Hd3 Hk3.
  eapply HQ; [done|exact Hc3| |by eapply kept_but_put]. eapply kin_disposed_as; [done| |exact Hd3]. by split; try done; congruence.
Qed.

Lemma wp_release_isolateds fac l f n h m tr (Q : unit → world → Prop) X :
  h !! fac = Some (OFactory f) → conns_ok h → (∀ p, p ∈ l.*2 → ∃ c, conn_at h p c ∧ is_client c = false) →
  (∀ tr' h', h' !! fac = Some (OFactory (set_recycler (fa_recycler f ++ l.*2) f)) →
    conns_ok h' → evolves h h' → (∀ p, p ∈ l.*2 → ∃ c, h' !! p = Some (OConn c) ∧ cn_disposed c = true) →
    Q tt (World n h' m tr')) →
  wp (release_isolateds fac l) Q X (World n h m tr).
Proof.
  revert f h tr. induction l as [|[id p] l IH]; intros f h tr Hf Hok Hl HQ; cbn [release_isolateds].
  { wp_step. eapply HQ; [|done|apply evolves_refl|intros ? []%not_elem_of_nil]. cbn. rewrite app_nil_r, Hf. by destruct f. }
  destruct (Hl p) as (c & Hat & Hcl); [by left|]. pose proof Hat as (Hp & Hc & mgr & em & Hm & Hem & Hlen & Hcls).
  assert (fac ≠ 0) as Hf0 by (intros ->; by rewrite (ok_null _ Hok) in Hf).
  unfold is_client in Hcl. destruct (cn_class c) eqn:Ecl; [done|]. subst mgr. do 2 wp_step. cbn beta. do 2 wp_step. cbn beta.
  set (h1 := <[cn_events c := _]> h).
  assert (evolves h h1) as He1.
  { apply evolves_insert. intros o Ho. simplify_eq. eexists. split; [done|]. cbn. by rewrite length_fmap. }
  assert (conns_ok h1) as Hok1 by (apply conns_ok_plain; [done..|]; intros o Ho; by simplify_eq).
  destruct (evolves_conn_at h h1 p c) as (c1 & Hat1 & _); [by unfold is_client; rewrite Ecl|done..|].
  assert (h1 !! fac = Some (OFactory f)) as Hf1 by (unfold h1; rewrite lookup_insert_ne by congruence; done).
  wp_step. eapply (wp_Disconnect_isolated p c1); [done..|]. intros tr2 c2 h2 Hok2 Hc2 Hk2 Hkb2. cbn beta. wp_step.
  pose proof Hat1 as (_ & Hc1 & _).
  eapply (wp_dispose p c2); [done..|]. intros tr3 c3 h3 Hok3 Hc3 Hd3 Hkb3. cbn beta. unfold RecyclerPush.
  assert (fac ≠ p) as Hfp by congruence.
  assert (∀ x o, x ≠ p → h1 !! x = Some o → match o with OPacket _ | OClient _ => True | _ => h3 !! x = Some o end) as Hkb.
  { intros x o Hx Ho. specialize (Hkb2 x o Hx Ho). destruct o; try done; exact (Hkb3 _ _ Hx Hkb2). }
  pose proof (Hkb fac _ Hfp Hf1) as Hf3. cbn in Hf3.
  assert (evolves h1 h3) as He3.
  { intros x o Ho. destruct (decide (x = p)) as [->|Hx].
    - rewrite Hc1 in Ho. injection Ho as <-. exists c3. split; [done|]. eapply kin_trans; [exact Hk2|apply Hd3].
    - specialize (Hkb x o Hx Ho). destruct o; eauto using kin_refl. }
  do 2 wp_step. cbn beta. match goal with |- wp _ _ _ (World _ (<[fac := Io.inj ?g]> _) _ _) => set (f1 := g) end.
  assert (conns_ok (<[fac := OFactory f1]> h3)) as Hok4 by (apply conns_ok_plain; [done..|]; intros o Ho; by simplify_eq).
  assert (evolves h3 (<[fac := OFactory f1]> h3)) as He4 by (apply evolves_insert; intros o Ho; by simplify_eq).
  assert (evolves h (<[fac := OFactory f1]> h3)) as He by (eapply evolves_trans, evolves_trans; [exact He1|exact He3|exact He4]).
  eapply (IH f1); [apply lookup_insert_eq|exact Hok4| |].
  - intros q Hq. destruct (Hl q) as (d & Hatq & Hdc); [by right|]. destruct (evolves_conn_at _ _ _ _ Hdc He Hatq) as (d' & Hat' & Hk' & _).
    exists d'. split; [done|]. unfold is_client in *. by rewrite (kin_class _ _ Hk').
  - intros tr5 h5 Hf5 Hok5 He5 Hdis. eapply HQ; [|done|by eapply evolves_trans|].
    + rewrite Hf5. cbn. f_equal. f_equal. unfold set_recycler. cbn. f_equal. by rewrite <- (assoc_L (++)).
    + intros q [->|Hq]%elem_of_cons; [|by apply Hdis].
      assert (<[fac := OFactory f1]> h3 !! p = Some (OConn c3)) as Hx by (by rewrite lookup_insert_ne).
      destruct (He5 _ _ Hx) as (c5 & Hc5 & Hcase). exists c5. split; [done|].
      rewrite (kin_disposed _ _ Hcase (proj1 Hd3)). by destruct Hd3.
Qed.

(** All isolated connections leave for the recycler. *)
Lemma mgr_ok_release_isolateds h f : mgr_ok h f →
  (∀ p, p ∈ (entries (fa_isolated f)).*2 → ∃ c, h !! p = Some (OConn c) ∧ cn_disposed c = true) →
  mgr_ok h (set_isolated ∅ (set_recycler (fa_recycler f ++ (entries (fa_isolated f)).*2) f)).
Proof.
  intros [H1 H2 H3 H4 H5 H6] Hd. set (l := (entries (fa_isolated f)).*2) in *.
  assert (∀ x, x ∈ (fa_recycler f ++ l) ++ fa_safe f → x ∈ fa_recycler f ++ fa_safe f ∨ ∃ id, fa_isolated f !! id = Some x) as Hin.
  { intros x. unfold l. rewrite !elem_of_app, entries_elem. naive_solver. }
  split; cbn.
  - intros srv m id cl Hm Hid. destruct (H1 _ _ _ _ Hm Hid) as (Hout & c & Hc & F1 & F2 & F3). split; [|by exists c].
    intros [?|[id' Hid']]%Hin; [done|]. destruct (H2 _ _ Hid') as (_ & c2 & ? & ? & ?). congruence.
  - intros id p. by rewrite lookup_empty.
  - intros p. rewrite elem_of_app. intros [Hp|Hp]; [by apply H3|by apply Hd].
  - done.
  - rewrite <- (assoc_L (++)), (comm (++) l), (assoc_L (++)). apply NoDup_app. split; [done|]. split.
    + unfold l. intros x Hx [id Hid]%entries_elem. by destruct (H2 _ _ Hid).
    + unfold l. apply NoDup_fmap_2_strong.
      * intros [i1 v1] [i2 v2] E1%elem_of_entries E2%elem_of_entries. cbn. intros <-.
        destruct (H2 _ _ E1) as (_ & c1 & ? & ? & _). destruct (H2 _ _ E2) as (_ & c2 & ? & ? & _). congruence.
      * rewrite entries_perm. apply NoDup_map_to_list.
  - done.
Qed.

Lemma wp_ReleaseAllIsolateds fac f (Q : unit → world → Prop) X n h m tr :
  manager_rep fac f h → (∀ id p, fa_isolated f !! id = Some p → ∃ c, conn_at h p c) →
  (∀ tr' f' h', mgr_step n h MReleaseIsolateds f f' → manager_rep fac f' h' → evolves h h' → Q tt (World n h' m tr')) →
  wp (ReleaseAllIsolateds fac) Q X (World n h m tr).
Proof.
  intros Hrep Hats HQ. pose proof Hrep as (Hf & Hok & Hm). pose proof (mgr_nz _ _ _ _ _ Hrep Hf).
  unfold ReleaseAllIsolateds. do 2 wp_step. cbn beta. wp_step. eapply (wp_release_isolateds fac (entries (fa_isolated f)) f); [done..| |].
  { intros p [id Hid]%entries_elem. destruct (Hats _ _ Hid) as (c & Hat). exists c. split; [done|].
    destruct (mg_isolated _ _ Hm _ _ Hid) as (_ & c' & Hc' & _ & ?). pose proof Hat as (_ & Hc & _). congruence. }
  intros tr' h2 Hf2 Hok2 He2 Hdis. cbn beta. wp_step.
  pose proof (mgr_ok_release_isolateds h2 f (mgr_ok_evolves _ _ _ He2 Hm) Hdis) as Hnew.
  match goal with |- Q _ (World _ (<[fac := Io.inj ?g]> _) _ _) => set (f' := g) end.
  assert (conns_ok (<[fac := OFactory f']> h2)) as Hok3 by (apply conns_ok_plain; [done..|]; intros o Ho; by simplify_eq).
  assert (evolves h2 (<[fac := OFactory f']> h2)) as He4 by (apply evolves_insert; intros o Ho; by simplify_eq).
  eapply (HQ tr' f'); [constructor| |by eapply evolves_trans].
  split; [apply lookup_insert_eq|]. split; [exact Hok3|]. by eapply mgr_ok_evolves.
Qed.

Lemma conns_ok_new h x c : conns_ok h → h !! x = None → x ≠ 0 →
  cn_packet c = 0 → cn_clnt c = 0 → cn_timer c = 0 → conns_ok (<[x := OConn c]> h).
Proof.
  intros [H0 Hc Ha] Hx Hx0 E1 E2 E3.
  assert (∀ d, conn_ok h d → conn_ok (<[x := OConn c]> h) d) as Hw.
  { intros d. apply conn_ok_weaken. intros y o Hy _. destruct o; try done; rewrite lookup_insert_ne; congruence. }
  assert (∀ y d, <[x := OConn c]> h !! y = Some (OConn d) → (y = x ∧ d = c) ∨ (y ≠ x ∧ h !! y = Some (OConn d))) as Hback.
  { intros y d. rewrite lookup_insert. case_decide; [intros [= <-]; by left|by right]. }
  split.
  - by rewrite lookup_insert_ne.
  - intros p d [[-> ->]|[Hp Hd]]%Hback; [|by eapply Hw, Hc]. split; by left.
  - intros p p' d d' Hne [[-> ->]|[Hp Hd]]%Hback [[-> ->]|[Hp' Hd']]%Hback; [done| | |exact (Ha _ _ _ _ Hne Hd Hd')];
      split; rewrite ?E1, ?E2; by intros ? ?.
Qed.

(** The recycled and the released are objects of the heap. *)
Lemma mgr_elem h f p : mgr_ok h f → p ∈ fa_recycler f ++ fa_safe f → ∃ c, h !! p = Some (OConn c).
Proof.
  intros Hm [Hp|Hp]%elem_of_app.
  - destruct (mg_recycler _ _ Hm _ Hp) as (c & Hc & _). by exists c.
  - destruct (mg_safe _ _ Hm _ Hp) as (c & Hc & _). by exists c.
Qed.

Lemma mgr_ok_next h f x : mgr_ok h f → mgr_ok h (set_next_id x f).
Proof. by intros []. Qed.

Lemma total_add e srv id cl : e !! srv ≫= lookup id = None →
  total (<[srv := <[id := cl]> (default ∅ (e !! srv))]> e) = total e + 1.
Proof.
  intros Hnew. rewrite total_insert. destruct (e !! srv) as [m|] eqn:E; cbn in *.
  - rewrite (total_at e srv m), map_size_insert_None by done. lia.
  - rewrite total_absent, map_size_insert_None by done. rewrite map_size_empty. lia.
Qed.

Lemma mgr_ok_add h f srv cl c : mgr_ok h f → h !! cl = Some (OConn c) → cn_ref c = srv → is_client c = true →
  (cl ∉ fa_recycler f ++ fa_safe f) → fa_entries f !! srv ≫= lookup (cn_id c) = None → mgr_ok h (add_client srv (cn_id c) cl f).
Proof.
  intros [H1 H2 H3 H4 H5 H6] Hc Hr Hcl Hout Hnew. split; [|done..|].
  - cbn. intros srv' m id cl' Hm Hid. rewrite lookup_insert in Hm. case_decide as E.
    + subst srv'. injection Hm as <-. rewrite lookup_insert in Hid. case_decide as E2.
      * injection Hid as <-. split; [done|]. by exists c.
      * destruct (fa_entries f !! srv) as [m|] eqn:Em; cbn in Hid; [|by rewrite lookup_empty in Hid]. by eapply H1.
    + by eapply H1.
  - cbn. rewrite total_add by done. by apply u64_succ.
Qed.

Lemma wp_CreateTcpClientOnServer g fac f srv (Q : Z → world → Prop) X n h m tr :
  manager_rep fac f h → h !! n = None → n ≠ 0 → fa_entries f !! srv ≫= lookup (GetNextConnectionId f).1 = None →
  (∀ tr' f' h', f' = add_client srv (GetNextConnectionId f).1 n (GetNextConnectionId f).2 → manager_rep fac f' h' →
    evolves h h' → h' !! n = Some (OConn (new_conn (CClient g) (GetNextConnectionId f).1 srv 0)) →
    (∀ x, x ≠ n → x ≠ fac → h' !! x = h !! x) → Q n (World (n + 1) h' m tr')) →
  wp (CreateTcpClientOnServer g fac srv) Q X (World n h m tr).
Proof.
  intros Hrep Hn Hn0 Hnew HQ. pose proof Hrep as (Hf & Hok & Hm). pose proof (mgr_nz _ _ _ _ _ Hrep Hf).
  assert (fac ≠ n) as Hfn by congruence.
  unfold CreateTcpClientOnServer. do 2 wp_step. cbn beta. destruct (GetNextConnectionId f) as [id f1] eqn:Eg. cbn [fst snd] in *.
  assert (mgr_ok h f1) as Hm1 by (unfold GetNextConnectionId in Eg; injection Eg as _ <-; by apply mgr_ok_next).
  assert (fa_entries f1 = fa_entries f) as Ee by (unfold GetNextConnectionId in Eg; by injection Eg as _ <-).
  do 5 wp_step. unfold OnAddClient. do 4 wp_step.
  set (c := new_conn (CClient g) id srv 0). set (h1 := <[n := OConn c]> h).
  assert (evolves h h1) as He1 by (apply evolves_insert; intros o Ho; congruence).
  assert (conns_ok h1) as Hok1 by (by apply conns_ok_new).
  assert (mgr_ok h1 (add_client srv (cn_id c) n f1)) as Hm2.
  { apply mgr_ok_add; try done.
    - by eapply mgr_ok_evolves.
    - apply lookup_insert_eq.
    - intros Hin. destruct (mgr_elem _ _ _ Hm1 Hin) as [d Hd]. congruence.
    - by rewrite Ee. }
  assert (h1 !! fac = Some (OFactory f)) as Hf1 by (unfold h1; by rewrite lookup_insert_ne).
  destruct (manager_put fac f (add_client srv (cn_id c) n f1) h1) as [Hrep2 He2];
    [split; [done|]; split; [done|by eapply mgr_ok_evolves]|done|].
  match goal with |- Q _ (World _ ?h' _ _) => replace h' with (<[fac := OFactory (add_client srv (cn_id c) n f1)]> h1) end.
  - eapply HQ; [done|exact Hrep2|by eapply evolves_trans| |].
    + unfold h1. by rewrite lookup_insert_ne, lookup_insert_eq.
    + intros x Hx Hxf. unfold h1. by rewrite !lookup_insert_ne.
  - unfold h1. cbn. heap_eq.
Qed.

Lemma mgr_ok_add_isolated h f id p c : mgr_ok h f → h !! p = Some (OConn c) → cn_id c = id → is_client c = false →
  (p ∉ fa_recycler f ++ fa_safe f) → mgr_ok h (set_isolated (<[id := p]> (fa_isolated f)) f).
Proof.
  intros [H1 H2 H3 H4 H5 H6] Hc Hid Hcl Hout. split; try done. cbn. intros id' q. rewrite lookup_insert. case_decide.
  - intros [= <-]. split; [done|]. exists c. split; [done|]. split; [congruence|done].
  - apply H2.
Qed.

Lemma wp_CreateTcpIsolated g pc fac f (Q : Z → world → Prop) X n h m tr :
  manager_rep fac f h → h !! n = None → h !! (n + 1) = None → 0 < n →
  (∀ tr' f' h', mgr_step n h (MCreateIsolated g pc) f f' → manager_rep fac f' h' → evolves h h' →
    Q (n + 1) (World (n + 1 + 1) h' m tr')) →
  wp (CreateTcpIsolated (CIsolated g pc) fac) Q X (World n h m tr).
Proof.
  intros Hrep Hn Hn1 Hn0 HQ. pose proof Hrep as (Hf & Hok & Hm). pose proof (mgr_nz _ _ _ _ _ Hrep Hf).
  assert (fac ≠ n) as Hfn by congruence. assert (fac ≠ n + 1) as Hfn1 by congruence.
  unfold CreateTcpIsolated. do 2 wp_step. cbn beta. destruct (GetNextConnectionId f) as [id f1] eqn:Eg.
  assert (mgr_ok h f1) as Hm1 by (unfold GetNextConnectionId in Eg; injection Eg as _ <-; by apply mgr_ok_next).
  do 7 wp_step. unfold OnAddIsolated. do 4 wp_step.
  set (c := new_conn (CIsolated g pc) id fac n). set (h0 := <[n := OEvents new_event_manager]> h).
  set (h1 := <[n + 1 := OConn c]> h0).
  assert (h0 !! (n + 1) = None) as Hn2 by (unfold h0; rewrite lookup_insert_ne by lia; done).
  assert (evolves h h1) as He1.
  { eapply evolves_trans with h0; apply evolves_insert; intros o Ho; congruence. }
  assert (conns_ok h1) as Hok1.
  { apply conns_ok_new; try done; [|lia]. apply conns_ok_plain; [done|lia|done|]. intros o Ho. congruence. }
  set (f2 := set_isolated (<[id := n + 1]> (fa_isolated f)) f1).
  assert (fa_isolated f1 = fa_isolated f) as Ei by (unfold GetNextConnectionId in Eg; by injection Eg as _ <-).
  assert (mgr_ok h1 f2) as Hm2.
  { unfold f2. rewrite <- Ei. apply mgr_ok_add_isolated with c; [by eapply mgr_ok_evolves|apply lookup_insert_eq|done..|].
    intros Hin. destruct (mgr_elem _ _ _ Hm1 Hin) as [d Hd]. congruence. }
  assert (h1 !! fac = Some (OFactory f)) as Hf1 by (unfold h1, h0; by rewrite !lookup_insert_ne).
  destruct (manager_put fac f f2 h1) as [Hrep2 He2]; [split; [done|]; split; [done|by eapply mgr_ok_evolves]|done|].
  match goal with |- Q _ (World _ ?h' _ _) => replace h' with (<[fac := OFactory f2]> h1) end.
  - eapply HQ; [by eapply mgr_create_isolated|exact Hrep2|by eapply evolves_trans].
  - unfold h1, h0. cbn. unfold f2. rewrite <- Ei. heap_eq.
Qed.

(** *** The recycler *)

Lemma wp_recycler_loop l (Q : list Z * list Z → world → Prop) X n h m tr :
  (∀ p, p ∈ l → p ≠ 0 ∧ ∃ c, h !! p = Some (OConn c)) →
  Q (filter (λ p, ready_at h p = false) l, filter (λ p, ready_at h p = true) l) (World n h m tr) →
  wp (recycler_loop l) Q X (World n h m tr).
Proof.
  revert Q. induction l as [|p l IH]; intros Q Hl HQ; cbn [recycler_loop]; [by wp_step|].
  destruct (Hl p) as (Hp0 & c & Hc); [by left|]. do 3 wp_step. apply IH; [intros q Hq; apply Hl; by right|].
  wp_step. rewrite !filter_cons in HQ. assert (ready_at h p = releasable c) as E by (unfold ready_at; by rewrite Hc).
  destruct (releasable c); [rewrite decide_False, decide_True in HQ by congruence|
    rewrite decide_True, decide_False in HQ by congruence]; exact HQ.
Qed.

Lemma filter_bool_perm {A} (P : A → bool) (l : list A) : filter (λ x, P x = false) l ++ filter (λ x, P x = true) l ≡ₚ l.
Proof.
  induction l as [|x l IH]; [done|]. rewrite !filter_cons. destruct (P x) eqn:E.
  - rewrite decide_False, decide_True by congruence. rewrite <- Permutation_middle. by rewrite IH.
  - rewrite decide_True, decide_False by congruence. cbn. by rewrite IH.
Qed.

Lemma mgr_ok_pop h f : mgr_ok h f →
  mgr_ok h (set_safe (fa_safe f ++ filter (λ p, ready_at h p = true) (fa_recycler f))
    (set_recycler (filter (λ p, ready_at h p = false) (fa_recycler f)) f)).
Proof.
  intros [H1 H2 H3 H4 H5 H6]. set (kept := filter (λ p, ready_at h p = false) _). set (safe := filter (λ p, ready_at h p = true) _).
  assert (kept ++ fa_safe f ++ safe ≡ₚ fa_recycler f ++ fa_safe f) as Hperm.
  { rewrite (comm (++) (fa_safe f)), (assoc (++)). unfold kept, safe. by rewrite filter_bool_perm. }
  split; cbn.
  - intros srv m id cl. rewrite Hperm. apply H1.
  - intros id p. rewrite Hperm. apply H2.
  - intros p [_ Hp]%list_elem_of_filter. by apply H3.
  - intros p [Hp|[Hr Hp]%list_elem_of_filter]%elem_of_app; [by apply H4|].
    destruct (H3 _ Hp) as (c & Hc & _). exists c. split; [done|]. unfold ready_at in Hr. by rewrite Hc in Hr.
  - by rewrite Hperm.
  - done.
Qed.

Lemma wp_RecyclerPop fac f (Q : unit → world → Prop) X n h m tr :
  manager_rep fac f h →
  (∀ f' h', mgr_step n h MPop f f' → manager_rep fac f' h' → evolves h h' → Q tt (World n h' m tr)) →
  wp (RecyclerPop fac) Q X (World n h m tr).
Proof.
  intros Hrep HQ. pose proof Hrep as (Hf & Hok & Hm). pose proof (mgr_nz _ _ _ _ _ Hrep Hf).
  unfold RecyclerPop. do 3 wp_step. apply wp_recycler_loop.
  { intros p Hp. destruct (mg_recycler _ _ Hm p Hp) as (c & Hc & _). split; [by eapply mgr_nz|by exists c]. }
  wp_step. destruct (manager_put _ _ _ _ Hrep (mgr_ok_pop h f Hm)) as [Hrep2 He2].
  eapply HQ; [constructor|exact Hrep2|exact He2].
Qed.

(** *** Disconnecting *)

Lemma evolves_put h p c c' : h !! p = Some (OConn c) → kin c c' → evolves h (<[p := OConn c']> h).
Proof.
  intros Hp Hk x o Hx. rewrite lookup_insert. case_decide as E; [subst; simplify_eq; by exists c'|].
  destruct o; eauto using kin_refl.
Qed.

Lemma manager_kin fac f h p c c' : manager_rep fac f h → h !! p = Some (OConn c) → kin c c' →
  cn_packet c' = cn_packet c → cn_clnt c' = cn_clnt c → cn_timer c' = cn_timer c →
  manager_rep fac f (<[p := OConn c']> h) ∧ evolves h (<[p := OConn c']> h).
Proof.
  intros (Hf & Hok & Hm) Hp Hk E1 E2 E3. pose proof (evolves_put _ _ _ _ Hp Hk) as He. split; [|done].
  split; [rewrite lookup_insert_ne; [done|congruence]|]. split; [|by eapply mgr_ok_evolves].
  eapply conns_ok_put; [done..|by left|done|by left].
Qed.

Lemma mgr_step_at n n' h h' srv cl c c' f f' : h !! cl = Some (OConn c) → h' !! cl = Some (OConn c') → cn_id c' = cn_id c →
  mgr_step n' h' (MRemove srv cl) f f' → mgr_step n h (MRemove srv cl) f f'.
Proof.
  intros Hc Hc' Hid Hs. inversion Hs; subst; simplify_eq; rewrite ?Hid in *; [by eapply mgr_remove|by eapply mgr_remove_none].
Qed.

Lemma wp_Disconnect_client fac f cl c s (Q : unit → world → Prop) X n h m tr :
  manager_rep fac f h → conn_at h cl c → h !! cn_ref c = Some (OTcp s) → ts_factory s = fac →
  (∀ tr' f' h', mgr_step n h (MDisconnect cl) f f' → manager_rep fac f' h' → evolves h h' → Q tt (World n h' m tr')) →
  wp (Disconnect_client cl) Q X (World n h m tr).
Proof.
  intros Hrep Hat Hs Hfac HQ. pose proof Hat as (Hcl0 & Hc & _). pose proof (mgr_nz _ _ _ _ _ Hrep Hs).
  unfold Disconnect_client. do 2 wp_step. cbn beta. destruct (negb (cn_disposed c) && cn_running c) eqn:E;
    [|wp_step; eapply HQ; [by eapply mgr_disconnected|done|apply evolves_refl]].
  apply andb_true_iff in E as [Hd%negb_true_iff Hr]. do 3 wp_step.
  destruct (manager_kin fac f h cl c (set_running false c)) as [Hrep1 He1]; try done.
  { split; try done. congruence. }
  eapply (wp_OnDisconnect cl (set_running false c)); [by apply (conn_at_update h cl c)|].
  intros tr1. rewrite insert_insert_eq. cbn beta. set (c2 := SetConnected false (set_running false c)).
  destruct (manager_kin fac f h cl c c2) as [Hrep2 He2]; try done.
  { split; try done. congruence. }
  assert (cl ≠ cn_ref c) as Hne by congruence.
  do 2 wp_step. cbn beta. rewrite Hfac. eapply (wp_OnRemoveClient fac f (cn_ref c) s cl c2);
    [exact Hrep2|apply lookup_insert_eq|by rewrite lookup_insert_ne|].
  intros tr' f' h' Hstep Hrep' He'. eapply HQ; [|exact Hrep'|by eapply evolves_trans].
  eapply mgr_disconnect; [done..|]. eapply mgr_step_at; [exact Hc| | |exact Hstep]; [apply lookup_insert_eq|done].
Qed.

(** The client that the map of its server has under an id is the one the call is about:
    [assert(pClient2 == pClient)]. *)
Definition registered_as (f : factory) (srv id cl : Z) : Prop :=
  ∀ m cl2, fa_entries f !! srv = Some m → m !! id = Some cl2 → cl2 = cl.

(** What the operations need: the objects they are called with, and, for a new client, a
    connection id that no client of its server has. *)
Definition mgr_pre (fac : Z) (f : factory) (op : mgr_op) (w : world) : Prop :=
  match op with
  | MCreate g srv =>
      w_heap w !! w_next w = None ∧ 0 < w_next w ∧ fa_entries f !! srv ≫= lookup (GetNextConnectionId f).1 = None
  | MCreateIsolated g pc => w_heap w !! w_next w = None ∧ w_heap w !! (w_next w + 1) = None ∧ 0 < w_next w
  | MRemove srv cl =>
      (∃ c, w_heap w !! cl = Some (OConn c) ∧ registered_as f srv (cn_id c) cl) ∧ ∃ s, w_heap w !! srv = Some (OTcp s)
  | MReleaseAll srv =>
      ∃ s em, w_heap w !! srv = Some (OTcp s) ∧ w_heap w !! ts_events s = Some (OEvents em)
  | MReleaseIsolateds => ∀ id p, fa_isolated f !! id = Some p → ∃ c, conn_at (w_heap w) p c
  | MDisconnect cl =>
      ∃ c s, conn_at (w_heap w) cl c ∧ w_heap w !! cn_ref c = Some (OTcp s) ∧ ts_factory s = fac ∧
        registered_as f (cn_ref c) (cn_id c) cl
  | MPop => True
  end.

(** C15: Creating a client or an isolated connection, removing a client, releasing all clients
    of a server or all isolated connections, disconnecting a client, and moving what is due
    for deletion out of the recycler, on a factory whose maps, counter and recycler are
    consistent ([manager_rep]: a registered connection is a live object with its id and
    server and is not in the recycler, the recycler holds disposed objects, each once,
    objects that are due for deletion satisfy the release condition, and the counter is the
    number of registered clients) and on live objects, with the code's assertion that a
    client that is removed is the registered one: each runs without undefined behaviour,
    changes the fields as [mgr_step] says, and keeps all of this.  Connections keep their
    identity, disposed ones do not change at all, and but for packets, client handles and
    the handlers of event managers every other block is as it was ([evolves]). *)
Theorem manager_keeps (fac : Z) (f : factory) (op : mgr_op) (w : world) (Hrep : manager_rep fac f (w_heap w))
    (Hpre : mgr_pre fac f op w) :
  wp (run_mgr fac op) (λ _ w', ∃ f', mgr_step (w_next w) (w_heap w) op f f' ∧ manager_rep fac f' (w_heap w') ∧
    evolves (w_heap w) (w_heap w')) (λ _, False) w.
Proof.
  destruct w as [n h m tr]. cbn [w_next w_heap] in *. destruct op as [g srv|g pc|srv cl|srv| |cl|]; cbn in Hpre |- *.
  - destruct Hpre as (Hn & Hn0 & Hnew). wp_step. eapply wp_CreateTcpClientOnServer; [done|done|lia|done|].
    intros tr' f' h' -> Hrep' He _ _. wp_step. by eexists; split; [constructor|].
  - destruct Hpre as (Hn & Hn1 & Hn0). wp_step. eapply wp_CreateTcpIsolated; [done..|].
    intros tr' f' h' Hs Hrep' He. wp_step. by exists f'.
  - destruct Hpre as ((c & Hc & _) & s & Hs). eapply wp_OnRemoveClient; [done..|]. intros tr' f' h' Hst Hrep' He. by exists f'.
  - destruct Hpre as (s & em & Hs & Hem). eapply wp_ReleaseAllClients; [done..|]. intros tr' f' h' Hst Hrep' He. by exists f'.
  - eapply wp_ReleaseAllIsolateds; [done..|]. intros tr' f' h' Hst Hrep' He. by exists f'.
  - destruct Hpre as (c & s & Hat & Hs & Hfac & _). eapply wp_Disconnect_client; [done..|]. intros tr' f' h' Hst Hrep' He. by exists f'.
  - eapply wp_RecyclerPop; [done|]. intros f' h' Hst Hrep' He. by exists f'.
Qed.

(** ** Connection ids *)

Fixpoint next_ids (k : nat) (f : factory) : list Z :=
  match k with O => [] | S k => let '(id, f) := GetNextConnectionId f in id :: next_ids k f end.

Definition id_period : Z := TCP_CONNID_MAX - TCP_CONNID_BASE - 1.

Lemma next_id_eq f : TCP_CONNID_BASE ≤ fa_next_id f < TCP_CONNID_MAX →
  (GetNextConnectionId f).1 = TCP_CONNID_BASE + 1 + (fa_next_id f - TCP_CONNID_BASE) mod id_period.
Proof.
  unfold GetNextConnectionId, TCP_CONNID_BASE, TCP_CONNID_MAX, id_period. intros Hr. cbn [fst].
  rewrite u64_small by lia. destruct (Z.leb_spec 1000000000000 (fa_next_id f + 1)).
  - replace (fa_next_id f) with 999999999999 by lia. reflexivity.
  - rewrite Z.mod_small by (unfold TCP_CONNID_MAX, TCP_CONNID_BASE; lia). lia.
Qed.

Lemma next_ids_eq k f : TCP_CONNID_BASE ≤ fa_next_id f < TCP_CONNID_MAX →
  next_ids k f = (λ i, TCP_CONNID_BASE + 1 + (fa_next_id f - TCP_CONNID_BASE + Z.of_nat i) mod id_period) <$> seq 0 k.
Proof.
  revert f. induction k as [|k IH]; intros f Hr; [done|]. cbn [next_ids seq fmap list_fmap].
  pose proof (next_id_eq f Hr) as E. destruct (GetNextConnectionId f) as [id f1] eqn:Eg. cbn [fst] in E.
  assert (fa_next_id f1 = id) as E1 by (unfold GetNextConnectionId in Eg; by injection Eg as <- <-).
  pose proof (Z.mod_pos_bound (fa_next_id f - TCP_CONNID_BASE) id_period ltac:(done)) as Hb.
  f_equal; [by rewrite Z.add_0_r|]. rewrite IH.
  - rewrite <- fmap_S_seq, <- list_fmap_compose. apply list_fmap_ext. intros i j _. cbn. rewrite E1, E.
    f_equal. replace (TCP_CONNID_BASE + 1 + (fa_next_id f - TCP_CONNID_BASE) mod id_period - TCP_CONNID_BASE + Z.of_nat j)
      with ((fa_next_id f - TCP_CONNID_BASE) mod id_period + (1 + Z.of_nat j)) by lia.
    rewrite Zplus_mod_idemp_l. f_equal. lia.
  - rewrite E1, E. unfold id_period, TCP_CONNID_BASE, TCP_CONNID_MAX in *. lia.
Qed.

(** C35: Connection ids stay between the two constants, and no id comes back before all the
    others were given out: among 998999999999 consecutive connections all ids differ. *)
Theorem ids_distinct (k : nat) (f : factory) (Hf : TCP_CONNID_BASE ≤ fa_next_id f < TCP_CONNID_MAX)
    (Hk : Z.of_nat k ≤ id_period) :
  NoDup (next_ids k f) ∧ Forall (λ id, TCP_CONNID_BASE < id < TCP_CONNID_MAX) (next_ids k f).
Proof.
  rewrite next_ids_eq by done. set (y := fa_next_id f - TCP_CONNID_BASE). split.
  - apply NoDup_fmap_2_strong; [|apply NoDup_ListNoDup, seq_NoDup]. intros i j Hi%elem_of_seq Hj%elem_of_seq E.
    assert ((y + Z.of_nat i) mod id_period = (y + Z.of_nat j) mod id_period) as E2 by lia. clear E.
    pose proof (Z.div_mod (y + Z.of_nat i) id_period ltac:(done)). pose proof (Z.div_mod (y + Z.of_nat j) id_period ltac:(done)).
    assert ((y + Z.of_nat i) / id_period = (y + Z.of_nat j) / id_period); [|lia].
    set (a := (y + Z.of_nat i) / id_period) in *. set (b := (y + Z.of_nat j) / id_period) in *.
    unfold id_period, TCP_CONNID_MAX, TCP_CONNID_BASE in *. lia.
  - apply Forall_fmap, Forall_true. intros i. cbn. pose proof (Z.mod_pos_bound (y + Z.of_nat i) id_period ltac:(done)).
    unfold id_period, TCP_CONNID_MAX, TCP_CONNID_BASE in *. lia.
Qed.

(** ** Errors *)

(** *** Closing a server that has clients *)

Lemma manager_conn fac f h p c c' : manager_rep fac f h → h !! p = Some (OConn c) → (p ∉ fa_recycler f ++ fa_safe f) →
  cn_class c' = cn_class c → cn_id c' = cn_id c → cn_ref c' = cn_ref c →
  cn_packet c' = cn_packet c → cn_clnt c' = cn_clnt c → cn_timer c' = cn_timer c →
  manager_rep fac f (<[p := OConn c']> h).
Proof.
  intros (Hf & Hok & [H1 H2 H3 H4 H5 H6]) Hp Hout E1 E2 E3 E4 E5 E6.
  split; [rewrite lookup_insert_ne; [done|congruence]|]. split; [eapply conns_ok_put; [done..|by left|done|by left]|].
  assert (∀ q d, h !! q = Some (OConn d) → ∃ d', <[p := OConn c']> h !! q = Some (OConn d') ∧ cn_id d' = cn_id d ∧
    cn_ref d' = cn_ref d ∧ is_client d' = is_client d ∧ (q ≠ p → d' = d)) as Hd.
  { intros q d Hq. destruct (decide (p = q)) as [<-|Hne].
    - simplify_eq. exists c'. rewrite lookup_insert_eq. unfold is_client. rewrite E1. done.
    - exists d. by rewrite lookup_insert_ne. }
  split; [| | | |done|done].
  - intros srv m id cl Hm Hcl. destruct (H1 _ _ _ _ Hm Hcl) as (? & d & Hdd & F1 & F2 & F3). split; [done|].
    destruct (Hd _ _ Hdd) as (d' & Hd' & G1 & G2 & G3 & _). exists d'. repeat split; congruence.
  - intros id q Hq. destruct (H2 _ _ Hq) as (? & d & Hdd & F1 & F2). split; [done|].
    destruct (Hd _ _ Hdd) as (d' & Hd' & G1 & G2 & G3 & _). exists d'. repeat split; congruence.
  - intros q Hq. destruct (H3 _ Hq) as (d & Hdd & F). destruct (Hd _ _ Hdd) as (d' & Hd' & _ & _ & _ & G).
    exists d. rewrite <- (G ltac:(set_solver)). split; [done|]. rewrite G; [done|set_solver].
  - intros q Hq. destruct (H4 _ Hq) as (d & Hdd & F). destruct (Hd _ _ Hdd) as (d' & Hd' & _ & _ & _ & G).
    exists d. rewrite <- (G ltac:(set_solver)). split; [done|]. rewrite G; [done|set_solver].
Qed.

(** [DisposeDownStreams] lets [AddClientDisconnectCb] take each client out of the map whose
    entries it is walking: with at least one client the range-for moves on from an entry
    that [OnRemoveClient] has erased. *)
Theorem dispose_down_streams_invalidates (fac srv : Z) (f : factory) (s : tcp_server) (em : event_manager)
    (clients : gmap Z Z) (w : world) (Hrep : manager_rep fac f (w_heap w))
    (Hsrv : w_heap w !! srv = Some (OTcp s)) (Hem : w_heap w !! ts_events s = Some (OEvents em))
    (Hlen : length (em_handlers em) = TCP_EVENT_ID_MAX)
    (Hcl : fa_entries f !! srv = Some clients) (Hne : clients ≠ ∅) :
  wp (DisposeDownStreams fac srv) (λ _ _, False) (λ x, x = HFault Dangling) w.
Proof.
  destruct w as [n h m tr]. cbn [w_heap] in *. pose proof Hrep as (Hf & Hok & Hm).
  pose proof (mgr_nz _ _ _ _ _ Hrep Hf). pose proof (mgr_nz _ _ _ _ _ Hrep Hsrv). pose proof (mgr_nz _ _ _ _ _ Hrep Hem).
  unfold DisposeDownStreams. do 2 wp_step. cbn beta. rewrite Hcl.
  destruct (entries clients) as [|[id cl] l] eqn:El.
  { destruct Hne. apply map_to_list_empty_iff, Permutation_nil_r. by rewrite <- entries_perm, El. }
  assert (clients !! id = Some cl) as Hid by (apply elem_of_entries; rewrite El; by left).
  destruct (mg_client _ _ Hm _ _ _ _ Hcl Hid) as (Hout & c & Hc & E1 & E2 & E3).
  pose proof (mgr_nz _ _ _ _ _ Hrep Hc). cbn [dispose_down_streams]. wp_step.
  rewrite (proj2 (Z.eqb_neq cl 0)) by done. cbn [negb]. do 2 wp_step. cbn beta. rewrite E1, Z.eqb_refl. wp_step.
  eapply (wp_dispose cl c); [done..|]. intros tr1 c1 h1 Hok1 Hc1 Hd1 Hk1.
  destruct (manager_dispose _ _ _ _ _ _ _ Hrep Hc Hok1 Hc1 Hd1 Hk1) as [Hrep1 He1]. destruct Hd1 as [_ [K1 K2 K3 K4 _]].
  assert (h1 !! srv = Some (OTcp s)) as Hsrv1 by (apply (He1 _ _ Hsrv)).
  assert (ts_events s ≠ cl) as Hec by congruence. pose proof (Hk1 _ _ Hec Hem) as Hem1. cbn in Hem1.
  unfold AddClientDisconnectCb. cbn beta. wp_step.
  assert (conn_at h1 cl c1) as Hat.
  { split; [done|]. split; [done|]. exists (ts_events s), em. split; [done|]. split; [done|]. split; [done|].
    rewrite K1. unfold is_client in E3. destruct (cn_class c); [|done]. exists s. rewrite K3, E2. done. }
  eapply (wp_OnDisconnect cl c1); [done|]. intros tr2. cbn beta. set (c2 := SetConnected false c1).
  assert (manager_rep fac f (<[cl := OConn c2]> h1)) as Hrep2 by (by eapply manager_conn).
  assert (cl ≠ srv) as Hcs by congruence.
  eapply (wp_OnRemoveClient fac f srv s cl c2); [exact Hrep2|apply lookup_insert_eq|by rewrite lookup_insert_ne|].
  intros tr3 f3 h3 Hstep (Hf3 & Hok3 & _) _. cbn beta.
  assert (cn_id c2 = id) as Hid2 by (cbn; congruence).
  assert (h3 !! fac = Some (OFactory f3)) by done. do 2 wp_step. cbn beta.
  inversion Hstep as [| |srv' cl' c' m' cl2 f' Hc' Hm' Hcl'|srv' cl' c' f' Hc' Hnone| | | | | |]; subst; cbn;
    rewrite lookup_insert_eq in Hc'; injection Hc' as <-.
  - by rewrite lookup_alter_eq, Hcl, Hid2; cbn; rewrite lookup_delete_eq.
  - by rewrite Hcl, Hid2 in Hnone; cbn in Hnone; rewrite Hid in Hnone.
Qed.

(** *** Shutting down with a stranded connection *)

(** A factory whose recycler holds one connection that will never satisfy the release
    condition. *)
Definition hung (fac p : Z) (w : world) : Prop :=
  ∃ f c u, w_heap w !! 0 = None ∧ w_heap w !! fac = Some (OFactory f) ∧ w_heap w !! p = Some (OConn c) ∧
    releasable c = false ∧ w_heap w !! fa_loop f = Some (OUv u) ∧ fa_recycler f = [p] ∧ fa_safe f = [].

Lemma wp_Recycle_hung fac p (Q : bool → world → Prop) X w :
  hung fac p w → (∀ w', hung fac p w' → Q true w') → wp (Recycle fac) Q X w.
Proof.
  intros (f & c & u & H0 & Hf & Hc & Hr & Hl & Hp & Hs) HQ. destruct w as [n h m tr]. cbn [w_heap] in *.
  assert (∀ x o, h !! x = Some o → x ≠ 0) as Hnz by (intros x o Hx ->; congruence).
  pose proof (Hnz _ _ Hf). pose proof (Hnz _ _ Hc). assert (fac ≠ p) by congruence. assert (fac ≠ fa_loop f) by congruence.
  unfold Recycle. wp_step. unfold RecyclerPop. do 2 wp_step. cbn beta. rewrite Hp. cbn [recycler_loop]. do 5 wp_step.
  cbn beta. rewrite Hr. wp_step. wp_step. cbn beta. wp_step. unfold SafeRelease. do 2 wp_step. cbn beta.
  cbn [fa_safe set_safe set_recycler]. rewrite Hs. cbn [app delete_conns]. do 5 wp_step. cbn beta. wp_step.
  cbn. apply HQ. eexists _, c, u. cbn [w_heap].
  split; [by rewrite lookup_insert_ne|].
  split; [apply lookup_insert_eq|]. split; [by rewrite lookup_insert_ne|]. split; [done|].
  split; [cbn; by rewrite lookup_insert_ne|]. done.
Qed.

Lemma wait_recycle_hung fuel fac p w :
  hung fac p w → wp (wait_recycle fuel fac) (λ r _, r = false) (λ _, False) w.
Proof.
  revert w. induction fuel as [|fuel IH]; intros w Hw; cbn [wait_recycle].
  - wp_step. eapply wp_Recycle_hung; [done|]. intros w' Hw'. cbn beta. by wp_step.
  - wp_step. eapply wp_Recycle_hung; [done|]. intros w' Hw'. cbn beta. cbn [negb]. wp_step. unfold OnUpdate.
    pose proof Hw' as (f & c & u & H0 & Hf & Hc & Hr & Hl & Hp & Hs). destruct w' as [n h m tr]. cbn [w_heap] in *.
    assert (fac ≠ 0) by (intros ->; congruence). assert (fa_loop f ≠ 0) by (intros E; rewrite E in Hl; congruence).
    do 3 wp_step. unfold uv_loop_run_once_. wp_step. cbn beta. wp_step. eapply wp_Recycle_hung.
    { exists f, c, u. done. }
    intros w2 Hw2. cbn beta. destruct w2 as [n2 h2 m2 tr2]. do 3 wp_step. cbn beta. apply IH.
    destruct Hw2 as (f2 & c2 & u2 & Hw2). by exists f2, c2, u2.
Qed.

(** C32: After a reconnect that libuv refused, the shutdown of the factory does not end, whatever
    number of rounds it waits: disconnecting leaves the connection without the mark of a flushed stream,
    which the recycler waits for. *)
Theorem shutdown_hangs (fuel : nat) (fac p id : Z) (d : bool) (f : factory) (w : world)
    (Hrep : iso_rep p Stranded d w) (Hf : w_heap w !! fac = Some (OFactory f))
    (Hloop : ∃ u, w_heap w !! fa_loop f = Some (OUv u)) (Hiso : fa_isolated f = {[ id := p ]})
    (Hclosed : fa_closed f = []) (Hrec : fa_recycler f = []) (Hsafe : fa_safe f = []) :
  wp (OnDelete fuel fac) (λ r _, r = false) (λ _, False) w.
Proof.
  destruct Hrep as (c & k & sock & em & bb & ff & q & b & Hi & Hst), w as [n h m tr]. cbn [w_next w_heap w_mem] in *.
  pose proof Hi as []. pose proof Hst as []. destruct Hloop as [u Hl].
  assert (∀ x, is_Some (h !! x) → x ≠ 0) as Hnz by (intros x Hx; assert (0 < x < n) by (by destruct Hi; auto); lia).
  pose proof (Hnz fac ltac:(by eexists)). pose proof (Hnz (fa_loop f) ltac:(by eexists)).
  unfold OnDelete. wp_step. unfold ReleaseAllIsolateds. do 2 wp_step. cbn beta. rewrite Hiso.
  assert (entries {[ id := p ]} = [(id, p)]) as -> by (apply Permutation_singleton_r; by rewrite entries_perm, map_to_list_singleton).
  cbn [release_isolateds]. do 5 wp_step. cbn beta. wp_step.
  assert (iso n (<[cn_events c := OEvents (ClearAllEventHandlers em)]> h) m p c k sock (ClearAllEventHandlers em) bb ff q b) as Hi1.
  { eapply iso_put_events; [exact Hi|]. cbn. by rewrite length_fmap. }
  eapply wp_disconnect; [exact Hi1|exact Hst|done|]. intros tr1 c1 k1 h1 Eh1 Hi2 Ek Hst1. cbn beta.
  rewrite bool_decide_false in Hst1 by (by intros []).
  assert (h1 !! p = Some (OConn c1)) as Hc1 by (by destruct Hi2). destruct Hst1 as [R1 R2 R3 R4 _ _ _ _ _].
  assert (∀ x o, h !! x = Some o → (∀ em, o ≠ OEvents em) → (∀ c, o ≠ OConn c) → (∀ k, o ≠ OClient k) → (∀ pc, o ≠ OPacket pc) →
    h1 !! x = Some o) as Hkeep.
  { intros x o Hx Q1 Q2 Q3 Q4. subst h1. destruct Hi, Hst. cbn in is_packet0. zbool. specialize (iso_packet0 is_packet0).
    rewrite !lookup_insert_ne, lookup_delete_ne, lookup_insert_ne; [done|..]; intros <-; naive_solver congruence. }
  pose proof (Hkeep _ _ Hf ltac:(done) ltac:(done) ltac:(done) ltac:(done)) as Hf1.
  pose proof (Hkeep _ _ Hl ltac:(done) ltac:(done) ltac:(done) ltac:(done)) as Hl1.
  wp_step. unfold ReleaseConnection, DisposeConnection. do 2 wp_step. cbn beta. rewrite R3. wp_step. cbn beta. wp_step.
  unfold RecyclerPush. wp_step. cbn [release_isolateds]. do 3 wp_step. cbn beta. do 2 wp_step. cbn beta.
  cbn [fa_closed set_isolated set_recycler]. rewrite Hclosed. cbn [release_servers]. do 2 wp_step. cbn beta. wp_step.
  eapply wp_mono; [eapply (wait_recycle_hung fuel fac p)|].
  - exists (set_isolated ∅ (set_recycler [p] f)), c1, u. cbn [w_heap].
    assert (fac ≠ p) by congruence. assert (fac ≠ fa_loop f) by congruence.
    split; [rewrite lookup_insert_ne by done; apply eq_None_not_Some; intros Hx; assert (0 < 0 < n) by (by destruct Hi2; auto); lia|].
    split; [rewrite lookup_insert_eq; cbn; by rewrite Hrec|]. split; [by rewrite lookup_insert_ne|].
    split; [unfold releasable; by rewrite R4, andb_false_r|]. split; [by rewrite lookup_insert_ne|]. done.
  - intros r w' ->. cbn beta. cbn [negb]. by wp_step.
Qed.
End manager.

(** ** Witnesses *)

(** A factory with one server and one connected client. *)
Definition ex_client : conn :=
  Conn (CClient false) 3 0 1000000001 0 1 0 0 true true false false false 0 0 0 0 "" 0.
Definition ex_factory : factory :=
  Factory 1 1000000001 {[ 3 := {[ 1000000001 := 6 ]} ]} ∅ 1 [] [] [3] [].
Definition ex_server : tcp_server := TcpServer 5 2 4 ∅ false.
Definition ex_manager_heap : gmap Z (@obj ex_fifo) :=
  <[1 := OUv (UvObject (Some 0))]> (<[2 := OFactory ex_factory]> (<[3 := OTcp ex_server]>
    (<[4 := OEvents new_event_manager]> (<[5 := OServer (ServerHandle 0 0 0 3)]> {[ 6 := OConn ex_client ]})))).
Definition ex_manager_world : @world ex_fifo := @World ex_fifo 7 ex_manager_heap empty_heap [].

Lemma ex_manager_conn p c : ex_manager_heap !! p = Some (OConn c) → p = 6 ∧ c = ex_client.
Proof.
  unfold ex_manager_heap. rewrite !lookup_insert_Some, lookup_singleton_Some. naive_solver congruence.
Qed.

Lemma ex_manager_rep : manager_rep 2 ex_factory ex_manager_heap.
Proof.
  split; [done|]. split.
  - split; [done| |].
    + intros p c [-> ->]%ex_manager_conn. split; by left.
    + intros p p' c c' Hne [-> _]%ex_manager_conn [-> _]%ex_manager_conn. done.
  - split; cbn.
    + intros srv m id cl. rewrite lookup_singleton_Some. intros [<- <-]. rewrite lookup_singleton_Some. intros [<- <-].
      split; [apply not_elem_of_nil|]. by exists ex_client.
    + intros id p. by rewrite lookup_empty.
    + intros p Hp. by apply not_elem_of_nil in Hp.
    + intros p Hp. by apply not_elem_of_nil in Hp.
    + constructor.
    + done.
Qed.

Lemma manager_keeps_witness :
  wp (@run_mgr ex_fifo (ex_lib (λ _, 0)) ex_order 2 (MDisconnect 6)) (λ _ w', ∃ f',
    @mgr_step ex_fifo ex_order 7 ex_manager_heap (MDisconnect 6) ex_factory f' ∧ manager_rep 2 f' (w_heap w') ∧
    evolves ex_manager_heap (w_heap w')) (λ _, False) ex_manager_world.
Proof.
  apply (@manager_keeps ex_fifo (ex_lib (λ _, 0)) ex_order 2 ex_factory (MDisconnect 6) ex_manager_world);
    [exact ex_manager_rep|].
  exists ex_client, ex_server. split; [|split; [done|split; [done|]]].
  2: { intros m cl2 Hm Hcl. vm_compute in Hm. injection Hm as <-. vm_compute in Hcl. by injection Hcl as <-. }
  split; [done|]. split; [done|].
  exists 4, new_event_manager. repeat (split; [done|]). by exists ex_server.
Defined.

Lemma ids_distinct_witness :
  NoDup (next_ids 3 ex_factory) ∧ Forall (λ id, TCP_CONNID_BASE < id < TCP_CONNID_MAX) (next_ids 3 ex_factory).
Proof. apply ids_distinct; [by vm_compute|by vm_compute]. Defined.

Lemma dispose_down_streams_invalidates_witness :
  wp (@DisposeDownStreams ex_fifo (ex_lib (λ _, 0)) ex_order 2 3) (λ _ _, False) (λ x, x = HFault Dangling)
    ex_manager_world.
Proof.
  apply (@dispose_down_streams_invalidates ex_fifo (ex_lib (λ _, 0)) ex_order 2 3 ex_factory ex_server new_event_manager
    {[ 1000000001 := 6 ]} ex_manager_world); [exact ex_manager_rep|done..].
Defined.

(** The factory of the stranded connection. *)
Definition ex_stranded_factory : factory := Factory 1 1000000007 ∅ {[ 7 := 3 ]} 0 [] [] [] [].
Definition with_factory (f : factory) (w : @world ex_fifo) : @world ex_fifo :=
  World (w_next w + 1) (<[w_next w := OFactory f]> (w_heap w)) (w_mem w) (w_trace w).

Lemma with_factory_rep p st d f w : iso_rep p st d w → iso_rep p st d (with_factory f w).
Proof.
  intros (c & k & sock & em & bb & ff & q & b & Hi & Hst).
  exists c, k, sock, em, bb, ff, q, b. split; [apply iso_extend, Hi|exact Hst].
Qed.

Lemma with_factory_loop p st d f w : iso_rep p st d w →
  ∃ c u, w_heap w !! p = Some (OConn c) ∧ w_heap (with_factory f w) !! cn_base c = Some (OUv u).
Proof.
  intros (c & k & sock & em & bb & ff & q & b & Hi & Hst). exists c, b. split; [apply Hi|].
  exact (iso_loop _ _ _ _ _ _ _ _ _ _ _ _ (iso_extend _ _ _ _ _ _ _ _ _ _ _ _ (OFactory f) Hi)).
Qed.

Lemma ex_hung_loop : ∃ u, w_heap (with_factory ex_stranded_factory ex_stranded) !! 1 = Some (OUv u).
Proof.
  destruct (with_factory_loop 3 Stranded false ex_stranded_factory _ ex_stranded_rep) as (c & u & Hc & Hu).
  exists u. ex_at conn Hc. exact Hu.
Qed.

Lemma with_factory_at f (w : @world ex_fifo) : w_heap (with_factory f w) !! w_next w = Some (OFactory f).
Proof. apply lookup_insert_eq. Qed.

Lemma shutdown_hangs_witness :
  wp (@OnDelete ex_fifo (ex_uv (-1)) ex_order 1000 (w_next ex_stranded)) (λ r _, r = false) (λ _, False)
    (with_factory ex_stranded_factory ex_stranded).
Proof.
  exact (@shutdown_hangs ex_fifo (ex_uv (-1)) ex_order 1000 (w_next ex_stranded) 3 7 false ex_stranded_factory
    (with_factory ex_stranded_factory ex_stranded) (with_factory_rep _ _ _ _ _ ex_stranded_rep) (with_factory_at _ _)
    ex_hung_loop eq_refl eq_refl eq_refl eq_refl).
Defined.
