(* ===== verification/UvServer.v ===== *)
(** * The server over libuv: [tcp/uv/uv_server.c], [tcp/uv/UvServer.cpp], client connections

    A server object has a listening socket.  libuv calls [on_connection]; the accepted
    stream gets a client handle, the handle waits in [_tcpStreamDict] until the front end
    makes a connection object for it, and the object takes the handle over.  The four
    objects (server, factory with its manager, connection, handle) are blocks of one heap.

    The peer's address is left out.  [CUvGateServer] has the same code; the class of its
    clients is the parameter [g]. *)

From S2P Require Import Prelude CHeap BipBuf Fifo Io MapOrder UvClient UvConn UvIsolated ConnManager.

#[local] Open Scope string_scope.
#[local] Open Scope list_scope.
#[local] Open Scope Z_scope.

(** *** Fields *)

Definition set_ui_server (x : Z) (i : uvsrvr_impl) : uvsrvr_impl :=
  UvSrvrImpl (ui_loop i) x (ui_server_closed i) (ui_acceptcb i) (ui_closecb i) (ui_readcb i) (ui_writecb i).
Definition set_server_closed (x : Z) (i : uvsrvr_impl) : uvsrvr_impl :=
  UvSrvrImpl (ui_loop i) (ui_server i) x (ui_acceptcb i) (ui_closecb i) (ui_readcb i) (ui_writecb i).
Definition set_srv_fd (x : Z) (s : server_handle) : server_handle :=
  ServerHandle x (srv_port s) (srv_impl s) (srv_userdata s).
Definition set_srv_port (x : Z) (s : server_handle) : server_handle :=
  ServerHandle (srv_fd s) x (srv_impl s) (srv_userdata s).
Definition set_srv_impl (x : Z) (s : server_handle) : server_handle :=
  ServerHandle (srv_fd s) (srv_port s) x (srv_userdata s).
Definition set_streams (x : gmap Z Z) (s : tcp_server) : tcp_server :=
  TcpServer (ts_srvr s) (ts_factory s) (ts_events s) x (ts_closed s).
Definition set_closed (x : bool) (s : tcp_server) : tcp_server :=
  TcpServer (ts_srvr s) (ts_factory s) (ts_events s) (ts_streams s) x.

Section server.
Context {fi : ByteFifo} {lib : Lib} {ord : MapOrder}.

(** ** uv_server.c *)

Definition uv_server_get_loop_ (srvr : Z) : prog Z :=
  h ← get (A := server_handle) srvr; i ← get (A := uvsrvr_impl) (srv_impl h); mret (ui_loop i).

Definition uv_server_init_ (srvr srvr_impl : Z) : prog Z :=
  i ← get (A := uvsrvr_impl) srvr_impl;
  if ui_loop i =? 0 then free srvr_impl;; mret 1
  else
    h ← get (A := server_handle) srvr;
    '(r, addr) ← call_out "uv_ip4_addr" [VStr "0.0.0.0"; VInt (srv_port h)];
    if negb (r =? 0) then free srvr_impl;; mret 1
    else
      sockimpl ← malloc (OUv fresh_uv);
      r ← call_on "uv_tcp_init" (ui_loop i) [VPtr sockimpl];
      if negb (r =? 0) then free sockimpl;; free srvr_impl;; mret 1
      else
        r ← call_on "uv_tcp_bind" sockimpl [VInt (htons (srv_port h)); VInt addr; VInt 0];
        if negb (r =? 0) then free sockimpl;; free srvr_impl;; mret 1
        else
          r ← call_on "uv_listen" sockimpl [VFun "on_connection"];
          if negb (r =? 0) then free srvr_impl;; mret 1
          else
            upd sockimpl (set_uv_data srvr);;
            upd srvr_impl (set_ui_server sockimpl);;
            upd srvr_impl (set_server_closed 0);;
            upd srvr (set_srv_impl srvr_impl);;
            fd ← call_on "uv_tcp_t::fd" sockimpl [];
            upd srvr (set_srv_fd fd);;
            mret 0.

(** The loop of [uv_server_dispose_]; false when [fuel] turns are not enough. *)
Fixpoint wait_server_closed (fuel : nat) (srvr_impl : Z) : prog bool :=
  i ← get (A := uvsrvr_impl) srvr_impl;
  if negb (0 =? ui_server_closed i) then mret true
  else match fuel with
  | O => mret false
  | S fuel => _ ← uv_loop_run_once_ (ui_loop i); wait_server_closed fuel srvr_impl
  end.

Definition uv_server_dispose_ (fuel : nat) (srvr : Z) : prog bool :=
  h ← get (A := server_handle) srvr;
  let srvr_impl := srv_impl h in
  i ← get (A := uvsrvr_impl) srvr_impl;
  closed ←
    (if negb (ui_server i =? 0) then
       _ ← call_on "uv_close" (ui_server i) [VFun (ui_closecb i)];
       wait_server_closed fuel srvr_impl
     else mret true);
  if negb closed then mret false
  else
    free srvr_impl;;
    upd srvr (set_srv_impl 0);;
    mret true.

(** ** The client connection, before and after it has its handle *)

(** [AddStream] inserts; a key that is there keeps its value. *)
Definition AddStream (srv clnt : Z) : prog Z :=
  upd srv (λ s, match ts_streams s !! clnt with
                | Some _ => s
                | None => set_streams (<[clnt := clnt]> (ts_streams s)) s
                end);;
  mret clnt.

Definition RemoveStream (srv streamptr : Z) : prog Z :=
  s ← get (A := tcp_server) srv;
  match ts_streams s !! streamptr with
  | Some clnt => upd srv (λ s, set_streams (delete streamptr (ts_streams s)) s);; mret clnt
  | None => mret 0
  end.

Definition ConfirmClientIsReady (pClient base streamptr : Z) : prog unit :=
  c ← get (A := conn) pClient;
  clnt ← RemoveStream (cn_ref c) streamptr;
  upd pClient (set_clnt clnt);;
  if negb (clnt =? 0) then
    (* init base *)
    upd pClient (set_base base);;
    (* init packet *)
    c ← get (A := conn) pClient;
    if cn_packet c =? 0 then
      packet ← malloc (OPacket (packet_of (cn_class c))); upd pClient (set_packet packet)
    else mret tt
  else mret tt.

(** [IsReady] of a server. *)
Definition server_ready (s : tcp_server) (m : event_manager) : bool := negb (ts_closed s) && em_ready m.

Definition OnAcceptClient (g : bool) (srv streamptr : Z) : prog Z :=
  s ← get (A := tcp_server) srv;
  pClient ← CreateTcpClientOnServer g (ts_factory s) srv;
  (if negb (pClient =? 0) then
     (* connection is ready *)
     f ← get (A := factory) (ts_factory s);
     ConfirmClientIsReady pClient (fa_loop f) streamptr;;
     (* event *)
     OnConnect pClient
   else mret tt);;
  mret pClient.

Definition OnDisposeClient (srv pClient : Z) : prog unit :=
  if negb (pClient =? 0) then
    (* dispose *)
    DisposeConnection pClient;;
    (* disconnect cb to front end *)
    s ← get (A := tcp_server) srv;
    AddClientDisconnectCb (ts_factory s) srv pClient
  else mret tt.

(** ** Callbacks *)

Definition on_client_stream_close (handle : Z) : prog unit :=
  u ← get (A := uv_object) handle;
  clnt ← init (uv_data u);
  k ← get_client clnt;
  pConn ← init (clnt_connimpl k);
  (if negb (pConn =? 0) then upd pConn (SetFlushed true) else mret tt);;
  free handle.

(** [if (pConn) pConn->Disconnect (), else drop] *)
Definition client_failed (clnt pConn : Z) : prog unit :=
  if negb (pConn =? 0) then Disconnect_client pConn else drop_client clnt.

Definition on_client_read (stream nread : Z) : prog unit :=
  u ← get (A := uv_object) stream;
  clnt ← init (uv_data u);
  k ← get_client clnt;
  pConn ← init (clnt_connimpl k);
  if nread <? 0 then
    (* Error or EOF *)
    if (nread =? UV_EOF) || (nread =? UV_ECONNRESET) then
      (* Free the read/write buffer *)
      commit_client clnt 0;;
      client_failed clnt pConn
    else (* Keep waiting *) mret tt
  else if nread =? 0 then
    (* Everything OK, but nothing read. *)
    commit_client clnt 0
  else
    (* read ok *)
    commit_client clnt nread;;
    (* connection read data *)
    if negb (pConn =? 0) then k ← get_client clnt; bb ← init (clnt_bb k); OnRawData pConn bb
    else mret tt.

Definition on_client_write (req status : Z) : prog unit :=
  wr ← get (A := write_req) req;
  if negb (status =? 0) then
    err ← call "GetLastError" [];
    if negb (err =? ERROR_IO_PENDING) then
      tcp ← init (rq_handle wr);
      u ← get (A := uv_object) tcp;
      clnt ← init (uv_data u);
      k ← get_client clnt;
      pConn ← init (clnt_connimpl k);
      client_failed clnt pConn;;
      _ ← get (A := uv_object) tcp;   (* printed *)
      free_write req wr
    else mret tt
  else free_write req wr.

Definition on_server_close (handle : Z) : prog unit :=
  u ← get (A := uv_object) handle;
  srvr ← init (uv_data u);
  h ← get (A := server_handle) srvr;
  i ← get (A := uvsrvr_impl) (srv_impl h);
  upd (srv_impl h) (set_server_closed 1);;
  free (ui_server i).

Definition on_server_accept_client (g : bool) (srvr clnt : Z) : prog Z :=
  h ← get (A := server_handle) srvr;
  let pServer := srv_userdata h in
  s ← get (A := tcp_server) pServer;
  m ← get (A := event_manager) (ts_events s);
  if negb (server_ready s m) then
    (* flush stream at once *)
    k ← get_client clnt;
    sockimpl ← init (clnt_sockimpl k);
    uv_close_ sockimpl "on_client_stream_close";;
    upd_client clnt (set_sockimpl 0);;
    mret (-1)
  else
    streamptr ← AddStream pServer clnt;
    pConn ← OnAcceptClient g pServer streamptr;
    if pConn =? 0 then
      (* bind connection impl failed *)
      upd_client clnt (set_connimpl 0);;
      mret (-1)
    else
      upd_client clnt (set_connimpl pConn);;
      mret 0.

(** The end of [on_connection], from the call of [_acceptcb]. *)
Definition serve_client (g : bool) (srvr : Z) (i : uvsrvr_impl) (clnt : Z) : prog unit :=
  r ← (match ui_acceptcb i with
       | Some _ => on_server_accept_client g srvr clnt
       | None => mret 0
       end);
  (* server add client *)
  (if negb (r =? 0) then
     k ← get_client clnt;
     sockimpl ← init (clnt_sockimpl k);
     uv_close_ sockimpl "on_sock_close";;
     bb ← init (clnt_bb k);
     bb_destroy bb;;
     free clnt
   else mret tt);;
  bb ← bb_create TCP_STREAM_READ_SIZE;
  upd_client clnt (set_bb bb).

Definition on_connection (g : bool) (stream0 status : Z) : prog unit :=
  u ← get (A := uv_object) stream0;
  srvr ← init (uv_data u);
  h ← get (A := server_handle) srvr;
  i ← get (A := uvsrvr_impl) (srv_impl h);
  if negb (status =? 0) then mret tt
  else
    stream1 ← malloc (OUv fresh_uv);
    r ← call_on "uv_tcp_init" (ui_loop i) [VPtr stream1];
    if negb (r =? 0) then free stream1
    else
      r ← call_on "uv_accept" stream0 [VPtr stream1];
      if negb (r =? 0) then free stream1
      else
        r ← call_on "uv_read_start" stream1 [VFun "alloc_cb"; VFun (ui_readcb i)];
        if negb (r =? 0) then free stream1
        else
          (* create client handle *)
          clnt ← malloc (OClient fresh_client);
          fd ← call_on "uv_stream_t::fd" stream1 [];
          upd_client clnt (set_fd fd);;
          (* associate client with stream *)
          upd stream1 (set_uv_data clnt);;
          upd_client clnt (set_sockimpl stream1);;
          upd_client clnt (set_connimpl 0);;
          serve_client g srvr i clnt.

(** ** The server object *)

Definition CreateTcpServer (fac : Z) : prog Z :=
  srvr ← malloc (OServer (ServerHandle 0 0 0 0));
  evts ← malloc (OEvents new_event_manager);
  srv ← malloc (OTcp (TcpServer srvr fac evts ∅ false));
  upd srvr (λ h, ServerHandle (srv_fd h) (srv_port h) (srv_impl h) srv);;
  upd fac (λ f, set_servers (srv :: fa_servers f) f);;
  mret srv.

Definition Open (srv port : Z) : prog Z :=
  (* init base *)
  s ← get (A := tcp_server) srv;
  f ← get (A := factory) (ts_factory s);
  srvr_impl ← malloc (OUvImpl (UvSrvrImpl (fa_loop f) 0 0 (Some "on_server_accept_client") "on_server_close"
                "on_client_read" "on_client_write"));
  (* init port *)
  upd (ts_srvr s) (set_srv_port port);;
  (* init listener *)
  uv_server_init_ (ts_srvr s) srvr_impl.

(** The loop of [Close]. *)
Fixpoint close_streams (l : list (Z * Z)) : prog unit :=
  match l with
  | [] => mret tt
  | (_, clnt) :: l =>
      (* flush stream *)
      k ← get_client clnt;
      sockimpl ← init (clnt_sockimpl k);
      uv_close_ sockimpl "on_client_stream_close";;
      upd_client clnt (set_sockimpl 0);;
      (* free conn handle *)
      bb ← init (clnt_bb k);
      bb_destroy bb;;
      free clnt;;
      close_streams l
  end.

Definition Close (fuel : nat) (srv : Z) : prog bool :=
  s ← get (A := tcp_server) srv;
  if negb (ts_closed s) then
    close_streams (entries (ts_streams s));;
    upd srv (set_streams ∅);;
    (* dispose base *)
    h ← get (A := server_handle) (ts_srvr s);
    upd (srv_impl h) (set_server_closed 1);;
    disposed ← uv_server_dispose_ fuel (ts_srvr s);
    if negb disposed then mret false
    else
      DisposeDownStreams (ts_factory s) srv;;
      upd srv (set_closed true);;
      mret true
  else mret true.

Definition CloseTcpServer (fuel : nat) (fac srv : Z) : prog bool :=
  closed ← Close fuel srv;
  if negb closed then mret false
  else upd fac (λ f, set_closed_servers (fa_closed f ++ [srv]) f);; mret true.

Definition FlushDownStream (srv streamptr : Z) : prog unit :=
  s ← get (A := tcp_server) srv;
  clnt ← (match ts_streams s !! streamptr with
          | Some clnt => upd srv (λ s, set_streams (delete streamptr (ts_streams s)) s);; mret clnt
          | None => mret 0
          end);
  drop_client clnt.

(** ** Accepting a connection *)

Implicit Types h : gmap Z obj.

(** The object of an accepted connection, connected, with its handle and packet. *)
Definition accepted_conn (g : bool) (srv id clnt base packet : Z) : conn :=
  Conn (CClient g) srv 0 id clnt base packet 0 true true false false false 0 0 0 0 "" 0.

(** What the manager's fields become. *)
Definition accepted_factory (srv cl : Z) (f : factory) : factory :=
  add_client srv (GetNextConnectionId f).1 cl (GetNextConnectionId f).2.

(** A server that accepts: its object [srv] with handle, implementation, listening socket
    and event manager, registered at the factory [fac]; the streams that wait are blocks. *)
Record server_rep h (fac srv stream0 : Z) (f : factory) (s : tcp_server) (sh : server_handle)
    (i : uvsrvr_impl) (em : event_manager) : Prop := {
  sv_manager : manager_rep fac f h;
  sv_server : h !! srv = Some (OTcp s);
  sv_factory : ts_factory s = fac;
  sv_events : h !! ts_events s = Some (OEvents em);
  sv_handlers : length (em_handlers em) = TCP_EVENT_ID_MAX;
  sv_handle : h !! ts_srvr s = Some (OServer sh);
  sv_userdata : srv_userdata sh = srv;
  sv_impl : h !! srv_impl sh = Some (OUvImpl i);
  sv_accept : ui_acceptcb i = Some "on_server_accept_client";
  sv_loop : ∃ u, h !! ui_loop i = Some (OUv u);
  sv_socket : h !! stream0 = Some (OUv (UvObject (Some (ts_srvr s))));
  sv_streams x : is_Some (ts_streams s !! x) → is_Some (h !! x)
}.

Lemma wp_OnAcceptClient g srv fac f s em clnt (Q : Z → world → Prop) X n h m tr :
  manager_rep fac f h → (∀ x, n ≤ x → h !! x = None) → 0 < n →
  fa_entries f !! srv ≫= lookup (GetNextConnectionId f).1 = None →
  h !! srv = Some (OTcp s) → ts_factory s = fac → h !! ts_events s = Some (OEvents em) →
  length (em_handlers em) = TCP_EVENT_ID_MAX → ts_streams s !! clnt = Some clnt → clnt ≠ 0 →
  (∀ tr' h', h' = <[n + 1 := OPacket (packet_of (CClient g))]>
      (<[n := OConn (accepted_conn g srv (GetNextConnectionId f).1 clnt (fa_loop f) (n + 1))]>
        (<[srv := OTcp (set_streams (delete clnt (ts_streams s)) s)]>
          (<[fac := OFactory (accepted_factory srv n f)]> h))) → Q n (World (n + 2) h' m tr')) →
  wp (OnAcceptClient g srv clnt) Q X (World n h m tr).
Proof.
  intros Hrep Hfresh Hn Hnew Hsrv Hsf Hem Hlen Hst Hc0 HQ. pose proof Hrep as (Hf & _).
  pose proof (mgr_nz _ _ _ _ _ Hrep Hf). pose proof (mgr_nz _ _ _ _ _ Hrep Hsrv). pose proof (mgr_nz _ _ _ _ _ Hrep Hem).
  assert (∀ x o, h !! x = Some o → x < n) as Hlt.
  { intros x o Hx. destruct (Z.lt_ge_cases x n) as [|Hge]; [done|]. by rewrite Hfresh in Hx. }
  pose proof (Hlt _ _ Hf). pose proof (Hlt _ _ Hsrv). pose proof (Hlt _ _ Hem).
  unfold OnAcceptClient. do 3 wp_step. rewrite Hsf.
  eapply wp_CreateTcpClientOnServer; [done|by apply Hfresh|lia|done|].
  intros tr1 f1 h1 Ef1 Hrep1 _ Hc1 Hframe. cbn beta. set (id := (GetNextConnectionId f).1) in *.
  pose proof Hrep1 as (Hf1 & _). assert (fac ≠ srv) by congruence. assert (ts_events s ≠ fac) by congruence.
  assert (h1 = <[fac := OFactory f1]> (<[n := OConn (new_conn (CClient g) id srv 0)]> h)) as ->.
  { apply map_eq. intros x. destruct (decide (x = fac)) as [->|]; [by rewrite lookup_insert_eq|]. rewrite lookup_insert_ne by done.
    destruct (decide (x = n)) as [->|]; [by rewrite lookup_insert_eq|]. rewrite lookup_insert_ne by done. by apply Hframe. }
  assert (fa_loop f1 = fa_loop f) as El by (subst f1; done).
  rewrite (proj2 (Z.eqb_neq n 0)) by lia. cbn [negb]. do 4 wp_step. unfold ConfirmClientIsReady.
  do 3 wp_step. unfold RemoveStream. cbn [cn_ref new_conn]. do 2 wp_step. cbn beta. rewrite Hst. do 3 wp_step. do 2 wp_step.
  rewrite (proj2 (Z.eqb_neq clnt 0)) by done. cbn [negb]. do 4 wp_step. cbn beta. cbn [cn_packet set_base set_clnt new_conn Z.eqb].
  do 3 wp_step. eapply wp_OnConnect.
  { split; [lia|]. split; [lookup_side|]. exists (ts_events s), em. do 2 (split; [heap_side|]). split; [done|]. cbn.
    eexists. split; [done|]. split; [lookup_side|done]. }
  intros tr'. cbn beta. wp_step. replace (n + 1 + 1) with (n + 2) by lia. apply HQ. rewrite El. subst f1. heap_eq.
Qed.

(** A new object with its own blocks. *)
Lemma conns_ok_add h h' cl c : conns_ok h → h' !! 0 = None → h !! cl = None → h' !! cl = Some (OConn c) → conn_ok h' c →
  (∀ x o, h !! x = Some o → ¬ plain o → match o with OConn _ => True | _ => h' !! x = Some o end) →
  (∀ x d, x ≠ cl → h' !! x = Some (OConn d) → h !! x = Some (OConn d)) →
  h !! cn_packet c = None → h !! cn_clnt c = None → conns_ok h'.
Proof.
  intros [H0 Hc Ha] H0' Hcl Hcl' Hok Hkeep Hback Hp Hk.
  assert (∀ x d, h !! x = Some (OConn d) → cn_packet d = cn_packet c → cn_packet d = 0) as Hpk.
  { intros x d Hx E. destruct (Hc _ _ Hx) as [[?|[_ [pc Hpc]]] _ _]; congruence. }
  assert (∀ x d, h !! x = Some (OConn d) → cn_clnt d = cn_clnt c → cn_clnt d = 0) as Hkk.
  { intros x d Hx E. destruct (Hc _ _ Hx) as [_ [?|(k & sock & _ & Hk' & _)] _]; congruence. }
  split; [done| |].
  - intros x d Hx. destruct (decide (x = cl)) as [->|Hne]; [by simplify_eq|].
    eapply conn_ok_weaken; [exact Hkeep|]. by eapply Hc, Hback.
  - intros x x' d d' Hne Hx Hx'.
    destruct (decide (x = cl)) as [->|Hxc], (decide (x' = cl)) as [->|Hxc']; [done| | |exact (Ha _ _ _ _ Hne (Hback _ _ Hxc Hx) (Hback _ _ Hxc' Hx'))]; simplify_eq.
    + specialize (Hback _ _ Hxc' Hx'). split; intros Hn E; [apply Hn; rewrite E; by eapply Hpk|apply Hn; rewrite E; by eapply Hkk].
    + specialize (Hback _ _ Hxc Hx). split; intros Hn E; [by apply Hn; eapply Hpk|by apply Hn; eapply Hkk].
Qed.

(** What a connection that was accepted leaves: the objects of the manager, and the new
    ones, which refer to each other. *)
Definition accepted (g : bool) (fac srv : Z) (f : factory) (w w' : world) : Prop :=
  ∃ cl c clnt k stream bb b packet,
    let id := (GetNextConnectionId f).1 in
    manager_rep fac (accepted_factory srv cl f) (w_heap w') ∧ evolves (w_heap w) (w_heap w') ∧
    w_heap w' !! cl = Some (OConn c) ∧ c = accepted_conn g srv id clnt (fa_loop f) packet ∧
    w_heap w' !! packet = Some (OPacket (packet_of (CClient g))) ∧
    w_heap w' !! clnt = Some (OClient k) ∧ is_Some (clnt_fd k) ∧ clnt_sockimpl k = Some stream ∧ clnt_connimpl k = Some cl ∧
    clnt_bb k = Some bb ∧ w_heap w' !! stream = Some (OUv (UvObject (Some clnt))) ∧
    w_heap w' !! bb = Some (OFifo b) ∧ frep (w_mem w') b (AQ TCP_STREAM_READ_SIZE [] None).

Lemma accepted_intro g fac srv f s n h m tr m' tr' clnt k stream bb b cl packet h' :
  manager_rep fac f h → (∀ x, n ≤ x → h !! x = None) → 0 < n →
  fa_entries f !! srv ≫= lookup (GetNextConnectionId f).1 = None → h !! srv = Some (OTcp s) →
  stream = n → clnt = n + 1 → cl = n + 2 → packet = n + 3 → bb = n + 4 →
  is_Some (clnt_fd k) → clnt_sockimpl k = Some stream → clnt_connimpl k = Some cl → clnt_bb k = Some bb →
  frep m' b (AQ TCP_STREAM_READ_SIZE [] None) →
  h' = <[bb := OFifo b]> (<[packet := OPacket (packet_of (CClient g))]>
        (<[cl := OConn (accepted_conn g srv (GetNextConnectionId f).1 clnt (fa_loop f) packet)]>
          (<[clnt := OClient k]> (<[stream := OUv (UvObject (Some clnt))]>
            (<[fac := OFactory (accepted_factory srv cl f)]> h))))) →
  accepted g fac srv f (World n h m tr) (World (n + 5) h' m' tr').
Proof.
  intros Hrep Hfresh Hn Hnew Hsrv Es Ek Ec Ep Eb K1 K2 K3 K4 Hb Eh. pose proof Hrep as (Hf & Hok & Hm).
  set (id := (GetNextConnectionId f).1) in *. set (c := accepted_conn g srv id clnt (fa_loop f) packet) in *.
  assert (∀ x o, h !! x = Some o → x < n) as Hlt.
  { intros x o Hx. destruct (Z.lt_ge_cases x n) as [|Hge]; [done|]. by rewrite Hfresh in Hx. }
  pose proof (Hlt _ _ Hf). pose proof (mgr_nz _ _ _ _ _ Hrep Hf).
  assert (∀ x o, h !! x = Some o → x ≠ fac → h' !! x = Some o) as Hold.
  { intros x o Hx Hxf. pose proof (Hlt _ _ Hx). subst h'. by rewrite !lookup_insert_ne by lia. }
  assert (h' !! fac = Some (OFactory (accepted_factory srv cl f))) as Hf'.
  { subst h'. rewrite !lookup_insert_ne by lia. by rewrite lookup_insert_eq. }
  assert (h' !! cl = Some (OConn c)) as Hc'.
  { subst h'. rewrite !lookup_insert_ne by lia. by rewrite lookup_insert_eq. }
  assert (h' !! packet = Some (OPacket (packet_of (CClient g)))) as Hp'.
  { subst h'. rewrite lookup_insert_ne by lia. by rewrite lookup_insert_eq. }
  assert (h' !! clnt = Some (OClient k)) as Hk'.
  { subst h'. rewrite !lookup_insert_ne by lia. by rewrite lookup_insert_eq. }
  assert (h' !! stream = Some (OUv (UvObject (Some clnt)))) as Hs'.
  { subst h'. rewrite !lookup_insert_ne by lia. by rewrite lookup_insert_eq. }
  assert (h' !! bb = Some (OFifo b)) as Hb' by (subst h'; by rewrite lookup_insert_eq).
  assert (evolves h h') as He.
  { intros x o Hx. destruct (decide (x = fac)) as [->|Hxf]; [by simplify_eq|]. pose proof (Hold _ _ Hx Hxf).
    destruct o; eauto using kin_refl. }
  assert (conns_ok h') as Hok'.
  { eapply (conns_ok_add h h' cl c); [done| |apply Hfresh; lia|exact Hc'| | | |apply Hfresh; cbn; lia|apply Hfresh; cbn; lia].
    - subst h'. rewrite !lookup_insert_ne by lia. by apply ok_null.
    - split; [right; cbn; split; [lia|by eexists]| |by left]. right. exists k, stream. cbn. split; [lia|].
      split; [done|]. split; [done|]. intros _. by eexists.
    - intros x o Hx Hpl. destruct (decide (x = fac)) as [->|Hxf]; [simplify_eq; by destruct Hpl|].
      pose proof (Hold _ _ Hx Hxf). by destruct o.
    - intros x d Hxc. subst h'. rewrite !lookup_insert_Some. naive_solver congruence. }
  exists cl, c, clnt, k, stream, bb, b, packet. cbn [w_heap w_mem]. split; [|repeat (split; [done|]); done].
  split; [done|]. split; [done|]. unfold accepted_factory.
  apply (mgr_ok_add h' _ srv cl c); [|exact Hc'|done|done| |].
  - apply mgr_ok_next. by eapply mgr_ok_evolves.
  - intros Hin. destruct (mgr_elem _ _ _ Hm Hin) as [d Hd%Hlt]. lia.
  - exact Hnew.
Qed.

(** The manager's part of the invariant is about connection objects only. *)
Lemma mgr_ok_conns h h' f : (∀ x c, h !! x = Some (OConn c) → h' !! x = Some (OConn c)) → mgr_ok h f → mgr_ok h' f.
Proof.
  intros Hh [H1 H2 H3 H4 H5 H6]. split; [| | | |done|done].
  - intros srv m id cl Hm Hcl. destruct (H1 _ _ _ _ Hm Hcl) as (? & c & ? & ?). split; [done|]. exists c. auto.
  - intros id p Hp. destruct (H2 _ _ Hp) as (? & c & ? & ?). split; [done|]. exists c. auto.
  - intros p Hp. destruct (H3 _ Hp) as (c & ? & ?). exists c. auto.
  - intros p Hp. destruct (H4 _ Hp) as (c & ? & ?). exists c. auto.
Qed.

(** Another state of a server, handle, buffer or event manager. *)
Lemma manager_plain fac f h x o o' : manager_rep fac f h → h !! x = Some o → plain o → plain o' → x ≠ fac →
  manager_rep fac f (<[x := o']> h).
Proof.
  intros Hrep Hx Ho Ho' Hxf. pose proof (mgr_nz _ _ _ _ _ Hrep Hx). destruct Hrep as (Hf & Hok & Hm).
  split; [by rewrite lookup_insert_ne|]. split; [apply conns_ok_plain; [done..|]; intros o2 Ho2; by simplify_eq|].
  eapply mgr_ok_conns; [|exact Hm]. intros y c Hy. rewrite lookup_insert_ne; [done|]. intros ->. by simplify_eq.
Qed.

Lemma wp_accept_ready g srv fac f s em srvr sh clnt k (Q : Z → world → Prop) X n h m tr :
  manager_rep fac f h → (∀ x, n ≤ x → h !! x = None) → 0 < n →
  fa_entries f !! srv ≫= lookup (GetNextConnectionId f).1 = None →
  h !! srvr = Some (OServer sh) → srv_userdata sh = srv →
  h !! srv = Some (OTcp s) → ts_factory s = fac → h !! ts_events s = Some (OEvents em) →
  length (em_handlers em) = TCP_EVENT_ID_MAX → server_ready s em = true → ts_streams s !! clnt = None →
  h !! clnt = Some (OClient k) →
  (∀ tr' h', h' = <[clnt := OClient (set_connimpl n k)]> (<[n + 1 := OPacket (packet_of (CClient g))]>
      (<[n := OConn (accepted_conn g srv (GetNextConnectionId f).1 clnt (fa_loop f) (n + 1))]>
          (<[fac := OFactory (accepted_factory srv n f)]> h))) → Q 0 (World (n + 2) h' m tr')) →
  wp (on_server_accept_client g srvr clnt) Q X (World n h m tr).
Proof.
  intros Hrep Hfresh Hn Hnew Hsh Hud Hsrv Hsf Hem Hlen Hready Hst Hk HQ. pose proof Hrep as (Hf & _).
  assert (∀ x o, h !! x = Some o → x ≠ 0) as Hnz by (intros x o; by eapply mgr_nz).
  pose proof (Hnz _ _ Hsh). pose proof (Hnz _ _ Hsrv). pose proof (Hnz _ _ Hem). pose proof (Hnz _ _ Hk).
  assert (∀ x o, h !! x = Some o → x < n) as Hlt.
  { intros x o Hx. destruct (Z.lt_ge_cases x n) as [|Hge]; [done|]. by rewrite Hfresh in Hx. }
  pose proof (Hlt _ _ Hf). pose proof (Hlt _ _ Hsrv). pose proof (Hlt _ _ Hem). pose proof (Hlt _ _ Hk).
  unfold on_server_accept_client. do 2 wp_step. rewrite Hud. do 4 wp_step. cbn beta. rewrite Hready. cbn [negb].
  wp_step. unfold AddStream. do 3 wp_step. cbn beta. rewrite Hst. wp_step.
  set (s' := set_streams (<[clnt := clnt]> (ts_streams s)) s).
  assert (manager_rep fac f (<[srv := OTcp s']> h)) as Hrep' by (eapply manager_plain; [done..|]; congruence).
  eapply (wp_OnAcceptClient g srv fac f s' em clnt); [exact Hrep'| | |done|lookup_side|done|cbn; lookup_side|done| |done|].
  - intros x Hx. rewrite lookup_insert_ne by lia. by apply Hfresh.
  - done.
  - apply lookup_insert_eq.
  - intros tr' h' ->. cbn beta. rewrite (proj2 (Z.eqb_neq n 0)) by lia. do 3 wp_step. apply HQ.
    cbn [ts_streams set_streams s']. rewrite delete_insert_id by done.
    assert (set_streams (ts_streams s) s' = s) as -> by (by destruct s). cbn. heap_eq.
Qed.

(** A new block of another kind. *)
Lemma manager_fresh fac f h x o : manager_rep fac f h → h !! x = None → x ≠ 0 → (∀ c, o ≠ OConn c) →
  manager_rep fac f (<[x := o]> h).
Proof.
  intros (Hf & [H0 Hc Ha] & Hm) Hx Hx0 Ho.
  assert (∀ y oy, h !! y = Some oy → <[x := o]> h !! y = Some oy) as Hl by (intros y oy Hy; by rewrite lookup_insert_ne by congruence).
  assert (∀ y c, <[x := o]> h !! y = Some (OConn c) → h !! y = Some (OConn c)) as Hb.
  { intros y c. rewrite lookup_insert. case_decide; [|done]. intros [= E]. by destruct (Ho c). }
  split; [by apply Hl|]. split; [split; [by rewrite lookup_insert_ne| |]|eapply mgr_ok_conns; [|exact Hm]; auto].
  - intros p c Hp%Hb. eapply conn_ok_weaken; [|by eapply Hc]. intros y oy Hy%Hl _. by destruct oy.
  - intros p p' c c' Hne Hp%Hb Hp'%Hb. by eapply Ha.
Qed.

(** The handle of the new stream, in memory. *)
Definition accepting (fd stream : Z) : client_handle := ClientHandle (Some fd) None (Some stream) (Some 0) None.

(** The end of [on_connection] for a server that takes the connection. *)
Lemma wp_accepted g fac srv stream0 f s sh i em n h m tr tr0 fd X :
  server_rep h fac srv stream0 f s sh i em → server_ready s em = true → (∀ x, n ≤ x → h !! x = None) → 0 < n → fmem_ok m →
  fa_entries f !! srv ≫= lookup (GetNextConnectionId f).1 = None →
  wp (serve_client g (ts_srvr s) i (n + 1))
    (λ _ w', accepted g fac srv f (World n h m tr0) w') X
    (World (n + 1 + 1) (<[n + 1 := OClient (accepting fd n)]> (<[n := OUv (UvObject (Some (n + 1)))]> h)) m tr).
Proof.
  intros [Hman Hsrv Hsf Hem Hlen Hsh Hud Himpl Hcb Hloop Hsock Hstr] Hready Hfresh Hn Hmem Hnew.
  assert (∀ x o, h !! x = Some o → x < n) as Hlt.
  { intros x o Hx. destruct (Z.lt_ge_cases x n) as [|Hge]; [done|]. by rewrite Hfresh in Hx. }
  pose proof (Hlt _ _ Hsh). pose proof (Hlt _ _ Hsrv). pose proof (Hlt _ _ Hem). pose proof (Hlt _ _ (proj1 Hman)).
  unfold serve_client. rewrite Hcb. wp_step. eapply (wp_accept_ready g srv fac f s em (ts_srvr s) sh (n + 1) (accepting fd n)); try done; try heap_side.
  - apply manager_fresh; [apply manager_fresh; [done|apply Hfresh|..]| |..]; try done; try lia.
    rewrite lookup_insert_ne by lia. apply Hfresh. lia.
  - intros x Hx. rewrite !lookup_insert_ne by lia. apply Hfresh. lia.
  - apply eq_None_not_Some. intros Hx%Hstr. rewrite Hfresh in Hx by lia. by destruct Hx.
  - intros tr' h' ->. cbn beta. rewrite Z.eqb_refl. cbn [negb]. do 5 wp_step.
    replace (n + 1 + 1 + 2 + 1) with (n + 5) by lia.
    eapply (accepted_intro g fac srv f s n h m tr0 _ _ (n + 1)
      (set_bb (n + 1 + 1 + 2) (set_connimpl (n + 1 + 1) (accepting fd n))) n (n + 1 + 1 + 2) f0 (n + 1 + 1) (n + 1 + 1 + 1));
      try done; try lia. heap_eq.
Qed.

(** The library refused the connection: its last answer to one of the three calls. *)
Definition refused_stream (w : world) : Prop :=
  ∃ e tr, w_trace w = e :: tr ∧ ev_fn e ∈ ["uv_tcp_init"; "uv_accept"; "uv_read_start"] ∧ ev_ret e ≠ 0.

Lemma ge_fresh (w : world) x : world_ok w → w_next w ≤ x → w_heap w !! x = None.
Proof. intros Hw. by apply world_fresh. Qed.

Lemma on_connection_ok (g : bool) (fac srv stream0 status : Z) (f : factory) (s : tcp_server) (sh : server_handle)
    (i : uvsrvr_impl) (em : event_manager) (w : world) (Hw : world_ok w)
    (Hrep : server_rep (w_heap w) fac srv stream0 f s sh i em) (Hready : server_ready s em = true)
    (Hnew : fa_entries f !! srv ≫= lookup (GetNextConnectionId f).1 = None) :
  wp (on_connection g stream0 status)
    (λ _ w', (w_heap w' = w_heap w ∧ (status ≠ 0 ∨ refused_stream w')) ∨ (status = 0 ∧ accepted g fac srv f w w'))
    (λ _, False) w.
Proof.
  destruct Hrep as [Hman Hsrv Hsf Hem Hlen Hsh Hud Himpl Hcb [lu Hloop] Hsock Hstr].
  pose proof (λ x, ge_fresh w x Hw) as Hfresh. pose proof Hw as (Hn & _ & Hmem).
  destruct w as [n h m tr]. cbn [w_next w_heap w_mem] in *. pose proof Hman as (Hf & _).
  assert (∀ x o, h !! x = Some o → x ≠ 0 ∧ x < n) as Hnz.
  { intros x o Hx. split; [by eapply mgr_nz|]. destruct (Z.lt_ge_cases x n) as [|Hge]; [done|]. by rewrite Hfresh in Hx. }
  destruct (Hnz _ _ Hsh), (Hnz _ _ Hsock), (Hnz _ _ Himpl), (Hnz _ _ Hloop), (Hnz _ _ Hf), (Hnz _ _ Hsrv), (Hnz _ _ Hem).
  unfold on_connection. do 2 wp_step. cbn [uv_data]. do 6 wp_step. cbn beta.
  destruct (Z.eqb_spec status 0) as [Es|Es]; cbn [negb]; [|wp_step; left; split; [done|by left]].
  assert (∀ P r e tr', (ev_fn e ∈ ["uv_tcp_init"; "uv_accept"; "uv_read_start"]) → ev_ret e ≠ 0 →
    wp (free n) (λ _ w', (w_heap w' = h ∧ (r ≠ 0 ∨ refused_stream w')) ∨ P w') (λ _, False)
      (World (n + 1) (<[n := OUv fresh_uv]> h) m (e :: tr'))) as Hrefuse.
  { intros P r e tr' Hfn Hret. wp_step. rewrite delete_id by (apply Hfresh; lia). left. split; [done|]. right.
    by exists e, tr'. }
  do 3 wp_step. eapply wp_call_on; [heap_side..|intros r1 Hr1]. cbn beta.
  destruct (Z.eqb_spec r1 0) as [E1|E1]; cbn [negb]; [|by apply Hrefuse; [set_solver|]].
  wp_step. eapply wp_call_on; [heap_side..|intros r2 Hr2]. cbn beta.
  destruct (Z.eqb_spec r2 0) as [E2|E2]; cbn [negb]; [|by apply Hrefuse; [set_solver|]].
  wp_step. eapply wp_call_on; [heap_side..|intros r3 Hr3]. cbn beta.
  destruct (Z.eqb_spec r3 0) as [E3|E3]; cbn [negb]; [|by apply Hrefuse; [set_solver|]].
  do 2 wp_step. wp_step. eapply wp_call_on; [heap_side..|intros fd Hfd]. cbn beta. do 8 wp_step.
  match goal with |- wp _ _ _ (World _ ?h1 _ _) =>
    replace h1 with (<[n + 1 := OClient (accepting fd n)]> (<[n := OUv (UvObject (Some (n + 1)))]> h)) by (cbn; heap_eq) end.
  eapply wp_mono; [eapply (wp_accepted g fac srv stream0 f s sh i em n h m _ tr); try done; try lia|].
  - by split; eauto.
  - intros [] w' Hacc. right. by split.
Qed.

(** C16: libuv reports a connection on the listening socket of a server that is ready.  If the
    status is an error, or the library does not set up the stream, all blocks are as they were.  Otherwise
    there is a connected client object, registered at the manager under a new id and with
    its handle, packet, stream and empty buffer; the manager's invariant holds and no handle
    is left waiting for an object. *)
Theorem on_connection_accepts (g : bool) (fac srv stream0 status : Z) (f : factory) (s : tcp_server) (sh : server_handle)
    (i : uvsrvr_impl) (em : event_manager) (w : world) (Hw : world_ok w)
    (Hrep : server_rep (w_heap w) fac srv stream0 f s sh i em) (Hready : server_ready s em = true)
    (Hnew : fa_entries f !! srv ≫= lookup (GetNextConnectionId f).1 = None) :
  wp (on_connection g stream0 status)
    (λ _ w', (w_heap w' = w_heap w ∧ (status ≠ 0 ∨ refused_stream w')) ∨ (status = 0 ∧ accepted g fac srv f w w'))
    (λ _, False) w.
Proof. by eapply on_connection_ok. Qed.

(** ** Errors *)

(** The library sets up every stream. *)
Definition takes_streams : Prop :=
  ∀ tr fn args, fn ∈ ["uv_tcp_init"; "uv_accept"; "uv_read_start"] → answer tr fn args = 0.

(** A server that is closed, or whose event handlers are not set, turns a connection away: [on_connection] then
    destroys the buffer of the handle, which is created only afterwards. *)
Theorem refused_accept_uninit (g : bool) (fac srv stream0 : Z) (f : factory) (s : tcp_server) (sh : server_handle)
    (i : uvsrvr_impl) (em : event_manager) (w : world) (Hw : world_ok w)
    (Hrep : server_rep (w_heap w) fac srv stream0 f s sh i em) (Hready : server_ready s em = false)
    (Hlib : takes_streams) :
  wp (on_connection g stream0 0) (λ _ _, False) (λ x, x = HFault Uninit) w.
Proof.
  destruct Hrep as [Hman Hsrv Hsf Hem Hlen Hsh Hud Himpl Hcb [lu Hloop] Hsock Hstr].
  pose proof (λ x, ge_fresh w x Hw) as Hfresh. pose proof Hw as (Hn & _ & Hmem).
  destruct w as [n h m tr]. cbn [w_next w_heap w_mem] in *.
  assert (∀ x o, h !! x = Some o → x ≠ 0 ∧ x < n) as Hnz.
  { intros x o Hx. split; [by eapply mgr_nz|]. destruct (Z.lt_ge_cases x n) as [|Hge]; [done|]. by rewrite Hfresh in Hx. }
  destruct (Hnz _ _ Hsh), (Hnz _ _ Hsock), (Hnz _ _ Himpl), (Hnz _ _ Hloop), (Hnz _ _ Hsrv), (Hnz _ _ Hem).
  unfold on_connection. do 2 wp_step. cbn [uv_data]. do 6 wp_step. cbn beta. cbn [Z.eqb negb].
  do 3 wp_step. eapply wp_call_on; [heap_side..|intros r1 ->]. rewrite Hlib by set_solver. cbn [Z.eqb negb].
  wp_step. eapply wp_call_on; [heap_side..|intros r2 ->]. rewrite Hlib by set_solver. cbn [Z.eqb negb].
  wp_step. eapply wp_call_on; [heap_side..|intros r3 ->]. rewrite Hlib by set_solver. cbn [Z.eqb negb].
  do 2 wp_step. wp_step. eapply wp_call_on; [heap_side..|intros fd Hfd]. cbn beta. do 8 wp_step.
  unfold serve_client. rewrite Hcb. wp_step. unfold on_server_accept_client. do 2 wp_step. rewrite Hud. do 4 wp_step.
  cbn beta. rewrite Hready. cbn [negb]. do 2 wp_step. cbn beta. do 2 wp_step. wp_step.
  eapply (wp_uv_close n); [intros _; lookup_side|]. intros tr'. cbn beta. do 3 wp_step. cbn [Z.eqb negb].
  do 3 wp_step. wp_step. wp_step. wp_step. eapply (wp_uv_close 0); [done|]. intros tr2. cbn beta. wp_step. by apply wp_init_none.
  Unshelve. all: exact fresh_uv.
Qed.

Lemma wp_wait_closed fuel p i (Q : bool → world → Prop) X n h m tr :
  p ≠ 0 → h !! p = Some (OUvImpl i) → ui_server_closed i = 1 → Q true (World n h m tr) →
  wp (wait_server_closed fuel p) Q X (World n h m tr).
Proof. intros Hp Hi H1 HQ. destruct fuel; cbn [wait_server_closed]; do 2 wp_step; cbn beta; rewrite H1; by wp_step. Qed.

Lemma entries_nil : entries (∅ : gmap Z Z) = [].
Proof. apply Permutation_nil_r. by rewrite entries_perm, map_to_list_empty. Qed.

(** C40: Closing a server that no connection waits at and no client object refers to:
    whatever number of turns it may wait, it takes none, since the flag it waits for is set before;
    the handle has lost its implementation when libuv runs the close callback of the socket, which
    reads through it. *)
Theorem close_callback_crashes (fuel : nat) (fac srv stream0 : Z) (f : factory) (s : tcp_server) (sh : server_handle)
    (i : uvsrvr_impl) (em : event_manager) (w : world)
    (Hrep : server_rep (w_heap w) fac srv stream0 f s sh i em) (Hopen : ts_closed s = false)
    (Hsock : ui_server i = stream0) (Hwait : ts_streams s = ∅) (Hnone : default ∅ (fa_entries f !! srv) = ∅) :
  wp (Close fuel srv) (λ r w', r = true ∧ w_heap w' !! srv = Some (OTcp (set_closed true s)) ∧
      wp (on_server_close stream0) (λ _ _, False) (λ x, x = HFault NullDeref) w') (λ _, False) w.
Proof.
  destruct Hrep as [Hman Hsrv Hsf Hem Hlen Hsh Hud Himpl Hcb [lu Hloop] Hsk Hstr]. destruct w as [n h m tr]. cbn [w_heap] in *.
  assert (∀ x o, h !! x = Some o → x ≠ 0) as Hnz by (intros x o; by eapply mgr_nz). pose proof (proj1 Hman) as Hf.
  pose proof (Hnz _ _ Hsh). pose proof (Hnz _ _ Hsk). pose proof (Hnz _ _ Himpl). pose proof (Hnz _ _ Hsrv). pose proof (Hnz _ _ Hf).
  unfold Close. do 2 wp_step. rewrite Hopen. cbn [negb]. rewrite Hwait.
  rewrite entries_nil.
  assert (set_streams ∅ s = s) as Es by (rewrite <- Hwait; by destruct s).
  cbn [close_streams]. do 4 wp_step. rewrite Es. cbn [Io.inj tcp_kind]. rewrite (insert_id h srv (OTcp s)) by done. do 5 wp_step.
  assert (srv_impl sh ≠ ts_srvr s) by congruence. assert (srv_impl sh ≠ stream0) by congruence.
  unfold uv_server_dispose_. do 5 wp_step. cbn beta. cbn [ui_server set_server_closed]. rewrite Hsock.
  rewrite (proj2 (Z.eqb_neq stream0 0)) by done. cbn [negb]. do 2 wp_step.
  eapply wp_wait_closed; [done|lookup_side|done|]. cbn beta. cbn [negb]. do 5 wp_step. cbn [negb]. wp_step.
  unfold DisposeDownStreams. rewrite Hsf. do 2 wp_step. cbn beta.
  match goal with |- wp ?m' _ _ _ => assert (m' = mret tt) as -> end.
  { destruct (fa_entries f !! srv) as [cls|]; [|done]. cbn in Hnone. subst cls. by rewrite entries_nil. }
  do 4 wp_step. split; [done|]. split; [apply lookup_insert_eq|]. unfold on_server_close.
  do 2 wp_step. cbn [uv_data]. do 4 wp_step. cbn beta. by apply wp_bind, wp_bind, wp_read_null.
Qed.

(** ** A client leaves *)

(** The last event of a client: [Disconnect] ran, the close callback of libuv is due. *)
Definition left_conn (c : conn) : conn :=
  SetFlushed true (set_packet 0 (SetDisposed true (SetConnected false (set_running false c)))).
Definition left_factory (srv id cl : Z) (f : factory) : factory :=
  decr_count (set_recycler (fa_recycler f ++ [cl]) (erase_client srv id f)).

(** A registered, connected client, its blocks, and nothing under way. *)
Record client_live (n : Z) h (m : fmem) (fac srv : Z) (f : factory) (s : tcp_server) (em : event_manager) (cl : Z) (c : conn)
    (clnt : Z) (k : client_handle) (stream bb : Z) (b : fifo) (q : aq) : Prop := {
  cv_manager : manager_rep fac f h;
  cv_server : h !! srv = Some (OTcp s);
  cv_factory : ts_factory s = fac;
  cv_events : h !! ts_events s = Some (OEvents em);
  cv_handlers : length (em_handlers em) = TCP_EVENT_ID_MAX;
  cv_registered : fa_entries f !! srv ≫= lookup (cn_id c) = Some cl;
  cv_conn : h !! cl = Some (OConn c);
  cv_class : is_client c = true;
  cv_ref : cn_ref c = srv;
  cv_running : cn_running c = true;
  cv_disposed : cn_disposed c = false;
  cv_flushed : cn_flushed c = false;
  cv_timer : cn_timer c = 0;
  cv_quiet : IsBackEndClean c && IsFrontEndClean c = true;
  cv_clnt : cn_clnt c = clnt;
  cv_handle : h !! clnt = Some (OClient k);
  cv_sockimpl : clnt_sockimpl k = Some stream;
  cv_connimpl : clnt_connimpl k = Some cl;
  cv_bb : clnt_bb k = Some bb;
  cv_stream : h !! stream = Some (OUv (UvObject (Some clnt)));
  cv_fifo : h !! bb = Some (OFifo b);
  cv_queue : frep m b q
}.

Lemma wp_client_leaves n h m tr fac srv f s em cl c clnt k stream bb b q (Q : unit → world → Prop) X :
  client_live n h m fac srv f s em cl c clnt k stream bb b q →
  (∀ tr' h', h' = <[fac := OFactory (left_factory srv (cn_id c) cl f)]> (<[cl := OConn (left_conn c)]>
      (<[clnt := OClient (set_sockimpl 0 k)]> (delete (cn_packet c) h))) → Q tt (World n h' m tr')) →
  wp (Disconnect_client cl) Q X (World n h m tr).
Proof.
  intros [Hman Hsrv Hsf Hem Hlen Hreg Hc Hcls Href Hrun Hdisp Hfl Htm Hq Hcc Hk Hks Hki Hkb Hst Hb Hfq] HQ.
  assert (∀ x o, h !! x = Some o → x ≠ 0) as Hnz by (intros x o; by eapply mgr_nz). pose proof Hman as (Hf & Hok & Hm).
  pose proof (Hnz _ _ Hf). pose proof (Hnz _ _ Hsrv). pose proof (Hnz _ _ Hem). pose proof (Hnz _ _ Hc). pose proof (Hnz _ _ Hk).
  assert (conn_at h cl c) as Hat.
  { split; [done|]. split; [done|]. exists (ts_events s), em. split; [done|]. split; [done|]. split; [done|].
    unfold is_client in Hcls. destruct (cn_class c); [|done]. exists s. by rewrite Href. }
  destruct (ok_conn _ Hok _ _ Hc) as [Hpk _ Htim].
  destruct (fa_entries f !! srv) as [clients|] eqn:Ee; [|done]. cbn in Hreg.
  unfold Disconnect_client. do 2 wp_step. cbn beta. rewrite Hdisp, Hrun. cbn [negb andb]. do 3 wp_step.
  eapply (wp_OnDisconnect cl (set_running false c)); [by apply (conn_at_update h cl c)|]. intros tr1. rewrite insert_insert_eq.
  cbn beta. set (c2 := SetConnected false (set_running false c)).
  assert (cl ≠ srv) by congruence. assert (cl ≠ fac) by congruence. assert (cl ≠ clnt) by congruence.
  rewrite Href. do 2 wp_step. cbn beta. rewrite Hsf. unfold OnRemoveClient. do 4 wp_step. cbn beta. rewrite Ee.
  cbn [cn_id c2 SetConnected set_running]. rewrite Hreg. do 3 wp_step. unfold ReleaseConnection.
  eapply (wp_DisposeConnection cl c2 k stream); [done|apply lookup_insert_eq|by rewrite lookup_insert_ne; [apply ok_null|]|..].
  { split; [cbn; congruence|]. cbn. rewrite Hcc. split; [heap_side|]. split; [done|]. intros _. eexists. heap_side. }
  { destruct Hpk as [?|[Hne [pc Hpc]]]; [by left|right]. split; [done|]. exists pc. cbn. rewrite lookup_insert_ne; [done|congruence]. }
  { by left. }
  { done. }
  intros tr2. cbn beta.
  assert (end_timer (dispose_conn stream c2) = left_conn c) as ->.
  { unfold end_timer, is_client, left_conn, dispose_conn, flush_conn in *. cbn. destruct (cn_class c); [|done].
    rewrite Hfl, (proj2 (Z.eqb_neq stream 0)); [done|by eapply Hnz]. }
  cbn [cn_clnt cn_flushed cn_packet c2 SetConnected set_running]. rewrite Hcc, Hfl. cbn [flush_clnt].
  assert (∀ x o, h !! x = Some o → (∀ pc, o ≠ OPacket pc) → cn_packet c ≠ x) as Hpx.
  { intros x o Hx Ho <-. destruct Hpk as [E|[_ [pc Hpc]]]; [by apply (Hnz _ _ Hx)|]. simplify_eq. by eapply Ho. }
  pose proof (Hpx _ _ Hf ltac:(done)). pose proof (Hpx _ _ Hc ltac:(done)). assert (clnt ≠ fac) by congruence.
  wp_step. unfold RecyclerPush. do 4 wp_step. apply HQ. unfold left_factory. cbn [Io.inj factory_kind].   heap_eq.
Qed.

(** Recycling the one object that has left. *)
Lemma wp_recycle_left n h m tr fac f cl c clnt k bb b q (Q : bool → world → Prop) X :
  h !! 0 = None → h !! fac = Some (OFactory f) → fa_recycler f = [cl] → fa_safe f = [] → h !! cl = Some (OConn c) →
  is_client c = true → releasable c = true → cn_clnt c = clnt → h !! clnt = Some (OClient k) → clnt_bb k = Some bb →
  h !! bb = Some (OFifo b) → frep m b q →
  (∀ m', Q false (World n (<[fac := OFactory (set_recycler [] f)]> (delete cl (delete clnt (delete bb h)))) m' tr)) →
  wp (Recycle fac) Q X (World n h m tr).
Proof.
  intros H0 Hf Hr Hs Hc Hcls Hrel Hcc Hk Hkb Hb Hq HQ.
  assert (∀ x o, h !! x = Some o → x ≠ 0) as Hnz by (intros x o Hx ->; congruence).
  pose proof (Hnz _ _ Hf). pose proof (Hnz _ _ Hc). pose proof (Hnz _ _ Hk). pose proof (Hnz _ _ Hb).
  assert (fac ≠ cl) by congruence. assert (fac ≠ clnt) by congruence. assert (fac ≠ bb) by congruence.
  unfold Recycle. wp_step. unfold RecyclerPop. do 2 wp_step. cbn beta. rewrite Hr. cbn [recycler_loop]. do 5 wp_step.
  cbn beta. rewrite Hrel. do 2 wp_step. cbn beta. wp_step. unfold SafeRelease. do 3 wp_step. cbn [fa_safe set_safe set_recycler].
  rewrite Hs. cbn [app delete_conns]. wp_step. rewrite (proj2 (Z.eqb_neq cl 0)) by done. unfold delete_conn. do 2 wp_step. cbn beta.
  unfold is_client in Hcls. destruct (cn_class c); [|done]. do 3 wp_step. rewrite Hcc, (proj2 (Z.eqb_neq clnt 0)) by done.
  do 13 wp_step.
  assert (set_safe [] (set_safe [cl] (set_recycler [] f)) = set_recycler [] f) as E by (destruct f; cbn in *; by subst).
  rewrite E. cbn [fa_recycler set_recycler]. specialize (HQ m').
  match goal with |- Q ?r (World _ ?h1 _ _) => replace h1 with (<[fac := OFactory (set_recycler [] f)]>
    (delete cl (delete clnt (delete bb h)))); [exact HQ|] end. cbn [Io.inj factory_kind]. heap_eq.
Qed.

(** The blocks of a client are different blocks. *)
Lemma live_apart n h m fac srv f s em cl c clnt k stream bb b q :
  client_live n h m fac srv f s em cl c clnt k stream bb b q →
  fac ≠ 0 ∧ cl ≠ 0 ∧ clnt ≠ 0 ∧ bb ≠ 0 ∧ stream ≠ 0 ∧ fac ≠ stream ∧
  cn_packet c ≠ fac ∧ cn_packet c ≠ cl ∧ cn_packet c ≠ clnt ∧ cn_packet c ≠ stream ∧ cn_packet c ≠ bb.
Proof.
  intros [Hman Hsrv Hsf Hem Hlen Hreg Hc Hcls Href Hrun Hdisp Hfl Htm Hq Hcc Hk Hks Hki Hkb Hst Hb Hfq].
  assert (∀ x o, h !! x = Some o → x ≠ 0) as Hnz by (intros x o; by eapply mgr_nz). pose proof Hman as (Hf & Hok & Hm).
  assert (∀ x o, h !! x = Some o → (∀ pc, o ≠ OPacket pc) → cn_packet c ≠ x) as Hpx.
  { intros x o Hx Ho <-. destruct (ok_conn _ Hok _ _ Hc) as [[E|[_ [pc Hpc]]] _ _]; [by apply (Hnz _ _ Hx)|].
    simplify_eq. by eapply Ho. }
  repeat split; first [by eapply Hnz|by eapply Hpx|congruence].
Qed.

Lemma live_fifo n h m fac srv f s em cl c clnt k stream bb b q b' q' :
  client_live n h m fac srv f s em cl c clnt k stream bb b q → frep m b' q' →
  client_live n (<[bb := OFifo b']> h) m fac srv f s em cl c clnt k stream bb b' q'.
Proof.
  intros [Hman Hsrv Hsf Hem Hlen Hreg Hc Hcls Href Hrun Hdisp Hfl Htm Hq Hcc Hk Hks Hki Hkb Hst Hb Hfq] Hb'.
  split; try done; try (rewrite lookup_insert_ne by congruence; done); [eapply manager_plain; [done..|]; destruct Hman; congruence|apply lookup_insert_eq].
Qed.

(** The end of a stream, as libuv reports it: the client disconnects. *)
Lemma wp_client_eof n h m tr fac srv f s em cl c clnt k stream bb b q nread (Q : unit → world → Prop) X :
  client_live n h m fac srv f s em cl c clnt k stream bb b q → nread = UV_EOF ∨ nread = UV_ECONNRESET →
  (∀ b' q', client_live n (<[bb := OFifo b']> h) m fac srv f s em cl c clnt k stream bb b' q' →
    wp (Disconnect_client cl) Q X (World n (<[bb := OFifo b']> h) m tr)) →
  wp (on_client_read stream nread) Q X (World n h m tr).
Proof.
  intros Hlive Hn HQ. destruct (live_apart _ _ _ _ _ _ _ _ _ _ _ _ _ _ _ _ Hlive) as (N1 & N2 & N3 & N4 & N5 & _).
  pose proof Hlive as [Hman Hsrv Hsf Hem Hlen Hreg Hc Hcls Href Hrun Hdisp Hfl Htm Hq Hcc Hk Hks Hki Hkb Hst Hb Hfq].
  destruct q as [cap d r].
  unfold on_client_read. do 2 wp_step. cbn [uv_data]. do 6 wp_step.
  assert ((nread <? 0) = true) as -> by (by destruct Hn as [->| ->]).
  assert (((nread =? UV_EOF) || (nread =? UV_ECONNRESET)) = true) as -> by (by destruct Hn as [->| ->]).
  wp_step. unfold commit_client. do 4 wp_step. wp_step. cbn beta. unfold client_failed.
  rewrite (proj2 (Z.eqb_neq cl 0)) by done. cbn [negb]. eapply HQ, live_fifo; [exact Hlive|eassumption].
Qed.

(** The objects of a client are gone, and nothing else. *)
Definition released h h' (fac cl : Z) (c : conn) (stream bb : Z) : Prop :=
  ∀ x, x ≠ fac → h' !! x = if decide (x ∈ [cl; cn_clnt c; cn_packet c; stream; bb]) then None else h !! x.

(** C17: The peer of a registered client with nothing under way closes its stream or resets it; libuv runs
    the close callback of the stream, then the factory recycles: the client is out of the maps and the count,
    its object, packet, stream, handle and buffer are freed, and nothing is left to recycle. *)
Theorem client_released (fac srv : Z) (f : factory) (s : tcp_server) (em : event_manager) (cl : Z) (c : conn)
    (clnt : Z) (k : client_handle) (stream bb nread : Z) (b : fifo) (q : aq) (w : world)
    (Hlive : client_live (w_next w) (w_heap w) (w_mem w) fac srv f s em cl c clnt k stream bb b q)
    (Hread : nread = UV_EOF ∨ nread = UV_ECONNRESET) (Hrec : fa_recycler f = []) (Hsafe : fa_safe f = []) :
  wp (on_client_read stream nread;; on_client_stream_close stream;; Recycle fac)
    (λ more w', more = false ∧ released (w_heap w) (w_heap w') fac cl c stream bb ∧
      w_heap w' !! fac = Some (OFactory (decr_count (erase_client srv (cn_id c) f)))) (λ _, False) w.
Proof.
  destruct w as [n h m tr]. cbn [w_next w_heap w_mem] in *. wp_step. eapply wp_client_eof; [exact Hlive|done|].
  intros b' q' Hlive'. eapply wp_client_leaves; [exact Hlive'|]. intros tr1 h1 Eh1.
  cbn beta. destruct (live_apart _ _ _ _ _ _ _ _ _ _ _ _ _ _ _ _ Hlive) as (N1 & N2 & N3 & N4 & N5 & N6 & N7 & N8 & N9 & N10 & N11).
  destruct Hlive' as [_ _ _ _ _ _ _ _ _ _ _ _ _ _ _ _ _ _ _ _ Hb' Hfq']. destruct Hlive as [Hman Hsrv Hsf Hem Hlen Hreg Hc Hcls Href Hrun Hdisp Hfl Htm Hq Hcc Hk Hks Hki Hkb Hst Hb Hfq].
  pose proof (ok_null _ (proj1 (proj2 Hman))) as H0. pose proof (proj1 Hman) as Hf.
  assert (fac ≠ cl) by congruence. assert (fac ≠ clnt) by congruence. assert (fac ≠ bb) by congruence.
  assert (cl ≠ clnt) by congruence. assert (cl ≠ bb) by congruence. assert (clnt ≠ bb) by congruence.
  assert (cl ≠ stream) by congruence. assert (clnt ≠ stream) by congruence. assert (bb ≠ stream) by congruence.
  subst h1. wp_step. unfold on_client_stream_close. do 2 wp_step. cbn [uv_data]. do 4 wp_step. cbn beta.
  cbn [clnt_connimpl set_sockimpl]. rewrite Hki. do 2 wp_step. rewrite (proj2 (Z.eqb_neq cl 0)) by done. cbn [negb]. do 3 wp_step.
  eapply (wp_recycle_left _ _ _ _ fac (left_factory srv (cn_id c) cl f) cl (SetFlushed true (left_conn c)) clnt
    (set_sockimpl 0 k) bb b' q'); [|lookup_side| |done|lookup_side|done| |done|lookup_side|done|lookup_side|done|].
  - rewrite lookup_delete_ne, !lookup_insert_ne, lookup_delete by (try done; by eapply not_eq_sym). case_decide; [done|].
    by rewrite lookup_insert_ne.
  - unfold left_factory. cbn. by rewrite Hrec.
  - unfold releasable, IsBackEndClean, IsFrontEndClean in *. cbn. by apply andb_true_iff in Hq as [-> ->].
  - intros m'. split; [done|]. split.
    + intros x Hx. cbn [w_heap]. rewrite lookup_insert_ne by done. rewrite !lookup_delete, !lookup_insert, !lookup_delete, ?lookup_insert, Hcc.
      destruct (decide (x ∈ [cl; clnt; cn_packet c; stream; bb])) as [Hin|Hout].
      * rewrite !elem_of_cons, elem_of_nil in Hin. destruct Hin as [->|[->|[->|[->|[->|[]]]]]]; repeat case_decide; congruence.
      * rewrite !not_elem_of_cons in Hout. destruct Hout as (? & ? & ? & ? & ? & _). repeat case_decide; congruence.
    + cbn [w_heap]. rewrite lookup_insert_eq. f_equal. f_equal. destruct f; cbn in *; by subst.
Qed.

(** C33: The mark of a flushed stream is set when the close is requested, not when libuv has
    run its callback: if the factory recycles in between, the callback reads the handle that
    is freed with the client object. *)
Theorem early_recycle_dangles (fac srv : Z) (f : factory) (s : tcp_server) (em : event_manager) (cl : Z) (c : conn)
    (clnt : Z) (k : client_handle) (stream bb : Z) (b : fifo) (q : aq) (w : world)
    (Hlive : client_live (w_next w) (w_heap w) (w_mem w) fac srv f s em cl c clnt k stream bb b q)
    (Hrec : fa_recycler f = []) (Hsafe : fa_safe f = []) :
  wp (Disconnect_client cl;; _ ← Recycle fac; on_client_stream_close stream) (λ _ _, False) (λ x, x = HFault Dangling) w.
Proof.
  destruct w as [n h m tr]. cbn [w_next w_heap w_mem] in *. wp_step. eapply wp_client_leaves; [exact Hlive|]. intros tr1 h1 Eh1.
  cbn beta. destruct (live_apart _ _ _ _ _ _ _ _ _ _ _ _ _ _ _ _ Hlive) as (N1 & N2 & N3 & N4 & N5 & N6 & N7 & N8 & N9 & N10 & N11).
  destruct Hlive as [Hman Hsrv Hsf Hem Hlen Hreg Hc Hcls Href Hrun Hdisp Hfl Htm Hq Hcc Hk Hks Hki Hkb Hst Hb Hfq].
  pose proof (proj1 Hman) as Hf. assert (fac ≠ cl) by congruence. assert (fac ≠ clnt) by congruence.
  assert (cl ≠ clnt) by congruence. assert (fac ≠ bb) by congruence. assert (cl ≠ bb) by congruence.
  assert (clnt ≠ bb) by congruence. subst h1. wp_step. eapply (wp_recycle_left _ _ _ _ fac (left_factory srv (cn_id c) cl f) cl (left_conn c) clnt
    (set_sockimpl 0 k) bb b q); [|lookup_side| |done|lookup_side|done| |done|lookup_side|done|lookup_side|done|].
  - destruct Hman as (_ & Hok & _). pose proof (ok_null _ Hok) as Hz.
    rewrite !lookup_insert_ne, lookup_delete by (try done; by eapply not_eq_sym). by case_decide.
  - unfold left_factory. cbn. by rewrite Hrec.
  - unfold releasable, IsBackEndClean, IsFrontEndClean in *. cbn. by apply andb_true_iff in Hq as [-> ->].
  - intros m'. cbn beta. assert (fac ≠ stream) by congruence. assert (cl ≠ stream) by congruence. assert (clnt ≠ stream) by congruence.
    assert (bb ≠ stream) by congruence. unfold on_client_stream_close. do 2 wp_step. cbn [uv_data]. do 2 wp_step. apply wp_bind.
    apply wp_bind, wp_read_dangling; [done| |done]. rewrite lookup_insert_ne, lookup_delete_ne by congruence. apply lookup_delete_eq.
Qed.

(** ** Opening a server *)

(** A server object before [Open]. *)
Record server_base h (fac srv : Z) (f : factory) (s : tcp_server) (sh : server_handle) (em : event_manager) : Prop := {
  sb_manager : manager_rep fac f h;
  sb_server : h !! srv = Some (OTcp s);
  sb_factory : ts_factory s = fac;
  sb_events : h !! ts_events s = Some (OEvents em);
  sb_handlers : length (em_handlers em) = TCP_EVENT_ID_MAX;
  sb_handle : h !! ts_srvr s = Some (OServer sh);
  sb_userdata : srv_userdata sh = srv;
  sb_loop : ∃ u, h !! fa_loop f = Some (OUv u);
  sb_streams x : is_Some (ts_streams s !! x) → is_Some (h !! x)
}.

(** [Open] failed: the last call of the library did; besides the port, a socket may be left
    when it is [uv_listen]. *)
Definition open_failed (port : Z) (s : tcp_server) (sh : server_handle) h (w' : world) : Prop :=
  ∃ e tr, w_trace w' = e :: tr ∧ ev_ret e ≠ 0 ∧
    let h1 := <[ts_srvr s := OServer (set_srv_port port sh)]> h in
    w_heap w' = h1 ∨ ev_fn e = "uv_listen" ∧ ∃ sock, h !! sock = None ∧ w_heap w' = <[sock := OUv fresh_uv]> h1.

Definition opened (fac srv port : Z) (f : factory) (s : tcp_server) (em : event_manager) (w' : world) : Prop :=
  ∃ stream0 sh i, server_rep (w_heap w') fac srv stream0 f s sh i em ∧ srv_port sh = port ∧
    ui_server i = stream0 ∧ ui_server_closed i = 0 ∧ ui_loop i = fa_loop f.

Lemma opened_intro fac srv port f s sh em n h m tr fd i h' : server_base h fac srv f s sh em → (∀ x, n ≤ x → h !! x = None) → 0 < n →
  i = UvSrvrImpl (fa_loop f) (n + 1) 0 (Some "on_server_accept_client") "on_server_close" "on_client_read" "on_client_write" →
  h' = <[ts_srvr s := OServer (ServerHandle fd port n (srv_userdata sh))]>
    (<[n + 1 := OUv (UvObject (Some (ts_srvr s)))]> (<[n := OUvImpl i]> h)) →
  opened fac srv port f s em (World (n + 2) h' m tr).
Proof.
  intros [Hman Hsrv Hsf Hem Hlen Hsh Hud [lu Hloop] Hstr] Hfresh Hn Ei Eh. pose proof (proj1 Hman) as Hf.
  assert (∀ x o, h !! x = Some o → x < n) as Hlt.
  { intros x o Hx. destruct (Z.lt_ge_cases x n) as [|Hge]; [done|]. by rewrite Hfresh in Hx. }
  pose proof (Hlt _ _ Hsh).
  assert (∀ x o, h !! x = Some o → x ≠ ts_srvr s → h' !! x = Some o) as Hold.
  { intros x o Hx Hne. pose proof (Hlt _ _ Hx). subst h'. by rewrite !lookup_insert_ne by lia. }
  exists (n + 1), (ServerHandle fd port n (srv_userdata sh)), i. cbn [w_heap]. split; [|by subst i].
  assert (manager_rep fac f h') as Hman'.
  { subst h'. eapply (manager_plain _ _ _ _ (OServer sh)); [|by rewrite !lookup_insert_ne by lia|done|done|congruence].
    apply manager_fresh; [|rewrite lookup_insert_ne by lia; apply Hfresh; lia|lia|done]. apply manager_fresh; [done|apply Hfresh; lia|lia|done]. }
  split; try done; try (apply Hold; [done|congruence]).
  - subst h'. apply lookup_insert_eq.
  - subst h'. cbn. rewrite !lookup_insert_ne by lia. by rewrite lookup_insert_eq.
  - by subst i.
  - exists lu. subst i. cbn [ui_loop]. apply Hold; [done|congruence].
  - subst h'. rewrite lookup_insert_ne by lia. by rewrite lookup_insert_eq.
  - intros x [o Ho]%Hstr. destruct (decide (x = ts_srvr s)) as [->|]; [subst h'; rewrite lookup_insert_eq; by eexists|].
    exists o. by apply Hold.
Qed.

(** C34: [Open] returns 0 with the server listening on the port, its socket, handle and
    implementation referring to each other, or 1 after a call of libuv failed; then only the port has
    changed, and, if the socket was bound but could not listen, the socket is left behind. *)
Theorem Open_listens (fac srv port : Z) (f : factory) (s : tcp_server) (sh : server_handle) (em : event_manager) (w : world)
    (Hw : world_ok w) (Hbase : server_base (w_heap w) fac srv f s sh em) :
  wp (Open srv port)
    (λ r w', (r = 0 ∧ opened fac srv port f s em w') ∨ (r = 1 ∧ open_failed port s sh (w_heap w) w')) (λ _, False) w.
Proof.
  pose proof (λ x, ge_fresh w x Hw) as Hfresh. pose proof Hw as (Hn & _ & Hmem). destruct w as [n h m tr]. cbn [w_next w_heap w_mem] in *.
  pose proof Hbase as [Hman Hsrv Hsf Hem Hlen Hsh Hud [lu Hloop] Hstr].
  assert (∀ x o, h !! x = Some o → x ≠ 0 ∧ x < n) as Hnz.
  { intros x o Hx. split; [by eapply mgr_nz|]. destruct (Z.lt_ge_cases x n) as [|Hge]; [done|]. by rewrite Hfresh in Hx. }
  pose proof (proj1 Hman) as Hf. destruct (Hnz _ _ Hsh), (Hnz _ _ Hloop), (Hnz _ _ Hf), (Hnz _ _ Hsrv).
  unfold Open. do 2 wp_step. rewrite Hsf. do 3 wp_step. wp_step. wp_step. wp_step. unfold uv_server_init_. do 2 wp_step. cbn beta.
  cbn [ui_loop]. rewrite (proj2 (Z.eqb_neq (fa_loop f) 0)) by done. do 3 wp_step.
  assert (h !! n = None) as Hn0 by (apply Hfresh; lia). assert (h !! (n + 1) = None) as Hn1 by (apply Hfresh; lia).
  apply wp_call_out. intros r1 addr _. cbn beta iota. destruct (Z.eqb_spec r1 0) as [E1|E1]; cbn [negb].
  2:{ do 3 wp_step. right. split; [done|]. do 2 eexists. split; [done|]. split; [done|]. left. cbn. heap_eq. }
  do 3 wp_step. eapply wp_call_on; [heap_side..|intros r2 _]. cbn beta. destruct (Z.eqb_spec r2 0) as [E2|E2]; cbn [negb].
  2:{ do 5 wp_step. right. split; [done|]. do 2 eexists. split; [done|]. split; [done|]. left. cbn. heap_eq. }
  wp_step. eapply wp_call_on; [heap_side..|intros r3 _]. cbn beta. destruct (Z.eqb_spec r3 0) as [E3|E3]; cbn [negb].
  2:{ do 5 wp_step. right. split; [done|]. do 2 eexists. split; [done|]. split; [done|]. left. cbn. heap_eq. }
  wp_step. eapply wp_call_on; [heap_side..|intros r4 _]. cbn beta. destruct (Z.eqb_spec r4 0) as [E4|E4]; cbn [negb].
  2:{ do 3 wp_step. right. split; [done|]. do 2 eexists. split; [done|]. split; [done|]. right. split; [done|]. exists (n + 1).
      split; [done|]. cbn. heap_eq. }
  do 13 wp_step. left. split; [done|]. replace (n + 1 + 1) with (n + 2) by lia.
  eapply opened_intro; [exact Hbase|done|done|done|]. cbn. heap_eq.
Qed.
End server.

(** ** Witnesses *)

(** A listening server without clients: the factory, the server and its event manager, its
    handle, implementation and socket. *)
Definition ex_lone_factory : factory := Factory 1 1000000000 ∅ ∅ 0 [] [] [3] [].
Definition ex_server_impl : uvsrvr_impl :=
  UvSrvrImpl 1 7 0 (Some "on_server_accept_client") "on_server_close" "on_client_read" "on_client_write".
Definition ex_events (ready : bool) : event_manager := EventManager ready ["c"; "d"; ""; ""] "p" "i".
Definition ex_server_handle : server_handle := ServerHandle 0 80 6 3.
Definition ex_server_heap (ready : bool) : gmap Z (@obj ex_fifo) :=
  <[1 := OUv (UvObject (Some 0))]> (<[2 := OFactory ex_lone_factory]> (<[3 := OTcp ex_server]>
    (<[4 := OEvents (ex_events ready)]> (<[5 := OServer ex_server_handle]> (<[6 := OUvImpl ex_server_impl]>
      {[ 7 := OUv (UvObject (Some 5)) ]}))))).
Definition ex_server_world (ready : bool) : @world ex_fifo := @World ex_fifo 8 (ex_server_heap ready) empty_heap [].

Lemma ex_server_world_ok ready : world_ok (ex_server_world ready).
Proof.
  split; [done|]. split; [|apply empty_heap_ok]. intros x Hx. cbn [ex_server_world w_heap w_next] in *. unfold ex_server_heap in Hx.
  repeat (rewrite lookup_insert in Hx; case_decide; [subst; clear Hx; lia|]).
  destruct Hx as [o [<- _]%lookup_singleton_Some]. lia.
Qed.

Lemma ex_server_manager ready : manager_rep 2 ex_lone_factory (ex_server_heap ready).
Proof.
  assert (∀ p c, ex_server_heap ready !! p ≠ Some (OConn c)) as Hno.
  { intros p c. unfold ex_server_heap. rewrite !lookup_insert_Some, lookup_singleton_Some. naive_solver congruence. }
  split; [done|]. split.
  - split; [done| |]; intros; exfalso; by eapply Hno.
  - split; cbn; [intros ? ? ? ?; by rewrite lookup_empty|intros ? ?; by rewrite lookup_empty
      |intros ? Hx; by apply not_elem_of_nil in Hx|intros ? Hx; by apply not_elem_of_nil in Hx|constructor|done].
Qed.

Lemma ex_server_rep ready : server_rep (ex_server_heap ready) 2 3 7 ex_lone_factory ex_server ex_server_handle ex_server_impl
  (ex_events ready).
Proof.
  split; [apply ex_server_manager|exact eq_refl..| | | ]; [by eexists|exact eq_refl|]. intros x. cbn. rewrite lookup_empty. by intros [].
Qed.

Lemma on_connection_accepts_witness :
  wp (@on_connection ex_fifo (ex_lib (λ _, 0)) false 7 0)
    (λ _ w', (w_heap w' = ex_server_heap true ∧ (0 ≠ 0 ∨ refused_stream w')) ∨
      (0 = 0 ∧ accepted false 2 3 ex_lone_factory (ex_server_world true) w')) (λ _, False) (ex_server_world true).
Proof.
  apply (@on_connection_accepts ex_fifo (ex_lib (λ _, 0)) false 2 3 7 0 ex_lone_factory ex_server ex_server_handle
    ex_server_impl (ex_events true) (ex_server_world true) (ex_server_world_ok true) (ex_server_rep true) eq_refl eq_refl).
Defined.

Lemma refused_accept_uninit_witness :
  wp (@on_connection ex_fifo (ex_lib (λ _, 0)) false 7 0) (λ _ _, False) (λ x, x = HFault Uninit) (ex_server_world false).
Proof.
  apply (@refused_accept_uninit ex_fifo (ex_lib (λ _, 0)) false 2 3 7 ex_lone_factory ex_server ex_server_handle
    ex_server_impl (ex_events false) (ex_server_world false) (ex_server_world_ok false) (ex_server_rep false) eq_refl).
  intros tr fn args _. exact eq_refl.
Defined.

Lemma close_callback_crashes_witness :
  wp (@Close ex_fifo (ex_lib (λ _, 0)) ex_order 10 3) (λ r w', r = true ∧ w_heap w' !! 3 = Some (OTcp (set_closed true ex_server)) ∧
      wp (@on_server_close ex_fifo 7) (λ _ _, False) (λ x, x = HFault NullDeref) w') (λ _, False)
    (ex_server_world true).
Proof.
  apply (@close_callback_crashes ex_fifo (ex_lib (λ _, 0)) ex_order 10 2 3 7 ex_lone_factory ex_server ex_server_handle
    ex_server_impl (ex_events true) (ex_server_world true) (ex_server_rep true)); exact eq_refl.
Defined.

(** A server before [Open]. *)
Lemma Open_listens_witness :
  wp (@Open ex_fifo (ex_lib (λ _, 0)) 3 8080)
    (λ r w', (r = 0 ∧ opened 2 3 8080 ex_lone_factory ex_server (ex_events true) w') ∨
      (r = 1 ∧ open_failed 8080 ex_server ex_server_handle (ex_server_heap true) w')) (λ _, False) (ex_server_world true).
Proof.
  apply (@Open_listens ex_fifo (ex_lib (λ _, 0)) 2 3 8080 ex_lone_factory ex_server ex_server_handle (ex_events true)
    (ex_server_world true) (ex_server_world_ok true)).
  destruct (ex_server_rep true). by split.
Defined.

(** The client that the server accepted. *)
Definition ex_accepted : @world ex_fifo := after (@on_connection ex_fifo (ex_lib (λ _, 0)) false 7 0) (ex_server_world true).

Lemma after_accepted (p : @prog ex_fifo unit) (P : world → Prop) (w : @world ex_fifo) :
  wp p (λ _ w', (w_heap w' = w_heap w ∧ (0 ≠ 0 ∨ refused_stream w')) ∨ (0 = 0 ∧ P w')) (λ _, False) w →
  forallb (λ e, ev_ret e =? 0) (w_trace (after p w)) = true → P (after p w).
Proof.
  unfold wp, after. destruct (p w) as [[] w'| |]; [|by intros []..].
  intros [[_ [Hne|(e & tr & E & _ & Hr)]]|[_ Hacc]]; [by destruct Hne| |by intros _].
  rewrite E. cbn. intros [H1%Z.eqb_eq _]%andb_true_iff. by destruct Hr.
Qed.

Lemma ex_accepted_ok : accepted false 2 3 ex_lone_factory (ex_server_world true) ex_accepted.
Proof.
  refine (after_accepted (@on_connection ex_fifo (ex_lib (λ _, 0)) false 7 0) (accepted false 2 3 ex_lone_factory (ex_server_world true))
    (ex_server_world true) _ _); [|by vm_compute].
  exact (@on_connection_ok ex_fifo (ex_lib (λ _, 0)) false 2 3 7 0 ex_lone_factory ex_server ex_server_handle
    ex_server_impl (ex_events true) (ex_server_world true) (ex_server_world_ok true) (ex_server_rep true) eq_refl eq_refl).
Qed.

Lemma ex_accepted_live : ∃ c clnt k cl stream bb b,
  client_live (w_next ex_accepted) (w_heap ex_accepted) (w_mem ex_accepted) 2 3 (accepted_factory 3 cl ex_lone_factory) ex_server
    (ex_events true) cl c clnt k stream bb b (AQ TCP_STREAM_READ_SIZE [] None).
Proof.
  assert (ex_prj (A := event_manager) (w_heap ex_accepted !! 4) = Some (ex_events true)) as Hem by (by vm_compute).
  destruct ex_accepted_ok as (cl & c & clnt & k & stream & bb & b & packet & Hman & Hev & Hc & Ec & Hp & Hk & Hfd & Hks & Hki & Hkb & Hs & Hb & Hq).
  assert (w_heap ex_accepted !! 4 = Some (OEvents (ex_events true))) as Hem'.
  { unfold ex_prj in Hem. destruct (w_heap ex_accepted !! 4) as [[]|]; cbn in Hem; congruence. }
  exists c, clnt, k, cl, stream, bb, b. subst c.
  split; try assumption; exact eq_refl.
Qed.

Lemma client_released_witness : ∃ cl c stream bb,
  wp (@on_client_read ex_fifo (ex_lib (λ _, 0)) stream UV_EOF;; @on_client_stream_close ex_fifo stream;;
      @Recycle ex_fifo 2)
    (λ more w', more = false ∧ released (w_heap ex_accepted) (w_heap w') 2 cl c stream bb ∧
      w_heap w' !! 2 = Some (OFactory (decr_count (erase_client 3 (cn_id c) (accepted_factory 3 cl ex_lone_factory)))))
    (λ _, False) ex_accepted.
Proof.
  destruct ex_accepted_live as (c & clnt & k & cl & stream & bb & b & Hlive). exists cl, c, stream, bb.
  apply (@client_released ex_fifo (ex_lib (λ _, 0)) 2 3 (accepted_factory 3 cl ex_lone_factory) ex_server (ex_events true) cl c
    clnt k stream bb UV_EOF b (AQ TCP_STREAM_READ_SIZE [] None) ex_accepted Hlive); [by left|exact eq_refl..].
Defined.

Lemma early_recycle_dangles_witness : ∃ cl stream,
  wp (@Disconnect_client ex_fifo (ex_lib (λ _, 0)) cl;; _ ← @Recycle ex_fifo 2;
      @on_client_stream_close ex_fifo stream) (λ _ _, False) (λ x, x = HFault Dangling) ex_accepted.
Proof.
  destruct ex_accepted_live as (c & clnt & k & cl & stream & bb & b & Hlive). exists cl, stream.
  apply (@early_recycle_dangles ex_fifo (ex_lib (λ _, 0)) 2 3 (accepted_factory 3 cl ex_lone_factory) ex_server (ex_events true) cl c
    clnt k stream bb b (AQ TCP_STREAM_READ_SIZE [] None) ex_accepted Hlive); exact eq_refl.
Defined.
