(* ===== verification/Threads.v ===== *)
(** * Threads that share memory

    A thread is a tree of atomic accesses to a state of type [S]: [run] executes it alone,
    [run_both] executes two threads as a schedule says.  Two logics: [twp] for a run of
    one thread, and [rg], rely and guarantee, for a thread whose state another one changes
    between its accesses; [rg_interleave] puts two threads together.

    A store is visible to the other thread at once, and in order. *)

From S2P Require Import Prelude.

(** What a thread has left to do: a result, or an atomic access and the rest. *)
Inductive thread (S A : Type) : Type :=
  | TRet (a : A)
  | TAct (B : Type) (f : S → outcome (B * S)) (k : B → thread S A).
Arguments TRet {S A} a.
Arguments TAct {S A B} f k.

#[export] Instance thread_ret S : MRet (thread S) := @TRet S.
#[export] Instance thread_bind S : MBind (thread S) := λ A B f,
  fix go (t : thread S A) : thread S B :=
    match t with TRet a => f a | TAct g k => TAct g (λ b, go (k b)) end.

Section threads.
Context {S : Type}.

(** ** Execution *)

(** Alone. *)
Fixpoint run {A} (t : thread S A) (s : S) : outcome (A * S) :=
  match t with
  | TRet a => Ok (a, s)
  | TAct f k => match f s with Ok (b, s) => run (k b) s | Ub u => Ub u end
  end.

(** One access of a thread. *)
Definition step_th {A} (t : thread S A) (s : S) : outcome (thread S A * S) :=
  match t with
  | TRet a => Ok (TRet a, s)
  | TAct f k => match f s with Ok (b, s) => Ok (k b, s) | Ub u => Ub u end
  end.

(** Two threads; true for an access of the first. *)
Fixpoint run_both {A B} (sched : list bool) (m : thread S A) (w : thread S B) (s : S) :
    outcome (thread S A * thread S B * S) :=
  match sched with
  | [] => Ok (m, w, s)
  | true :: sched => '(m, s) ← step_th m s; run_both sched m w s
  | false :: sched => '(w, s) ← step_th w s; run_both sched m w s
  end.

Definition act {A} (f : S → outcome (A * S)) : thread S A := TAct f TRet.
Definition gets {A} (f : S → A) : thread S A := act (λ s, Ok (f s, s)).
Definition modify (f : S → S) : thread S unit := act (λ s, Ok (tt, f s)).

(** One call after the other. *)
Fixpoint calls {A} (l : list (thread S A)) : thread S (list A) :=
  match l with [] => mret (@nil A) | t :: l => a ← t; r ← calls l; mret (a :: r) end.

(** ** A run of one thread *)

Definition twp {A} (t : thread S A) (Q : A → S → Prop) (s : S) : Prop :=
  match run t s with Ok (a, s) => Q a s | Ub _ => False end.

Lemma run_bind {A B} (t : thread S A) (f : A → thread S B) s :
  run (t ≫= f) s = match run t s with Ok (a, s) => run (f a) s | Ub u => Ub u end.
Proof. revert s. induction t as [a|B' g k IH]; intros s; [done|]. cbn. destruct (g s) as [[b s']|u]; [apply IH|done]. Qed.

Lemma twp_ret {A} (a : A) Q s : Q a s → twp (mret a) Q s.
Proof. done. Qed.
Lemma twp_bind {A B} (t : thread S A) (f : A → thread S B) Q s : twp t (λ a, twp (f a) Q) s → twp (t ≫= f) Q s.
Proof. unfold twp. rewrite run_bind. by destruct (run t s) as [[a s']|u]. Qed.
Lemma twp_mono {A} (t : thread S A) (Q Q' : A → S → Prop) s : twp t Q s → (∀ a s, Q a s → Q' a s) → twp t Q' s.
Proof. unfold twp. destruct (run t s) as [[a s']|]; auto. Qed.
Lemma twp_act {A} (f : S → outcome (A * S)) a s' (Q : A → S → Prop) s : f s = Ok (a, s') → Q a s' → twp (act f) Q s.
Proof. unfold twp, act. cbn. by intros ->. Qed.
Lemma twp_gets {A} (f : S → A) (Q : A → S → Prop) s : Q (f s) s → twp (gets f) Q s.
Proof. done. Qed.
Lemma twp_modify f (Q : unit → S → Prop) s : Q tt (f s) → twp (modify f) Q s.
Proof. done. Qed.
End threads.

(** ** Rely and guarantee *)

(** A thread sees a state with a ghost part that the proof chooses.  [Rely] is what happens
    between two of its accesses, [Guar] what each of them does. *)
Section rely.
Context {S G : Type}.
Implicit Types (σ : S * G) (Rely Guar : S * G → S * G → Prop).

Fixpoint rg {A} Rely Guar (t : thread S A) (Q : A → S * G → Prop) σ : Prop :=
  match t with
  | TRet a => ∀ σ', Rely σ σ' → Q a σ'
  | TAct f k => ∀ σ', Rely σ σ' → ∃ b s g, f σ'.1 = Ok (b, s) ∧ Guar σ' (s, g) ∧ rg Rely Guar (k b) Q (s, g)
  end.

Lemma rg_stable {A} Rely Guar (t : thread S A) Q σ σ' : Transitive Rely → rg Rely Guar t Q σ → Rely σ σ' → rg Rely Guar t Q σ'.
Proof. intros HT. destruct t; cbn; eauto. Qed.

Lemma rg_bind {A B} Rely Guar (t : thread S A) (f : A → thread S B) Q σ : Transitive Rely →
  rg Rely Guar t (λ a, rg Rely Guar (f a) Q) σ → Reflexive Rely → rg Rely Guar (t ≫= f) Q σ.
Proof.
  intros HT Ht HR. revert σ Ht. induction t as [a|B' g k IH]; intros σ Ht.
  - apply Ht, HR.
  - cbn. intros σ' Hσ. destruct (Ht _ Hσ) as (b & s & gh & E & Hg & Hk). exists b, s, gh. split; [done|]. split; [done|]. by apply IH.
Qed.

Lemma rg_assoc {A B C} Rely Guar (t : thread S A) (k : A → thread S B) (h : B → thread S C) Q σ :
  rg Rely Guar (t ≫= λ a, k a ≫= h) Q σ → rg Rely Guar ((t ≫= k) ≫= h) Q σ.
Proof.
  revert σ. induction t as [a|B' f kt IH]; intros σ Ht; [exact Ht|]. cbn. intros σ' Hσ.
  destruct (Ht _ Hσ) as (b & s & gh & E & Hg & Hk). exists b, s, gh. split; [done|]. split; [done|]. by apply IH.
Qed.

Lemma rg_mono {A} Rely Guar (t : thread S A) (Q Q' : A → S * G → Prop) σ :
  rg Rely Guar t Q σ → (∀ a σ, Q a σ → Q' a σ) → rg Rely Guar t Q' σ.
Proof.
  intros Ht HQ. revert σ Ht. induction t as [a|B' g k IH]; cbn; intros σ Ht; [auto|].
  intros σ' Hσ. destruct (Ht _ Hσ) as (b & s & gh & E & Hg & Hk). exists b, s, gh. eauto.
Qed.

(** An access, from an assertion that the other thread keeps. *)
Lemma rg_act {A} Rely Guar (P : S * G → Prop) (f : S → outcome (A * S)) (Q : A → S * G → Prop) σ :
  P σ → (∀ σ σ', P σ → Rely σ σ' → P σ') →
  (∀ σ, P σ → ∃ a s g, f σ.1 = Ok (a, s) ∧ Guar σ (s, g) ∧ ∀ σ', Rely (s, g) σ' → Q a σ') → rg Rely Guar (act f) Q σ.
Proof. intros HP HS H. cbn. intros σ' Hσ. apply H. by eapply HS. Qed.

(** An access and the rest, from an assertion that the other thread keeps. *)
Lemma rg_step {A B} Rely Guar (P : S * G → Prop) (f : S → outcome (A * S)) (k : A → thread S B) (Q : B → S * G → Prop) σ :
  P σ → (∀ σ σ', P σ → Rely σ σ' → P σ') →
  (∀ σ, P σ → ∃ a s g, f σ.1 = Ok (a, s) ∧ Guar σ (s, g) ∧ rg Rely Guar (k a) Q (s, g)) → rg Rely Guar (act f ≫= k) Q σ.
Proof. intros HP HS H. cbn. intros σ' Hσ. apply H. by eapply HS. Qed.

Lemma rg_ret {A} Rely Guar (a : A) (P : S * G → Prop) (Q : A → S * G → Prop) σ :
  P σ → (∀ σ σ', P σ → Rely σ σ' → P σ') → (∀ σ, P σ → Q a σ) → rg Rely Guar (mret a) Q σ.
Proof. intros HP HS HQ σ' Hσ. by eapply HQ, HS. Qed.

(** Two threads, each of which does what the other one relies on. *)
Lemma rg_interleave {A B} R1 G1 R2 G2 sched (t1 : thread S A) (t2 : thread S B) Q1 Q2 s g :
  Transitive R1 → Transitive R2 → (∀ σ σ', G1 σ σ' → R2 σ σ') → (∀ σ σ', G2 σ σ' → R1 σ σ') → Reflexive R1 → Reflexive R2 →
  rg R1 G1 t1 Q1 (s, g) → rg R2 G2 t2 Q2 (s, g) →
  ∃ t1' t2' s' g', run_both sched t1 t2 s = Ok (t1', t2', s') ∧ rg R1 G1 t1' Q1 (s', g') ∧ rg R2 G2 t2' Q2 (s', g').
Proof.
  intros HT1 HT2 H12 H21 HR1 HR2. revert t1 t2 s g. induction sched as [|[] sched IH]; intros t1 t2 s g Ht1 Ht2; cbn.
  - by exists t1, t2, s, g.
  - destruct t1 as [a|C f k]; cbn; [by eapply IH|]. destruct (Ht1 (s, g) (HR1 _)) as (b & s' & g' & E & Hg & Hk). cbn in E. rewrite E. cbn.
    eapply IH; [exact Hk|]. eapply rg_stable; [done|exact Ht2|by apply H12].
  - destruct t2 as [a|C f k]; cbn; [by eapply IH|]. destruct (Ht2 (s, g) (HR2 _)) as (b & s' & g' & E & Hg & Hk). cbn in E. rewrite E. cbn.
    eapply IH; [|exact Hk]. eapply rg_stable; [done|exact Ht1|by apply H21].
Qed.

(** A thread alone. *)
Lemma rg_run {A} Rely Guar (t : thread S A) Q s g : Reflexive Rely → Reflexive Guar → Transitive Guar → rg Rely Guar t Q (s, g) →
  ∃ a s' g', run t s = Ok (a, s') ∧ Q a (s', g') ∧ Guar (s, g) (s', g').
Proof.
  intros HR HG HT. revert s g. induction t as [a|B f k IH]; intros s g Ht; cbn in *.
  - exists a, s, g. split; [done|]. split; [apply Ht, HR|done].
  - destruct (Ht _ (HR _)) as (b & s' & g' & E & Hg & Hk). cbn in E. rewrite E. apply IH in Hk as (a & s2 & g2 & E2 & HQ & Hg2).
    exists a, s2, g2. split; [done|]. split; [done|]. by etrans.
Qed.
End rely.

(** ** The number of accesses *)

(** At most [n] of them, whatever they return. *)
Fixpoint within {S A} (n : nat) (t : thread S A) : Prop :=
  match t, n with TRet _, _ => True | TAct _ k, O => False | TAct _ k, Datatypes.S n => ∀ b, within n (k b) end.

Section within.
Context {S : Type}.

Lemma within_mono {A} n m (t : thread S A) : within n t → (n ≤ m)%nat → within m t.
Proof. revert m t. induction n as [|n IH]; intros m [a|B f k] Ht Hm; destruct m; cbn in *; try done; try lia. intros b. apply IH; [done|lia]. Qed.
Lemma within_ret {A} (a : A) n : within n (mret a : thread S A).
Proof. by destruct n. Qed.
Lemma within_bind {A B} n m (t : thread S A) (f : A → thread S B) : within n t → (∀ a, within m (f a)) → within (n + m) (t ≫= f).
Proof.
  revert t. induction n as [|n IH]; intros [a|C g k] Ht Hf; cbn in *; try done.
  - pose proof (within_mono m (Datatypes.S n + m) (f a) (Hf a)) as H. apply H. lia.
  - intros b. by apply IH.
Qed.
Lemma within_act {A B} n (f : S → outcome (A * S)) (k : A → thread S B) : (∀ a, within n (k a)) → within (Datatypes.S n) (act f ≫= k).
Proof. done. Qed.
Lemma within_assoc {A B C} n (t : thread S A) (k : A → thread S B) (h : B → thread S C) :
  within n (t ≫= λ a, k a ≫= h) → within n ((t ≫= k) ≫= h).
Proof. revert t. induction n as [|n IH]; intros [a|D f kt] H; cbn in *; try done. intros b. by apply IH. Qed.
Lemma within_calls {A} n (l : list (thread S A)) : (∀ t, t ∈ l → within n t) → within (length l * n) (calls l).
Proof.
  induction l as [|t l IH]; intros H; [apply within_ret|]. cbn. apply within_bind; [apply H; left|]. intros a.
  rewrite <- (Nat.add_0_r (length l * n)). apply within_bind; [apply IH; intros; apply H; by right|]. intros r. apply within_ret.
Qed.
(** Two threads that get their accesses finish. *)
Lemma within_run {A B} n m sched (t : thread S A) (w : thread S B) s t' w' s' : within n t → within m w → run_both sched t w s = Ok (t', w', s') →
  (n ≤ count_occ Bool.bool_dec sched true)%nat → (m ≤ count_occ Bool.bool_dec sched false)%nat → ∃ a b, t' = TRet a ∧ w' = TRet b.
Proof.
  assert (∀ C n (t : thread S C) s t' s', within n t → step_th t s = Ok (t', s') → within (pred n) t') as Hstep.
  { intros C k [c|D f k'] s0 t0 s1 Ht; cbn; [by intros [= <- <-]; destruct (pred k)|]. destruct k; [done|].
    destruct (f s0) as [[d s2]|]; [|done]. intros [= <- <-]. apply Ht. }
  revert n m t w s. induction sched as [|[] sched IH]; intros n m t w s Ht Hw; cbn.
  - intros [= <- <- <-] Hn Hm. destruct n, m; try lia. destruct t as [a|], w as [b|]; try done. by exists a, b.
  - destruct (step_th t s) as [[t1 s1]|] eqn:E; cbn; [|done]. intros E' Hn Hm. eapply (IH (pred n) m); eauto; lia.
  - destruct (step_th w s) as [[w1 s1]|] eqn:E; cbn; [|done]. intros E' Hn Hm. eapply (IH n (pred m)); eauto; lia.
Qed.
End within.

(** Along every path of a thread. *)
Ltac within_tac := repeat first
  [ apply within_ret | apply within_assoc | apply within_act; intros ?
  | match goal with
    | |- within _ (if ?b then _ else _) => destruct b
    | |- within _ (mbind _ (if ?b then _ else _)) => destruct b
    end
  | progress cbn [mbind thread_bind mret thread_ret negb] ].
