(* ===== verification/SpscQueue.v ===== *)
(** * The lock-free queue: [base/concurrent/readerwriterqueue.h]

    [ReaderWriterQueue<T>]: one thread enqueues, one dequeues.  Its blocks are circular
    buffers, linked in a circle; the consumer owns the fronts, the producer the tails,
    and each side keeps copies of the other side's indices in the blocks.

    A method is a thread ([Threads]): every load and store of a field, and the construction,
    the move and the destruction of an element, is an access of its own, so that two
    methods may interleave anywhere.  The memory model is interleaving: the fences of the
    source have nothing to do.  A block is named by a number, [size_t] has 64 bits,
    malloc succeeds; an assertion that fails ends the run with [BadArg]. *)

From stdpp Require Import gmap.
From S2P Require Import Prelude BipSearch Threads.

#[local] Open Scope list_scope.
#[local] Open Scope Z_scope.

(** The template parameter. *)
Definition MAX_BLOCK_SIZE : Z := 512.

(** ** State *)

(** A block; of [data] the slots: raw memory is None. *)
Record block (T : Type) := Block {
  b_front : Z; b_localTail : Z; b_tail : Z; b_localFront : Z; b_next : Z; b_mask : Z; b_data : list (option T)
}.
Arguments Block {T}.
Arguments b_front {T}.
Arguments b_localTail {T}.
Arguments b_tail {T}.
Arguments b_localFront {T}.
Arguments b_next {T}.
Arguments b_mask {T}.
Arguments b_data {T}.

(** The queue with its blocks; [q_new] is the next block that malloc gives.
    [q_destroyed] is the model's own record of the elements whose destructor has run. *)
Record queue (T : Type) := Queue {
  q_blocks : gmap Z (block T); q_front : Z; q_tail : Z; q_largest : Z; q_new : Z; q_destroyed : list T
}.
Arguments Queue {T}.
Arguments q_blocks {T}.
Arguments q_front {T}.
Arguments q_tail {T}.
Arguments q_largest {T}.
Arguments q_new {T}.
Arguments q_destroyed {T}.

Section queue.
Context {T : Type}.

Definition set_front (x : Z) (b : block T) : block T :=
  Block x (b_localTail b) (b_tail b) (b_localFront b) (b_next b) (b_mask b) (b_data b).
Definition set_localTail (x : Z) (b : block T) : block T :=
  Block (b_front b) x (b_tail b) (b_localFront b) (b_next b) (b_mask b) (b_data b).
Definition set_tail (x : Z) (b : block T) : block T :=
  Block (b_front b) (b_localTail b) x (b_localFront b) (b_next b) (b_mask b) (b_data b).
Definition set_localFront (x : Z) (b : block T) : block T :=
  Block (b_front b) (b_localTail b) (b_tail b) x (b_next b) (b_mask b) (b_data b).
Definition set_next (x : Z) (b : block T) : block T :=
  Block (b_front b) (b_localTail b) (b_tail b) (b_localFront b) x (b_mask b) (b_data b).
Definition set_slots (x : list (option T)) (b : block T) : block T :=
  Block (b_front b) (b_localTail b) (b_tail b) (b_localFront b) (b_next b) (b_mask b) x.

Definition put_blocks (x : gmap Z (block T)) (q : queue T) : queue T := Queue x (q_front q) (q_tail q) (q_largest q) (q_new q) (q_destroyed q).
Definition put_front (x : Z) (q : queue T) : queue T := Queue (q_blocks q) x (q_tail q) (q_largest q) (q_new q) (q_destroyed q).
Definition put_tail (x : Z) (q : queue T) : queue T := Queue (q_blocks q) (q_front q) x (q_largest q) (q_new q) (q_destroyed q).
Definition put_largest (x : Z) (q : queue T) : queue T := Queue (q_blocks q) (q_front q) (q_tail q) x (q_new q) (q_destroyed q).
Definition put_destroyed (x : list T) (q : queue T) : queue T := Queue (q_blocks q) (q_front q) (q_tail q) (q_largest q) (q_new q) x.

Abbreviation qth := (thread (queue T)).

(** ** Accesses *)

(** [p->field], [p->field = ..] *)
Definition ldb {B} (p : Z) (f : block T → B) : qth B :=
  act (λ q, match q_blocks q !! p with Some b => Ok (f b, q) | None => Ub Dangling end).
Definition stb (p : Z) (f : block T → block T) : qth unit :=
  act (λ q, match q_blocks q !! p with
            | Some b => Ok (tt, put_blocks (<[p := f b]> (q_blocks q)) q)
            | None => Ub Dangling
            end).

(** The slot [p->data + i]: construction, move, destruction. *)
Definition slot_new (p i : Z) (x : T) : qth unit :=
  act (λ q, match q_blocks q !! p with
            | Some b => check (in_range i 1 (zlen (b_data b))) OobWrite
                          (Ok (tt, put_blocks (<[p := set_slots (<[Z.to_nat i := Some x]> (b_data b)) b]> (q_blocks q)) q))
            | None => Ub Dangling
            end).
Definition slot_move (p i : Z) : qth T :=
  act (λ q, match q_blocks q !! p with
            | Some b => match b_data b !! Z.to_nat i with
                        | Some (Some x) => Ok (x, q) | Some None => Ub Uninit | None => Ub OobRead end
            | None => Ub Dangling
            end).
Definition slot_destroy (p i : Z) : qth unit :=
  act (λ q, match q_blocks q !! p with
            | Some b => match b_data b !! Z.to_nat i with
                        | Some (Some x) => Ok (tt, put_destroyed (q_destroyed q ++ [x])
                            (put_blocks (<[p := set_slots (<[Z.to_nat i := None]> (b_data b)) b]> (q_blocks q)) q))
                        | Some None => Ub Uninit
                        | None => Ub OobRead
                        end
            | None => Ub Dangling
            end).

Definition assert_ (b : bool) : qth unit := act (λ q, check b BadArg (Ok (tt, q))).

(** [make_block]: the constructor of [Block] in new memory. *)
Definition make_block (capacity : Z) : qth Z :=
  act (λ q, Ok (q_new q,
    Queue (<[q_new q := Block 0 0 0 0 0 (u64 (capacity - 1)) (replicate (Z.to_nat capacity) None)]> (q_blocks q))
      (q_front q) (q_tail q) (q_largest q) (q_new q + 1) (q_destroyed q))).

(** ** The producer *)

(** [CanAlloc], [CannotAlloc] *)
Definition inner_enqueue (canAlloc : bool) (element : T) : qth bool :=
  tailBlock_ ← gets q_tail;
  blockFront ← ldb tailBlock_ b_localFront;
  blockTail ← ldb tailBlock_ b_tail;
  sizeMask ← ldb tailBlock_ b_mask;
  let nextBlockTail := Z.land (u64 (blockTail + 1)) sizeMask in
  room ← (if negb (nextBlockTail =? blockFront) then mret true
          else
            front ← ldb tailBlock_ b_front;
            stb tailBlock_ (set_localFront front);;
            mret (negb (nextBlockTail =? front)));
  if (room : bool) then
    (* This block has room for at least one more element *)
    slot_new tailBlock_ blockTail element;;
    stb tailBlock_ (set_tail nextBlockTail);;
    mret true
  else
    next ← ldb tailBlock_ b_next;
    front ← gets q_front;
    if negb (next =? front) then
      (* tailBlock is full, but there's a free block ahead, use it *)
      tailBlockNext ← ldb tailBlock_ b_next;
      nextBlockFront ← ldb tailBlockNext b_front;
      stb tailBlockNext (set_localFront nextBlockFront);;
      nextBlockTail ← ldb tailBlockNext b_tail;
      (* This block must be empty since it's not the head block and we
         go through the blocks in a circle *)
      assert_ (nextBlockFront =? nextBlockTail);;
      stb tailBlockNext (set_localFront nextBlockFront);;
      slot_new tailBlockNext nextBlockTail element;;
      sizeMask ← ldb tailBlockNext b_mask;
      stb tailBlockNext (set_tail (Z.land (u64 (nextBlockTail + 1)) sizeMask));;
      modify (put_tail tailBlockNext);;
      mret true
    else if canAlloc then
      (* tailBlock is full and there's no free block ahead; create a new block *)
      largestBlockSize ← gets q_largest;
      let newBlockSize := if MAX_BLOCK_SIZE <=? largestBlockSize then largestBlockSize else u64 (largestBlockSize * 2) in
      newBlock ← make_block newBlockSize;
      modify (put_largest newBlockSize);;
      slot_new newBlock 0 element;;
      front ← ldb newBlock b_front;
      assert_ (front =? 0);;
      stb newBlock (set_localTail 1);;
      stb newBlock (set_tail 1);;
      next ← ldb tailBlock_ b_next;
      stb newBlock (set_next next);;
      stb tailBlock_ (set_next newBlock);;
      modify (put_tail newBlock);;
      mret true
    else
      (* Would have had to allocate a new block to enqueue, but not allowed *)
      mret false.

Definition try_enqueue (element : T) : qth bool := inner_enqueue false element.
Definition enqueue (element : T) : qth bool := inner_enqueue true element.

(** ** The consumer *)

(** From the label [non_empty_front_block] on, for a block and its front: in [try_dequeue]
    and in [pop], which does not move the element out. *)
Definition dequeue_at (p blockFront : Z) : qth (option T) :=
  result ← slot_move p blockFront;
  slot_destroy p blockFront;;
  sizeMask ← ldb p b_mask;
  stb p (set_front (Z.land (u64 (blockFront + 1)) sizeMask));;
  mret (Some result).
Definition pop_at (p blockFront : Z) : qth bool :=
  slot_destroy p blockFront;;
  sizeMask ← ldb p b_mask;
  stb p (set_front (Z.land (u64 (blockFront + 1)) sizeMask));;
  mret true.

(** The text that the methods of the consumer share: find the front element, [found] where
    the front block is not empty, [ahead] with the next block where it is. *)
Definition at_front {B} (found : Z → Z → qth B) (ahead : Z → qth B) (empty : B) : qth B :=
  frontBlock_ ← gets q_front;
  blockTail ← ldb frontBlock_ b_localTail;
  blockFront ← ldb frontBlock_ b_front;
  nonempty ← (if negb (blockFront =? blockTail) then mret true
              else
                tail ← ldb frontBlock_ b_tail;
                stb frontBlock_ (set_localTail tail);;
                mret (negb (blockFront =? tail)));
  if (nonempty : bool) then
    (* Front block not empty, dequeue from here *)
    found frontBlock_ blockFront
  else
    tailBlock_ ← gets q_tail;
    if negb (frontBlock_ =? tailBlock_) then
      frontBlock_ ← gets q_front;
      blockTail ← ldb frontBlock_ b_tail;
      stb frontBlock_ (set_localTail blockTail);;
      blockFront ← ldb frontBlock_ b_front;
      if negb (blockFront =? blockTail) then
        (* Oh look, the front block isn't empty after all *)
        found frontBlock_ blockFront
      else
        (* Front block is empty but there's another block ahead, advance to it *)
        nextBlock ← ldb frontBlock_ b_next;
        ahead nextBlock
    else
      (* No elements in current block and no other block to advance to *)
      mret empty.

(** In [try_dequeue] and in [pop]. *)
Definition advance_to {B} (found : Z → Z → qth B) (nextBlock : Z) : qth B :=
  nextBlockFront ← ldb nextBlock b_front;
  nextBlockTail ← ldb nextBlock b_tail;
  stb nextBlock (set_localTail nextBlockTail);;
  (* Since the tailBlock is only ever advanced after being written to,
     we know there's for sure an element to dequeue on it *)
  assert_ (negb (nextBlockFront =? nextBlockTail));;
  (* We're done with this block, let the producer use it if it needs *)
  modify (put_front nextBlock);;
  found nextBlock nextBlockFront.

Definition try_dequeue : qth (option T) := at_front dequeue_at (advance_to dequeue_at) None.
Definition pop : qth bool := at_front pop_at (advance_to pop_at) false.

(** The pointer is a block and an index. *)
Definition peek : qth (option (Z * Z)) :=
  at_front (λ frontBlock_ blockFront, mret (Some (frontBlock_, blockFront)))
    (λ nextBlock,
       nextBlockFront ← ldb nextBlock b_front;
       nextBlockTail ← ldb nextBlock b_tail;
       assert_ (negb (nextBlockFront =? nextBlockTail));;
       mret (Some (nextBlock, nextBlockFront)))
    None.

(** [size_approx], from a block on, for at most [fuel] blocks. *)
Fixpoint size_loop (fuel : nat) (frontBlock_ block result : Z) : qth Z :=
  match fuel with
  | O => act (λ _, Ub NoFuel)
  | S fuel =>
    blockFront ← ldb block b_front;
    blockTail ← ldb block b_tail;
    sizeMask ← ldb block b_mask;
    let result := u64 (result + Z.land (u64 (blockTail - blockFront)) sizeMask) in
    block ← ldb block b_next;
    if negb (block =? frontBlock_) then size_loop fuel frontBlock_ block result else mret result
  end.
Definition size_approx (fuel : nat) : qth Z :=
  frontBlock_ ← gets q_front;
  size_loop fuel frontBlock_ frontBlock_ 0.

(** ** Construction and destruction *)

Definition ceilToPow2 (x : Z) : Z :=
  let x := u64 (x - 1) in
  let x := Z.lor x (Z.shiftr x 1) in
  let x := Z.lor x (Z.shiftr x 2) in
  let x := Z.lor x (Z.shiftr x 4) in
  (* i = 1, 2, 4: the shift is i << 3 *)
  let x := Z.lor x (Z.shiftr x 8) in
  let x := Z.lor x (Z.shiftr x 16) in
  let x := Z.lor x (Z.shiftr x 32) in
  u64 (x + 1).

(** The loop over [initialBlockCount], with [n] rounds to go; no first block is nullptr. *)
Fixpoint make_blocks (n : nat) (firstBlock : option Z) (lastBlock : Z) : qth (option Z) :=
  match n with
  | O => mret firstBlock
  | S n =>
    largestBlockSize ← gets q_largest;
    block ← make_block largestBlockSize;
    firstBlock ← match firstBlock with
                 | None => mret block
                 | Some firstBlock => stb lastBlock (set_next block);; mret firstBlock
                 end;
    stb block (set_next firstBlock);;
    make_blocks n (Some firstBlock) block
  end.
Definition ReaderWriterQueue (maxSize : Z) : qth unit :=
  assert_ (0 <? maxSize);;
  assert_ (MAX_BLOCK_SIZE =? ceilToPow2 MAX_BLOCK_SIZE);;
  assert_ (2 <=? MAX_BLOCK_SIZE);;
  (* We need a spare slot to fit maxSize elements in the block *)
  modify (put_largest (ceilToPow2 (u64 (maxSize + 1))));;
  largestBlockSize ← gets q_largest;
  firstBlock ← (if MAX_BLOCK_SIZE * 2 <? largestBlockSize then
                  let initialBlockCount := u64 (u64 (maxSize + MAX_BLOCK_SIZE * 2) - 3) `div` (MAX_BLOCK_SIZE - 1) in
                  modify (put_largest MAX_BLOCK_SIZE);;
                  make_blocks (Z.to_nat initialBlockCount) None 0
                else
                  firstBlock ← make_block largestBlockSize;
                  stb firstBlock (set_next firstBlock);;
                  mret (Some firstBlock));
  modify (put_front (default 0 firstBlock));;
  modify (put_tail (default 0 firstBlock)).

(** The destructor: the elements of a block, from [i] to its tail; the block goes. *)
Definition free_block (p : Z) : qth unit :=
  act (λ q, match q_blocks q !! p with Some _ => Ok (tt, put_blocks (delete p (q_blocks q)) q) | None => Ub Dangling end).
Fixpoint destroy_elements (fuel : nat) (block i blockTail : Z) : qth unit :=
  match fuel with
  | O => act (λ _, Ub NoFuel)
  | S fuel =>
    if negb (i =? blockTail) then
      slot_destroy block i;;
      sizeMask ← ldb block b_mask;
      destroy_elements fuel block (Z.land (u64 (i + 1)) sizeMask) blockTail
    else mret tt
  end.
Fixpoint destroy_blocks (fuel : nat) (frontBlock_ block : Z) : qth unit :=
  match fuel with
  | O => act (λ _, Ub NoFuel)
  | S fuel =>
    nextBlock ← ldb block b_next;
    blockFront ← ldb block b_front;
    blockTail ← ldb block b_tail;
    (* the fuel: a block has no more elements than slots *)
    slots ← ldb block (λ b, length (b_data b));
    destroy_elements slots block blockFront blockTail;;
    free_block block;;
    if negb (nextBlock =? frontBlock_) then destroy_blocks fuel frontBlock_ nextBlock else mret tt
  end.
Definition destructor (fuel : nat) : qth unit :=
  frontBlock_ ← gets q_front;
  destroy_blocks fuel frontBlock_ frontBlock_.

End queue.
