(* ===== verification/SpscInv.v ===== *)
(** * The lock-free queue: its invariant

    What the fields of a block stand for ([block_rep]), the blocks of the queue between two
    accesses ([inv]), and what each thread relies on while the other one runs ([prely],
    [crely]).  The ghost state has the elements of every block and the history. *)

From stdpp Require Import gmap.
From S2P Require Import Prelude BipSearch Threads SpscQueue.

#[local] Open Scope list_scope.
#[local] Open Scope Z_scope.

Section queue.
Context {T : Type}.
#[local] Abbreviation qth := (thread (queue T)).

(** ** Blocks *)

(** Behind the four indices of a block stand counters that do not wrap; [xs] are the
    elements from the front to the tail.  In a block with a hole the first element has been
    moved out, but the front does not say so yet. *)
Record block_rep (hole : bool) (b : block T) (xs : list T) (k lf f lt t : Z) : Prop := {
  br_k : 1 ≤ k ≤ 62;
  br_mask : b_mask b = 2 ^ k - 1;
  br_data : zlen (b_data b) = 2 ^ k;
  br_lf : lf ≤ f;
  br_lt : f ≤ lt ≤ t;
  br_room : t - lf < 2 ^ k;
  br_len : t = f + zlen xs;
  br_vfront : b_front b = f `mod` 2 ^ k;
  br_vlt : b_localTail b = lt `mod` 2 ^ k;
  br_vtail : b_tail b = t `mod` 2 ^ k;
  br_vlf : b_localFront b = lf `mod` 2 ^ k;
  br_slot i x : xs !! i = Some x → b_data b !! Z.to_nat ((f + Z.of_nat i) `mod` 2 ^ k) = Some (if hole && bool_decide (i = 0%nat) then None else Some x)
}.
Definition block_ok (hole : bool) (b : block T) (xs : list T) : Prop := ∃ k lf f lt t, block_rep hole b xs k lf f lt t.

Lemma mod_close k a c : 0 ≤ k → 0 ≤ a - c < 2 ^ k → a `mod` 2 ^ k = c `mod` 2 ^ k → a = c.
Proof.
  intros Hk Hac E. assert (0 < 2 ^ k) by (apply Z.pow_pos_nonneg; lia).
  assert ((a - c) `mod` 2 ^ k = 0) as Hz by (by rewrite Zminus_mod, E, Z.sub_diag, Zmod_0_l).
  rewrite Z.mod_small in Hz by done. lia.
Qed.
Lemma mod_range k a : 0 ≤ k → 0 ≤ a `mod` 2 ^ k < 2 ^ k.
Proof. intros. apply Z.mod_pos_bound. by apply Z.pow_pos_nonneg. Qed.
Lemma next_index k a m : 1 ≤ k ≤ 62 → m = 2 ^ k - 1 → Z.land (u64 (a `mod` 2 ^ k + 1)) m = (a + 1) `mod` 2 ^ k.
Proof.
  intros Hk ->. pose proof (mod_range k a ltac:(lia)). assert (2 ^ k ≤ 2 ^ 62) by (apply Z.pow_le_mono_r; lia).
  unfold wrapu. rewrite (Z.mod_small _ (2 ^ 64)) by lia. replace (2 ^ k - 1) with (Z.ones k) by (rewrite Z.ones_equiv; lia).
  rewrite Z.land_ones by lia. by rewrite Zplus_mod_idemp_l.
Qed.

Section rep.
Context {hole : bool} {b : block T} {xs : list T} {k lf f lt t : Z} (Hr : block_rep hole b xs k lf f lt t).

Lemma br_empty : b_front b = b_tail b ↔ xs = [].
Proof using Hr.
  destruct Hr as [Hk Hm Hd Hlf Hlt Hroom Hlen -> Hvlt -> Hvlf Hs]. split.
  - intros E. destruct xs as [|y l]; [done|]. rewrite length_cons in Hlen.
    assert (t = f) by (apply (mod_close k); [lia|lia|by symmetry]). lia.
  - intros ->. cbn in Hlen. by rewrite Hlen, Z.add_0_r.
Qed.
Lemma br_some : b_front b ≠ b_localTail b → ∃ x xs', xs = x :: xs'.
Proof using Hr.
  destruct Hr as [Hk Hm Hd Hlf Hlt Hroom Hlen -> -> Hvt Hvlf Hs]. intros E. destruct xs as [|x l]; [|by eexists _, _].
  cbn in Hlen. assert (lt = f) as -> by lia. done.
Qed.
(** Room, as the producer sees it. *)
Lemma br_has_room : Z.land (u64 (b_tail b + 1)) (b_mask b) ≠ b_localFront b → t + 1 - lf < 2 ^ k.
Proof using Hr.
  destruct Hr as [Hk Hm Hd Hlf Hlt Hroom Hlen Hvf Hvlt -> -> Hs]. rewrite Hm, (next_index k) by done. intros E.
  destruct (decide (t + 1 - lf = 2 ^ k)) as [Eq|]; [|lia]. destruct E.
  replace (t + 1) with (lf + 1 * 2 ^ k) by lia. by rewrite Z.mod_add by (pose proof (Z.pow_pos_nonneg 2 k); lia).
Qed.
Lemma br_tail_range : in_range (b_tail b) 1 (zlen (b_data b)) = true.
Proof using Hr.
  destruct Hr as [Hk Hm Hd Hlf Hlt Hroom Hlen Hvf Hvlt -> Hvlf Hs]. pose proof (mod_range k t ltac:(lia)).
  unfold in_range. rewrite Hd, !andb_true_iff, !Z.leb_le. lia.
Qed.
Lemma br_first x xs' : xs = x :: xs' → b_data b !! Z.to_nat (b_front b) = Some (if hole then None else Some x).
Proof using Hr.
  intros ->. pose proof (br_slot _ _ _ _ _ _ _ _ Hr 0%nat x eq_refl) as Hs. rewrite Z.add_0_r, <- (br_vfront _ _ _ _ _ _ _ _ Hr) in Hs.
  cbn in Hs. by rewrite andb_true_r in Hs.
Qed.
(** The slots of the elements are not the slot at the tail. *)
Lemma br_slot_ne i x : xs !! i = Some x → Z.to_nat ((f + Z.of_nat i) `mod` 2 ^ k) ≠ Z.to_nat (b_tail b).
Proof using Hr.
  destruct Hr as [Hk Hm Hd Hlf Hlt Hroom Hlen Hvf Hvlt -> Hvlf Hs]. intros Hi%lookup_lt_Some E.
  pose proof (mod_range k t ltac:(lia)). pose proof (mod_range k (f + Z.of_nat i) ltac:(lia)).
  assert (t = f + Z.of_nat i) by (apply (mod_close k); lia). lia.
Qed.

(** *** Stores of the producer *)

(** A copy of the front, which may have moved since. *)
Lemma rep_localFront n : zlen xs ≤ n < 2 ^ k → block_rep hole (set_localFront ((b_tail b - n) `mod` (b_mask b + 1)) b) xs k (t - n) f lt t.
Proof using Hr.
  intros Hn. destruct Hr as [Hk Hm Hd Hlf Hlt Hroom Hlen Hvf Hvlt Hvt Hvlf Hs]. split; cbn; try done; try lia.
  rewrite Hvt, Hm, Z.sub_add. by rewrite Zminus_mod_idemp_l.
Qed.
Lemma rep_new x : t + 1 - lf < 2 ^ k → block_rep hole (set_slots (<[Z.to_nat (b_tail b) := Some x]> (b_data b)) b) xs k lf f lt t.
Proof using Hr.
  intros Hroom'. pose proof Hr as [Hk Hm Hd Hlf Hlt Hroom Hlen Hvf Hvlt Hvt Hvlf Hs]. split; cbn; try done.
  - by rewrite length_insert.
  - intros i y Hi. rewrite list_lookup_insert_ne by (by apply not_eq_sym, (br_slot_ne _ y)). by apply Hs.
Qed.
Lemma rep_push x : t + 1 - lf < 2 ^ k → b_data b !! Z.to_nat (b_tail b) = Some (Some x) → (hole = true → xs ≠ []) →
  block_rep hole (set_tail (Z.land (u64 (b_tail b + 1)) (b_mask b)) b) (xs ++ [x]) k lf f lt (t + 1).
Proof using Hr.
  intros Hroom' Hx Hh. pose proof Hr as [Hk Hm Hd Hlf Hlt Hroom Hlen Hvf Hvlt Hvt Hvlf Hs]. split; cbn; try done; try lia.
  - rewrite length_app. cbn. lia.
  - rewrite Hvt. by apply next_index.
  - intros i y. rewrite lookup_app. destruct (xs !! i) as [z|] eqn:Ei.
    + intros [= ->]. by apply Hs.
    + apply lookup_ge_None in Ei. rewrite list_lookup_singleton_Some. intros [Ei' <-].
      replace (f + Z.of_nat i) with t by lia. rewrite <- Hvt, Hx.
      destruct hole; [|done]. rewrite bool_decide_false; [done|]. intros ->. apply (Hh eq_refl). destruct xs; [done|cbn in Ei; lia].
Qed.

(** *** Stores of the consumer *)

(** A copy of the tail, which may have moved since. *)
Lemma rep_localTail n : 0 ≤ n ≤ zlen xs →
  block_rep hole (set_localTail ((b_front b + n) `mod` (b_mask b + 1)) b) xs k lf f (f + n) t.
Proof using Hr.
  intros Hn. destruct Hr as [Hk Hm Hd Hlf Hlt Hroom Hlen Hvf Hvlt Hvt Hvlf Hs]. split; cbn; try done; try lia.
  rewrite Hvf, Hm, Z.sub_add. by rewrite Zplus_mod_idemp_l.
Qed.
(** What the two sides read of each other. *)
Lemma rep_tail_seen : b_tail b = (b_front b + zlen xs) `mod` (b_mask b + 1).
Proof using Hr. destruct Hr as [Hk Hm Hd Hlf Hlt Hroom -> -> Hvlt -> Hvlf Hs]. by rewrite Hm, Z.sub_add, Zplus_mod_idemp_l. Qed.
Lemma rep_front_seen : b_front b = (b_tail b - zlen xs) `mod` (b_mask b + 1) ∧ zlen xs < 2 ^ k.
Proof using Hr.
  destruct Hr as [Hk Hm Hd Hlf Hlt Hroom Hlen -> Hvlt -> Hvlf Hs]. split; [|lia]. rewrite Hm, Z.sub_add, Zminus_mod_idemp_l. f_equal. lia.
Qed.
Lemma rep_destroy x xs' : hole = false → xs = x :: xs' →
  block_rep true (set_slots (<[Z.to_nat (b_front b) := None]> (b_data b)) b) xs k lf f lt t.
Proof using Hr.
  intros -> Ex. pose proof Hr as [Hk Hm Hd Hlf Hlt Hroom Hlen Hvf Hvlt Hvt Hvlf Hs]. split; cbn; try done.
  - by rewrite length_insert.
  - intros i y Hi. pose proof (mod_range k f ltac:(lia)). destruct (decide (i = 0%nat)) as [->|Hne].
    + rewrite Z.add_0_r, <- Hvf, list_lookup_insert_eq by lia. done.
    + rewrite list_lookup_insert_ne; [rewrite bool_decide_false by done; by apply Hs|]. apply lookup_lt_Some in Hi.
      pose proof (mod_range k (f + Z.of_nat i) ltac:(lia)). rewrite Hvf. intros E. assert (f + Z.of_nat i = f) by (apply (mod_close k); lia). lia.
Qed.
Lemma rep_pop x xs' : xs = x :: xs' → b_front b ≠ b_localTail b →
  block_rep false (set_front (Z.land (u64 (b_front b + 1)) (b_mask b)) b) xs' k lf (f + 1) lt t.
Proof using Hr.
  intros Ex Hne. pose proof Hr as [Hk Hm Hd Hlf Hlt Hroom Hlen Hvf Hvlt Hvt Hvlf Hs]. subst xs. rewrite length_cons in Hlen.
  assert (f ≠ lt) by (intros ->; by rewrite Hvf, Hvlt in Hne). split; cbn; try done; try lia.
  - rewrite Hvf. by apply next_index.
  - intros i y Hi. replace (f + 1 + Z.of_nat i) with (f + Z.of_nat (S i)) by lia. rewrite (Hs (S i) y Hi). by rewrite andb_false_r.
Qed.
End rep.

(** ** The queue *)

(** The ghost state: the blocks from the front to the tail with their elements, the blocks
    after the tail, the history, the block whose first element has been moved out, and how
    many elements the queue can hold at least. *)
Record ghost := Gh { g_F : list (Z * list T); g_R : list (Z * list T); g_in : list T; g_out : list T; g_hole : option Z; g_cap : Z }.
Definition g_L (g : ghost) : list (Z * list T) := g_F g ++ g_R g.
#[global] Arguments g_L : simpl never.

Definition empties (D : list Z) : list (Z * list T) := (λ p, (p, [])) <$> D.

(** The blocks are linked in the order of the list, the last one to [z]. *)
Definition nx (m : gmap Z (block T)) (p : Z) : Z := default 0 (b_next <$> m !! p).
Fixpoint links (m : gmap Z (block T)) (l : list Z) (z : Z) : Prop :=
  match l with [] => True | p :: l => nx m p = hd z l ∧ links m l z end.

(** How many elements the blocks take; a block is full. *)
Definition msk (m : gmap Z (block T)) (p : Z) : Z := default 0 (b_mask <$> m !! p).
Definition total (m : gmap Z (block T)) (l : list Z) : Z := foldr (λ p a, msk m p + a) 0 l.
Definition full (m : gmap Z (block T)) (e : Z * list T) : Prop := zlen e.2 = msk m e.1.

(** The blocks take [n] elements, one of them not counted where there are several. *)
Definition cap_ok (m : gmap Z (block T)) (n : Z) (l : list Z) : Prop :=
  ∀ p l', l ≡ₚ p :: l' → n ≤ match l' with [] => msk m p | _ => total m l' end.

Definition blk_ok (m : gmap Z (block T)) (h : option Z) (e : Z * list T) : Prop :=
  ∃ b, m !! e.1 = Some b ∧ block_ok (bool_decide (h = Some e.1)) b e.2.

(** The element in the hole. *)
Definition in_hole (g : ghost) : list T :=
  match g_hole g, g_F g with Some _, (_, x :: _) :: _ => [x] | _, _ => [] end.

Record inv (σ : queue T * ghost) : Prop := {
  iv_block : Forall (blk_ok (q_blocks σ.1) (g_hole σ.2)) (g_L σ.2);
  iv_link : links (q_blocks σ.1) (g_L σ.2).*1 (q_front σ.1);
  iv_nodup : NoDup (g_L σ.2).*1;
  iv_first : head (g_F σ.2).*1 = Some (q_front σ.1);
  iv_last : last (g_F σ.2).*1 = Some (q_tail σ.1);
  iv_mid : Forall (λ e, e.2 ≠ []) (tail (g_F σ.2));
  iv_hole : ∀ p, g_hole σ.2 = Some p → ∃ x xs F, g_F σ.2 = (p, x :: xs) :: F;
  iv_new : Forall (λ p, p < q_new σ.1) (g_L σ.2).*1;
  iv_largest : ∃ m, 1 ≤ m ≤ 62 ∧ q_largest σ.1 = 2 ^ m;
  iv_sizes : Forall (λ p, msk (q_blocks σ.1) p < q_largest σ.1) (g_L σ.2).*1;
  iv_full : Forall (full (q_blocks σ.1)) (removelast (tail (g_F σ.2)));
  iv_cap : cap_ok (q_blocks σ.1) (g_cap σ.2) (g_L σ.2).*1;
  iv_hist : g_in σ.2 = g_out σ.2 ++ concat (g_F σ.2).*2;
  iv_destroyed : q_destroyed σ.1 = g_out σ.2 ++ in_hole σ.2
}.

(** *** Lemmas *)

Lemma links_app m l1 l2 z : links m (l1 ++ l2) z ↔ links m l1 (hd z l2) ∧ links m l2 z.
Proof. induction l1 as [|p l1 IH]; cbn; [tauto|]. rewrite IH. destruct l1; cbn; tauto. Qed.
Lemma links_ext m m' l z : (∀ p, p ∈ l → nx m' p = nx m p) → links m l z → links m' l z.
Proof.
  induction l as [|p l IH]; cbn; [done|]. intros H [Hp Hl]. split; [|apply IH; [|done]].
  - rewrite <- Hp. apply H. left.
  - intros p' Hp'. apply H. by right.
Qed.
(** From the front to the tail and once around. *)
Lemma links_rotate m p l : links m (p :: l) p ↔ links m (l ++ [p]) (hd p l).
Proof. rewrite links_app. cbn. tauto. Qed.

Lemma nx_put m p b b' p' : m !! p = Some b → b_next b' = b_next b → nx (<[p := b']> m) p' = nx m p'.
Proof. intros Hb Hn. unfold nx. destruct (decide (p = p')) as [->|Hne]; [rewrite lookup_insert_eq, Hb; exact Hn|by rewrite lookup_insert_ne]. Qed.

Lemma msk_put m p b b' p' : m !! p = Some b → b_mask b' = b_mask b → msk (<[p := b']> m) p' = msk m p'.
Proof.
  intros Hb Hn. unfold msk. destruct (decide (p = p')) as [->|Hne]; [rewrite lookup_insert_eq, Hb; cbn; congruence|by rewrite lookup_insert_ne].
Qed.
Lemma total_ext m m' l : (∀ p, p ∈ l → msk m' p = msk m p) → total m' l = total m l.
Proof.
  unfold total. induction l as [|p l IH]; intros H; [done|]. cbn. rewrite IH; [|intros p' Hp'; apply H; by right]. rewrite H; [done|left].
Qed.
Lemma cap_ext m m' n l : (∀ p, p ∈ l → msk m' p = msk m p) → cap_ok m n l → cap_ok m' n l.
Proof.
  intros H Hc p l' Hl. specialize (Hc p l' Hl).
  assert (∀ p', p' ∈ p :: l' → msk m' p' = msk m p') as H' by (intros p' Hp'; apply H; by rewrite Hl).
  destruct l' as [|p2 l']; [rewrite H'; [done|left]|]. rewrite (total_ext m m'); [done|]. intros p' Hp'. apply H'. by right.
Qed.
#[export] Instance cap_proper m n : Proper (Permutation ==> iff) (cap_ok m n).
Proof. intros l l' Hl. split; intros Hc p k Hk; apply Hc; [by rewrite Hl|by rewrite <- Hl]. Qed.
#[export] Instance total_proper m : Proper (Permutation ==> eq) (total m).
Proof. intros l l' Hl. unfold total. induction Hl; cbn; lia. Qed.
(** A block that is no smaller than the others. *)
Lemma cap_add m n p l : cap_ok m n l → p ∉ l → l ≠ [] → (∀ q, q ∈ l → 0 ≤ msk m q ≤ msk m p) → cap_ok m n (p :: l).
Proof.
  intros Hc Hp Hl Hm q l' Hq. assert (∀ k, (∀ x, x ∈ k → x ∈ l) → 0 ≤ total m k) as Hpos.
  { unfold total. induction k as [|x k IH]; intros Hk; cbn; [done|]. specialize (IH ltac:(set_solver)). pose proof (Hm x (Hk x ltac:(left))). lia. }
  destruct (decide (q = p)) as [->|Hne].
  - apply Permutation.Permutation_cons_inv in Hq. destruct l as [|a l]; [done|]. destruct l' as [|b l']; [by apply Permutation_length in Hq|].
    rewrite <- Hq. specialize (Hc a l ltac:(done)). pose proof (Hm a ltac:(left)). cbn. specialize (Hpos l ltac:(set_solver)).
    destruct l; unfold total in *; cbn in *; lia.
  - assert (q ∈ l) as Hql by (assert (q ∈ p :: l) by (rewrite Hq; left); set_solver). apply list_elem_of_split in Hql as (l1 & l2 & ->).
    rewrite <- Permutation_middle in Hq, Hc. rewrite (Permutation_swap q p) in Hq. apply Permutation.Permutation_cons_inv in Hq.
    specialize (Hc q (l1 ++ l2) ltac:(done)). destruct l' as [|b l']; [by apply Permutation_length in Hq|].
    rewrite <- Hq. pose proof (Hm q ltac:(set_solver)). unfold total in *. cbn. specialize (Hpos (l1 ++ l2) ltac:(set_solver)).
    destruct (l1 ++ l2); cbn in *; lia.
Qed.
Lemma mid_in (e : Z * list T) F : e ∈ removelast (tail F) → e ∈ F.
Proof.
  destruct F as [|e' F]; [done|]. cbn. intros He. right. induction F as [|a [|b F] IH] in He |- *; [done|by apply not_elem_of_nil in He|].
  apply elem_of_cons in He as [->|He]; [left|right; by apply IH].
Qed.
Lemma full_ext m m' (F : list (Z * list T)) : (∀ p, p ∈ F.*1 → msk m' p = msk m p) → Forall (full m) F → Forall (full m') F.
Proof.
  intros H HF. apply Forall_forall. intros [p xs] Hp. rewrite Forall_forall in HF. unfold full. cbn.
  rewrite H; [by apply (HF (p, xs))|]. apply list_elem_of_fmap. by exists (p, xs).
Qed.
Lemma sizes_ext m m' n (l : list Z) : (∀ p, p ∈ l → msk m' p = msk m p) → Forall (λ p, msk m p < n) l → Forall (λ p, msk m' p < n) l.
Proof. intros H Hl. apply Forall_forall. intros p Hp. rewrite H by done. rewrite Forall_forall in Hl. by apply Hl. Qed.

Lemma blk_frame m m' h h' (L : list (Z * list T)) :
  (∀ p, p ∈ L.*1 → m' !! p = m !! p ∧ (h' = Some p ↔ h = Some p)) → Forall (blk_ok m h) L → Forall (blk_ok m' h') L.
Proof.
  intros H HL. apply Forall_forall. intros [p xs] Hin. rewrite Forall_forall in HL. destruct (HL _ Hin) as (b & Hb & Hok). cbn in *.
  destruct (H p) as [Hm Hh]; [apply list_elem_of_fmap; by exists (p, xs)|]. exists b. cbn. rewrite Hm. split; [done|].
  by rewrite (bool_decide_ext _ _ Hh).
Qed.

(** One block of the list changes. *)
Lemma blks_upd m h h' p xs xs' b' (L1 L2 : list (Z * list T)) : NoDup (L1 ++ (p, xs) :: L2).*1 →
  (∀ p', p' ≠ p → h' = Some p' ↔ h = Some p') → block_ok (bool_decide (h' = Some p)) b' xs' →
  Forall (blk_ok m h) (L1 ++ (p, xs) :: L2) → Forall (blk_ok (<[p := b']> m) h') (L1 ++ (p, xs') :: L2).
Proof.
  rewrite fmap_app, fmap_cons. intros (_ & Hd & [Hp _]%NoDup_cons)%NoDup_app Hh Hok. rewrite !Forall_app, !Forall_cons. intros (H1 & _ & H2).
  assert (∀ L, p ∉ L.*1 → Forall (blk_ok m h) L → Forall (blk_ok (<[p := b']> m) h') L) as Hf.
  { intros L HpL. apply blk_frame. intros p' Hp'. assert (p' ≠ p) by (by intros ->). rewrite lookup_insert_ne by done. auto. }
  split; [apply Hf; [|done]|split; [|by apply Hf]].
  - intros Hin. apply (Hd p Hin). left.
  - exists b'. cbn. by rewrite lookup_insert_eq.
Qed.

Lemma blk_get m h (L : list (Z * list T)) p xs : Forall (blk_ok m h) L → (p, xs) ∈ L → blk_ok m h (p, xs).
Proof. rewrite Forall_forall. auto. Qed.

Lemma ids_empties D : (empties D).*1 = D.
Proof. unfold empties. rewrite <- list_fmap_compose. by apply list_fmap_id. Qed.

Lemma front_split σ : inv σ → ∃ xs F, g_F σ.2 = (q_front σ.1, xs) :: F.
Proof. intros Hi. pose proof (iv_first _ Hi) as H. destruct (g_F σ.2) as [|[p xs] F]; [done|]. injection H as ->. eauto. Qed.
Lemma tail_split σ : inv σ → ∃ F xs, g_F σ.2 = F ++ [(q_tail σ.1, xs)].
Proof.
  intros Hi. pose proof (iv_last _ Hi) as H. destruct (g_F σ.2) as [|[p xs] F _] using rev_ind; [done|].
  rewrite fmap_app, last_app in H. injection H as ->. eauto.
Qed.
Lemma ids_unique (L : list (Z * list T)) p xs ys : NoDup L.*1 → (p, xs) ∈ L → (p, ys) ∈ L → xs = ys.
Proof.
  induction L as [|[p' zs] L IH]; cbn; [by intros _ ?%not_elem_of_nil|]. intros [Hn Hd]%NoDup_cons.
  assert (∀ vs, (p, vs) ∈ L → p ∈ L.*1) as Hin by (intros vs Hv; apply list_elem_of_fmap; by exists (p, vs)).
  rewrite !elem_of_cons. intros [E1|H1] [E2|H2]; simplify_eq; [done| | |by apply IH]; exfalso; eauto.
Qed.

(** *** Rely and guarantee *)

(** The producer's moves: the tail block grows, blocks come after it. *)
Inductive f_ext : list (Z * list T) → list (Z * list T) → Prop :=
  | fe_nil : f_ext [] []
  | fe_last p xs ys G : f_ext [(p, xs)] ((p, xs ++ ys) :: G)
  | fe_cons e F F' : f_ext F F' → f_ext (e :: F) (e :: F').

#[export] Instance f_ext_refl : Reflexive f_ext.
Proof. intros F. induction F; by constructor. Qed.
Lemma f_ext_cons p xs F F' : f_ext ((p, xs) :: F) F' → ∃ ys G, F' = (p, xs ++ ys) :: G ∧ (F ≠ [] → ys = [] ∧ f_ext F G).
Proof.
  intros H. inversion H as [|? ? ys G|e F1 G HF]; subst; [by exists ys, G|].
  exists [], G. rewrite app_nil_r. auto.
Qed.
#[export] Instance f_ext_trans : Transitive f_ext.
Proof.
  intros F1 F2 F3 H. revert F3. induction H as [|p xs ys G|e F F' H IH]; intros F3 H3; [done| |].
  - apply f_ext_cons in H3 as (zs & G' & -> & _). rewrite <- app_assoc. constructor.
  - destruct e as [p xs]. destruct F' as [|e' F'].
    + inversion H; subst. done.
    + apply f_ext_cons in H3 as (zs & G' & -> & HG). destruct HG as [-> HG]; [done|]. rewrite app_nil_r. constructor. by apply IH.
Qed.
Lemma f_ext_ids F F' : f_ext F F' → F.*1 ⊆ F'.*1.
Proof. induction 1; cbn; set_solver. Qed.

(** The fields of a block that one side owns, with the slot at the tail. *)
Definition ceq (b b' : block T) : Prop := b_front b' = b_front b ∧ b_localTail b' = b_localTail b ∧ b_mask b' = b_mask b.
Definition peq (b b' : block T) : Prop :=
  b_tail b' = b_tail b ∧ b_localFront b' = b_localFront b ∧ b_mask b' = b_mask b ∧ b_next b' = b_next b ∧
  b_data b' !! Z.to_nat (b_tail b) = b_data b !! Z.to_nat (b_tail b).

(** What the consumer relies on. *)
Record prely' (σ σ' : queue T * ghost) : Prop := {
  pr_inv : inv σ';
  pr_front : q_front σ'.1 = q_front σ.1;
  pr_out : g_out σ'.2 = g_out σ.2;
  pr_hole : g_hole σ'.2 = g_hole σ.2;
  pr_cap : g_cap σ'.2 = g_cap σ.2;
  pr_in : g_in σ.2 `prefix_of` g_in σ'.2;
  pr_F : f_ext (g_F σ.2) (g_F σ'.2);
  pr_block p b : p ∈ (g_F σ.2).*1 → q_blocks σ.1 !! p = Some b → ∃ b', q_blocks σ'.1 !! p = Some b' ∧ ceq b b'
}.
Definition prely (σ σ' : queue T * ghost) : Prop := inv σ → prely' σ σ'.

(** What the producer relies on. *)
Record crely' (σ σ' : queue T * ghost) : Prop := {
  cr_inv : inv σ';
  cr_tail : q_tail σ'.1 = q_tail σ.1;
  cr_new : q_new σ'.1 = q_new σ.1;
  cr_largest : q_largest σ'.1 = q_largest σ.1;
  cr_in : g_in σ'.2 = g_in σ.2;
  cr_out : g_out σ.2 `prefix_of` g_out σ'.2;
  cr_cap : g_cap σ'.2 = g_cap σ.2;
  cr_suffix : tail (g_F σ'.2) `suffix_of` tail (g_F σ.2);
  cr_lists : ∃ D, (g_F σ.2).*1 = D ++ (g_F σ'.2).*1 ∧ g_R σ'.2 = g_R σ.2 ++ empties D;
  cr_shrink p xs' : (p, xs') ∈ g_L σ'.2 → ∃ xs, (p, xs) ∈ g_L σ.2 ∧ (length xs' ≤ length xs)%nat;
  cr_block p b : q_blocks σ.1 !! p = Some b → ∃ b', q_blocks σ'.1 !! p = Some b' ∧ peq b b';
  cr_other p : p ∉ (g_F σ.2).*1 → q_blocks σ'.1 !! p = q_blocks σ.1 !! p;
  cr_dom p b' : q_blocks σ'.1 !! p = Some b' → is_Some (q_blocks σ.1 !! p)
}.
Definition crely (σ σ' : queue T * ghost) : Prop := inv σ → crely' σ σ'.

#[export] Instance prely_refl : Reflexive prely.
Proof. intros σ Hi. split; try done. intros p b _ Hb. by exists b. Qed.
#[export] Instance prely_trans : Transitive prely.
Proof.
  intros σ1 σ2 σ3 H1 H2 Hi. specialize (H1 Hi). specialize (H2 (pr_inv _ _ H1)). destruct H1, H2. split; try (by etrans; eauto); [done|].
  intros p b Hp Hb. destruct (pr_block0 _ _ Hp Hb) as (b2 & Hb2 & E). destruct (pr_block1 p b2) as (b3 & Hb3 & E'); [by eapply f_ext_ids|done|].
  exists b3. split; [done|]. unfold ceq in *. intuition congruence.
Qed.
#[export] Instance crely_refl : Reflexive crely.
Proof.
  intros σ Hi. split; try done.
  - exists []. by rewrite app_nil_r.
  - intros p xs Hp. by exists xs.
  - intros p b Hb. by exists b.
Qed.
#[export] Instance crely_trans : Transitive crely.
Proof.
  intros σ1 σ2 σ3 H1 H2 Hi. specialize (H1 Hi). specialize (H2 (cr_inv _ _ H1)). destruct H1, H2. split; try (by etrans; eauto); [done|..].
  - destruct cr_lists0 as (D1 & E1 & E2), cr_lists1 as (D2 & E3 & E4). exists (D1 ++ D2). rewrite E1, E3, E4, E2. unfold empties.
    by rewrite fmap_app, <- !app_assoc.
  - intros p xs3 (xs2 & Hp & Hle)%cr_shrink1. apply cr_shrink0 in Hp as (xs1 & Hp & Hle'). exists xs1. split; [done|lia].
  - intros p b (b2 & Hb2 & E)%cr_block0. apply cr_block1 in Hb2 as (b3 & Hb3 & E'). exists b3. split; [done|].
    destruct E as (T1 & L1 & M1 & N1 & D1), E' as (T2 & L2 & M2 & N2 & D2). rewrite T1 in D2. repeat split; congruence.
  - intros p Hp. rewrite cr_other1; [by apply cr_other0|]. destruct cr_lists0 as (D1 & E1 & _). rewrite E1 in Hp. set_solver.
  - intros p b (b2 & Hb2)%cr_dom1. by apply cr_dom0 in Hb2.
Qed.

(** *** The effect of a store *)

Lemma inv_put q g g' l p xs xs' b b' L1 L2 : inv (q, g) → g_L g = L1 ++ (p, xs) :: L2 → g_L g' = L1 ++ (p, xs') :: L2 →
  (g_F g').*1 = (g_F g).*1 → g_cap g' = g_cap g → q_blocks q !! p = Some b → b_next b' = b_next b → b_mask b' = b_mask b →
  block_ok (bool_decide (g_hole g' = Some p)) b' xs' →
  (∀ p', p' ≠ p → g_hole g' = Some p' ↔ g_hole g = Some p') → Forall (λ e, e.2 ≠ []) (tail (g_F g')) → Forall (full (q_blocks q)) (removelast (tail (g_F g'))) →
  (∀ p, g_hole g' = Some p → ∃ x xs F, g_F g' = (p, x :: xs) :: F) → g_in g' = g_out g' ++ concat (g_F g').*2 → l = g_out g' ++ in_hole g' →
  inv (put_destroyed l (put_blocks (<[p := b']> (q_blocks q)) q), g').
Proof.
  intros [Hb Hl Hn Hf Hla Hm Hh Hne Hlg Hsz Hfull Hcap Hi Hds] E E' EF EC Hp Hx Hmask Hok Hhole Hmid Hfull' Hh' Hi' Hl'. cbn in *.
  assert ((g_L g').*1 = (g_L g).*1) as Eids by (by rewrite E, E', !fmap_app, !fmap_cons).
  split; cbn; rewrite ?Eids, ?EF, ?EC; try done.
  - rewrite E'. rewrite E in Hb, Hn. by eapply blks_upd.
  - eapply links_ext, Hl. intros p' _. by eapply nx_put.
  - eapply sizes_ext, Hsz. intros p' _. by eapply msk_put.
  - eapply full_ext, Hfull'. intros p' _. by eapply msk_put.
  - eapply cap_ext, Hcap. intros p' _. by eapply msk_put.
Qed.
Lemma inv_store q g p xs b b' : inv (q, g) → (p, xs) ∈ g_L g → q_blocks q !! p = Some b → b_next b' = b_next b → b_mask b' = b_mask b →
  block_ok (bool_decide (g_hole g = Some p)) b' xs → inv (put_blocks (<[p := b']> (q_blocks q)) q, g).
Proof.
  intros Hi (L1 & L2 & E)%list_elem_of_split Hb Hn Hm Hok.
  eapply (inv_put q g g (q_destroyed q)); [exact Hi|exact E|exact E|..]; try done; apply Hi.
Qed.

Lemma crely_store q g g' l p b b' : q_blocks q !! p = Some b → p ∈ (g_F g).*1 → peq b b' → inv (put_destroyed l (put_blocks (<[p := b']> (q_blocks q)) q), g') →
  g_in g' = g_in g → (g_F g').*1 = (g_F g).*1 → g_R g' = g_R g → g_out g `prefix_of` g_out g' → g_cap g' = g_cap g → tail (g_F g') = tail (g_F g) →
  (∀ p xs', (p, xs') ∈ g_L g' → ∃ xs, (p, xs) ∈ g_L g ∧ (length xs' ≤ length xs)%nat) →
  crely' (q, g) (put_destroyed l (put_blocks (<[p := b']> (q_blocks q)) q), g').
Proof.
  intros Hb HF Heq Hi Hin EF ER Ho EC Et Hs. split; cbn; try done.
  - by rewrite Et.
  - exists []. by rewrite EF, ER, app_nil_r.
  - intros p' c Hc. destruct (decide (p = p')) as [->|Hne].
    + rewrite lookup_insert_eq. exists b'. by simplify_eq.
    + rewrite lookup_insert_ne by done. by exists c.
  - intros p' Hp'. rewrite lookup_insert_ne; [done|]. by intros ->.
  - intros p' c Hc. destruct (decide (p = p')) as [->|Hne]; [by exists b|]. rewrite lookup_insert_ne in Hc by done. by exists c.
Qed.

End queue.
Arguments ghost T : clear implicits.
