(* ===== verification/SpscThreads.v ===== *)
(** * The lock-free queue: the two threads

    Every access of the consumer ([CA]) and of the producer ([PA]), from what the thread knows
    and the other one keeps; then the methods. *)

From stdpp Require Import gmap.
From S2P Require Import Prelude BipSearch Threads SpscQueue SpscInv.

#[local] Open Scope list_scope.
#[local] Open Scope Z_scope.

Section queue.
Context {T : Type}.
#[local] Abbreviation qth := (thread (queue T)).

(** ** The consumer *)

(** The other thread keeps this; [ks] are blocks that the consumer has read, [F0] the list
    as it was. *)
Record CA (I0 O : list T) (p : Z) (ks : list (Z * block T)) (h : option Z) (F0 : list (Z * list T)) (σ : queue T * ghost T) : Prop := {
  ca_inv : inv σ;
  ca_out : g_out σ.2 = O;
  ca_hole : g_hole σ.2 = h;
  ca_in : I0 `prefix_of` g_in σ.2;
  ca_front : q_front σ.1 = p;
  ca_F : f_ext F0 (g_F σ.2);
  ca_known : Forall (λ k : Z * block T, k.1 ∈ F0.*1 ∧ ∃ b, q_blocks σ.1 !! k.1 = Some b ∧ ceq k.2 b) ks
}.
(** Between two calls. *)
Record CI (I0 O : list T) (σ : queue T * ghost T) : Prop := {
  ci_inv : inv σ; ci_out : g_out σ.2 = O; ci_hole : g_hole σ.2 = None; ci_in : I0 `prefix_of` g_in σ.2
}.

Lemma ceq_trans (b1 b2 b3 : block T) : ceq b1 b2 → ceq b2 b3 → ceq b1 b3.
Proof. unfold ceq. intuition congruence. Qed.

Lemma CA_stable I0 O p ks h F0 σ σ' : CA I0 O p ks h F0 σ → prely σ σ' → CA I0 O p ks h F0 σ'.
Proof.
  intros [Hi Ho Hh Hin Hf HF Hk] Hr. destruct (Hr Hi) as [Hi' Hf' Ho' Hh' _ Hin' HF' Hb'].
  split; [done|congruence|congruence|by etrans|congruence|by etrans|].
  eapply Forall_impl; [exact Hk|]. intros [p' b0] (Hp & b & Hb & Hc). split; [done|].
  destruct (Hb' p' b) as (b' & Hb'' & Hc'); [by eapply f_ext_ids|done|]. exists b'. split; [done|]. by eapply ceq_trans.
Qed.
Lemma CI_stable I0 O σ σ' : CI I0 O σ → prely σ σ' → CI I0 O σ'.
Proof. intros [Hi Ho Hh Hin] Hr. destruct (Hr Hi). split; [done|congruence|congruence|by etrans]. Qed.

(** The list as it is now. *)
Lemma CA_now I0 O p ks h F0 σ : CA I0 O p ks h F0 σ → CA I0 O p ks h (g_F σ.2) σ.
Proof.
  intros [Hi Ho Hh Hin Hf HF Hk]. split; try done. eapply Forall_impl; [exact Hk|]. intros k [Hp Hb]. split; [|done]. by eapply f_ext_ids.
Qed.
Lemma CA_known I0 O p ks h F0 σ p' b0 : CA I0 O p ks h F0 σ → (p', b0) ∈ ks →
  ∃ b xs, q_blocks σ.1 !! p' = Some b ∧ ceq b0 b ∧ (p', xs) ∈ g_F σ.2 ∧ block_ok (bool_decide (h = Some p')) b xs.
Proof.
  intros [Hi Ho Hh Hin Hf HF Hk] Hb0. rewrite Forall_forall in Hk. destruct (Hk _ Hb0) as (Hp & b & Hb & Hc). cbn in *.
  apply (f_ext_ids _ _ HF), list_elem_of_fmap in Hp as ([p'' xs] & -> & Hp). exists b, xs. cbn in *.
  destruct (blk_get _ _ _ p'' xs (iv_block _ Hi)) as (b' & Hb' & Hok); [by apply elem_of_app; left|]. cbn in *. simplify_eq. auto.
Qed.

Lemma c_read {B C} I0 O p ks h F0 (f : queue T → outcome (B * queue T)) (k : B → qth C) Q σ : CA I0 O p ks h F0 σ →
  (∀ σ, CA I0 O p ks h F0 σ → ∃ a, f σ.1 = Ok (a, σ.1) ∧ rg prely crely (k a) Q σ) → rg prely crely (act f ≫= k) Q σ.
Proof.
  intros HP H. apply (rg_step _ _ (CA I0 O p ks h F0)); [done|by apply CA_stable|]. intros [s g] HP'.
  destruct (H _ HP') as (a & E & Hk). exists a, s, g. cbn in E. split; [done|]. split; [apply crely_refl|done].
Qed.
Lemma c_write {B C} I0 O p ks h F0 (f : queue T → outcome (B * queue T)) (k : B → qth C) Q σ : CA I0 O p ks h F0 σ →
  (∀ s g, CA I0 O p ks h F0 (s, g) → ∃ a s' g', f s = Ok (a, s') ∧ crely' (s, g) (s', g') ∧ rg prely crely (k a) Q (s', g')) →
  rg prely crely (act f ≫= k) Q σ.
Proof.
  intros HP H. apply (rg_step _ _ (CA I0 O p ks h F0)); [done|by apply CA_stable|]. intros [s g] HP'.
  destruct (H _ _ HP') as (a & s' & g' & E & Hr & Hk). exists a, s', g'. split; [done|]. split; [by intros _|done].
Qed.

(** A field of a block that the consumer knows and owns. *)
Lemma c_ldb {B C} I0 O p ks h F0 p' b0 (f : block T → B) (k : B → qth C) Q σ : CA I0 O p ks h F0 σ → (p', b0) ∈ ks →
  (∀ b, ceq b0 b → f b = f b0) → (∀ σ, CA I0 O p ks h F0 σ → rg prely crely (k (f b0)) Q σ) → rg prely crely (ldb p' f ≫= k) Q σ.
Proof.
  intros HP Hin Hf H. eapply c_read; [exact HP|]. intros σ' HP'. destruct (CA_known _ _ _ _ _ _ _ _ _ HP' Hin) as (b & xs & Hb & Hc & _).
  exists (f b0). rewrite Hb, (Hf _ Hc). auto.
Qed.

(** The front block, with the rest of the list. *)
Lemma CA_front I0 O p b0 h F0 σ : CA I0 O p [(p, b0)] h F0 σ →
  ∃ b xs F, q_blocks σ.1 !! p = Some b ∧ ceq b0 b ∧ g_F σ.2 = (p, xs) :: F ∧ block_ok (bool_decide (h = Some p)) b xs.
Proof.
  intros HP. pose proof HP as [Hi Ho Hh Hin Hf HF Hk]. destruct (CA_known _ _ _ _ _ _ _ p b0 HP) as (b & xs & Hb & Hc & Hp & Hok); [left|].
  destruct (front_split _ Hi) as (xs' & F & EF). rewrite Hf in EF. exists b, xs, F. repeat split; try done; try apply Hc.
  assert (xs = xs') as ->; [|done]. eapply ids_unique; [apply (iv_nodup _ Hi)| |]; unfold g_L; rewrite EF; [rewrite <- EF; by apply elem_of_app; left|left].
Qed.
Lemma nonempty_list {b0 b : block T} {hole xs} : ceq b0 b → b_front b0 ≠ b_localTail b0 → block_ok hole b xs → ∃ x xs', xs = x :: xs'.
Proof. intros (E1 & E2 & _) Hne (k & lf & f & lt & t & Hr). apply (br_some Hr). congruence. Qed.
(** What a call of [try_dequeue] leaves. *)
Definition Qc (I0 O : list T) (r : option T) (σ : queue T * ghost T) : Prop :=
  match r with Some x => CI I0 (O ++ [x]) σ | None => I0 `prefix_of` O ∧ CI I0 O σ end.

Lemma shrink_same (L L' : list (Z * list T)) : L' = L → ∀ p xs', (p, xs') ∈ L' → ∃ xs, (p, xs) ∈ L ∧ (length xs' ≤ length xs)%nat.
Proof. intros -> p xs Hp. by exists xs. Qed.

(** The moves, the destruction and the step of the front, in this order. *)
Lemma c_move {C} I0 O p b0 F0 (k : T → qth C) Q σ : CA I0 O p [(p, b0)] None F0 σ → b_front b0 ≠ b_localTail b0 →
  (∀ x xs F σ, CA I0 O p [(p, b0)] None ((p, x :: xs) :: F) σ → rg prely crely (k x) Q σ) →
  rg prely crely (slot_move p (b_front b0) ≫= k) Q σ.
Proof.
  intros HP Hne H. eapply c_read; [exact HP|]. clear σ HP. intros σ HP.
  destruct (CA_front _ _ _ _ _ _ _ HP) as (b & xs & F & Hb & Hc & EF & Hok). destruct (nonempty_list Hc Hne Hok) as (x & xs' & ->).
  pose proof Hc as (Ef & _). rewrite bool_decide_false in Hok by done. destruct Hok as (kk & lf & f & lt & t & Hr).
  exists x. rewrite Hb. cbn. rewrite <- Ef, (br_first Hr x xs' eq_refl). split; [done|]. eapply H. rewrite <- EF. by eapply CA_now.
Qed.

(** The front block, when the list has been seen. *)
Lemma CA_seen I0 O p b0 h x xs F s g : CA I0 O p [(p, b0)] h ((p, x :: xs) :: F) (s, g) →
  ∃ b ys G k lf f lt t, q_blocks s !! p = Some b ∧ ceq b0 b ∧ g_F g = (p, x :: ys) :: G ∧
    block_rep (bool_decide (h = Some p)) b (x :: ys) k lf f lt t.
Proof.
  intros HP. destruct (CA_front _ _ _ _ _ _ _ HP) as (b & ys & G & Hb & Hc & EF & Hok). pose proof (ca_F _ _ _ _ _ _ _ HP) as HF. cbn in *.
  apply f_ext_cons in HF as (zs & G' & EF' & _). rewrite EF in EF'. injection EF' as -> <-.
  destruct Hok as (k & lf & f & lt & t & Hr). exists b, (xs ++ zs), G, k, lf, f, lt, t. auto.
Qed.

Lemma c_destroy {C} I0 O p b0 F0 (k : unit → qth C) Q σ : CA I0 O p [(p, b0)] None F0 σ → b_front b0 ≠ b_localTail b0 →
  (∀ x xs F σ, f_ext F0 ((p, x :: xs) :: F) → CA I0 O p [(p, b0)] (Some p) ((p, x :: xs) :: F) σ → rg prely crely (k tt) Q σ) →
  rg prely crely (slot_destroy p (b_front b0) ≫= k) Q σ.
Proof.
  intros HP Hne H. eapply c_write; [exact HP|]. clear σ HP. intros s g HP. pose proof HP as [Hi Ho Hh Hin Hf HF _].
  destruct (CA_front _ _ _ _ _ _ _ HP) as (b & ys' & G & Hb & Hc & EF & Hok). destruct (nonempty_list Hc Hne Hok) as (x & ys & ->).
  destruct Hok as (kk & lf & f & lt & t & Hr).
  rewrite bool_decide_false in Hr by done. pose proof Hc as (Ef & _). cbn in *. pose proof (br_first Hr x _ eq_refl) as Hfst.
  set (b' := set_slots (<[Z.to_nat (b_front b) := None]> (b_data b)) b). set (s' := put_destroyed (q_destroyed s ++ [x]) (put_blocks (<[p := b']> (q_blocks s)) s)).
  set (g' := Gh (g_F g) (g_R g) (g_in g) (g_out g) (Some p) (g_cap g)).
  assert (inv (s', g')) as Hi'.
  { eapply (inv_put s g g' _ p _ _ _ _ [] (G ++ g_R g) Hi); try done; [unfold g_L; cbn; by rewrite EF..| | |apply (iv_mid _ Hi)|apply (iv_full _ Hi)| |apply (iv_hist _ Hi)|].
    - rewrite bool_decide_true by done. exists kk, lf, f, lt, t. by eapply (rep_destroy Hr).
    - cbn. rewrite Hh. intros p' Hp'. split; [|done]. intros [= ->]. done.
    - intros p' [= <-]. by eexists _, _, _.
    - rewrite (iv_destroyed _ Hi : q_destroyed s = _). unfold in_hole. cbn. by rewrite Hh, EF, app_nil_r. }
  exists tt, s', g'. split; [rewrite Hb; cbn; by rewrite <- Ef, Hfst|]. split; [|apply (H x ys G); [by rewrite <- EF|]].
  - eapply crely_store; try done; [rewrite EF; left| |by apply shrink_same].
    repeat split; try done. cbn. rewrite list_lookup_insert_ne; [done|]. rewrite (br_vfront _ _ _ _ _ _ _ _ Hr), <- (Z.add_0_r f).
    by apply (br_slot_ne Hr 0%nat x).
  - split; try done; [cbn; by rewrite EF|]. constructor; [|done]. split; [left|]. cbn. rewrite lookup_insert_eq. by exists b'.
Qed.

Lemma c_pop {C} I0 O p b0 x xs F (k : unit → qth C) Q σ : CA I0 O p [(p, b0)] (Some p) ((p, x :: xs) :: F) σ → b_front b0 ≠ b_localTail b0 →
  (∀ σ, CI I0 (O ++ [x]) σ → rg prely crely (k tt) Q σ) →
  rg prely crely (stb p (set_front (Z.land (u64 (b_front b0 + 1)) (b_mask b0))) ≫= k) Q σ.
Proof.
  intros HP Hne H. eapply c_write; [exact HP|]. clear σ HP. intros s g HP. pose proof HP as [Hi Ho Hh Hin Hf HF _].
  destruct (CA_seen _ _ _ _ _ _ _ _ _ _ HP) as (b & ys & G & kk & lf & f & lt & t & Hb & Hc & EF & Hr).
  rewrite bool_decide_true in Hr by done. pose proof Hc as (Ef & El & Em). cbn in *.
  set (b' := set_front (Z.land (u64 (b_front b0 + 1)) (b_mask b0)) b). set (s' := put_blocks (<[p := b']> (q_blocks s)) s).
  set (g' := Gh ((p, ys) :: G) (g_R g) (g_in g) (g_out g ++ [x]) None (g_cap g)).
  assert (inv (s', g')) as Hi'.
  { eapply (inv_put s g g' (q_destroyed s) p _ _ _ _ [] (G ++ g_R g) Hi); try done; [unfold g_L; cbn; by rewrite EF|by rewrite EF|..].
    - unfold b'. rewrite <- Ef, <- Em. exists kk, lf, (f + 1), lt, t. eapply (rep_pop Hr); [done|congruence].
    - cbn. rewrite Hh. intros p' Hp'. split; [done|]. intros [= ->]. done.
    - pose proof (iv_mid _ Hi) as Hm. cbn in *. by rewrite EF in Hm.
    - pose proof (iv_full _ Hi) as Hm. cbn in *. by rewrite EF in Hm.
    - pose proof (iv_hist _ Hi) as E. cbn in *. rewrite EF in E. rewrite <- app_assoc. exact E.
    - rewrite (iv_destroyed _ Hi : q_destroyed s = _). unfold in_hole. cbn. by rewrite Hh, EF, app_nil_r. }
  exists tt, s', g'. split; [by rewrite Hb|]. split; [|apply H].
  - eapply crely_store; try done; [rewrite EF; left|by rewrite EF|by eexists|by rewrite EF|]. unfold g_L. cbn. rewrite EF. cbn. intros p' zs. rewrite elem_of_cons.
    intros [[= -> ->]|Hin']; [exists (x :: ys); split; [left|cbn; lia]|exists zs; split; [by right|done]].
  - split; cbn; try done. by rewrite Ho.
Qed.

Lemma rg_dequeue_at I0 O p b0 F0 σ : CA I0 O p [(p, b0)] None F0 σ → b_front b0 ≠ b_localTail b0 →
  rg prely crely (dequeue_at p (b_front b0)) (Qc I0 O) σ.
Proof.
  intros HP Hne. unfold dequeue_at. eapply c_move; [done..|]. clear σ HP. intros x xs F σ HP.
  eapply c_destroy; [done..|]. clear σ HP. intros x' xs' F' σ Hx HP. apply f_ext_cons in Hx as (zs & G & [= -> -> <-] & _).
  eapply c_ldb; [exact HP|left|by intros b (_ & _ & ->)|]. clear σ HP. intros σ HP.
  eapply c_pop; [done..|]. clear σ HP. intros σ HP. eapply rg_ret; [exact HP|by apply CI_stable|done].
Qed.

(** What a call of [pop] leaves. *)
Definition Qpop (I0 O : list T) (r : bool) (σ : queue T * ghost T) : Prop :=
  if r then ∃ x, CI I0 (O ++ [x]) σ else I0 `prefix_of` O ∧ CI I0 O σ.

Lemma rg_pop_at I0 O p b0 F0 σ : CA I0 O p [(p, b0)] None F0 σ → b_front b0 ≠ b_localTail b0 →
  rg prely crely (pop_at p (b_front b0)) (Qpop I0 O) σ.
Proof.
  intros HP Hne. unfold pop_at. eapply c_destroy; [done..|]. clear σ HP. intros x xs F σ _ HP.
  eapply c_ldb; [exact HP|left|by intros b (_ & _ & ->)|]. clear σ HP. intros σ HP.
  eapply c_pop; [done..|]. clear σ HP. intros σ HP. eapply rg_ret; [exact HP|by apply CI_stable|]. intros σ' HP'. by exists x.
Qed.

(** What the consumer knows about a list it has seen. *)
Record seen (I0 O : list T) (p : Z) (F : list (Z * list T)) : Prop := {
  se_hist : I0 `prefix_of` O ++ concat F.*2;
  se_nodup : NoDup F.*1;
  se_front : head F.*1 = Some p;
  se_mid : Forall (λ e, e.2 ≠ []) (tail F)
}.
Lemma CA_list I0 O p ks F0 σ : CA I0 O p ks None F0 σ → seen I0 O p (g_F σ.2).
Proof.
  intros [Hi <- Hh Hin <- HF Hk]. split; [rewrite <- (iv_hist _ Hi); done|..|apply (iv_first _ Hi)|apply (iv_mid _ Hi)].
  pose proof (iv_nodup _ Hi) as Hn. unfold g_L in Hn. rewrite fmap_app in Hn. by apply NoDup_app in Hn as (Hn & _).
Qed.
Lemma f_ext_in (F F' : list (Z * list T)) p xs : f_ext F F' → (p, xs) ∈ F → ∃ ys, (p, xs ++ ys) ∈ F'.
Proof.
  intros HF. induction HF as [|p' zs ys G|e F F' H IH].
  - by intros ?%not_elem_of_nil.
  - intros [= -> ->]%list_elem_of_singleton. exists ys. left.
  - intros [<-|Hin]%elem_of_cons; [exists []; rewrite app_nil_r; left|]. apply IH in Hin as (ys & Hy). exists ys. by right.
Qed.
Lemma f_ext_length (F F' : list (Z * list T)) : f_ext F F' → (length F ≤ length F')%nat.
Proof. induction 1; cbn; lia. Qed.

(** A copy of the tail of a block that had the elements [xs] then. *)
Definition tail_seen (b0 : block T) (xs : list T) (v : Z) : Prop :=
  v = (b_front b0 + zlen xs) `mod` (b_mask b0 + 1) ∧ (v = b_front b0 ↔ xs = []).

Lemma c_learn {B C} I0 O p ks F0 n (f : block T → B) (k : B → qth C) Q σ : CA I0 O p ks None F0 σ → n ∈ F0.*1 →
  (∀ b σ, CA I0 O p ((n, b) :: ks) None F0 σ → rg prely crely (k (f b)) Q σ) → rg prely crely (ldb n f ≫= k) Q σ.
Proof.
  intros HP Hn H. eapply c_read; [exact HP|]. clear σ HP. intros σ [Hi Ho Hh Hin Hf HF Hk].
  pose proof (f_ext_ids _ _ HF _ Hn) as ([p' xs] & -> & Hp)%list_elem_of_fmap.
  destruct (blk_get _ _ _ p' xs (iv_block _ Hi)) as (b & Hb & _); [by apply elem_of_app; left|]. exists (f b). cbn in *. rewrite Hb.
  split; [done|]. apply H. split; try done. constructor; [|done]. split; [done|]. by exists b.
Qed.

Lemma c_tail {C} I0 O p ks F0 n b0 (k : Z → qth C) Q σ : CA I0 O p ks None F0 σ → (n, b0) ∈ ks →
  (∀ xs v F σ, CA I0 O p ks None F σ → f_ext F0 F → seen I0 O p F → (n, xs) ∈ F → tail_seen b0 xs v → rg prely crely (k v) Q σ) →
  rg prely crely (ldb n b_tail ≫= k) Q σ.
Proof.
  intros HP Hn H. eapply c_read; [exact HP|]. clear σ HP. intros σ HP.
  destruct (CA_known _ _ _ _ _ _ _ _ _ HP Hn) as (b & xs & Hb & (Ef & _ & Em) & Hp & kk & lf & f & lt & t & Hr).
  exists (b_tail b). rewrite Hb. split; [done|]. eapply (H xs); [by eapply CA_now|apply (ca_F _ _ _ _ _ _ _ HP)|by eapply CA_list|done|].
  unfold tail_seen. rewrite <- Ef, <- Em. split; [apply (rep_tail_seen Hr)|]. rewrite <- (br_empty Hr). by split.
Qed.

Lemma c_localTail {C} I0 O p ks F0 n b0 xs v (k : unit → qth C) Q σ : CA I0 O p ks None F0 σ → (n, b0) ∈ ks → (n, xs) ∈ F0 → tail_seen b0 xs v →
  (∀ σ, CA I0 O p [(n, set_localTail v b0)] None F0 σ → rg prely crely (k tt) Q σ) → rg prely crely (stb n (set_localTail v) ≫= k) Q σ.
Proof.
  intros HP Hn HF0 [Hv _] H. eapply c_write; [exact HP|]. clear σ HP. intros s g HP. pose proof HP as [Hi Ho Hh Hin Hf HF _].
  destruct (CA_known _ _ _ _ _ _ _ _ _ HP Hn) as (b & xs' & Hb & (Ef & _ & Em) & Hp & kk & lf & f & lt & t & Hr). cbn in *.
  destruct (f_ext_in _ _ _ _ HF HF0) as (ys & Hys).
  assert (xs' = xs ++ ys) as ->. { eapply ids_unique; [|exact Hp|exact Hys]. apply (se_nodup _ _ _ _ (CA_list _ _ _ _ _ _ HP)). }
  exists tt, (put_blocks (<[n := set_localTail v b]> (q_blocks s)) s), g. split; [by rewrite Hb|].
  assert (inv (put_blocks (<[n := set_localTail v b]> (q_blocks s)) s, g)) as Hi'.
  { eapply (inv_store _ _ _ (xs ++ ys) b); try done; [by apply elem_of_app; left|]. rewrite Hh. exists kk, lf, f, (f + zlen xs), t.
    rewrite Hv, <- Ef, <- Em. apply (rep_localTail Hr). rewrite length_app. lia. }
  split; [|apply H].
  - eapply crely_store; try done; [|by apply shrink_same]. apply list_elem_of_fmap. by exists (n, xs ++ ys).
  - split; try done. constructor; [|done]. split; [apply list_elem_of_fmap; by exists (n, xs)|]. cbn. rewrite lookup_insert_eq.
    eexists. split; [done|]. by repeat split.
Qed.

(** The block the producer is at. *)
Lemma c_tailBlock {C} I0 O p ks F0 (k : Z → qth C) Q σ : CA I0 O p ks None F0 σ →
  (∀ tl F σ, CA I0 O p ks None F σ → f_ext F0 F → seen I0 O p F → (p = tl ↔ length F = 1%nat) → rg prely crely (k tl) Q σ) →
  rg prely crely (gets q_tail ≫= k) Q σ.
Proof.
  intros HP H. eapply c_read; [exact HP|]. clear σ HP. intros σ HP. eexists. split; [done|].
  pose proof (CA_list _ _ _ _ _ _ HP) as Hs. eapply H; [by eapply CA_now|apply (ca_F _ _ _ _ _ _ _ HP)|done|].
  pose proof (ca_inv _ _ _ _ _ _ _ HP) as Hi. pose proof (iv_last _ Hi) as Hl. destruct Hs as [_ Hn Hf _].
  destruct (g_F σ.2) as [|e F]; [done|]. destruct e as [p' xs]. cbn in Hf. injection Hf as ->. destruct (F) as [|e' F'] eqn:EF.
  - injection Hl as Hl. by split.
  - split; [|done]. intros ->. exfalso. apply NoDup_cons in Hn as [Hn _]. apply Hn.
    pose proof (last_Some_elem_of (e'.1 :: F'.*1) _ Hl) as Hx. exact Hx.
Qed.

Lemma c_next {C} I0 O p ks F0 xs n ys F (k : Z → qth C) Q σ : CA I0 O p ks None F0 σ → F0 = (p, xs) :: (n, ys) :: F →
  (∀ σ, CA I0 O p ks None F0 σ → rg prely crely (k n) Q σ) → rg prely crely (ldb p b_next ≫= k) Q σ.
Proof.
  intros HP EF H. eapply c_read; [exact HP|]. clear σ HP. intros σ HP. pose proof (ca_F _ _ _ _ _ _ _ HP) as HF. rewrite EF in HF.
  apply f_ext_cons in HF as (zs & G & EG & HG). destruct HG as [-> HG]; [done|]. apply f_ext_cons in HG as (us & G' & -> & _).
  pose proof (ca_inv _ _ _ _ _ _ _ HP) as Hi. pose proof (iv_link _ Hi) as Hl. pose proof (iv_block _ Hi) as Hb. unfold g_L in Hl, Hb.
  rewrite EG in Hl, Hb. destruct Hl as [Hl _]. apply Forall_cons in Hb as [(b & Hb & _) _]. cbn in Hl, Hb. unfold nx in Hl. rewrite Hb in Hl.
  exists n. cbn in Hl. rewrite Hb, Hl. auto.
Qed.

(** On to the next block; the producer may have the old one. *)
Lemma c_advance {C} I0 O p ks F0 n b0 y ys F (k : unit → qth C) Q σ : CA I0 O p ks None F0 σ → (n, b0) ∈ ks → F0 = (p, []) :: (n, y :: ys) :: F →
  (∀ F σ, CA I0 O n [(n, b0)] None F σ → rg prely crely (k tt) Q σ) → rg prely crely (modify (put_front n) ≫= k) Q σ.
Proof.
  intros HP Hn EF H. eapply c_write; [exact HP|]. clear σ HP. intros s g HP. pose proof (ca_F _ _ _ _ _ _ _ HP) as HF. rewrite EF in HF.
  apply f_ext_cons in HF as (zs & G & EG & HG). destruct HG as [-> HG]; [done|]. apply f_ext_cons in HG as (us & G' & -> & _).
  destruct (CA_known _ _ _ _ _ _ _ _ _ HP Hn) as (b & xs' & Hb & Hc & _ & _). destruct HP as [[Hbl Hl Hnd Hf Hla Hm Hh Hne Hlg Hsz Hfl Hcp Hhi Hds] Ho Hh' Hin Hf' _ _].
  cbn in *. set (s' := put_front n s). set (g' := Gh ((n, (y :: ys) ++ us) :: G') (g_R g ++ [(p, [])]) (g_in g) (g_out g) None (g_cap g)).
  assert (g_L g' ≡ₚ g_L g) as Hperm. { unfold g_L, g'. cbn [g_F g_R]. rewrite EG, app_assoc. symmetry. apply Permutation_cons_append. }
  assert (inv (s', g')) as Hi'.
  { split; cbn; try done.
    - rewrite Hperm. by rewrite <- Hh'.
    - unfold g_L in *. rewrite fmap_app in *. cbn [g' g_F g_R]. rewrite fmap_app, app_assoc. rewrite EG, <- Hf' in Hl.
      rewrite <- Hf'. apply links_rotate in Hl. exact Hl.
    - by rewrite Hperm.
    - by rewrite EG in Hla.
    - rewrite EG in Hm. cbn in Hm. by apply Forall_cons in Hm as [_ Hm].
    - by rewrite Hperm.
    - by rewrite Hperm.
    - rewrite EG in Hfl. cbn in Hfl. destruct G' as [|e G']; [done|]. by apply Forall_cons in Hfl as [_ Hfl].
    - by rewrite Hperm.
    - rewrite Hhi, EG. done.
    - rewrite Hds. unfold in_hole. cbn. by rewrite Hh'. }
  exists tt, s', g'. split; [done|]. split; [|apply (H (g_F g'))].
  - split; cbn; try done.
    + rewrite EG. by exists [(n, (y :: ys) ++ us)].
    + exists [p]. rewrite EG. by split.
    + intros p' zs Hp'. exists zs. split; [by rewrite <- Hperm|done].
    + intros p' c Hc'. by exists c.
  - split; try done. constructor; [|done]. split; [left|]. by exists b.
Qed.

Lemma c_frontBlock {C} I0 O p ks F0 (k : Z → qth C) Q σ : CA I0 O p ks None F0 σ →
  (∀ σ, CA I0 O p ks None F0 σ → rg prely crely (k p) Q σ) → rg prely crely (gets q_front ≫= k) Q σ.
Proof. intros HP H. eapply c_read; [exact HP|]. clear σ HP. intros σ HP. exists p. rewrite (ca_front _ _ _ _ _ _ _ HP). auto. Qed.

(** The element at the front of the block after an empty one. *)
Lemma c_next_tail {C} I0 O p ks F0 n b1 y ys F (k : Z → qth C) Q σ : CA I0 O p ks None F0 σ → F0 = (p, []) :: (n, y :: ys) :: F → (n, b1) ∈ ks →
  (∀ v ys F σ, CA I0 O p ks None ((p, []) :: (n, y :: ys) :: F) σ → tail_seen b1 (y :: ys) v → b_front b1 ≠ v → rg prely crely (k v) Q σ) →
  rg prely crely (ldb n b_tail ≫= k) Q σ.
Proof.
  intros HP -> Hn H. eapply (c_tail _ _ _ _ _ n b1); [exact HP|exact Hn|]. clear σ HP. intros xs v F' σ HP HF [_ Hnd _ Hm] Hp Hv.
  apply f_ext_cons in HF as (zs & G & -> & HG). destruct HG as [-> HG]; [done|]. apply f_ext_cons in HG as (us & G' & -> & _).
  assert (xs = (y :: ys) ++ us) as -> by (eapply ids_unique; [exact Hnd|exact Hp|right; left]).
  eapply (H v (ys ++ us)); [exact HP|exact Hv|]. intros <-. discriminate (proj1 (proj2 Hv) eq_refl).
Qed.

(** Finding the front element, while the producer does what it may. *)
Section at_front.
Context {B : Type} (found : Z → Z → qth B) (ahead : Z → qth B) (empty : B) (I0 O : list T) (Q : B → queue T * ghost T → Prop).
Context (Hfound : ∀ p b0 F0 σ, CA I0 O p [(p, b0)] None F0 σ → b_front b0 ≠ b_localTail b0 → rg prely crely (found p (b_front b0)) Q σ).
Context (Hahead : ∀ p ks n y ys F σ, CA I0 O p ks None ((p, []) :: (n, y :: ys) :: F) σ → rg prely crely (ahead n) Q σ).
Context (Hempty : ∀ σ, I0 `prefix_of` O → CI I0 O σ → Q empty σ).

(** With another block after the front block. *)
Lemma rg_front_next p b0 F0 σ : CA I0 O p [(p, b0)] None F0 σ → (1 < length F0)%nat →
  rg prely crely (
    frontBlock_ ← gets q_front;
    blockTail ← ldb frontBlock_ b_tail;
    stb frontBlock_ (set_localTail blockTail);;
    blockFront ← ldb frontBlock_ b_front;
    if negb (blockFront =? blockTail) then found frontBlock_ blockFront
    else nextBlock ← ldb frontBlock_ b_next; ahead nextBlock) Q σ.
Proof using Hfound Hahead.
  intros HP Hlen. eapply c_frontBlock; [exact HP|]. clear σ HP. intros σ HP.
  eapply c_tail; [exact HP|left|]. clear σ HP. intros xs v F σ HP HF [_ Hn Hf Hm] Hp Hv.
  pose proof (f_ext_length _ _ HF) as Hlen'. destruct F as [|[p' xs'] [|[n ys] F]]; [cbn in *; lia..|]. cbn in Hf. injection Hf as ->.
  assert (xs' = xs) as -> by (eapply ids_unique; [exact Hn|left|exact Hp]).
  eapply c_localTail; [exact HP|left|exact Hp|exact Hv|]. clear σ HP. intros σ HP.
  eapply (c_ldb _ _ _ _ _ _ _ (set_localTail v b0)); [exact HP|left|by intros b (-> & _)|]. clear σ HP. intros σ HP.
  destruct (b_front (set_localTail v b0) =? v) eqn:E1; cbn [negb].
  2: { by eapply (Hfound _ (set_localTail v b0)); [|apply Z.eqb_neq]. }
  apply Z.eqb_eq in E1. assert (xs = []) as -> by (by apply Hv).
  destruct ys as [|y ys]; [by apply Forall_cons in Hm as [? _]|].
  eapply c_next; [exact HP|done|]. clear σ HP. intros σ HP. by eapply Hahead.
Qed.

Lemma rg_at_front σ : CI I0 O σ → rg prely crely (at_front found ahead empty) Q σ.
Proof using Hfound Hahead Hempty.
  intros HP. apply (rg_step _ _ (CI I0 O)); [done|by apply CI_stable|]. clear σ HP. intros [s g] [Hi Ho Hh Hin].
  exists (q_front s), s, g. split; [done|]. split; [apply crely_refl|].
  destruct (front_split _ Hi) as (xs0 & F & EF). assert (CA I0 O (q_front s) [] None (g_F g) (s, g)) as HP by by split.
  cbn in EF. rewrite EF in HP. revert HP. generalize (s, g), (q_front s). clear -Hfound Hahead Hempty. intros σ p HP.
  eapply c_learn; [exact HP|left|]. clear σ HP. intros b0 σ HP.
  eapply c_ldb; [exact HP|left|by intros b (-> & _)|]. clear σ HP. intros σ HP.
  destruct (b_front b0 =? b_localTail b0) eqn:E0; cbn [negb].
  2: { by eapply Hfound; [|apply Z.eqb_neq]. }
  apply Z.eqb_eq in E0. apply rg_assoc. eapply c_tail; [exact HP|left|]. clear σ HP. intros xs v F1 σ HP _ Hs Hp Hv.
  apply rg_assoc. eapply c_localTail; [exact HP|left|exact Hp|exact Hv|]. clear σ HP. intros σ HP. cbn [mbind thread_bind].
  destruct (b_front b0 =? v) eqn:E1; cbn [negb].
  2: { by eapply (Hfound _ (set_localTail v b0)); [|apply Z.eqb_neq]. }
  (* empty, then *)
  apply Z.eqb_eq in E1. assert (xs = []) as -> by (by apply Hv).
  eapply c_tailBlock; [exact HP|]. clear σ HP. intros tl F2 σ HP H12 Hs2 Htl.
  destruct (p =? tl) eqn:E2; cbn [negb].
  - apply Z.eqb_eq in E2. apply Htl in E2. pose proof (f_ext_length _ _ H12) as Hlen. destruct Hs as [Hh Hn Hf Hm].
    destruct F1 as [|[p1 ys] F1]; [done|]. destruct F1; [|cbn in *; lia]. apply list_elem_of_singleton in Hp as [= -> <-].
    cbn in Hh. rewrite app_nil_r in Hh. eapply rg_ret; [exact HP|by apply CA_stable|]. intros σ' [Hi Ho Hh' Hin _ _ _]. by apply Hempty.
  - apply Z.eqb_neq in E2. eapply rg_front_next; [exact HP|]. destruct F2 as [|e [|e' F2]]; [|by destruct E2; apply Htl|cbn; lia].
    by destruct Hs2 as [_ _ ? _].
Qed.
End at_front.

Lemma rg_advance_to {B} (found : Z → Z → qth B) I0 O Q p ks n y ys F σ :
  (∀ p b0 F0 σ, CA I0 O p [(p, b0)] None F0 σ → b_front b0 ≠ b_localTail b0 → rg prely crely (found p (b_front b0)) Q σ) →
  CA I0 O p ks None ((p, []) :: (n, y :: ys) :: F) σ → rg prely crely (advance_to found n) Q σ.
Proof.
  intros Hfound HP. eapply c_learn; [exact HP|right; left|]. clear σ HP. intros b1 σ HP.
  eapply c_next_tail; [exact HP|done|left|]. clear σ HP ys F. intros v ys F σ HP Hv Hne.
  eapply c_localTail; [exact HP|left|right; left|exact Hv|]. clear σ HP. intros σ HP.
  eapply c_read; [exact HP|]. clear σ HP. intros σ HP. exists tt. rewrite (proj2 (Z.eqb_neq _ _) Hne). split; [done|].
  eapply c_advance; [exact HP|left|done|]. clear σ HP. intros F2 σ HP. by eapply (Hfound _ (set_localTail v b1)).
Qed.

Lemma rg_try_dequeue I0 O σ : CI I0 O σ → rg prely crely try_dequeue (Qc I0 O) σ.
Proof.
  apply rg_at_front; [intros p b0 F0 σ'; apply rg_dequeue_at| |by split].
  intros p ks n y ys F σ'. apply rg_advance_to. intros p' b0 F0 σ''. apply rg_dequeue_at.
Qed.
Lemma rg_pop I0 O σ : CI I0 O σ → rg prely crely pop (Qpop I0 O) σ.
Proof.
  apply rg_at_front; [intros p b0 F0 σ'; apply rg_pop_at| |by split].
  intros p ks n y ys F σ'. apply rg_advance_to. intros p' b0 F0 σ''. apply rg_pop_at.
Qed.

(** The pointer of [peek] is to the element that the next call takes. *)
Definition Qpeek (I0 O : list T) (r : option (Z * Z)) (σ : queue T * ghost T) : Prop :=
  CI I0 O σ ∧
  match r with
  | Some (p, i) => ∃ x b, O ++ [x] `prefix_of` g_in σ.2 ∧ q_blocks σ.1 !! p = Some b ∧ b_data b !! Z.to_nat i = Some (Some x)
  | None => I0 `prefix_of` O
  end.
Lemma rg_peek I0 O σ : CI I0 O σ → rg prely crely peek (Qpeek I0 O) σ.
Proof.
  apply rg_at_front; [| |by split].
  - intros p b0 F0 σ' HP Hne. eapply rg_ret; [exact HP|by apply CA_stable|]. clear σ' HP. intros σ' HP.
    destruct (CA_front _ _ _ _ _ _ _ HP) as (b & xs & F & Hb & Hc & EF & Hok). destruct (nonempty_list Hc Hne Hok) as (x & xs' & ->).
    rewrite bool_decide_false in Hok by done. destruct Hok as (k & lf & f & lt & t & Hr). destruct HP as [Hi Ho Hh Hin _ _ _].
    split; [done|]. exists x, b. split; [|split; [done|]].
    + rewrite (iv_hist _ Hi), EF, Ho. cbn. exists (xs' ++ concat F.*2). by rewrite <- app_assoc.
    + destruct Hc as (<- & _). apply (br_first Hr x xs' eq_refl).
  - intros p ks n y ys F σ' HP. eapply c_learn; [exact HP|right; left|]. clear σ' HP. intros b1 σ' HP.
    eapply c_next_tail; [exact HP|done|left|]. clear σ' HP ys F. intros v ys F σ' HP Hv Hne.
    eapply c_read; [exact HP|]. clear σ' HP. intros σ' HP. exists tt. rewrite (proj2 (Z.eqb_neq _ _) Hne). split; [done|].
    eapply rg_ret; [exact HP|by apply CA_stable|]. clear σ' HP. intros σ' HP.
    destruct (CA_known _ _ _ _ _ _ _ n b1 HP) as (b & xs & Hb & (Ef & _) & Hn & k & lf & f & lt & t & Hr); [left|].
    pose proof (ca_F _ _ _ _ _ _ _ HP) as HF. apply f_ext_cons in HF as (zs & G & EG & HG). destruct HG as [-> HG]; [done|].
    apply f_ext_cons in HG as (us & G' & -> & _). pose proof (CA_list _ _ _ _ _ _ HP) as [_ Hnd _ _]. rewrite EG in Hnd, Hn.
    assert (xs = (y :: ys) ++ us) as -> by (eapply ids_unique; [exact Hnd|exact Hn|right; left]).
    destruct HP as [Hi Ho Hh Hin _ _ _]. split; [done|]. exists y, b. split; [|split; [done|]].
    + rewrite (iv_hist _ Hi), EG, Ho. cbn. exists ((ys ++ us) ++ concat G'.*2). by rewrite <- (app_assoc O).
    + rewrite <- Ef. apply (br_first Hr y _ eq_refl).
Qed.

(** ** The producer *)

Section producer.
(** What the queue can hold at least, and what had been taken from it before. *)
Context (N : Z) (O0 : list T).

(** The other thread keeps this; [b0] is the tail block, [R0] the first blocks after it, the
    tail block has at most [lim.1] elements, as many if it is not the front block, the last
    block size is [lim.2], and [xb] a block that the consumer does not touch. *)
Record PA (I : list T) (t : Z) (b0 : block T) (R0 : list (Z * list T)) (xb : option (Z * block T)) (lim : nat * option Z) (σ : queue T * ghost T) : Prop := {
  pa_inv : inv σ;
  pa_in : g_in σ.2 = I;
  pa_tail : q_tail σ.1 = t;
  pa_R : ∃ D, g_R σ.2 = R0 ++ empties D;
  pa_block : ∃ b, q_blocks σ.1 !! t = Some b ∧ peq b0 b;
  pa_lim xs : (t, xs) ∈ g_L σ.2 → (length xs ≤ lim.1)%nat;
  pa_x n b : xb = Some (n, b) → (n ∉ (g_F σ.2).*1) ∧ q_blocks σ.1 !! n = Some b ∧ (n < q_new σ.1) ∧ (R0 = [] → n ∉ (g_L σ.2).*1);
  pa_new n b : xb = Some (n, b) → R0 = [] → ∀ p, p ∈ (g_L σ.2).*1 → msk (q_blocks σ.1) p ≤ b_mask b;
  pa_exact xs : (t, xs) ∈ tail (g_F σ.2) → length xs = lim.1;
  pa_largest v : lim.2 = Some v → q_largest σ.1 = v;
  pa_out : O0 `prefix_of` g_out σ.2;
  pa_cap : g_cap σ.2 = N;
  pa_dom p b : q_blocks σ.1 !! p = Some b → p ∈ (g_L σ.2).*1 ∨ R0 = [] ∧ ∃ c, xb = Some (p, c)
}.
(** Between two calls. *)
Record PI (I : list T) (σ : queue T * ghost T) : Prop := {
  pi_inv : inv σ; pi_in : g_in σ.2 = I; pi_R : ∃ D, g_R σ.2 = empties D; pi_out : O0 `prefix_of` g_out σ.2; pi_cap : g_cap σ.2 = N;
  pi_dom p b : q_blocks σ.1 !! p = Some b → p ∈ (g_L σ.2).*1
}.

Lemma peq_trans (b1 b2 b3 : block T) : peq b1 b2 → peq b2 b3 → peq b1 b3.
Proof. intros (T1 & L1 & M1 & N1 & D1) (T2 & L2 & M2 & N2 & D2). rewrite T1 in D2. repeat split; congruence. Qed.
Lemma empties_app D1 D2 : empties (T := T) (D1 ++ D2) = empties D1 ++ empties D2.
Proof. apply fmap_app. Qed.
Lemma cr_ids (σ σ' : queue T * ghost T) : crely' σ σ' → (g_L σ'.2).*1 ⊆ (g_L σ.2).*1.
Proof.
  intros H p Hp. apply list_elem_of_fmap in Hp as ([p' xs] & -> & Hp). apply (cr_shrink _ _ H) in Hp as (ys & Hp & _).
  apply list_elem_of_fmap. by exists (p', ys).
Qed.

Lemma cr_ids' (σ σ' : queue T * ghost T) : crely' σ σ' → (g_L σ.2).*1 ⊆ (g_L σ'.2).*1.
Proof.
  intros H p. destruct (cr_lists _ _ H) as (D & HF & HR). unfold g_L. rewrite !fmap_app, HF, HR, fmap_app, ids_empties. set_solver.
Qed.

Lemma PA_stable I t b0 R0 xb lim σ σ' : PA I t b0 R0 xb lim σ → crely σ σ' → PA I t b0 R0 xb lim σ'.
Proof.
  intros [Hi HI Ht (D & HR) (b & Hb & Hp) Hl Hx Hnw Hex Hlg Hout Hcap Hdm] Hr. pose proof (Hr Hi) as Hr'.
  destruct (Hr Hi) as [Hi' Ht' Hn' Hlg' HI' Hout' Hcap' Hsuf (D' & HF & HR') Hs' Hb' Ho' Hdo].
  split; [done|congruence|congruence|..|by etrans|congruence|].
  - exists (D ++ D'). by rewrite HR', HR, empties_app, app_assoc.
  - apply Hb' in Hb as (b' & Hb & Hp'). exists b'. split; [done|]. by eapply peq_trans.
  - intros xs (ys & Hin & Hle)%Hs'. apply Hl in Hin. lia.
  - intros n c Hnc. destruct (Hx n c Hnc) as (HnF & Hc & Hnew & HnL). split; [|split; [|split]].
    + rewrite HF in HnF. set_solver.
    + by rewrite Ho'.
    + by rewrite Hn'.
    + intros E Hin. apply (HnL E). by apply (cr_ids _ _ Hr').
  - intros n c Hc E p Hin%(cr_ids _ _ Hr'). specialize (Hnw n c Hc E p Hin). apply list_elem_of_fmap in Hin as ([p' xs] & -> & Hin).
    destruct (blk_get _ _ _ _ _ (iv_block _ Hi) Hin) as (d & Hd & _). cbn in *. destruct (Hb' _ _ Hd) as (d' & Hd' & _ & _ & Em & _).
    unfold msk in *. rewrite Hd in Hnw. rewrite Hd'. cbn in *. lia.
  - intros xs Hin. apply Hex. destruct Hsuf as [k ->]. apply elem_of_app. by right.
  - intros v Hv. rewrite Hlg'. by apply Hlg.
  - intros p c (c' & Hc)%Hdo. destruct (Hdm _ _ Hc) as [Hin|]; [left; by apply (cr_ids' _ _ Hr')|by right].
Qed.
Lemma PI_stable I σ σ' : PI I σ → crely σ σ' → PI I σ'.
Proof.
  intros [Hi HI (D & HR) Hout Hcap Hdm] Hr. pose proof (Hr Hi) as Hr'.
  destruct (Hr Hi) as [Hi' _ _ _ HI' Hout' Hcap' _ (D' & HF & HR') _ _ _ Hd'].
  split; [done|congruence| |by etrans|congruence|].
  - exists (D ++ D'). by rewrite HR', HR, empties_app.
  - intros p c (c' & Hc)%Hd'. apply Hdm in Hc. by apply (cr_ids' _ _ Hr').
Qed.

Lemma prely_store (q : queue T) (g g' : ghost T) p (b b' : block T) : q_blocks q !! p = Some b → (p ∈ (g_F g).*1 → ceq b b') → inv (put_blocks (<[p := b']> (q_blocks q)) q, g') →
  g_out g' = g_out g → g_hole g' = g_hole g → g_cap g' = g_cap g → g_in g `prefix_of` g_in g' → f_ext (g_F g) (g_F g') →
  prely' (q, g) (put_blocks (<[p := b']> (q_blocks q)) q, g').
Proof.
  intros Hb Hc Hi Ho Hh HC Hin HF. split; try done. intros p' c Hp' Hc'. cbn in *. destruct (decide (p = p')) as [->|Hne].
  - rewrite lookup_insert_eq. exists b'. simplify_eq. auto.
  - rewrite lookup_insert_ne by done. by exists c.
Qed.

Lemma p_read {B C} I t b0 R0 xb lim (f : queue T → outcome (B * queue T)) (k : B → qth C) Q σ : PA I t b0 R0 xb lim σ →
  (∀ σ, PA I t b0 R0 xb lim σ → ∃ a, f σ.1 = Ok (a, σ.1) ∧ rg crely prely (k a) Q σ) → rg crely prely (act f ≫= k) Q σ.
Proof.
  intros HP H. apply (rg_step _ _ (PA I t b0 R0 xb lim)); [done|by apply PA_stable|]. intros [s g] HP'.
  destruct (H _ HP') as (a & E & Hk). exists a, s, g. cbn in E. split; [done|]. split; [apply prely_refl|done].
Qed.
Lemma p_write {B C} I t b0 R0 xb lim (f : queue T → outcome (B * queue T)) (k : B → qth C) Q σ : PA I t b0 R0 xb lim σ →
  (∀ s g, PA I t b0 R0 xb lim (s, g) → ∃ a s' g', f s = Ok (a, s') ∧ prely' (s, g) (s', g') ∧ rg crely prely (k a) Q (s', g')) →
  rg crely prely (act f ≫= k) Q σ.
Proof.
  intros HP H. apply (rg_step _ _ (PA I t b0 R0 xb lim)); [done|by apply PA_stable|]. intros [s g] HP'.
  destruct (H _ _ HP') as (a & s' & g' & E & Hr & Hk). exists a, s', g'. split; [done|]. split; [by intros _|done].
Qed.

(** *** At the tail block *)

Lemma PA_block I t b0 R0 xb lim σ : PA I t b0 R0 xb lim σ →
  ∃ b F xs hole k lf f lt tl, q_blocks σ.1 !! t = Some b ∧ peq b0 b ∧ g_F σ.2 = F ++ [(t, xs)] ∧ (length xs ≤ lim.1)%nat ∧
    hole = bool_decide (g_hole σ.2 = Some t) ∧ (hole = true → xs ≠ []) ∧ block_rep hole b xs k lf f lt tl.
Proof.
  intros [Hi HI Ht _ (b & Hb & Hp) Hl _]. destruct (tail_split _ Hi) as (F & xs & EF). rewrite Ht in EF.
  assert ((t, xs) ∈ g_L σ.2) as Hin by (unfold g_L; rewrite EF; set_solver).
  destruct (blk_get _ _ _ _ _ (iv_block _ Hi) Hin) as (b' & Hb' & k & lf & f & lt & tl & Hr). cbn in *. simplify_eq.
  eexists b, F, xs, _, k, lf, f, lt, tl. split_and!; try done; [by apply Hl|].
  intros Hh%bool_decide_eq_true. destruct (iv_hole _ Hi _ Hh) as (x & ys & G & EG). intros ->.
  assert (([] : list T) = x :: ys); [|done]. eapply ids_unique; [apply (iv_nodup _ Hi)|exact Hin|]. unfold g_L. rewrite EG. left.
Qed.

Lemma p_ldb {B C} I t b0 R0 xb lim (f : block T → B) (k : B → qth C) Q σ : PA I t b0 R0 xb lim σ → (∀ b, peq b0 b → f b = f b0) →
  (∀ σ, PA I t b0 R0 xb lim σ → rg crely prely (k (f b0)) Q σ) → rg crely prely (ldb t f ≫= k) Q σ.
Proof.
  intros HP Hf H. eapply p_read; [exact HP|]. clear σ HP. intros σ HP. destruct (pa_block _ _ _ _ _ _ _ HP) as (b & Hb & Hp).
  exists (f b0). rewrite Hb, (Hf _ Hp). auto.
Qed.

(** The front of a block that had [n] elements then. *)
Definition front_seen (b0 : block T) (n : nat) (v : Z) : Prop :=
  v = (b_tail b0 - Z.of_nat n) `mod` (b_mask b0 + 1) ∧ Z.of_nat n < b_mask b0 + 1 ∧
  (Z.land (u64 (b_tail b0 + 1)) (b_mask b0) = v → Z.of_nat n = b_mask b0).
Lemma rep_full {b : block T} {hole xs k lf f lt t} : block_rep hole b xs k lf f lt t →
  Z.land (u64 (b_tail b + 1)) (b_mask b) = b_front b → zlen xs = b_mask b.
Proof.
  intros [Hk -> Hd Hlf Hlt Hroom Hlen -> Hvlt -> Hvlf Hs]. rewrite (next_index k) by done. intros E.
  destruct (decide (zlen xs + 1 = 2 ^ k)) as [|Hne]; [lia|]. assert (t + 1 = f); [|lia]. apply (mod_close k); [lia|lia|done].
Qed.

(** The elements there are, and those that have come and gone since [O0]. *)
Lemma PA_count I t b0 R0 xb lim σ F : PA I t b0 R0 xb lim σ → F `suffix_of` g_F σ.2 → zlen (concat F.*2) ≤ zlen I - zlen O0.
Proof.
  intros HP [k Hk]. pose proof (iv_hist _ (pa_inv _ _ _ _ _ _ _ HP)) as E. rewrite (pa_in _ _ _ _ _ _ _ HP) in E.
  pose proof (prefix_length _ _ (pa_out _ _ _ _ _ _ _ HP)). rewrite E, Hk, fmap_app, concat_app, !length_app. lia.
Qed.

Lemma p_front {C} I t b0 R0 xb lim (k : Z → qth C) Q σ : PA I t b0 R0 xb lim σ →
  (∀ v n σ, PA I t b0 R0 xb (n, lim.2) σ → front_seen b0 n v → Z.of_nat n ≤ zlen I - zlen O0 → rg crely prely (k v) Q σ) → rg crely prely (ldb t b_front ≫= k) Q σ.
Proof.
  intros HP H. eapply p_read; [exact HP|]. clear σ HP. intros σ HP.
  destruct (PA_block _ _ _ _ _ _ _ HP) as (b & F & xs & hole & kk & lf & f & lt & tl & Hb & (Et & _ & Em & _) & EF & _ & _ & _ & Hr).
  exists (b_front b). rewrite Hb. split; [done|]. apply (H _ (length xs)).
  - destruct HP as [Hi HI Ht HR Hb' Hl Hx Hnw Hex Hlg Hout Hcap Hdm].
    assert (∀ ys, (t, ys) ∈ g_L σ.2 → ys = xs) as Hu.
    { intros ys Hys. eapply ids_unique; [apply (iv_nodup _ Hi)|exact Hys|]. unfold g_L. rewrite EF. set_solver. }
    split; try done; [by intros ys ->%Hu|]. intros ys Hys. rewrite (Hu ys); [done|]. apply elem_of_app. left.
    destruct (g_F σ.2); [done|by right].
  - unfold front_seen. rewrite <- Et, <- Em. destruct (rep_front_seen Hr) as [E Hlt]. split; [exact E|].
    split; [by rewrite (br_mask _ _ _ _ _ _ _ _ Hr), Z.sub_add|apply (rep_full Hr)].
  - etrans; [|eapply (PA_count _ _ _ _ _ _ _ [(t, xs)] HP); by exists F]. cbn. by rewrite app_nil_r.
Qed.

(** A store to the tail block that keeps its elements. *)
Lemma p_store {A C} I t b0 R0 xb lim (f : queue T → outcome (A * queue T)) a (fb : block T → block T) (k : A → qth C) Q σ : PA I t b0 R0 xb lim σ →
  (∀ s b, q_blocks s !! t = Some b → in_range (b_tail b) 1 (zlen (b_data b)) = true → b_tail b = b_tail b0 →
    f s = Ok (a, put_blocks (<[t := fb b]> (q_blocks s)) s)) →
  (∀ b hole xs kk lf f lt tl, peq b0 b → (length xs ≤ lim.1)%nat → block_rep hole b xs kk lf f lt tl → block_ok hole (fb b) xs) →
  (∀ b, ceq b (fb b) ∧ b_next (fb b) = b_next b ∧ b_mask (fb b) = b_mask b) →
  (∀ b σ, PA I t (fb b) R0 xb lim σ → peq b0 b → in_range (b_tail b) 1 (zlen (b_data b)) = true → rg crely prely (k a) Q σ) →
  rg crely prely (act f ≫= k) Q σ.
Proof.
  intros HP Hf Hok Hfb H. eapply p_write; [exact HP|]. clear σ HP. intros s g HP.
  destruct (PA_block _ _ _ _ _ _ _ HP) as (b & F & xs & hole & kk & lf & ff & lt & tl & Hb & Hp & EF & Hl & -> & _ & Hr).
  destruct HP as [Hi HI Ht HR _ Hl' Hx Hnw Hex Hlg Hout Hcap Hdm]. cbn in *. pose proof (br_tail_range Hr) as Hir.
  assert (t ∈ (g_F g).*1) as HtF by (rewrite EF, fmap_app; set_solver).
  assert (inv (put_blocks (<[t := fb b]> (q_blocks s)) s, g)) as Hi'.
  { eapply (inv_store _ _ _ xs b); try done; [unfold g_L; rewrite EF; set_solver|apply Hfb|apply Hfb|]. by eapply Hok. }
  exists a, (put_blocks (<[t := fb b]> (q_blocks s)) s), g. split; [apply Hf; try done; apply Hp|]. split; [|eapply (H b); try done].
  - eapply prely_store; try done. intros _. apply Hfb.
  - split; try done; cbn.
    + exists (fb b). rewrite lookup_insert_eq. by repeat split.
    + intros n c Hc. destruct (Hx n c Hc) as (HnF & Hn & Hnew & HnL). rewrite lookup_insert_ne; [done|]. by intros ->.
    + intros n c Hc E p Hp'. rewrite (msk_put _ _ b) by (done || apply Hfb). by eapply Hnw.
    + intros p c Hc. destruct (decide (p = t)) as [->|Hne]; [by eapply Hdm|]. rewrite lookup_insert_ne in Hc by done. by eapply Hdm.
Qed.

Lemma p_localFront {C} I t b0 R0 xb lim v (k : unit → qth C) Q σ : PA I t b0 R0 xb lim σ → front_seen b0 lim.1 v →
  (∀ b σ, PA I t (set_localFront v b) R0 xb lim σ → peq b0 b → rg crely prely (k tt) Q σ) → rg crely prely (stb t (set_localFront v) ≫= k) Q σ.
Proof.
  intros HP (Hv & Hlim & _) H. unfold stb. eapply (p_store _ _ _ _ _ _ _ _ (set_localFront v)); [exact HP|..].
  - intros s b Hb _ _. by rewrite Hb.
  - intros b hole xs kk lf f lt tl (Et & _ & Em & _) Hl Hr. eexists kk, _, f, lt, tl. rewrite Hv, <- Et, <- Em. apply (rep_localFront Hr).
    rewrite <- Em, (br_mask _ _ _ _ _ _ _ _ Hr) in Hlim. lia.
  - done.
  - intros b σ' HP' Hp _. by eapply H.
Qed.

Lemma p_slot_new {C} I t b0 R0 xb lim x (k : unit → qth C) Q σ : PA I t b0 R0 xb lim σ →
  Z.land (u64 (b_tail b0 + 1)) (b_mask b0) ≠ b_localFront b0 →
  (∀ b σ, PA I t b R0 xb lim σ → b_tail b = b_tail b0 → b_mask b = b_mask b0 → b_localFront b = b_localFront b0 →
    b_data b !! Z.to_nat (b_tail b) = Some (Some x) → rg crely prely (k tt) Q σ) →
  rg crely prely (slot_new t (b_tail b0) x ≫= k) Q σ.
Proof.
  intros HP Hroom H. unfold slot_new.
  eapply (p_store _ _ _ _ _ _ _ _ (λ b, set_slots (<[Z.to_nat (b_tail b) := Some x]> (b_data b)) b)); [exact HP|..].
  - intros s b Hb Hir <-. rewrite Hb. unfold check. by rewrite Hir.
  - intros b hole xs kk lf f lt tl (Et & El & Em & _) _ Hr. eexists kk, lf, f, lt, tl. apply (rep_new Hr), (br_has_room Hr). congruence.
  - done.
  - intros b σ' HP' (Et & El & Em & _) Hir. eapply H; [exact HP'|done..|]. cbn. apply list_lookup_insert_eq.
    unfold in_range in Hir. rewrite !andb_true_iff, !Z.leb_le in Hir. lia.
Qed.

(** The element is in the queue. *)
Lemma p_push {C} I t b0 lim x (k : unit → qth C) Q σ : PA I t b0 [] None lim σ →
  Z.land (u64 (b_tail b0 + 1)) (b_mask b0) ≠ b_localFront b0 → b_data b0 !! Z.to_nat (b_tail b0) = Some (Some x) →
  (∀ σ, PI (I ++ [x]) σ → rg crely prely (k tt) Q σ) →
  rg crely prely (stb t (set_tail (Z.land (u64 (b_tail b0 + 1)) (b_mask b0))) ≫= k) Q σ.
Proof.
  intros HP Hroom Hx H. eapply p_write; [exact HP|]. clear σ HP. intros s g HP.
  destruct (PA_block _ _ _ _ _ _ _ HP) as (b & F & xs & hole & kk & lf & ff & lt & tl & Hb & (Et & El & Em & _ & Ed) & EF & _ & Ehole & Hhole & Hr).
  destruct HP as [Hi HI Ht (D & HR) _ _ _ _ _ _ Hout Hcap Hdm]. cbn in *. set (v := Z.land (u64 (b_tail b0 + 1)) (b_mask b0)) in *.
  set (s' := put_blocks (<[t := set_tail v b]> (q_blocks s)) s). set (g' := Gh (F ++ [(t, xs ++ [x])]) (g_R g) (g_in g ++ [x]) (g_out g) (g_hole g) (g_cap g)).
  assert (inv (s', g')) as Hi'.
  { eapply (inv_put s g g' (q_destroyed s) t xs (xs ++ [x]) b _ F (g_R g) Hi); try done; cbn.
    - unfold g_L. by rewrite EF, <- app_assoc.
    - unfold g_L. cbn. by rewrite <- app_assoc.
    - by rewrite EF, !fmap_app.
    - rewrite <- Ehole. eexists kk, lf, ff, lt, (tl + 1). unfold v. rewrite <- Et, <- Em. apply (rep_push Hr); [|congruence|done].
      apply (br_has_room Hr). rewrite Et, Em, El. exact Hroom.
    - pose proof (iv_mid _ Hi) as Hm. cbn in Hm. rewrite EF in Hm. destruct F as [|e F]; [done|]. cbn in *. rewrite Forall_app in *.
      split; [apply Hm|]. constructor; [|done]. cbn. by destruct xs.
    - pose proof (iv_full _ Hi) as Hfl. cbn in Hfl. rewrite EF in Hfl. destruct F as [|e F]; [done|]. cbn in *. by rewrite removelast_last in *.
    - intros p Hp. destruct (iv_hole _ Hi p Hp) as (y & ys & G & EG). cbn in EG. rewrite EF in EG. destruct F as [|e F].
      + injection EG as -> -> <-. by eexists _, _, _.
      + injection EG as -> <-. by eexists _, _, _.
    - pose proof (iv_hist _ Hi) as E. cbn in E. rewrite E, EF, !fmap_app, !concat_app. cbn. by rewrite !app_nil_r, !app_assoc.
    - rewrite (iv_destroyed _ Hi : q_destroyed s = _). unfold in_hole. cbn. rewrite EF.
      destruct (g_hole g) as [h|] eqn:Eh; [|done]. destruct (iv_hole _ Hi h Eh) as (y & ys & G & EG). cbn in EG. rewrite EF in EG.
      destruct F as [|[p' ys'] F]; [by injection EG as -> -> <-|by injection EG as -> -> <-]. }
  exists tt, s', g'. split; [by rewrite Hb|]. split; [|eapply H].
  - eapply prely_store; try done; cbn.
    + by eexists.
    + rewrite EF. clear. induction F as [|e F IH]; cbn; [apply fe_last|by apply fe_cons].
  - split; try done; [cbn; by rewrite HI|by exists D|]. intros p c Hc. cbn [fst snd] in *. assert ((g_L g').*1 = (g_L g).*1) as -> by (unfold g_L; cbn; by rewrite EF, !fmap_app).
    destruct (decide (p = t)) as [->|Hne]; [|cbn in Hc; rewrite lookup_insert_ne in Hc by done; by destruct (Hdm _ _ Hc) as [|[_ [? ?]]]].
    unfold g_L. rewrite EF, !fmap_app. set_solver.
Qed.

(** The block after the tail block is free when it is not the front block. *)
Lemma PA_next I t b0 R0 xb lim σ : PA I t b0 R0 xb lim σ → b_next b0 = hd (q_front σ.1) (g_R σ.2).*1.
Proof.
  intros HP. destruct (PA_block _ _ _ _ _ _ _ HP) as (b & F & xs & hole & kk & lf & ff & lt & tl & Hb & (_ & _ & _ & En & _) & EF & _).
  pose proof (iv_link _ (pa_inv _ _ _ _ _ _ _ HP)) as Hlk. unfold g_L in Hlk. rewrite EF, !fmap_app, <- app_assoc in Hlk.
  apply links_app in Hlk as [_ [Hlk _]]. unfold nx in Hlk. cbn in Hlk. rewrite Hb in Hlk. cbn in Hlk. congruence.
Qed.

(** All blocks of the list are full. *)
Lemma total_full m (F : list (Z * list T)) : Forall (full m) F → total m F.*1 = zlen (concat F.*2).
Proof.
  unfold total. induction 1 as [|[p xs] F Hp HF IH]; [done|]. cbn. rewrite IH, length_app. unfold full in Hp. cbn in Hp. lia.
Qed.
Lemma PA_all_full I t b0 xb lim σ : PA I t b0 [] xb lim σ → g_R σ.2 = [] → Z.of_nat lim.1 = b_mask b0 → Z.of_nat lim.1 ≤ zlen I - zlen O0 →
  N ≤ zlen I - zlen O0.
Proof.
  intros HP HR Hlim Hle. destruct (PA_block _ _ _ _ _ _ _ HP) as (b & F & xs & hole & kk & lf & ff & lt & tl & Hb & (_ & _ & Em & _) & EF & _).
  pose proof HP as [Hi _ _ _ _ _ _ _ Hex _ _ HN _]. destruct (front_split _ Hi) as (ys & G & EG).
  pose proof (iv_cap _ Hi (q_front σ.1) G.*1) as Hc. unfold g_L in Hc. rewrite HR, app_nil_r, EG, HN in Hc. specialize (Hc ltac:(done)).
  pose proof (iv_full _ Hi) as Hfl. rewrite EG in Hfl, Hex, EF. cbn [tail] in Hfl, Hex.
  assert (msk (q_blocks σ.1) t = Z.of_nat lim.1) as Hmt by (unfold msk; rewrite Hb; cbn; lia).
  destruct G as [|[p' zs] G _] using rev_ind.
  { cbn in Hc. assert (q_front σ.1 = t) as E; [|rewrite E in Hc; lia]. destruct F as [|e [|]]; [by injection EF|done..]. }
  rewrite app_comm_cons in EF. apply app_inj_tail in EF as [_ [= -> ->]]. rewrite removelast_last in Hfl.
  assert (Forall (full (q_blocks σ.1)) (G ++ [(t, xs)])) as Hfull.
  { apply Forall_app. split; [done|]. constructor; [|done]. unfold full. cbn. rewrite (Hex xs) by set_solver. by rewrite Hmt. }
  etrans; [|eapply (PA_count _ _ _ _ _ _ _ (G ++ [(t, xs)]) HP); rewrite EG; by exists [(q_front σ.1, ys)]].
  rewrite <- (total_full _ _ Hfull). rewrite fmap_app in *. by destruct (G.*1).
Qed.

Lemma p_frontBlock {C} I t b0 lim (k : Z → qth C) Q σ : PA I t b0 [] None lim σ →
  (∀ v σ, PA I t b0 [] None lim σ →
    (v ≠ b_next b0 → ∃ b, PA I t b0 [(b_next b0, [])] (Some (b_next b0, b)) lim σ ∧ block_ok false b []) →
    (v = b_next b0 → Z.of_nat lim.1 = b_mask b0 → Z.of_nat lim.1 ≤ zlen I - zlen O0 → N ≤ zlen I - zlen O0) →
    rg crely prely (k v) Q σ) → rg crely prely (gets q_front ≫= k) Q σ.
Proof.
  intros HP H. eapply p_read; [exact HP|]. clear σ HP. intros σ HP. eexists. split; [done|]. pose proof (PA_next _ _ _ _ _ _ _ HP) as En.
  pose proof (pa_R _ _ _ _ _ _ _ HP) as (D & HR). pose proof (pa_inv _ _ _ _ _ _ _ HP) as Hi. rewrite HR in En. cbn [app] in HR, En. rewrite ids_empties in En.
  assert (∀ n, n ∈ D → n ∉ (g_F σ.2).*1) as HnF.
  { intros n Hn HF. pose proof (iv_nodup _ Hi) as Hnd. unfold g_L in Hnd. rewrite HR, fmap_app, ids_empties in Hnd.
    apply NoDup_app in Hnd as (_ & Hnd & _). by apply (Hnd n HF). }
  apply H; [done|..].
  - intros Hne. destruct D as [|n D]; [by cbn in En|]. cbn in En. rewrite En. cbn in HR.
    assert ((n, []) ∈ g_L σ.2) as Hin by (unfold g_L; rewrite HR; set_solver). specialize (HnF n ltac:(left)).
    destruct (blk_get _ _ _ _ _ (iv_block _ Hi) Hin) as (c & Hc & Hok). cbn in *. rewrite bool_decide_false in Hok.
    + exists c. split; [|done]. destruct HP. split; try done; [by exists D| |].
      * intros n' c' [= <- <-]. split; [done|]. split; [done|]. split; [|done].
        pose proof (iv_new _ Hi) as Hnew. rewrite Forall_forall in Hnew. apply Hnew, list_elem_of_fmap. by exists (n, []).
      * intros p' c' Hc'. destruct (pa_dom0 _ _ Hc') as [|[_ [? ?]]]; [by left|done].
    + intros Hh. destruct (iv_hole _ Hi _ Hh) as (y & ys & G & EG). apply HnF. rewrite EG. left.
  - intros E. eapply PA_all_full; [exact HP|]. destruct D as [|n D]; [done|]. cbn in En. exfalso. apply (HnF n); [left|].
    destruct (front_split _ Hi) as (xs & F & EF). rewrite EF. cbn. rewrite E, En. left.
Qed.

(** *** At a block that the consumer does not touch *)

Lemma p_xldb {B C} I t b0 R0 n bn lim (f : block T → B) (k : B → qth C) Q σ : PA I t b0 R0 (Some (n, bn)) lim σ →
  (∀ σ, PA I t b0 R0 (Some (n, bn)) lim σ → rg crely prely (k (f bn)) Q σ) → rg crely prely (ldb n f ≫= k) Q σ.
Proof.
  intros HP H. eapply p_read; [exact HP|]. clear σ HP. intros σ HP. destruct (pa_x _ _ _ _ _ _ _ HP n bn eq_refl) as (_ & Hb & _).
  exists (f bn). rewrite Hb. auto.
Qed.

(** The list of blocks after the tail block, one of which changes. *)
Lemma PA_xput I t b0 n xs xs' bn bn' lim s g : PA I t b0 [(n, xs)] (Some (n, bn)) lim (s, g) → block_ok false bn' xs' → b_next bn' = b_next bn → b_mask bn' = b_mask bn →
  ∃ g', prely' (s, g) (put_blocks (<[n := bn']> (q_blocks s)) s, g') ∧
    PA I t b0 [(n, xs')] (Some (n, bn')) lim (put_blocks (<[n := bn']> (q_blocks s)) s, g').
Proof.
  intros HP Hok Hn Hmk. pose proof HP as [Hi HI Ht (D & HR) (b & Hb & Hp) Hl Hx Hnw Hex Hlg Hout Hcap Hdm]. destruct (Hx _ _ eq_refl) as (HnF & Hbn & Hnew & _). cbn in *.
  assert (t ∈ (g_F g).*1) as HtF by (destruct (tail_split _ Hi) as (F & ys & EF); cbn in *; rewrite EF, fmap_app, Ht; set_solver).
  assert (n ≠ t) as Hnt by (by intros ->).
  set (g' := Gh (g_F g) ((n, xs') :: empties D) (g_in g) (g_out g) (g_hole g) (g_cap g)). exists g'.
  assert (inv (put_blocks (<[n := bn']> (q_blocks s)) s, g')) as Hi'.
  { eapply (inv_put s g g' (q_destroyed s) n xs xs' bn _ (g_F g) (empties D) Hi); try done; [unfold g_L; by rewrite HR| |apply (iv_mid _ Hi)|apply (iv_full _ Hi)|apply (iv_hole _ Hi)|apply (iv_hist _ Hi)|apply (iv_destroyed _ Hi)].
    rewrite bool_decide_false; [done|]. cbn. intros Hh. destruct (iv_hole _ Hi _ Hh) as (y & ys & G & EG). apply HnF. cbn in EG. rewrite EG. left. }
  split.
  - by eapply prely_store.
  - split; try done; cbn.
    + by exists D.
    + exists b. by rewrite lookup_insert_ne by done.
    + intros zs. unfold g_L. cbn. rewrite elem_of_app, elem_of_cons. intros [Hz|[[= -> ->]|Hz]]; [..|].
      * apply Hl, elem_of_app. by left.
      * done.
      * apply Hl, elem_of_app. right. rewrite HR. by right.
    + intros n' c [= <- <-]. rewrite lookup_insert_eq. by repeat split.
    + intros p c Hc. left. assert ((g_L g').*1 = (g_L g).*1) as -> by (unfold g_L; cbn; by rewrite HR, !fmap_app).
      destruct (decide (p = n)) as [->|Hne]; [unfold g_L; rewrite HR; set_solver|]. rewrite lookup_insert_ne in Hc by done.
      by destruct (Hdm _ _ Hc) as [|[? _]].
Qed.
Lemma PA_xput0 I t b0 n bn bn' lim s g : PA I t b0 [] (Some (n, bn)) lim (s, g) → b_mask bn' = b_mask bn →
  prely' (s, g) (put_blocks (<[n := bn']> (q_blocks s)) s, g) ∧ PA I t b0 [] (Some (n, bn')) lim (put_blocks (<[n := bn']> (q_blocks s)) s, g).
Proof.
  intros [Hi HI Ht HR (b & Hb & Hp) Hl Hx Hnw Hex Hlg Hout Hcap Hdm] Hmk. destruct (Hx _ _ eq_refl) as (HnF & Hbn & Hnew & HnL). specialize (HnL eq_refl). cbn in *.
  assert (∀ p, msk (<[n := bn']> (q_blocks s)) p = msk (q_blocks s) p) as Hmsk by (intros p; by eapply msk_put).
  assert (t ∈ (g_L g).*1) as HtL by (destruct (tail_split _ Hi) as (F & ys & EF); unfold g_L; cbn in *; rewrite EF, !fmap_app, Ht; set_solver).
  assert (n ≠ t) as Hnt by (by intros ->).
  assert (inv (put_blocks (<[n := bn']> (q_blocks s)) s, g)) as Hi'.
  { destruct Hi as [Hbl Hlk Hnd Hf Hla Hm Hh Hne Hlgt Hsz Hfl Hcp Hhi Hds]. split; cbn in *; try done.
    - eapply blk_frame, Hbl. intros p Hp'. rewrite lookup_insert_ne by (by intros ->). done.
    - eapply links_ext, Hlk. intros p Hp'. unfold nx. by rewrite lookup_insert_ne by (by intros ->).
    - eapply sizes_ext, Hsz. by intros p _.
    - eapply full_ext, Hfl. by intros p _.
    - eapply cap_ext, Hcp. by intros p _. }
  split.
  - by eapply prely_store.
  - split; try done; cbn.
    + exists b. by rewrite lookup_insert_ne by done.
    + intros n' c [= <- <-]. by rewrite lookup_insert_eq.
    + intros n' c [= <- <-] _ p Hp'. rewrite Hmsk, Hmk. by eapply (Hnw n).
    + intros p c Hc. destruct (decide (p = n)) as [->|Hne]; [right; by eauto|]. rewrite lookup_insert_ne in Hc by done.
      destruct (Hdm _ _ Hc) as [|[_ [? [= -> _]]]]; [by left|done].
Qed.

(** An access that changes it to [bn']; [R0] says whether it is linked. *)
Definition x_list (n : Z) (o : option (list T)) : list (Z * list T) := match o with Some xs => [(n, xs)] | None => [] end.
Lemma p_xput {A C} I t b0 n o o' bn bn' lim (f : queue T → outcome (A * queue T)) a (k : A → qth C) Q σ :
  PA I t b0 (x_list n o) (Some (n, bn)) lim σ →
  b_mask bn' = b_mask bn →
  match o, o' with Some _, Some xs' => block_ok false bn' xs' ∧ b_next bn' = b_next bn | None, None => True | _, _ => False end →
  (∀ s, q_blocks s !! n = Some bn → f s = Ok (a, put_blocks (<[n := bn']> (q_blocks s)) s)) →
  (∀ σ, PA I t b0 (x_list n o') (Some (n, bn')) lim σ → rg crely prely (k a) Q σ) → rg crely prely (act f ≫= k) Q σ.
Proof.
  intros HP Hmk Ho Hf H. eapply p_write; [exact HP|]. clear σ HP. intros s g HP. destruct (pa_x _ _ _ _ _ _ _ HP _ _ eq_refl) as (_ & Hb & _).
  exists a, (put_blocks (<[n := bn']> (q_blocks s)) s). destruct o as [xs|], o' as [xs'|]; try done.
  - destruct (PA_xput _ _ _ _ _ xs' _ bn' _ _ _ HP) as (g' & Hr & HP'); [apply Ho..|done|]. exists g'. split; [by apply Hf|]. split; [done|]. by apply H.
  - destruct (PA_xput0 _ _ _ _ _ bn' _ _ _ HP Hmk) as (Hr & HP'). exists g. split; [by apply Hf|]. split; [done|]. by apply H.
Qed.
Lemma p_xstb {C} I t b0 n o o' bn lim fb (k : unit → qth C) Q σ : PA I t b0 (x_list n o) (Some (n, bn)) lim σ → b_mask (fb bn) = b_mask bn →
  match o, o' with Some _, Some xs' => block_ok false (fb bn) xs' ∧ b_next (fb bn) = b_next bn | None, None => True | _, _ => False end →
  (∀ σ, PA I t b0 (x_list n o') (Some (n, fb bn)) lim σ → rg crely prely (k tt) Q σ) → rg crely prely (stb n fb ≫= k) Q σ.
Proof. intros HP Hmk Ho H. eapply (p_xput _ _ _ _ o o'); [exact HP|exact Hmk|exact Ho| |exact H]. intros s Hb. by rewrite Hb. Qed.
Lemma p_xnew {C} I t b0 n o o' bn lim i x (k : unit → qth C) Q σ : PA I t b0 (x_list n o) (Some (n, bn)) lim σ →
  in_range i 1 (zlen (b_data bn)) = true →
  match o, o' with Some _, Some xs' => block_ok false (set_slots (<[Z.to_nat i := Some x]> (b_data bn)) bn) xs' | None, None => True | _, _ => False end →
  (∀ σ, PA I t b0 (x_list n o') (Some (n, set_slots (<[Z.to_nat i := Some x]> (b_data bn)) bn)) lim σ → rg crely prely (k tt) Q σ) →
  rg crely prely (slot_new n i x ≫= k) Q σ.
Proof.
  intros HP Hi Ho H. eapply (p_xput _ _ _ _ o o' _ (set_slots (<[Z.to_nat i := Some x]> (b_data bn)) bn)); [exact HP|done| | |exact H]; [by destruct o, o'|]. intros s Hb. rewrite Hb. unfold check. by rewrite Hi.
Qed.

Lemma f_ext_snoc (e : Z * list T) F G : f_ext (e :: F) (e :: F ++ G).
Proof. revert e. induction F as [|e' F IH]; intros e; [|by apply fe_cons]. destruct e as [p xs]. rewrite <- (app_nil_r xs) at 2. apply fe_last. Qed.

(** The producer goes to the block it has written to. *)
Lemma p_enter {C} I t b0 n x bn lim (k : unit → qth C) Q σ : PA I t b0 [(n, [x])] (Some (n, bn)) lim σ → Z.of_nat lim.1 = b_mask b0 →
  (∀ σ, PI (I ++ [x]) σ → rg crely prely (k tt) Q σ) → rg crely prely (modify (put_tail n) ≫= k) Q σ.
Proof.
  intros HP Hlim H. eapply p_write; [exact HP|]. clear σ HP. intros s g [Hi HI Ht (D & HR) (b & Hb & _ & _ & Em & _) _ _ _ Hex _ Hout Hcap Hdm]. cbn in *.
  set (g' := Gh (g_F g ++ [(n, [x])]) (empties D) (g_in g ++ [x]) (g_out g) (g_hole g) (g_cap g)).
  assert (g_L g' = g_L g) as EL by (unfold g_L; cbn; rewrite HR, <- app_assoc; done).
  assert (inv (put_tail n s, g')) as Hi'.
  { destruct (front_split _ Hi) as (xs & F & EF). pose proof (tail_split _ Hi) as (F2 & xs2 & EF2).
    destruct Hi as [Hbl Hlk Hnd Hf Hla Hm Hh Hne Hlg Hsz Hfl Hcp Hhi Hds]. split; cbn in *; rewrite ?EL; try done.
    - by rewrite EF.
    - by rewrite fmap_app, last_app.
    - rewrite EF in *. cbn. apply Forall_app. by split; [|constructor].
    - intros p (y & ys & G & ->)%Hh. by eexists _, _, _.
    - rewrite EF in *. cbn in *. rewrite removelast_last. destruct F as [|[p' ys] F _] using rev_ind; [done|].
      rewrite app_comm_cons in EF2. apply app_inj_tail in EF2 as [_ [= -> ->]]. rewrite removelast_last in Hfl. apply Forall_app. split; [done|].
      constructor; [|done]. unfold full, msk. cbn. rewrite Ht, Hb. cbn. rewrite Em, <- Hlim, (Hex xs2); [done|]. rewrite Ht. set_solver.
    - rewrite Hhi, fmap_app, concat_app, <- app_assoc. done.
    - rewrite Hds. unfold in_hole. cbn. by rewrite EF. }
  exists tt, (put_tail n s), g'. split; [done|]. split; [|eapply H].
  - destruct (front_split _ Hi) as (xs & F & EF). split; cbn; try done; [by eexists|cbn in EF; rewrite EF; apply f_ext_snoc|intros p d _ Hd; by exists d].
  - split; try done; [cbn; by rewrite HI|by exists D|]. intros p c Hc. cbn [fst snd] in *. rewrite EL. by destruct (Hdm p c Hc) as [|[? _]].
Qed.

(** *** A new block *)

Lemma p_largest {C} I t b0 lim (k : Z → qth C) Q σ : PA I t b0 [] None lim σ →
  (∀ m σ, PA I t b0 [] None (lim.1, Some (2 ^ m)) σ → 1 ≤ m ≤ 62 → rg crely prely (k (2 ^ m)) Q σ) → rg crely prely (gets q_largest ≫= k) Q σ.
Proof.
  intros HP H. eapply p_read; [exact HP|]. clear σ HP. intros σ HP. destruct (iv_largest _ (pa_inv _ _ _ _ _ _ _ HP)) as (m & Hm & E).
  eexists. split; [done|]. rewrite E. apply H; [|done]. destruct HP. split; try done. cbn. by intros v [= <-].
Qed.

Definition new_block (capacity : Z) : block T := Block 0 0 0 0 0 (u64 (capacity - 1)) (replicate (Z.to_nat capacity) None).

Lemma p_make_block {C} I t b0 lim c v (k : Z → qth C) Q σ : PA I t b0 [] None lim σ → lim.2 = Some v → 0 < v ≤ c → c < 2 ^ 64 →
  (∀ n σ, PA I t b0 [] (Some (n, new_block c)) lim σ → rg crely prely (k n) Q σ) → rg crely prely (make_block c ≫= k) Q σ.
Proof.
  intros HP Hv Hc Hc64 H. eapply p_write; [exact HP|]. clear σ HP. intros s g [Hi HI Ht HR (b & Hb & Hp) Hl _ _ Hex Hlg Hout Hcap Hdm]. cbn in *.
  set (s' := Queue (<[q_new s := new_block c]> (q_blocks s)) (q_front s) (q_tail s) (q_largest s) (q_new s + 1) (q_destroyed s)).
  assert (∀ p, p ∈ (g_L g).*1 → p < q_new s) as Hlt by (apply Forall_forall, (iv_new _ Hi)).
  assert (t ∈ (g_L g).*1) as HtL by (destruct (tail_split _ Hi) as (F & ys & EF); unfold g_L; cbn in *; rewrite EF, !fmap_app, Ht; set_solver).
  assert (∀ p, p ∈ (g_L g).*1 → msk (q_blocks s') p = msk (q_blocks s) p) as Hmsk.
  { intros p Hp'%Hlt. unfold msk. cbn. by rewrite lookup_insert_ne by lia. }
  assert (inv (s', g)) as Hi'.
  { destruct Hi as [Hbl Hlk Hnd Hf Hla Hm Hh Hne Hlgt Hsz Hfl Hcp Hhi Hds]. split; cbn in *; try done.
    - eapply blk_frame, Hbl. intros p Hp'%Hlt. rewrite lookup_insert_ne by lia. done.
    - eapply links_ext, Hlk. intros p Hp'%Hlt. unfold nx. by rewrite lookup_insert_ne by lia.
    - apply Forall_forall. intros p Hp'%Hlt. lia.
    - eapply sizes_ext, Hsz. intros p Hp'. by apply Hmsk.
    - eapply full_ext, Hfl. intros p (e & -> & He%mid_in)%list_elem_of_fmap. apply Hmsk. apply list_elem_of_fmap. exists e. split; [done|]. by apply elem_of_app; left.
    - eapply cap_ext, Hcp. intros p Hp'. by apply Hmsk. }
  assert (q_new s ≠ t) as Hnt by (apply Hlt in HtL; lia).
  exists (q_new s), s', g. split; [done|]. split; [|eapply H].
  - split; cbn; try done. intros p c' Hp' Hc'. assert (p ∈ (g_L g).*1) as HpL%Hlt by (unfold g_L; rewrite fmap_app; set_solver).
    rewrite lookup_insert_ne by lia. by exists c'.
  - split; try done; cbn.
    + exists b. by rewrite lookup_insert_ne.
    + intros n c' [= <- <-]. rewrite lookup_insert_eq. assert (q_new s ∉ (g_L g).*1) as HnL by (intros Hin%Hlt; lia).
      split_and!; try done; [|lia]. unfold g_L in HnL. rewrite fmap_app in HnL. set_solver.
    + intros n c' [= <- <-] _ p Hp'. specialize (Hmsk p Hp'). cbn in Hmsk. rewrite Hmsk. cbn. rewrite wrapu_small by lia.
      pose proof (iv_sizes _ Hi) as Hsz. rewrite Forall_forall in Hsz. specialize (Hsz p Hp'). cbn in Hsz. rewrite (Hlg _ Hv) in Hsz. lia.
    + intros p d Hd. destruct (decide (p = q_new s)) as [->|Hne]; [right; by eauto|]. rewrite lookup_insert_ne in Hd by done.
      destruct (Hdm _ _ Hd) as [|[_ [? ?]]]; [by left|done].
Qed.

Lemma p_put_largest {C} I t b0 R0 xb lim v m (k : unit → qth C) Q σ : PA I t b0 R0 xb lim σ → lim.2 = Some v → v ≤ 2 ^ m → 1 ≤ m ≤ 62 →
  (∀ σ, PA I t b0 R0 xb (lim.1, Some (2 ^ m)) σ → rg crely prely (k tt) Q σ) → rg crely prely (modify (put_largest (2 ^ m)) ≫= k) Q σ.
Proof.
  intros HP Hv Hle Hm H. eapply p_write; [exact HP|]. clear σ HP. intros s g [Hi HI Ht HR Hb Hl Hx Hnw Hex Hlg Hout Hcap Hdm]. cbn in *.
  assert (inv (put_largest (2 ^ m) s, g)) as Hi'.
  { pose proof (iv_sizes _ Hi) as Hsz. cbn in Hsz. rewrite (Hlg _ Hv) in Hsz. destruct Hi. split; try done; [by exists m|].
    eapply Forall_impl; [exact Hsz|]. cbn. intros p Hp. lia. }
  exists tt, (put_largest (2 ^ m) s), g. split; [done|]. split; [|apply H]; split; try done; [intros p c _ Hc; by exists c|]. cbn. by intros ? [= <-].
Qed.

(** The new block comes after the tail block. *)
Lemma p_link {C} I t b0 n xs bn lim v (k : unit → qth C) Q σ : PA I t b0 [] (Some (n, bn)) lim σ → block_ok false bn xs → b_next bn = b_next b0 →
  lim.2 = Some v → b_mask bn < v →
  (∀ b σ, b_mask b = b_mask b0 → PA I t b [(n, xs)] (Some (n, bn)) lim σ → rg crely prely (k tt) Q σ) → rg crely prely (stb t (set_next n) ≫= k) Q σ.
Proof.
  intros HP Hok Hnext Hv Hbv H. eapply p_write; [exact HP|]. clear σ HP. intros s g HP.
  destruct (PA_block _ _ _ _ _ _ _ HP) as (b & F & ys & hole & kk & lf & ff & lt & tl & Hb & (_ & _ & Em & En & _) & EF & Hys & -> & _ & Hr).
  destruct HP as [Hi HI Ht (D & HR) _ Hl Hx Hnw Hex Hlg Hout Hcap Hdm]. destruct (Hx _ _ eq_refl) as (HnF & Hbn & Hnew & HnL). specialize (HnL eq_refl). cbn in *.
  set (s' := put_blocks (<[t := set_next n b]> (q_blocks s)) s). set (g' := Gh (g_F g) ((n, xs) :: g_R g) (g_in g) (g_out g) (g_hole g) (g_cap g)).
  assert (g_L g' ≡ₚ (n, xs) :: g_L g) as Hperm by (unfold g_L; cbn; symmetry; apply Permutation_middle).
  assert (n ≠ t) as Hnt by (intros ->; apply HnF; rewrite EF, fmap_app; set_solver).
  assert (q_blocks s' !! n = Some bn) as Hbn' by (cbn; by rewrite lookup_insert_ne by done).
  assert (inv (s', g')) as Hi'.
  { assert (∀ p, msk (q_blocks s') p = msk (q_blocks s) p) as Hmsk by (intros p; by eapply msk_put).
    assert (msk (q_blocks s) n = b_mask bn) as Hmn by (unfold msk; by rewrite Hbn).
    pose proof Hi as [Hbl Hlk Hnd Hf Hla Hm Hh Hne Hlgt Hsz Hfl Hcp Hhi Hds]. split; try done; cbn [fst snd].
    - rewrite Hperm. constructor.
      + exists bn. split; [done|]. cbn. rewrite bool_decide_false; [done|]. intros E. destruct (Hh _ E) as (y & zs & G & EG). cbn in EG.
        apply HnF. rewrite EG. left.
      + cbn in *. unfold g_L in *. rewrite EF, <- app_assoc in *. eapply blks_upd; try done. exists kk, lf, ff, lt, tl. by destruct Hr.
    - cbn in *. unfold g_L in *. cbn. rewrite EF in *. rewrite !fmap_app, <- !app_assoc in *. cbn in *. apply links_app in Hlk as [Hlk1 [Hlk2 Hlk3]].
      apply NoDup_app in Hnd as (_ & Hnd1 & [Hnd2 _]%NoDup_cons). apply links_app. split; [|cbn; split; [|split]].
      + eapply links_ext, Hlk1. intros p Hp. unfold nx. rewrite lookup_insert_ne; [done|]. intros <-. apply (Hnd1 t Hp). left.
      + unfold nx. by rewrite lookup_insert_eq.
      + unfold nx in *. rewrite lookup_insert_ne, Hbn by done. rewrite Hb in Hlk2. cbn in *. congruence.
      + eapply links_ext, Hlk3. intros p Hp. unfold nx. rewrite lookup_insert_ne; [done|]. by intros <-.
    - rewrite Hperm. by constructor.
    - rewrite Hperm. by constructor.
    - rewrite Hperm. eapply (sizes_ext (q_blocks s)); [by intros p _|]. constructor; [|done]. cbn. rewrite Hmn. cbn in *. rewrite (Hlg _ Hv). done.
    - eapply full_ext, Hfl. by intros p _.
    - rewrite Hperm. eapply (cap_ext (q_blocks s)); [by intros p _|]. apply cap_add; try done.
      + unfold g_L. cbn. rewrite EF. by destruct F.
      + intros p Hp. split; [|cbn; rewrite Hmn; by eapply Hnw]. apply list_elem_of_fmap in Hp as ([p' zs] & -> & Hp).
        destruct (blk_get _ _ _ _ _ Hbl Hp) as (c & Hc & k' & lf' & f' & lt' & t' & Hr'). cbn in *. unfold msk. rewrite Hc. cbn.
        rewrite (br_mask _ _ _ _ _ _ _ _ Hr'). assert (0 < 2 ^ k'); [|lia]. apply Z.pow_pos_nonneg; [lia|]. pose proof (br_k _ _ _ _ _ _ _ _ Hr'). lia. }
  exists tt, s', g'. split; [by rewrite Hb|]. split; [|apply (H (set_next n b)); [exact Em|]].
  - eapply prely_store; try done. 
  - split; try done; cbn.
    + by exists D; rewrite HR.
    + exists (set_next n b). rewrite lookup_insert_eq. by repeat split.
    + intros zs. rewrite Hperm. intros [[= <- _]|Hz]%elem_of_cons; [done|by apply Hl].
    + intros n' c [= <- <-]. by rewrite lookup_insert_ne by done.
    + intros p c Hc. left. rewrite Hperm. cbn. destruct (decide (p = t)) as [->|Hne].
      * right. unfold g_L. rewrite EF, !fmap_app. set_solver.
      * rewrite lookup_insert_ne in Hc by done. destruct (Hdm _ _ Hc) as [|[_ [? [= -> _]]]]; [by right|left].
Qed.

(** What a call of [inner_enqueue] leaves. *)
Definition Qp (canAlloc : bool) (I : list T) (x : T) (r : bool) (σ : queue T * ghost T) : Prop :=
  (r = false → canAlloc = false ∧ N ≤ zlen I - zlen O0) ∧ PI (if r then I ++ [x] else I) σ.

Lemma rg_ret_true canAlloc I x σ : PI (I ++ [x]) σ → rg crely prely (mret true) (Qp canAlloc I x) σ.
Proof. intros HP. eapply rg_ret; [exact HP|by apply PI_stable|]. by split. Qed.

(** There is room in the tail block. *)
Lemma rg_enqueue_here canAlloc I t b0 lim x σ : PA I t b0 [] None lim σ → Z.land (u64 (b_tail b0 + 1)) (b_mask b0) ≠ b_localFront b0 →
  rg crely prely (slot_new t (b_tail b0) x;; stb t (set_tail (Z.land (u64 (b_tail b0 + 1)) (b_mask b0)));; mret true) (Qp canAlloc I x) σ.
Proof.
  intros HP Hroom. eapply p_slot_new; [exact HP|exact Hroom|]. clear σ HP. intros b σ HP Et Em El Hx.
  rewrite <- Et, <- Em, <- El in Hroom. rewrite <- Et, <- Em. eapply p_push; [exact HP|exact Hroom|exact Hx|].
  clear σ HP. intros σ HP. by apply rg_ret_true.
Qed.

(** The block after the tail block is free. *)
Lemma rg_enqueue_next canAlloc I t b0 n bn lim x σ : PA I t b0 [(n, [])] (Some (n, bn)) lim σ → block_ok false bn [] →
  Z.of_nat lim.1 = b_mask b0 → rg crely prely (
    nextBlockFront ← ldb n b_front;
    stb n (set_localFront nextBlockFront);;
    nextBlockTail ← ldb n b_tail;
    assert_ (nextBlockFront =? nextBlockTail);;
    stb n (set_localFront nextBlockFront);;
    slot_new n nextBlockTail x;;
    sizeMask ← ldb n b_mask;
    stb n (set_tail (Z.land (u64 (nextBlockTail + 1)) sizeMask));;
    modify (put_tail n);;
    mret true) (Qp canAlloc I x) σ.
Proof.
  intros HP (k & lf & f & lt & t' & Hr) Hlim. eapply p_xldb; [exact HP|]. clear σ HP. intros σ HP.
  assert (b_front bn = b_tail bn) as E by (by apply (br_empty Hr)).
  destruct (rep_front_seen Hr) as [Ef Hk]. rewrite Ef. set (v := (b_tail bn - zlen (@nil T)) `mod` (b_mask bn + 1)).
  pose proof (rep_localFront Hr 0%Z ltac:(cbn in *; lia)) as Hr1. change (b_tail bn - 0) with (b_tail bn - zlen (@nil T)) in Hr1. fold v in Hr1.
  eapply (p_xstb _ _ _ _ (Some []) (Some [])); [exact HP|done|split; [by eexists _, _, _, _, _|done]|]. clear σ HP. intros σ HP.
  eapply p_xldb; [exact HP|]. clear σ HP. intros σ HP. cbn [b_tail set_localFront].
  eapply p_read; [exact HP|]. clear σ HP. intros σ HP. exists tt. unfold v at 1. rewrite <- Ef, E, Z.eqb_refl. split; [done|].
  eapply (p_xstb _ _ _ _ (Some []) (Some [])); [exact HP|done|split; [by eexists _, _, _, _, _|done]|]. clear σ HP. intros σ HP.
  set (b1 := set_localFront v bn) in *.
  assert (t' + 1 - (t' - 0) < 2 ^ k) as Hroom by (pose proof (br_k _ _ _ _ _ _ _ _ Hr); assert (2 ≤ 2 ^ k) by (apply (Z.pow_le_mono_r 2 1); lia); lia).
  pose proof (br_tail_range Hr1) as Hir. pose proof (rep_new Hr1 x Hroom) as Hr2.
  eapply (p_xnew _ _ _ _ (Some []) (Some []) b1); [exact HP|exact Hir|by eexists _, _, _, _, _|]. clear σ HP. intros σ HP.
  eapply p_xldb; [exact HP|]. clear σ HP. intros σ HP.
  eapply (p_xstb _ _ _ _ (Some []) (Some [x])); [exact HP|done| |].
  { split; [|done]. eexists _, _, _, _, _. eapply (rep_push Hr2 x Hroom); [|done]. cbn. apply list_lookup_insert_eq.
    unfold in_range in Hir. rewrite !andb_true_iff, !Z.leb_le in Hir. cbn in Hir. lia. }
  clear σ HP. intros σ HP. eapply p_enter; [exact HP|exact Hlim|]. clear σ HP. intros σ HP. by apply rg_ret_true.
Qed.

(** A block with one element. *)
Lemma new_block_ok m x z : 1 ≤ m ≤ 62 →
  block_ok false (set_next z (set_tail 1 (set_localTail 1 (set_slots (<[Z.to_nat 0 := Some x]> (b_data (new_block (2 ^ m)))) (new_block (2 ^ m)))))) [x].
Proof.
  intros Hm. assert (2 ≤ 2 ^ m ≤ 2 ^ 62) as Hp by (split; [apply (Z.pow_le_mono_r 2 1)|apply Z.pow_le_mono_r]; lia).
  assert (0 < Z.to_nat (2 ^ m))%nat by lia. exists m, 0, 0, 1, 1. split; cbn; try done; try lia.
  - rewrite wrapu_small by lia. done.
  - rewrite length_insert, length_replicate. lia.
  - by rewrite Z.mod_small by lia.
  - by rewrite Z.mod_small by lia.
  - intros i y [-> ->]%list_lookup_singleton_Some. rewrite Z.mod_small by lia. cbn. apply list_lookup_insert_eq. by rewrite length_replicate.
Qed.
Lemma next_size m : 1 ≤ m ≤ 62 → ∃ m', 1 ≤ m' ≤ 62 ∧ 2 ^ m ≤ 2 ^ m' ∧ (if MAX_BLOCK_SIZE <=? 2 ^ m then 2 ^ m else u64 (2 ^ m * 2)) = 2 ^ m'.
Proof.
  intros Hm. unfold MAX_BLOCK_SIZE. destruct (Z.leb_spec 512 (2 ^ m)); [by exists m|].
  assert (m < 9). { destruct (decide (m < 9)); [done|]. assert (2 ^ 9 ≤ 2 ^ m) by (apply Z.pow_le_mono_r; lia). lia. }
  exists (m + 1). split; [lia|]. rewrite wrapu_small by lia. rewrite Z.pow_add_r by lia. split; [lia|done].
Qed.

(** A new block. *)
Lemma rg_enqueue_new canAlloc I t b0 lim x σ : PA I t b0 [] None lim σ → Z.of_nat lim.1 = b_mask b0 →
  rg crely prely (
    largestBlockSize ← gets q_largest;
    let newBlockSize := if MAX_BLOCK_SIZE <=? largestBlockSize then largestBlockSize else u64 (largestBlockSize * 2) in
    newBlock ← make_block newBlockSize;
    modify (put_largest newBlockSize);;
    slot_new newBlock 0 x;;
    front ← ldb newBlock b_front;
    assert_ (front =? 0);;
    stb newBlock (set_localTail 1);;
    stb newBlock (set_tail 1);;
    next ← ldb t b_next;
    stb newBlock (set_next next);;
    stb t (set_next newBlock);;
    modify (put_tail newBlock);;
    mret true) (Qp canAlloc I x) σ.
Proof.
  intros HP Hlim. eapply p_largest; [exact HP|]. clear σ HP. intros m0 σ HP Hm0. cbv zeta.
  destruct (next_size m0 Hm0) as (m & Hm & Hle & ->). assert (0 < 2 ^ m0) by (apply Z.pow_pos_nonneg; lia).
  assert (2 ^ m ≤ 2 ^ 62) by (apply Z.pow_le_mono_r; lia). assert (b_mask (new_block (2 ^ m)) = 2 ^ m - 1) as Emask by (cbn; rewrite wrapu_small by lia; done).
  eapply p_make_block; [exact HP|done|lia|lia|]. clear σ HP. intros n σ HP.
  eapply p_put_largest; [exact HP|done|done|exact Hm|]. clear σ HP. intros σ HP. cbn [fst] in HP.
  eapply (p_xnew _ _ _ _ None None); [exact HP| |done|].
  { unfold in_range. rewrite !andb_true_iff, !Z.leb_le. cbn [b_data new_block]. rewrite length_replicate. assert (0 < 2 ^ m) by (apply Z.pow_pos_nonneg; lia). lia. }
  clear σ HP. intros σ HP. eapply p_xldb; [exact HP|]. clear σ HP. intros σ HP.
  eapply p_read; [exact HP|]. clear σ HP. intros σ HP. exists tt. split; [done|].
  eapply (p_xstb _ _ _ _ None None); [exact HP|done|done|]. clear σ HP. intros σ HP.
  eapply (p_xstb _ _ _ _ None None); [exact HP|done|done|]. clear σ HP. intros σ HP.
  eapply p_ldb; [exact HP|by intros b (_ & _ & _ & -> & _)|]. clear σ HP. intros σ HP.
  eapply (p_xstb _ _ _ _ None None); [exact HP|done|done|]. clear σ HP. intros σ HP.
  eapply p_link; [exact HP|by apply new_block_ok|done|done|change (b_mask (new_block (2 ^ m)) < 2 ^ m); lia|]. clear σ HP. intros b σ Em HP.
  rewrite <- Em in Hlim.
  eapply p_enter; [exact HP|exact Hlim|]. clear σ HP. intros σ HP. by apply rg_ret_true.
Qed.

(** [inner_enqueue], while the consumer does what it may. *)
Lemma rg_inner_enqueue canAlloc I x σ : PI I σ → rg crely prely (inner_enqueue canAlloc x) (Qp canAlloc I x) σ.
Proof.
  intros HP. apply (rg_step _ _ (PI I)); [done|by apply PI_stable|]. clear σ HP. intros [s g] [Hi HI HR Hout Hcap Hdm].
  exists (q_tail s), s, g. split; [done|]. split; [apply prely_refl|].
  destruct (tail_split _ Hi) as (F & xs & EF). cbn in EF.
  assert ((q_tail s, xs) ∈ g_L g) as Hin by (unfold g_L; rewrite EF; set_solver).
  destruct (blk_get _ _ _ _ _ (iv_block _ Hi) Hin) as (b0 & Hb0 & _). cbn in Hb0.
  assert (∀ ys, (q_tail s, ys) ∈ g_L g → ys = xs) as Hu by (intros ys Hys; eapply ids_unique; [apply (iv_nodup _ Hi)|exact Hys|exact Hin]).
  assert (PA I (q_tail s) b0 [] None (length xs, None) (s, g)) as HP.
  { split; try done; [by exists b0|by intros ys ->%Hu| |by intros p c Hc; left; eapply Hdm]. cbn. intros ys Hys. rewrite (Hu ys); [done|]. apply elem_of_app. left.
    destruct (g_F g); [done|by right]. }
  revert HP. generalize (s, g), (q_tail s), (length xs, @None Z). clear. intros σ t lim HP.
  eapply p_ldb; [exact HP|by intros b (_ & -> & _)|]. clear σ HP. intros σ HP.
  eapply p_ldb; [exact HP|by intros b (-> & _)|]. clear σ HP. intros σ HP.
  eapply p_ldb; [exact HP|by intros b (_ & _ & -> & _)|]. clear σ HP. intros σ HP. cbv zeta.
  destruct (Z.land (u64 (b_tail b0 + 1)) (b_mask b0) =? b_localFront b0) eqn:E0; cbn [negb].
  2: { eapply rg_enqueue_here; [exact HP|by apply Z.eqb_neq]. }
  apply rg_assoc. eapply p_front; [exact HP|]. clear σ HP. intros v n σ HP Hv Hn.
  apply rg_assoc. eapply p_localFront; [exact HP|exact Hv|]. clear σ HP. intros b σ HP (Et & _ & Em & En & _). cbn [mbind thread_bind].
  destruct (Z.land (u64 (b_tail b0 + 1)) (b_mask b0) =? v) eqn:E1; cbn [negb].
  2: { rewrite <- Et, <- Em. eapply (rg_enqueue_here _ _ _ (set_localFront v b)); [exact HP|]. cbn. rewrite Et, Em. by apply Z.eqb_neq. }
  assert (Z.of_nat n = b_mask (set_localFront v b)) as Hfull by (cbn; rewrite Em; by apply Hv, Z.eqb_eq).
  eapply p_ldb; [exact HP|by intros b' (_ & _ & _ & -> & _)|]. clear σ HP. intros σ HP.
  eapply p_frontBlock; [exact HP|]. clear σ HP. intros fr σ HP Hfr HN.
  destruct (b_next (set_localFront v b) =? fr) eqn:E2; cbn [negb].
  - destruct canAlloc; [by eapply rg_enqueue_new|]. apply Z.eqb_eq in E2. specialize (HN (eq_sym E2) Hfull Hn).
    eapply rg_ret; [exact HP|by apply PA_stable|]. intros σ' [Hi HI _ HR _ _ _ _ _ _ Hout Hcap Hdm]. split; [done|]. split; try done.
    intros p c Hc. by destruct (Hdm _ _ Hc) as [|[_ [? ?]]].
  - apply Z.eqb_neq in E2. destruct Hfr as (bn & HP' & Hok); [congruence|]. clear HP.
    eapply p_ldb; [exact HP'|by intros b' (_ & _ & _ & -> & _)|]. clear σ HP'. intros σ HP. by eapply rg_enqueue_next.
Qed.
End producer.
End queue.
