(* ===== verification/SpscSpec.v ===== *)
(** * The lock-free queue: results

    The constructor makes an empty queue that takes as many elements as it was asked for;
    alone, the methods are those of a list; a thread that enqueues and one that dequeues, in
    any interleaving of their accesses, exchange the elements in order and finish after at
    most twenty accesses for each call. *)

From stdpp Require Import gmap.
From S2P Require Import Prelude BipSearch Threads SpscQueue SpscInv SpscThreads.

#[local] Open Scope list_scope.
#[local] Open Scope Z_scope.

Section queue.
Context {T : Type}.
#[local] Abbreviation qth := (thread (queue T)).

(** ** Results *)

(** The queue between calls, with the elements [c]; it can hold [n]. *)
Definition queue_ok (n : Z) (q : queue T) (c : list T) : Prop :=
  ∃ g, inv (q, g) ∧ g_hole g = None ∧ (∃ D, g_R g = empties D) ∧ concat (g_F g).*2 = c ∧ g_cap g = n ∧
    ∀ p b, q_blocks q !! p = Some b → p ∈ (g_L g).*1.

Lemma destroyed_out q (g : ghost T) : inv (q, g) → g_hole g = None → q_destroyed q = g_out g.
Proof. intros Hi Hh. pose proof (iv_destroyed _ Hi) as E. unfold in_hole in E. cbn in E. by rewrite Hh, app_nil_r in E. Qed.

(** *** Alone *)

Lemma enqueue_ok canAlloc n q c x : queue_ok n q c →
  ∃ r q', run (inner_enqueue canAlloc x) q = Ok (r, q') ∧ (r = false → canAlloc = false ∧ n ≤ zlen c) ∧
    queue_ok n q' (if r then c ++ [x] else c) ∧ q_destroyed q' = q_destroyed q.
Proof.
  intros (g & Hi & Hh & HR & <- & <- & Hd).
  destruct (rg_run crely prely (inner_enqueue canAlloc x) (Qp (g_cap g) (g_out g) canAlloc (g_in g) x) q g) as (r & q' & g' & E & [Hr [Hi' HI' HR' _ _ Hd']] & Hg);
    [apply _..|by apply rg_inner_enqueue|].
  exists r, q'. split; [done|]. pose proof (iv_hist _ Hi) as E1. pose proof (iv_hist _ Hi') as E2. cbn in *.
  split. { intros Hf. destruct (Hr Hf) as [Hc Hn]. split; [done|]. rewrite E1, length_app in Hn. lia. }
  specialize (Hg Hi). destruct Hg as [_ _ Ho Hh' HC _ _ _]. cbn in *.
  split; [|by rewrite (destroyed_out _ _ Hi Hh), (destroyed_out _ g' Hi') by congruence].
  exists g'. split_and!; try done; [congruence|].
  rewrite Ho, HI' in E2. destruct r; rewrite E1 in E2; rewrite <- ?app_assoc in E2; by apply app_inv_head in E2.
Qed.

Lemma ok_intro q g I0 O c : CI I0 O (q, g) → (∃ D, g_R g = empties D) → (∀ p b, q_blocks q !! p = Some b → p ∈ (g_L g).*1) →
  g_in g = O ++ c → queue_ok (g_cap g) q c.
Proof.
  intros [Hi Ho Hh _] HR Hd E. exists g. split_and!; try done. pose proof (iv_hist _ Hi) as E'. cbn in *. rewrite E', Ho in E. by apply app_inv_head in E.
Qed.
(** A call of the consumer. *)
Lemma consumer_alone {A} (t : qth A) (Q : list T → list T → A → queue T * ghost T → Prop) n q c : queue_ok n q c →
  (∀ I0 O σ, CI I0 O σ → rg prely crely t (Q I0 O) σ) →
  ∃ a q' g', let O := q_destroyed q in run t q = Ok (a, q') ∧ Q (O ++ c) O a (q', g') ∧ g_in g' = O ++ c ∧ g_cap g' = n ∧ (∃ D, g_R g' = empties D) ∧
    ∀ p b, q_blocks q' !! p = Some b → p ∈ (g_L g').*1.
Proof.
  intros (g & Hi & Hh & (D & HR) & Ec & EC & Hdm) Ht. pose proof (iv_hist _ Hi) as E1. cbn in E1. rewrite Ec in E1.
  destruct (rg_run prely crely t (Q (g_in g) (g_out g)) q g) as (a & q' & g' & E & HQ & Hg); [apply _..|by apply Ht|].
  pose proof (Hg Hi) as Hc. destruct (Hg Hi) as [_ _ _ _ HI' _ HC _ (D' & _ & HR') _ _ _ Hd']. cbn in *. exists a, q', g'.
  rewrite (destroyed_out _ _ Hi Hh). rewrite E1 in *. split_and!; try done; [congruence|..].
  - exists (D ++ D'). by rewrite HR', HR, empties_app.
  - intros p b (b' & Hb)%Hd'. apply Hdm in Hb. by apply (cr_ids' _ _ Hc).
Qed.

(** It took an element, or had nothing to take. *)
Lemma consumer_took q g I0 O x c : CI I0 (O ++ [x]) (q, g) → (∃ D, g_R g = empties D) → (∀ p b, q_blocks q !! p = Some b → p ∈ (g_L g).*1) →
  g_in g = O ++ c → ∃ c', c = x :: c' ∧ queue_ok (g_cap g) q c' ∧ q_destroyed q = O ++ [x].
Proof.
  intros HC HR Hd HI. pose proof (iv_hist _ (ci_inv _ _ _ HC)) as E. pose proof (ci_out _ _ _ HC) as Ho. cbn in E, Ho.
  exists (concat (g_F g).*2). rewrite HI, Ho, <- app_assoc in E. pose proof (app_inv_head _ _ _ E) as Ec. split; [done|]. split.
  - eapply ok_intro; [exact HC|done|done|]. by rewrite HI, Ec, <- app_assoc.
  - rewrite (destroyed_out q g); [done|apply HC..].
Qed.
Lemma nothing_left (O c : list T) : O ++ c `prefix_of` O → c = [].
Proof. intros [k Hk]. rewrite <- app_assoc in Hk. rewrite <- (app_nil_r O) in Hk at 1. apply app_inv_head in Hk. by destruct c. Qed.

(** The elements that [n] calls take have been destroyed. *)
Lemma try_dequeue_ok n q c : queue_ok n q c →
  ∃ q', run try_dequeue q = Ok (head c, q') ∧ queue_ok n q' (tail c) ∧ q_destroyed q' = q_destroyed q ++ take 1 c.
Proof.
  intros Hq. destruct (consumer_alone _ _ _ _ _ Hq rg_try_dequeue) as (r & q' & g' & E & HQ & HI & <- & HR & Hd). exists q'. destruct r as [x|].
  - destruct (consumer_took _ _ _ _ _ _ HQ HR Hd HI) as (c' & -> & Hq' & Ed). done.
  - destruct HQ as [->%nothing_left HC]. split; [done|]. split; [by eapply ok_intro|].
    rewrite (destroyed_out q' g'); [|apply HC..]. rewrite app_nil_r. apply HC.
Qed.
Lemma pop_alone n q c : queue_ok n q c →
  ∃ q', run pop q = Ok (match c with [] => false | _ => true end, q') ∧ queue_ok n q' (tail c) ∧ q_destroyed q' = q_destroyed q ++ take 1 c.
Proof.
  intros Hq. destruct (consumer_alone _ _ _ _ _ Hq rg_pop) as (r & q' & g' & E & HQ & HI & <- & HR & Hd). exists q'. destruct r.
  - destruct HQ as (x & HQ). destruct (consumer_took _ _ _ _ _ _ HQ HR Hd HI) as (c' & -> & Hq' & Ed). done.
  - destruct HQ as [->%nothing_left HC]. split; [done|]. split; [by eapply ok_intro|].
    rewrite (destroyed_out q' g'); [|apply HC..]. rewrite app_nil_r. apply HC.
Qed.
(** What the pointer of [peek] points to. *)
Definition pointee (q : queue T) (r : Z * Z) : option T := b ← q_blocks q !! r.1; x ← b_data b !! Z.to_nat r.2; x.
Lemma peek_ok n q c : queue_ok n q c → ∃ r q', run peek q = Ok (r, q') ∧ r ≫= pointee q' = head c ∧ (r = None ↔ c = []) ∧ queue_ok n q' c ∧
    q_destroyed q' = q_destroyed q.
Proof.
  intros Hq. destruct (consumer_alone _ _ _ _ _ Hq rg_peek) as (r & q' & g' & E & [HC HQ] & HI & <- & HR & Hd). exists r, q'.
  split; [done|]. assert (queue_ok (g_cap g') q' c) by by eapply ok_intro.
  assert (q_destroyed q' = q_destroyed q) by (rewrite (destroyed_out q' g'); apply HC). destruct r as [[p i]|].
  - destruct HQ as (x & b & [k Hk] & Hb & Hx). cbn in *. rewrite HI, <- app_assoc in Hk. apply app_inv_head in Hk. subst c.
    split_and!; try done. unfold pointee. cbn. rewrite Hb. cbn. by rewrite Hx.
  - by apply nothing_left in HQ as ->.
Qed.

(** *** Together *)

(** All calls of one thread succeed: they may allocate, or there is room for all of [xs]. *)
Definition PQ (n : Z) (O0 I xs : list T) (bs : list bool) (σ : queue T * ghost T) : Prop := bs = replicate (length xs) true ∧ PI n O0 (I ++ xs) σ.
Lemma rg_enqueues canAlloc n O0 I xs σ : (canAlloc = true ∨ zlen I - zlen O0 + zlen xs ≤ n) → PI n O0 I σ →
  rg crely prely (calls (inner_enqueue canAlloc <$> xs)) (PQ n O0 I xs) σ.
Proof.
  revert I σ. induction xs as [|x xs IH]; intros I σ Hroom HP; cbn [fmap list_fmap calls].
  - eapply rg_ret; [exact HP|by apply PI_stable|]. intros σ' HP'. split; [done|]. by rewrite app_nil_r.
  - rewrite length_cons in Hroom. apply rg_bind; [apply _| |apply _]. eapply rg_mono; [by eapply rg_inner_enqueue|]. intros b σ1 [Hb HP1].
    destruct b; [|by destruct (Hb eq_refl) as [-> Hn]; destruct Hroom; [|lia]].
    apply rg_bind; [apply _| |apply _]. eapply rg_mono; [apply (IH (I ++ [x])); [rewrite length_app; change (length [x]) with 1%nat; destruct Hroom; [by left|right; lia]|exact HP1]|].
    intros bs σ2 [-> HP2]. rewrite <- app_assoc in HP2. eapply rg_ret; [exact HP2|by apply PI_stable|]. by split.
Qed.

(** The results of [n] calls, after [O] has been taken. *)
Record CQ (I0 O : list T) (n : nat) (rs : list (option T)) (σ : queue T * ghost T) : Prop := {
  cq_ok : CI I0 (O ++ omap id rs) σ;
  cq_length : length rs = n;
  cq_none j : rs !! j = Some None → I0 `prefix_of` O ++ omap id (take j rs)
}.
Lemma rg_dequeues I0 O n σ : CI I0 O σ → rg prely crely (calls (replicate n try_dequeue)) (CQ I0 O n) σ.
Proof.
  revert O σ. induction n as [|n IH]; intros O σ HP; cbn [replicate calls].
  - eapply rg_ret; [exact HP|by apply CI_stable|]. intros σ' HP'. split; try done. cbn. by rewrite app_nil_r.
  - apply rg_bind; [apply _| |apply _]. eapply rg_mono; [by apply rg_try_dequeue|]. intros r σ1 HQ.
    assert (CI I0 (O ++ omap id [r]) σ1) as HP1 by (destruct r; cbn; [done|rewrite app_nil_r; apply HQ]).
    apply rg_bind; [apply _| |apply _]. eapply rg_mono; [by apply IH|]. intros rs σ2 HP2.
    eapply rg_ret; [exact HP2|intros σ' σ'' [H1 H2 H3] HR; split; try done; by eapply CI_stable|].
    assert (∀ l, (O ++ omap id [r]) ++ omap id l = O ++ omap id (r :: l)) as Ecat by (intros l; rewrite <- app_assoc; by destruct r).
    intros σ' [H1 H2 H3]. split; [by rewrite <- Ecat|cbn; by rewrite H2|]. intros [|j]; cbn [lookup list_lookup].
    + intros [= ->]. rewrite app_nil_r. apply HQ.
    + intros Hj. cbn [take]. rewrite <- Ecat. by apply H3.
Qed.

Lemma within_enqueue canAlloc (x : T) : within 20 (inner_enqueue canAlloc x).
Proof. unfold inner_enqueue, ldb, stb, slot_new, assert_, make_block, gets, modify. within_tac. Qed.
Lemma within_try_dequeue : within 20 (try_dequeue : qth (option T)).
Proof. unfold try_dequeue, at_front, advance_to, dequeue_at, ldb, stb, slot_move, slot_destroy, assert_, gets, modify. within_tac. Qed.

(** One thread enqueues [xs], the other one calls [try_dequeue] [n] times, in any order of
    their accesses: no assertion fails, no slot is read or destroyed without an element. *)
Lemma spsc_both canAlloc k q c sched xs n : queue_ok k q c → (canAlloc = true ∨ zlen c + zlen xs ≤ k) →
  ∃ p d q', run_both sched (calls (inner_enqueue canAlloc <$> xs)) (calls (replicate n try_dequeue)) q = Ok (p, d, q') ∧
  (∀ bs, p = TRet bs → bs = replicate (length xs) true) ∧
  (∀ rs, d = TRet rs → length rs = n ∧ omap id rs `prefix_of` c ++ xs ∧ ∀ j, rs !! j = Some None → c `prefix_of` omap id (take j rs)) ∧
  (∀ bs rs, p = TRet bs → d = TRet rs → ∃ c', queue_ok k q' c' ∧ c ++ xs = omap id rs ++ c').
Proof.
  intros (g & Hi & Hh & (D & HR) & Ec & EC & Hdm) Hroom. pose proof (iv_hist _ Hi) as E1. cbn in E1. rewrite Ec in E1.
  destruct (rg_interleave crely prely prely crely sched (calls (inner_enqueue canAlloc <$> xs)) (calls (replicate n try_dequeue))
    (PQ k (g_out g) (g_in g) xs) (CQ (g_in g) (g_out g) n) q g) as (p & d & q' & g' & E & Hp & Hd); try apply _; try done.
  { apply rg_enqueues; [|split; try done; by exists D]. rewrite E1, length_app. destruct Hroom; [by left|right; lia]. }
  { apply rg_dequeues. by split. }
  exists p, d, q'. split; [done|]. split_and!.
  - intros bs ->. by destruct (Hp _ (crely_refl _)) as [? _].
  - intros rs ->. destruct (Hd _ (prely_refl _)) as [[Hi' Ho Hh' Hin] Hl Hn]. split; [done|]. split.
    + destruct (rg_run crely prely p (PQ k (g_out g) (g_in g) xs) q' g') as (bs & q2 & g2 & _ & [_ [_ HI2 _ _ _ _]] & Hg); [apply _..|done|].
      destruct (Hg Hi') as [_ _ _ _ _ Hpre _ _]. pose proof (iv_hist _ Hi') as E2. cbn in *. rewrite HI2, E1, E2, Ho, <- !app_assoc in Hpre.
      apply prefix_app_inv in Hpre. destruct Hpre as [l Hl']. rewrite Hl', <- app_assoc. by eexists.
    + intros j Hj. apply Hn in Hj. rewrite E1 in Hj. by apply prefix_app_inv in Hj.
  - intros bs rs -> ->. destruct (Hd _ (prely_refl _)) as [HC _ _], (Hp _ (crely_refl _)) as [_ [_ HI' HR' _ HC' Hdm']]. cbn in *.
    pose proof HC as [Hi' Ho Hh' _]. cbn in *. pose proof (iv_hist _ Hi') as E2. cbn in E2.
    exists (concat (g_F g').*2). split; [by exists g'|]. rewrite HI', E1, Ho, <- !app_assoc in E2. by apply app_inv_head in E2.
Qed.

(** The calls of a producer that may or may not allocate, and the elements that were taken
    up. *)
Definition offer (o : bool * T) : qth bool := inner_enqueue o.1 o.2.
Fixpoint accepted (os : list (bool * T)) (bs : list bool) : list T :=
  match os, bs with
  | o :: os, b :: bs => (if b : bool then [o.2] else []) ++ accepted os bs
  | _, _ => []
  end.
Lemma rg_offers n O0 I os σ : PI n O0 I σ →
  rg crely prely (calls (offer <$> os)) (λ bs, PI n O0 (I ++ accepted os bs)) σ.
Proof.
  revert I σ. induction os as [|o os IH]; intros I σ HP; cbn [fmap list_fmap calls].
  - eapply rg_ret; [exact HP|by apply PI_stable|]. intros σ' HP'. cbn. by rewrite app_nil_r.
  - change (offer o) with (inner_enqueue o.1 o.2).
    apply rg_bind; [apply _| |apply _]. eapply rg_mono; [exact (rg_inner_enqueue n O0 o.1 I o.2 σ HP)|]. intros b σ1 [_ HP1].
    apply rg_bind; [apply _| |apply _]. eapply rg_mono; [by apply IH|]. intros bs σ2 HP2.
    eapply rg_ret; [exact HP2|by apply PI_stable|]. intros σ' HP'. cbn [accepted].
    destruct b; [by rewrite <- app_assoc in HP'|done].
Qed.
Lemma spsc_finishes k q c sched xs n : queue_ok k q c →
  (20 * length xs ≤ count_occ Bool.bool_dec sched true)%nat → (20 * n ≤ count_occ Bool.bool_dec sched false)%nat →
  ∃ bs rs q', run_both sched (calls (enqueue <$> xs)) (calls (replicate n try_dequeue)) q = Ok (TRet bs, TRet rs, q').
Proof.
  intros Hq Hx Hn. destruct (spsc_both true k q c sched xs n Hq (or_introl eq_refl)) as (p & d & q' & E & _). unfold enqueue.
  destruct (within_run (20 * length xs) (20 * n) sched (calls (inner_enqueue true <$> xs)) (calls (replicate n try_dequeue)) q p d q') as (bs & rs & -> & ->); try done.
  - rewrite Nat.mul_comm, <- (length_fmap (inner_enqueue true)). apply within_calls. intros t (x & -> & _)%list_elem_of_fmap. apply within_enqueue.
  - rewrite Nat.mul_comm. rewrite <- (length_replicate n (try_dequeue : qth (option T))) at 1. apply within_calls. intros t ->%elem_of_replicate_inv. apply within_try_dequeue.
  - by exists bs, rs, q'.
Qed.

(** *** The constructor *)

Lemma ceilToPow2_ok x : 2 ≤ x ≤ 2 ^ 62 → ∃ k, 1 ≤ k ≤ 62 ∧ ceilToPow2 x = 2 ^ k ∧ 2 ^ (k - 1) < x ≤ 2 ^ k.
Proof.
  intros Hx. exists (Z.log2 (x - 1) + 1). pose proof (Z.log2_nonneg (x - 1)). pose proof (Z.log2_spec (x - 1) ltac:(lia)) as [H1 H2].
  assert (Z.log2 (x - 1) < 62) by (apply Z.log2_lt_pow2; lia).
  assert (ceilToPow2 x = u64 (Z.ones (Z.log2 (x - 1) + 1) + 1)) as ->.
  { unfold ceilToPow2. rewrite (wrapu_small _ (x - 1)) by lia. f_equal. f_equal.
    assert (∀ y m, 0 ≤ y → 0 ≤ Z.lor y (Z.shiftr y m)) as Hpos by (intros; apply Z.lor_nonneg; split; [done|by apply Z.shiftr_nonneg]).
    apply (smeared_ones 64); [lia|repeat apply Hpos; lia|].
    apply (smeared_step _ 32); [lia|]. apply (smeared_step _ 16); [lia|]. apply (smeared_step _ 8); [lia|].
    apply (smeared_step _ 4); [lia|]. apply (smeared_step _ 2); [lia|]. apply (smeared_step _ 1); [lia|]. apply smeared_1. }
  rewrite Z.ones_equiv, <- Z.sub_1_r, Z.sub_add. assert (2 ^ (Z.log2 (x - 1) + 1) ≤ 2 ^ 62) by (apply Z.pow_le_mono_r; lia).
  assert (0 < 2 ^ (Z.log2 (x - 1) + 1)) by (apply Z.pow_pos_nonneg; lia).
  rewrite wrapu_small by lia. rewrite Z.add_simpl_r, <- Z.add_1_r in *. lia.
Qed.

Lemma twp_stb p f (Q : unit → queue T → Prop) q b : q_blocks q !! p = Some b → Q tt (put_blocks (<[p := f b]> (q_blocks q)) q) → twp (stb p f) Q q.
Proof. intros Hb HQ. eapply twp_act; [|exact HQ]. by rewrite Hb. Qed.
Lemma twp_ldb {B} p (f : block T → B) (Q : B → queue T → Prop) q b : q_blocks q !! p = Some b → Q (f b) q → twp (ldb p f) Q q.
Proof. intros Hb HQ. eapply twp_act; [|exact HQ]. by rewrite Hb. Qed.

(** Empty blocks of one size in a circle. *)
Record ring (q : queue T) (l : list Z) : Prop := {
  ri_block : Forall (λ p, blk_ok (q_blocks q) None (p, [])) l;
  ri_link : links (q_blocks q) l (hd 0 l);
  ri_nodup : NoDup l;
  ri_new : Forall (λ p, p < q_new q) l;
  ri_largest : ∃ k, 1 ≤ k ≤ 62 ∧ q_largest q = 2 ^ k;
  ri_mask : Forall (λ p, msk (q_blocks q) p = q_largest q - 1) l;
  ri_dom p b : q_blocks q !! p = Some b → p ∈ l;
  ri_destroyed : q_destroyed q = []
}.
Lemma new_mask k : 1 ≤ k ≤ 62 → u64 (2 ^ k - 1) = 2 ^ k - 1.
Proof. intros Hk. assert (2 ≤ 2 ^ k ≤ 2 ^ 62) by (split; [apply (Z.pow_le_mono_r 2 1)|apply Z.pow_le_mono_r]; lia). by rewrite wrapu_small by lia. Qed.
Lemma new_empty_ok k z : 1 ≤ k ≤ 62 → block_ok (T := T) false (set_next z (new_block (2 ^ k))) [].
Proof.
  intros Hk. assert (2 ≤ 2 ^ k ≤ 2 ^ 62) by (split; [apply (Z.pow_le_mono_r 2 1)|apply Z.pow_le_mono_r]; lia). exists k, 0, 0, 0, 0.
  split; cbn; try done; try lia; [rewrite wrapu_small by lia; done|rewrite length_replicate; lia].
Qed.

(** A block after the last one. *)
Definition add_block (q : queue T) (a : Z) (b : block T) (f : Z) : queue T :=
  let p := q_new q in let c := new_block (q_largest q) in
  Queue (<[p := set_next f c]> (<[a := set_next p b]> (<[p := c]> (q_blocks q)))) (q_front q) (q_tail q) (q_largest q) (p + 1) (q_destroyed q).
Lemma ring_add q l a b : ring q (l ++ [a]) → q_blocks q !! a = Some b → ring (add_block q a b (hd a l)) ((l ++ [a]) ++ [q_new q]).
Proof.
  intros [Hb Hl Hn Hw (k & Hk & Hlg) Hmk Hdm Hds] Ha. rewrite Forall_forall in Hw. set (p := q_new q) in *.
  assert (a ≠ p) as Hap by (specialize (Hw a ltac:(set_solver)); unfold p; lia).
  change (ring (Queue (<[p := set_next (hd a l) (new_block (q_largest q))]> (<[a := set_next p b]> (<[p := new_block (q_largest q)]> (q_blocks q))))
    (q_front q) (q_tail q) (q_largest q) (p + 1) (q_destroyed q)) ((l ++ [a]) ++ [p])).
  assert (hd 0 (l ++ [a]) = hd a l) as Ehd by (by destruct l).
  assert (∀ c, c ∈ l → c ≠ p ∧ c ≠ a) as Hc.
  { intros c Hc. split; [specialize (Hw c ltac:(set_solver)); unfold p; lia|]. intros ->. apply NoDup_app in Hn as (_ & Hn & _). apply (Hn a Hc). left. }
  split; cbn.
  - rewrite !Forall_app in *. destruct Hb as [Hb1 Hb2]. split; [split|].
    + apply Forall_forall. intros c Hcl. rewrite Forall_forall in Hb1. destruct (Hb1 c Hcl) as (d & Hd & Hok). exists d. cbn in *. destruct (Hc c Hcl). by rewrite !lookup_insert_ne by done.
    + constructor; [|done]. apply Forall_cons in Hb2 as [(d & Hd & Hok) _]. cbn in *. simplify_eq. exists (set_next p d). cbn.
      rewrite lookup_insert_ne, lookup_insert_eq by done. split; [done|]. destruct Hok as (k' & lf & f & lt & t & Hr). exists k', lf, f, lt, t. by destruct Hr.
    + constructor; [|done]. eexists. cbn. rewrite lookup_insert_eq. split; [done|]. rewrite Hlg. by apply new_empty_ok.
  - assert (hd 0 ((l ++ [a]) ++ [p]) = hd a l) as -> by (by destruct l). rewrite Ehd in Hl. apply links_app in Hl as [Hl1 [Hl2 _]].
    rewrite <- app_assoc. apply links_app. cbn. split; [|split; [|split; [|done]]].
    + eapply links_ext, Hl1. intros c Hcl. destruct (Hc c Hcl). unfold nx. by rewrite !lookup_insert_ne by done.
    + unfold nx. by rewrite lookup_insert_ne, lookup_insert_eq by done.
    + unfold nx. by rewrite lookup_insert_eq.
  - apply NoDup_app. split; [done|]. split; [|apply NoDup_singleton]. intros c Hcl ->%list_elem_of_singleton. specialize (Hw p Hcl). unfold p in Hw. lia.
  - apply Forall_forall. intros c [Hcl| ->%list_elem_of_singleton]%elem_of_app; [specialize (Hw c Hcl); lia|unfold p; lia].
  - by exists k.
  - rewrite !Forall_app in *. destruct Hmk as [Hm1 Hm2]. split; [split|].
    + apply Forall_forall. intros c Hcl. rewrite Forall_forall in Hm1. destruct (Hc c Hcl). unfold msk. rewrite !lookup_insert_ne by done. by apply Hm1.
    + constructor; [|done]. apply Forall_cons in Hm2 as [Hm2 _]. unfold msk in *. rewrite lookup_insert_ne, lookup_insert_eq by done.
      by rewrite Ha in Hm2.
    + constructor; [|done]. unfold msk. rewrite lookup_insert_eq. cbn. rewrite Hlg. by apply new_mask.
  - intros c d Hd. destruct (decide (c = p)) as [->|Hcp]; [set_solver|]. destruct (decide (c = a)) as [->|Hca]; [set_solver|].
    rewrite !lookup_insert_ne in Hd by done. apply Hdm in Hd. set_solver.
  - done.
Qed.

Lemma make_blocks_ok n q l a Q : ring q (l ++ [a]) →
  (∀ q' l', ring q' ((l ++ [a]) ++ l') → length l' = n → q_largest q' = q_largest q → Q (Some (hd a l)) q') → twp (make_blocks n (Some (hd a l)) a) Q q.
Proof.
  revert q l a. induction n as [|n IH]; intros q l a Hr HQ.
  - apply twp_ret, (HQ q []); [by rewrite app_nil_r|done..].
  - cbn [make_blocks]. pose proof Hr as [Hb _ _ Hw _ _ _ _]. rewrite Forall_app in Hb. destruct Hb as [_ (b & Ha & _)%Forall_singleton]. cbn in Ha.
    assert (a ≠ q_new q) as Hap. { rewrite Forall_forall in Hw. specialize (Hw a ltac:(set_solver)). lia. }
    apply twp_bind, twp_gets. apply twp_bind. eapply twp_act; [done|].
    apply twp_bind, twp_bind. eapply twp_stb; [cbn; by rewrite lookup_insert_ne|]. apply twp_ret.
    apply twp_bind. eapply twp_stb; [cbn; by rewrite lookup_insert_ne, lookup_insert_eq|].
    assert (hd (q_new q) (l ++ [a]) = hd a l) as Ehd by (by destruct l). rewrite <- Ehd.
    apply (IH (add_block q a b (hd (q_new q) (l ++ [a])))); [rewrite Ehd; by apply ring_add|]. intros q' l' Hr' Hlen Hlg'. rewrite Ehd. rewrite <- app_assoc in Hr'.
    eapply HQ; [exact Hr'|cbn; by rewrite Hlen|done].
Qed.

(** Fresh memory. *)
Definition no_queue : queue T := Queue ∅ 0 0 0 1 [].

Lemma total_const (m : gmap Z (block T)) v l : Forall (λ p, msk m p = v) l → total m l = zlen l * v.
Proof. unfold total. induction 1 as [|p l Hp Hl IH]; cbn [foldr length]; [done|]. rewrite IH, Hp. lia. Qed.
(** How many elements a circle of [k] more blocks takes. *)
Definition ring_cap (k : nat) (largest : Z) : Z := match k with O => largest - 1 | _ => Z.of_nat k * (largest - 1) end.
Lemma ring_ok n q f l : ring q (f :: l) → n ≤ ring_cap (length l) (q_largest q) → queue_ok n (put_tail f (put_front f q)) [].
Proof.
  intros [Hb Hl Hn Hw (k & Hk & Hlg) Hmk Hdm Hds] Hcap. exists (Gh [(f, [])] (empties l) [] [] None n).
  assert ((g_L (Gh (T := T) [(f, [])] (empties l) [] [] None n)).*1 = f :: l) as E by (unfold g_L; cbn; f_equal; apply ids_empties).
  split; [|split_and!; [done|by exists l|done|done|by rewrite E]].
  split; cbn [fst snd]; rewrite ?E; try done; [|by exists k|..].
  - unfold g_L. cbn. apply Forall_cons in Hb as [Hb Hbs]. constructor; [done|]. unfold empties. by apply Forall_fmap.
  - eapply Forall_impl; [exact Hmk|]. cbn. intros p ->. lia.
  - intros p l' Hp. cbn in *. rewrite Hp in Hmk. apply Forall_cons in Hmk as [Hmp Hml]. rewrite (total_const _ _ _ Hml), Hmp.
    apply Permutation_length in Hp. cbn in Hp. injection Hp as Hp. rewrite Hp in Hcap. by destruct l'.
Qed.

Lemma new_ring_dom (b1 b2 : block T) p b : (<[1 := b1]> (<[1 := b2]> (∅ : gmap Z (block T)))) !! p = Some b → p ∈ [1].
Proof. intros Hp. destruct (decide (p = 1)) as [->|Hne]; [left|]. by rewrite !lookup_insert_ne in Hp by done. Qed.

(** The queue can hold as many elements as it was made for. *)
Lemma ReaderWriterQueue_ok maxSize : 0 < maxSize < 2 ^ 62 → ∃ q, run (ReaderWriterQueue maxSize) no_queue = Ok (tt, q) ∧ queue_ok maxSize q [] ∧ q_destroyed q = [].
Proof.
  intros Hm. assert (twp (ReaderWriterQueue maxSize) (λ _ q, queue_ok maxSize q [] ∧ q_destroyed q = []) no_queue) as H.
  2: { unfold twp in H. destruct (run (ReaderWriterQueue maxSize) no_queue) as [[[] q]|]; [by exists q|done]. }
  unfold ReaderWriterQueue, assert_. destruct (ceilToPow2_ok (maxSize + 1)) as (k & Hk & Ek & Hle); [lia|].
  apply twp_bind. eapply twp_act; [by rewrite (proj2 (Z.ltb_lt 0 maxSize)) by lia|]. apply twp_bind. eapply twp_act; [reflexivity|].
  apply twp_bind. eapply twp_act; [reflexivity|]. rewrite (wrapu_small 64 (maxSize + 1)), Ek by lia.
  apply twp_bind, twp_modify, twp_bind, twp_gets, twp_bind. cbn [q_largest put_largest no_queue q_blocks].
  assert (∀ q f l, ring q (f :: l) → maxSize ≤ ring_cap (length l) (q_largest q) →
    twp (modify (put_front f);; modify (put_tail f)) (λ _ q, queue_ok maxSize q [] ∧ q_destroyed q = []) q) as Hend.
  { intros q f l Hr Hc. apply twp_bind, twp_modify, twp_modify. split; [by eapply ring_ok|apply Hr]. }
  destruct (MAX_BLOCK_SIZE * 2 <? 2 ^ k) eqn:Ebig.
  - (* several blocks *)
    apply twp_bind, twp_modify. unfold MAX_BLOCK_SIZE in *. apply Z.ltb_lt in Ebig.
    assert (1024 ≤ maxSize). { destruct (decide (maxSize + 1 ≤ 1024)); [|lia]. assert (2 ^ 10 ≤ 2 ^ (k - 1)); [|lia]. apply Z.pow_le_mono_r; [lia|].
      assert (10 < k); [|lia]. apply (Z.pow_lt_mono_r_iff 2); lia. }
    rewrite !wrapu_small by (rewrite ?wrapu_small by lia; lia). set (count := (maxSize + 512 * 2 - 3) `div` (512 - 1)).
    assert (2 ≤ count ∧ maxSize ≤ (count - 1) * 511) as [Hc Hcap] by (unfold count; Z.to_euclidean_division_equations; lia).
    destruct (Z.to_nat count) as [|n] eqn:En; [lia|]. cbn [make_blocks].
    apply twp_bind, twp_gets, twp_bind. eapply twp_act; [done|]. apply twp_bind, twp_ret, twp_bind. eapply twp_stb; [cbn; by rewrite lookup_insert_eq|].
    apply (make_blocks_ok _ _ [] 1).
    2: { intros q' l' Hr' Hlen Hlg'. apply (Hend q' 1 l' Hr'). rewrite Hlen, Hlg'. cbn. destruct n; [lia|]. unfold ring_cap. lia. }
    split; [|split; [unfold nx; cbn; by rewrite lookup_insert_eq|done]|apply NoDup_singleton|by repeat constructor|by exists 9| | |done].
    + constructor; [|done]. eexists. cbn. rewrite lookup_insert_eq. split; [done|]. by apply (new_empty_ok 9).
    + constructor; [|done]. unfold msk. cbn. by rewrite lookup_insert_eq.
    + apply new_ring_dom.
  - apply twp_bind. eapply twp_act; [done|]. apply twp_bind. eapply twp_stb; [cbn; by rewrite lookup_insert_eq|].
    apply twp_ret, (Hend _ 1 []); [|cbn; lia].
    split; [|split; [unfold nx; cbn; by rewrite lookup_insert_eq|done]|apply NoDup_singleton|by repeat constructor|by exists k| | |done].
    + constructor; [|done]. eexists. cbn. rewrite lookup_insert_eq. split; [done|]. by apply new_empty_ok.
    + constructor; [|done]. unfold msk. cbn. rewrite lookup_insert_eq. cbn. by apply new_mask.
    + apply new_ring_dom.
Qed.

(** *** The size, and the destructor *)

Lemma rep_count {hole} {b : block T} {xs k lf f lt t} : block_rep hole b xs k lf f lt t → Z.land (u64 (b_tail b - b_front b)) (b_mask b) = zlen xs.
Proof.
  intros [Hk -> Hd Hlf Hlt Hroom Hlen -> Hvlt -> Hvlf Hs]. unfold wrapu. assert (0 < 2 ^ k) by (apply Z.pow_pos_nonneg; lia).
  replace (2 ^ k - 1) with (Z.ones k) by (rewrite Z.ones_equiv; lia). rewrite Z.land_ones by lia.
  rewrite Z.mod_mod_divide by (exists (2 ^ (64 - k)); rewrite <- Z.pow_add_r by lia; f_equal; lia).
  rewrite <- Zminus_mod. rewrite Z.mod_small; lia.
Qed.
Lemma u64_add a b : u64 (u64 a + b) = u64 (a + b).
Proof. unfold wrapu. apply Zplus_mod_idemp_l. Qed.

Lemma size_loop_ok fuel q h fr p xs (L : list (Z * list T)) r : Forall (blk_ok (q_blocks q) h) ((p, xs) :: L) → links (q_blocks q) (p :: L.*1) fr →
  fr ∉ L.*1 → (length L < fuel)%nat → twp (size_loop fuel fr p r) (λ n q', q' = q ∧ n = u64 (r + zlen (xs ++ concat L.*2))) q.
Proof.
  revert p xs L r. induction fuel as [|fuel IH]; intros p xs L r HL Hl Hfr Hfuel; [lia|]. cbn [size_loop].
  pose proof HL as [(b & Hb & k & lf & f & lt & t & Hr) HL']%Forall_cons. cbn in Hb. destruct Hl as [Hn Hl].
  unfold nx in Hn. rewrite Hb in Hn. cbn in Hn.
  do 3 (apply twp_bind; eapply twp_ldb; [exact Hb|]). cbv zeta. rewrite (rep_count Hr). apply twp_bind; eapply twp_ldb; [exact Hb|]. rewrite Hn.
  destruct L as [|[p' ys] L]; cbn [fmap list_fmap hd fst snd concat].
  - rewrite Z.eqb_refl. cbn. by rewrite app_nil_r.
  - cbn in Hfr. rewrite (proj2 (Z.eqb_neq p' fr)) by set_solver. cbn [negb]. eapply twp_mono; [apply IH; [done|done|set_solver|cbn in *; lia]|].
    intros n q' [-> ->]. split; [done|]. rewrite u64_add, !length_app. f_equal. lia.
Qed.
Lemma concat_empties D : concat (empties (T := T) D).*2 = [].
Proof. by induction D. Qed.
(** The front block and those behind it, in a circle. *)
Lemma inv_ring q (g : ghost T) D : inv (q, g) → g_R g = empties D →
  ∃ xs L, g_L g = (q_front q, xs) :: L ∧ Forall (blk_ok (q_blocks q) (g_hole g)) ((q_front q, xs) :: L) ∧
    links (q_blocks q) (q_front q :: L.*1) (q_front q) ∧ NoDup (q_front q :: L.*1) ∧ concat (g_F g).*2 = xs ++ concat L.*2.
Proof.
  intros Hi HR. destruct (front_split _ Hi) as (xs & F & EF). destruct Hi as [Hb Hl Hn]. cbn in *. unfold g_L in *.
  rewrite EF, HR in *. exists xs, (F ++ empties D). split; [done|]. split; [exact Hb|]. split; [exact Hl|]. split; [exact Hn|].
  cbn. by rewrite fmap_app, concat_app, concat_empties, app_nil_r.
Qed.
Lemma queue_ok_ring n q c : queue_ok n q c → ∃ xs L, Forall (blk_ok (q_blocks q) None) ((q_front q, xs) :: L) ∧ links (q_blocks q) (q_front q :: L.*1) (q_front q) ∧
  NoDup (q_front q :: L.*1) ∧ c = xs ++ concat L.*2 ∧ ∀ p b, q_blocks q !! p = Some b → p ∈ q_front q :: L.*1.
Proof.
  intros (g & Hi & Hh & (D & HR) & <- & _ & Hdm). destruct (inv_ring q g D Hi HR) as (xs & L & EL & Hb & Hl & Hn & Ec).
  rewrite EL in Hdm. rewrite Hh in Hb. exists xs, L. by split_and!.
Qed.
Lemma ring_size (m : gmap Z (block T)) h (L : list (Z * list T)) : Forall (blk_ok m h) L → NoDup L.*1 → (length L ≤ size m)%nat.
Proof.
  intros HL Hn. rewrite <- (length_fmap fst), <- (size_list_to_set (C := gset Z)) by done. rewrite <- size_dom.
  apply subseteq_size. intros p. rewrite elem_of_list_to_set. intros (e & -> & He)%list_elem_of_fmap.
  rewrite Forall_forall in HL. destruct (HL e He) as (b & Hb & _). by apply elem_of_dom_2 in Hb.
Qed.
(** At any moment between two accesses. *)
Lemma size_approx_inv q (g : ghost T) D fuel : inv (q, g) → g_R g = empties D → (size (q_blocks q) ≤ fuel)%nat →
  run (size_approx fuel) q = Ok (u64 (zlen (concat (g_F g).*2)), q).
Proof.
  intros Hi HR Hfuel. destruct (inv_ring q g D Hi HR) as (xs & L & _ & Hb & Hl & Hn & ->).
  pose proof (ring_size _ _ _ Hb Hn) as Hlen. cbn in Hlen.
  assert (twp (size_approx fuel) (λ n q', q' = q ∧ n = u64 (0 + zlen (xs ++ concat L.*2))) q) as H.
  { apply twp_bind, twp_gets, (size_loop_ok _ _ (g_hole g) _ _ xs L); try done; [by apply NoDup_cons in Hn as [? _]|lia]. }
  unfold twp in H. destruct (run (size_approx fuel) q) as [[k q']|]; [|done]. by destruct H as [-> ->].
Qed.
Lemma size_approx_ok n q c fuel : queue_ok n q c → (size (q_blocks q) ≤ fuel)%nat → run (size_approx fuel) q = Ok (u64 (zlen c), q).
Proof. intros (g & Hi & _ & (D & HR) & <- & _) Hfuel. by eapply size_approx_inv. Qed.

(** The elements of a block, from the index [i] on. *)
Lemma destroy_elements_ok fuel (q : queue T) p (b : block T) xs k i : q_blocks q !! p = Some b → 1 ≤ k ≤ 62 → b_mask b = 2 ^ k - 1 → zlen xs < 2 ^ k →
  (length (b_data b) = Z.to_nat (2 ^ k)) →
  (∀ j x, xs !! j = Some x → b_data b !! Z.to_nat ((i + Z.of_nat j) `mod` 2 ^ k) = Some (Some x)) → (length xs < fuel)%nat →
  twp (destroy_elements fuel p (i `mod` 2 ^ k) ((i + zlen xs) `mod` 2 ^ k))
    (λ _ q', ∃ d, b_next d = b_next b ∧ q' = put_destroyed (q_destroyed q ++ xs) (put_blocks (<[p := d]> (q_blocks q)) q)) q.
Proof.
  intros Hb Hk Hm. revert q b xs i Hb Hm. induction fuel as [|fuel IH]; intros q b xs i Hb Hm Hlen Hd Hs Hfuel.
  { lia. }
  cbn [destroy_elements]. destruct xs as [|x xs].
  { rewrite Z.add_0_r, Z.eqb_refl. apply twp_ret. exists b. split; [done|]. rewrite insert_id, app_nil_r by done. by destruct q. }
  rewrite length_cons in *. pose proof (mod_range k i ltac:(lia)).
  assert (i `mod` 2 ^ k ≠ (i + Z.of_nat (S (length xs))) `mod` 2 ^ k) as Hne%Z.eqb_neq.
  { intros E. assert (i + Z.of_nat (S (length xs)) = i); [|lia]. apply (mod_close k); [lia|lia|done]. }
  rewrite Hne. cbn [negb]. pose proof (Hs 0%nat x eq_refl) as Hx. rewrite Z.add_0_r in Hx.
  apply twp_bind. eapply twp_act; [rewrite Hb; cbn; by rewrite Hx|]. apply twp_bind. eapply twp_ldb; [cbn; by rewrite lookup_insert_eq|].
  cbn [b_mask set_slots]. rewrite (next_index k i) by done.
  replace (i + Z.of_nat (S (length xs))) with (i + 1 + zlen xs) by lia.
  eapply twp_mono; [eapply (IH _ (set_slots (<[Z.to_nat (i `mod` 2 ^ k) := None]> (b_data b)) b) xs (i + 1)); try done; try lia|].
  - cbn. by rewrite lookup_insert_eq.
  - cbn. by rewrite length_insert.
  - intros j y Hj. cbn. replace (i + 1 + Z.of_nat j) with (i + Z.of_nat (S j)) by lia. pose proof (mod_range k (i + Z.of_nat (S j)) ltac:(lia)).
    rewrite list_lookup_insert_ne; [by apply (Hs (S j))|]. intros E. apply lookup_lt_Some in Hj.
    assert (i + Z.of_nat (S j) = i); [|lia]. apply (mod_close k); lia.
  - intros _ q' (d & Hd' & ->). exists d. split; [done|]. cbn. by rewrite insert_insert_eq, <- app_assoc.
Qed.

(** The blocks that are left are those of [m]: none of the circle. *)
Lemma destroy_blocks_ok fuel (q : queue T) fr p xs (L : list (Z * list T)) : Forall (blk_ok (q_blocks q) None) ((p, xs) :: L) → links (q_blocks q) (p :: L.*1) fr →
  fr ∉ L.*1 → NoDup (p :: L.*1) → (length L < fuel)%nat →
  twp (destroy_blocks fuel fr p) (λ _ q', q_destroyed q' = q_destroyed q ++ xs ++ concat L.*2 ∧
    ∀ p', q_blocks q' !! p' = if bool_decide (p' ∈ p :: L.*1) then None else q_blocks q !! p') q.
Proof.
  revert q p xs L. induction fuel as [|fuel IH]; intros q p xs L HL Hl Hfr Hn Hfuel; [lia|]. cbn [destroy_blocks].
  pose proof HL as [(b & Hb & k & lf & f & lt & t & Hr) HL']%Forall_cons. cbn in Hb. destruct Hl as [Hnx Hl].
  unfold nx in Hnx. rewrite Hb in Hnx. cbn in Hnx. pose proof (br_k _ _ _ _ _ _ _ _ Hr). pose proof (br_data _ _ _ _ _ _ _ _ Hr) as Hd.
  assert (0 < 2 ^ k) by (apply Z.pow_pos_nonneg; lia). destruct (rep_front_seen Hr) as [_ Hlen].
  do 4 (apply twp_bind; eapply twp_ldb; [exact Hb|]). rewrite Hnx. apply twp_bind.
  rewrite (br_vfront _ _ _ _ _ _ _ _ Hr), (br_vtail _ _ _ _ _ _ _ _ Hr), (br_len _ _ _ _ _ _ _ _ Hr).
  eapply twp_mono; [eapply (destroy_elements_ok _ _ _ _ _ k f Hb); try done; [apply (br_mask _ _ _ _ _ _ _ _ Hr)|lia| |lia]|].
  { intros j x Hj. by rewrite (br_slot _ _ _ _ _ _ _ _ Hr j x Hj). }
  intros _ q1 (d & _ & ->). cbn beta. apply twp_bind. eapply twp_act; [cbn; by rewrite lookup_insert_eq|]. cbn [q_blocks put_blocks].
  rewrite delete_insert_eq. apply NoDup_cons in Hn as [Hp Hn]. destruct L as [|[p' ys] L]; cbn [fmap list_fmap hd fst].
  - rewrite Z.eqb_refl. apply twp_ret. split; [cbn; by rewrite app_nil_r|]. intros c. cbn. destruct (decide (c = p)) as [->|Hne].
    + rewrite bool_decide_true by set_solver. apply lookup_delete_eq.
    + rewrite bool_decide_false by set_solver. by apply lookup_delete_ne.
  - cbn in Hfr. rewrite (proj2 (Z.eqb_neq p' fr)) by set_solver. cbn [negb].
    eapply twp_mono; [apply (IH _ p' ys L); cbn; try done; [| |set_solver|cbn in *; lia]|].
    + eapply blk_frame, HL'. intros c Hc. rewrite lookup_delete_ne; [done|]. by intros ->.
    + apply (links_ext (q_blocks q) _ (p' :: L.*1)); [|exact Hl]. intros c Hc. unfold nx. rewrite lookup_delete_ne; [done|]. by intros ->.
    + intros u q' [Hds Hq']. split; [rewrite Hds; cbn; by rewrite <- app_assoc|]. intros c. rewrite Hq'. cbn [q_blocks put_blocks]. destruct (decide (c = p)) as [->|Hne].
      * rewrite lookup_delete_eq. repeat case_bool_decide; set_solver.
      * rewrite lookup_delete_ne by done. rewrite (bool_decide_ext (c ∈ p' :: L.*1) (c ∈ p :: p' :: L.*1)) by set_solver. done.
Qed.
(** No block is left, and the elements that were in the queue have been destroyed. *)
Lemma destructor_ok n q c fuel : queue_ok n q c → (size (q_blocks q) ≤ fuel)%nat →
  ∃ q', run (destructor fuel) q = Ok (tt, q') ∧ q_blocks q' = ∅ ∧ q_destroyed q' = q_destroyed q ++ c.
Proof.
  intros (xs & L & Hb & Hl & Hn & -> & Hdm)%queue_ok_ring Hfuel. pose proof (ring_size _ _ _ Hb Hn) as Hlen. cbn in Hlen.
  assert (twp (destructor fuel) (λ _ q', q_blocks q' = ∅ ∧ q_destroyed q' = q_destroyed q ++ xs ++ concat L.*2) q) as H.
  { apply twp_bind, twp_gets. eapply twp_mono; [apply (destroy_blocks_ok _ _ _ _ xs L); try done; [by apply NoDup_cons in Hn as [? _]|lia]|].
    intros u q' [Hds Hq']. split; [|done]. apply map_empty. intros p. rewrite Hq'. case_bool_decide as Hp; [done|].
    destruct (q_blocks q !! p) as [b|] eqn:E; [|done]. by apply Hdm in E. }
  unfold twp in H. destruct (run (destructor fuel) q) as [[[] q']|]; [|done]. by exists q'.
Qed.

(** *** From the constructor on *)

Lemma enqueues_ok canAlloc n q c xs : queue_ok n q c → canAlloc = true ∨ zlen c + zlen xs ≤ n →
  ∃ q', run (calls (inner_enqueue canAlloc <$> xs)) q = Ok (replicate (length xs) true, q') ∧ queue_ok n q' (c ++ xs) ∧ q_destroyed q' = q_destroyed q.
Proof.
  revert q c. induction xs as [|x xs IH]; intros q c Hq Hroom; [exists q; by rewrite app_nil_r|]. cbn [fmap list_fmap calls replicate].
  rewrite length_cons in *. destruct (enqueue_ok canAlloc n q c x Hq) as (r & q1 & E & Hr & Hq1 & Ed1).
  destruct r; [|by destruct (Hr eq_refl) as [-> Hn]; destruct Hroom; [|lia]].
  destruct (IH q1 (c ++ [x]) Hq1) as (q2 & E2 & Hq2 & Ed2); [rewrite length_app; change (length [x]) with 1%nat; destruct Hroom; [by left|right; lia]|].
  exists q2. rewrite <- app_assoc in Hq2. split; [|split; [done|congruence]]. by rewrite run_bind, E, run_bind, E2.
Qed.
Lemma dequeues_ok k q c n : queue_ok k q c → ∃ rs q', run (calls (replicate n try_dequeue)) q = Ok (rs, q') ∧ omap id rs = take n c.
Proof.
  revert q c. induction n as [|n IH]; intros q c Hq; [by exists [], q|]. cbn [replicate calls].
  destruct (try_dequeue_ok k q c Hq) as (q1 & E & Hq1 & _). destruct (IH q1 _ Hq1) as (rs & q2 & E2 & Ers).
  exists (head c :: rs), q2. rewrite run_bind, E, run_bind, E2. split; [done|]. destruct c as [|x c]; cbn in *; [by rewrite Ers, take_nil|by rewrite Ers].
Qed.
Lemma built_ok canAlloc maxSize c : 0 < maxSize < 2 ^ 62 → canAlloc = true ∨ zlen c ≤ maxSize →
  ∃ q, run (ReaderWriterQueue maxSize;; calls (inner_enqueue canAlloc <$> c)) no_queue = Ok (replicate (length c) true, q) ∧ queue_ok maxSize q c ∧ q_destroyed q = [].
Proof.
  intros Hm Hc. destruct (ReaderWriterQueue_ok maxSize Hm) as (q0 & E0 & Hq0 & Ed0). destruct (enqueues_ok canAlloc _ q0 [] c Hq0) as (q & E & Hq & Ed); [done|].
  exists q. rewrite run_bind, E0. split_and!; [done|done|congruence].
Qed.

(** C5: A queue that the constructor made holds [c]; one thread enqueues [xs], another one calls
    [try_dequeue] [n] times, and their accesses to the shared fields and slots come in any
    order.  No assertion of the source fails, no slot is read or destroyed that has no
    element; every enqueue succeeds; what the consumer gets is a prefix of [c ++ xs], and it
    is told that the queue is empty only when it has got all that was in the queue before it
    began; what it did not get is in the queue afterwards. *)
Theorem spsc_fifo maxSize (c xs : list T) n sched : 0 < maxSize < 2 ^ 62 →
  ∃ q p d q', run (ReaderWriterQueue maxSize;; calls (enqueue <$> c)) no_queue = Ok (replicate (length c) true, q) ∧
    run_both sched (calls (enqueue <$> xs)) (calls (replicate n try_dequeue)) q = Ok (p, d, q') ∧
    (∀ bs, p = TRet bs → bs = replicate (length xs) true) ∧
    (∀ rs, d = TRet rs → length rs = n ∧ omap id rs `prefix_of` c ++ xs ∧ ∀ j, rs !! j = Some None → c `prefix_of` omap id (take j rs)) ∧
    (∀ bs rs, p = TRet bs → d = TRet rs →
      ∃ rest q'', run (calls (replicate (length (c ++ xs)) try_dequeue)) q' = Ok (rest, q'') ∧ omap id rs ++ omap id rest = c ++ xs).
Proof.
  intros Hm. destruct (built_ok true maxSize c Hm (or_introl eq_refl)) as (q & E & Hq & _).
  destruct (spsc_both true maxSize q c sched xs n Hq (or_introl eq_refl)) as (p & d & q' & E' & Hp & Hd & Hpd).
  exists q, p, d, q'. split_and!; try done. intros bs rs Ep Ed. destruct (Hpd bs rs Ep Ed) as (c' & Hc' & Ecat).
  destruct (dequeues_ok maxSize q' c' (length (c ++ xs)) Hc') as (rest & q'' & Er & Erest). exists rest, q''. split; [done|].
  rewrite Erest, Ecat, take_ge; [done|]. rewrite length_app. lia.
Qed.

(** C12: A queue is made for [maxSize] elements; one thread calls [enqueue] and [try_enqueue] in
    any order, the other one calls [try_dequeue], and their accesses interleave in any way.
    At a moment when the producer is between two calls, wherever the consumer is in its own,
    let [k] be the number of elements in the queue, which [size_approx] would return there.  A
    [try_enqueue] that the producer begins at that moment is refused only if [k] is
    [maxSize] or more, however the accesses interleave: the slots that the consumer has freed
    are used again. *)
Theorem spsc_capacity maxSize (os : list (bool * T)) n s1 s2 x : 0 < maxSize < 2 ^ 62 →
  ∃ q0 p d q1, run (ReaderWriterQueue maxSize) no_queue = Ok (tt, q0) ∧
    run_both s1 (calls (offer <$> os)) (calls (replicate n try_dequeue)) q0 = Ok (p, d, q1) ∧
    ∀ bs, p = TRet bs → ∃ k p' d' q2,
      0 ≤ k ≤ zlen (accepted os bs) ∧ run (size_approx (size (q_blocks q1))) q1 = Ok (u64 k, q1) ∧
      run_both s2 (try_enqueue x) d q1 = Ok (p', d', q2) ∧ (p' = TRet false → maxSize ≤ k).
Proof.
  intros Hm. destruct (ReaderWriterQueue_ok maxSize Hm) as (q0 & E0 & (g & Hi & Hh & (D & HR) & Ec & EC & Hdm) & _).
  pose proof (iv_hist _ Hi) as EI. cbn in EI. rewrite Ec, app_nil_r in EI.
  destruct (rg_interleave crely prely prely crely s1 (calls (offer <$> os)) (calls (replicate n try_dequeue))
    (λ bs, PI maxSize (g_out g) (g_in g ++ accepted os bs)) (CQ (g_in g) (g_out g) n) q0 g) as (p & d & q1 & g1 & E1 & Hp & Hd); try apply _; try done.
  { apply rg_offers. split; try done. by exists D. }
  { apply rg_dequeues. by split. }
  exists q0, p, d, q1. split_and!; try done. intros bs ->. pose proof (Hp _ (crely_refl _)) as [Hi1 HI1 (D1 & HR1) [O1 HO1] HC1 Hd1]. cbn in *.
  destruct (rg_interleave crely prely prely crely s2 (try_enqueue x) d
    (Qp maxSize (g_out g1) false (g_in g1) x) (CQ (g_in g) (g_out g) n) q1 g1) as (p' & d' & q2 & g2 & E2 & Hp' & _); try apply _; try done.
  { apply rg_inner_enqueue. split; try done. by exists D1. }
  pose proof (iv_hist _ Hi1) as E3. cbn in E3. exists (zlen (concat (g_F g1).*2)), p', d', q2. split_and!; try done; [lia|..].
  - apply (f_equal length) in E3. apply (f_equal length) in HO1. rewrite HI1, EI in E3. rewrite !length_app in *. lia.
  - by eapply size_approx_inv.
  - intros ->. destruct (Hp' _ (crely_refl _)) as [Hr _]. destruct (Hr eq_refl) as [_ Hle]. rewrite E3, length_app in Hle. lia.
Qed.

(** C13: The two threads do not wait for each other: whatever the order, a thread has finished its
    calls after at most twenty accesses for each, those of the other thread not counted. *)
Theorem spsc_wait_free maxSize (c xs : list T) n sched : 0 < maxSize < 2 ^ 62 →
  (20 * length xs ≤ count_occ Bool.bool_dec sched true)%nat → (20 * n ≤ count_occ Bool.bool_dec sched false)%nat →
  ∃ q bs rs q', run (ReaderWriterQueue maxSize;; calls (enqueue <$> c)) no_queue = Ok (replicate (length c) true, q) ∧
    run_both sched (calls (enqueue <$> xs)) (calls (replicate n try_dequeue)) q = Ok (TRet bs, TRet rs, q').
Proof.
  intros Hm Hx Hn. destruct (built_ok true maxSize c Hm (or_introl eq_refl)) as (q & E & Hq & _).
  destruct (spsc_finishes maxSize q c sched xs n Hq Hx Hn) as (bs & rs & q' & E'). by exists q, bs, rs, q'.
Qed.

(** C14: One thread alone, on a queue with the elements [c]: [peek] points to the first one and
    leaves it, [pop] removes it, [try_dequeue] returns the next one, [try_enqueue] appends, or
    refuses when at least [maxSize] elements are there, and [size_approx] counts.  After the
    destructor no block is left, and every element that was ever put in has been destroyed
    exactly once, in order: two by [pop] and [try_dequeue], the others by the destructor. *)
Theorem spsc_alone maxSize (c : list T) x : 0 < maxSize < 2 ^ 62 →
  ∃ q r q1 q2 q3 b q4 q5,
    run (ReaderWriterQueue maxSize;; calls (enqueue <$> c)) no_queue = Ok (replicate (length c) true, q) ∧
    run peek q = Ok (r, q1) ∧ r ≫= pointee q1 = head c ∧ (r = None ↔ c = []) ∧
    run pop q1 = Ok (match c with [] => false | _ => true end, q2) ∧
    run try_dequeue q2 = Ok (head (tail c), q3) ∧ q_destroyed q3 = take 2 c ∧
    run (try_enqueue x) q3 = Ok (b, q4) ∧ (b = false → maxSize ≤ zlen (tail (tail c))) ∧
    run (size_approx (size (q_blocks q4))) q4 = Ok (u64 (zlen (tail (tail c) ++ if b then [x] else [])), q4) ∧
    run (destructor (size (q_blocks q4))) q4 = Ok (tt, q5) ∧
    q_blocks q5 = ∅ ∧ q_destroyed q5 = c ++ if b then [x] else [].
Proof.
  intros Hm. destruct (built_ok true maxSize c Hm (or_introl eq_refl)) as (q & E & Hq & Ed).
  destruct (peek_ok _ q c Hq) as (r & q1 & E1 & Hr & Hr' & Hq1 & Ed1).
  destruct (pop_alone _ q1 c Hq1) as (q2 & E2 & Hq2 & Ed2). destruct (try_dequeue_ok _ q2 _ Hq2) as (q3 & E3 & Hq3 & Ed3).
  destruct (enqueue_ok false _ q3 _ x Hq3) as (b & q4 & E4 & Hb & Hq4 & Ed4).
  assert (queue_ok maxSize q4 (tail (tail c) ++ if b then [x] else [])) as Hq4' by (destruct b; [done|by rewrite app_nil_r]).
  destruct (destructor_ok _ q4 _ _ Hq4' (le_n _)) as (q5 & E5 & Hf & Hs).
  assert (q_destroyed q3 = take 2 c) as Ed' by (rewrite Ed3, Ed2, Ed1, Ed; by destruct c as [|? [|? ?]]).
  exists q, r, q1, q2, q3, b, q4, q5. split_and!; try done; [intros Eb; by apply Hb|by eapply size_approx_ok|].
  rewrite Hs, Ed4, Ed', app_assoc. f_equal. by destruct c as [|? [|? ?]].
Qed.
End queue.

(** ** Witnesses *)

(** Two hundred elements through a queue that starts with a block of four. *)
Definition ex_elements : list Z := seqZ 0 200.
Definition ex_sched : list bool := mjoin (replicate 4000 [true; true; false; false; false]).

Lemma spsc_fifo_witness : ∃ q p d q',
  run (ReaderWriterQueue 3;; calls (enqueue <$> [7])) no_queue = Ok ([true], q) ∧
  run_both ex_sched (calls (enqueue <$> ex_elements)) (calls (replicate 300 try_dequeue)) q = Ok (p, d, q').
Proof.
  destruct (spsc_fifo 3 [7] ex_elements 300 ex_sched) as (q & p & d & q' & E & E' & _); [lia|]. exists q, p, d, q'. split; [exact E|exact E'].
Defined.
Lemma spsc_wait_free_witness : ∃ q bs rs q',
  run (ReaderWriterQueue 3;; calls (enqueue <$> [7])) no_queue = Ok ([true], q) ∧
  run_both (replicate 50 true ++ replicate 80 false) (calls (enqueue <$> [1; 2])) (calls (replicate 4 try_dequeue)) q = Ok (TRet bs, TRet rs, q').
Proof. apply (spsc_wait_free 3 [7] [1; 2] 4 (replicate 50 true ++ replicate 80 false)); [lia|cbn; lia|cbn; lia]. Defined.
Lemma spsc_alone_witness : ∃ q r q1, run (ReaderWriterQueue 1000;; calls (enqueue <$> [7; 8; 9])) no_queue = Ok ([true; true; true], q) ∧
  run peek q = Ok (r, q1) ∧ r ≫= pointee q1 = Some 7.
Proof.
  destruct (spsc_alone 1000 [7; 8; 9] 5) as (q & r & q1 & _ & _ & _ & _ & _ & E & E1 & Hr & _); [lia|].
  exists q, r, q1. split; [exact E|]. split; [exact E1|exact Hr].
Defined.
Lemma spsc_capacity_witness : ∃ q0 p d q1, run (ReaderWriterQueue 3) no_queue = Ok (tt, q0) ∧
  run_both ex_sched (calls (offer <$> [(true, 7); (false, 8); (false, 9)])) (calls (replicate 2 try_dequeue)) q0 = Ok (p, d, q1) ∧
  ∀ bs, p = TRet bs → ∃ k p' d' q2, run (size_approx (size (q_blocks q1))) q1 = Ok (u64 k, q1) ∧
    run_both ex_sched (try_enqueue 10) d q1 = Ok (p', d', q2) ∧ (p' = TRet false → 3 ≤ k).
Proof.
  destruct (spsc_capacity 3 [(true, 7); (false, 8); (false, 9)] 2 ex_sched ex_sched 10) as (q0 & p & d & q1 & E & E' & H); [lia|].
  exists q0, p, d, q1. split; [exact E|]. split; [exact E'|]. intros bs Hp. destruct (H bs Hp) as (k & p' & d' & q2 & _ & Hk & E2 & Hf).
  exists k, p', d', q2. split; [exact Hk|]. split; [exact E2|exact Hf].
Defined.
