(* ===== verification/KjQueues.v ===== *)
(** * Two threads: [tcp/kj/ConnFactoryTrunkQueue.cpp], [tcp/kj/KjConnFactoryWorkQueue.cpp]

    Over kj the connection factory has a worker thread.  The main thread (the front end)
    sends it commands through the work queue, the worker (the back end) sends callbacks
    through the trunk queue.  Four counters per connection say how many commands and
    callbacks about it are under way; the recycler deletes an object when they agree.

    The threads share the objects without locks, so a program is a tree of atomic
    accesses ([Threads]).  Modelled are the queues, the factory's requests and callbacks, the
    server, the client connection and the two isolated connections ([CIsolated false Inner]
    is [CKjIsolatedConn], [CIsolated false Outer] is [CKjIsolatedConn2]).

    kj's streams and contexts are numbers; whether a listener can be made is a parameter;
    kj's callbacks are the operations that a thread may start.  Memory for the queues is
    taken to suffice, and there is a single promise since the caller of a blocking command
    waits for it.  Assertions are compiled out. *)

From S2P Require Import Prelude Threads MapOrder Io UvConn UvIsolated ConnManager.

#[local] Open Scope string_scope.
#[local] Open Scope list_scope.
#[local] Open Scope Z_scope.

(** ** The queue of [readerwriterqueue.h] *)

(** One thread enqueues, one dequeues: first in, first out.  [rwq_new] is the queue that the
    factory constructs, with room for 256 elements. *)
Class RWQueue := {
  rwq : Type → Type;
  rwq_new : ∀ {A}, rwq A;
  q_items : ∀ {A}, rwq A → list A;
  enqueue : ∀ {A}, rwq A → A → rwq A * bool;
  try_dequeue : ∀ {A}, rwq A → option A * rwq A;
  size_approx : ∀ {A}, rwq A → Z;
  rwq_new_items A : q_items (@rwq_new A) = [];
  enqueue_items A (q : rwq A) x : q_items (enqueue q x).1 = q_items q ++ [x] ∧ (enqueue q x).2 = true;
  try_dequeue_items A (q : rwq A) :
    (try_dequeue q).1 = head (q_items q) ∧ q_items (try_dequeue q).2 = tail (q_items q)
}.

(** ** Messages *)

Inductive cmd_type :=
  | OPEN_TCP_SERVER | CLOSE_TCP_SERVER | DISPOSE_CONNECTION | POST_PACKET | FLUSH_TCP_SERVER_DOWNSTREAM
  | CONFIRM_CLIENT_IS_READY | POST_BROADCAST_PACKET | ISOLATED_CONN_CONNECT | ISOLATED_DELAY_RECONNECT.

(** The result callbacks: nothing, [IncrBackEndConsumeNum] of a connection, the promise of
    [BlockingCommit]. *)
Inductive result_cb := RIgnore | RConsume (p : Z) | RPromise.

Record net_cmd := NetCmd {
  nc_sn : Z; nc_type : cmd_type; nc_handle : Z; nc_ip : string; nc_port : Z; nc_target : list Z;
  nc_streamptr : Z; nc_inner_uuid : Z; nc_serial : Z; nc_type_name : string; nc_body : string;
  nc_result : result_cb
}.

(** The callbacks of the trunk queue; those about packets are the same for clients and
    isolated connections. *)
Inductive trunk_cb :=
  | TAcceptClient (srv streamptr : Z) (sPeerIp : string)
  | TClientDisconnect (srv cl : Z)
  | TPacket (p uConnId uSerialNo : Z) (sTypeName sBody : string)
  | TInnerPacket (p uConnId uInnerUuid uSerialNo : Z) (sTypeName sBody : string)
  | TIsolatedConnect (p : Z)
  | TIsolatedDisconnect (p : Z).

(** What the application sees, what is posted to the network, packets that are emptied, and
    timers. *)
Inductive app_event :=
  | AConnected (p : Z)
  | ADisconnected (p : Z)
  | APacket (p uSerialNo : Z) (sTypeName sBody : string)
  | AInnerPacket (p uInnerUuid uSerialNo : Z) (sTypeName sBody : string)
  | APosted (p uInnerUuid uSerialNo : Z) (sTypeName sBody : string)
  | ACleared (p : Z)
  | ATimer (p nDelaySeconds : Z).

(** ** The shared state *)

Section state.
Context {rw : RWQueue}.

(** The connection objects; the factory with its manager; the work queue and its flag, serial
    number and opcode; the trunk queue and its flag and opcode; the streams that wait
    at a server; the closed servers; the functions that [ScheduleEvalLaterFunc] holds (by
    their connection); the connections with [_bConnectedEventPosted]; the promise; what
    happened. *)
Record kj := Kj {
  k_next : Z;
  k_conns : gmap Z conn;
  k_fac : factory;
  k_work : rwq net_cmd; k_done : bool; k_sn : Z; k_thr_op : Z;
  k_trunk : rwq trunk_cb; k_close : bool; k_trunk_op : Z;
  k_streams : gset (Z * Z);
  k_closed : gset Z;
  k_later : list Z;
  k_posted : gset Z;
  k_promise : option Z;
  k_log : list app_event
}.

Definition k_set_next (x : Z) (s : kj) : kj :=
  Kj x (k_conns s) (k_fac s) (k_work s) (k_done s) (k_sn s) (k_thr_op s) (k_trunk s)
    (k_close s) (k_trunk_op s) (k_streams s) (k_closed s) (k_later s) (k_posted s) (k_promise s) (k_log s).
Definition k_set_conns (x : gmap Z conn) (s : kj) : kj :=
  Kj (k_next s) x (k_fac s) (k_work s) (k_done s) (k_sn s) (k_thr_op s) (k_trunk s)
    (k_close s) (k_trunk_op s) (k_streams s) (k_closed s) (k_later s) (k_posted s) (k_promise s) (k_log s).
Definition k_set_fac (x : factory) (s : kj) : kj :=
  Kj (k_next s) (k_conns s) x (k_work s) (k_done s) (k_sn s) (k_thr_op s) (k_trunk s)
    (k_close s) (k_trunk_op s) (k_streams s) (k_closed s) (k_later s) (k_posted s) (k_promise s) (k_log s).
Definition k_set_work (x : rwq net_cmd) (s : kj) : kj :=
  Kj (k_next s) (k_conns s) (k_fac s) x (k_done s) (k_sn s) (k_thr_op s) (k_trunk s)
    (k_close s) (k_trunk_op s) (k_streams s) (k_closed s) (k_later s) (k_posted s) (k_promise s) (k_log s).
Definition k_set_done (x : bool) (s : kj) : kj :=
  Kj (k_next s) (k_conns s) (k_fac s) (k_work s) x (k_sn s) (k_thr_op s) (k_trunk s)
    (k_close s) (k_trunk_op s) (k_streams s) (k_closed s) (k_later s) (k_posted s) (k_promise s) (k_log s).
Definition k_set_sn (x : Z) (s : kj) : kj :=
  Kj (k_next s) (k_conns s) (k_fac s) (k_work s) (k_done s) x (k_thr_op s) (k_trunk s)
    (k_close s) (k_trunk_op s) (k_streams s) (k_closed s) (k_later s) (k_posted s) (k_promise s) (k_log s).
Definition k_set_thr_op (x : Z) (s : kj) : kj :=
  Kj (k_next s) (k_conns s) (k_fac s) (k_work s) (k_done s) (k_sn s) x (k_trunk s)
    (k_close s) (k_trunk_op s) (k_streams s) (k_closed s) (k_later s) (k_posted s) (k_promise s) (k_log s).
Definition k_set_trunk (x : rwq trunk_cb) (s : kj) : kj :=
  Kj (k_next s) (k_conns s) (k_fac s) (k_work s) (k_done s) (k_sn s) (k_thr_op s) x
    (k_close s) (k_trunk_op s) (k_streams s) (k_closed s) (k_later s) (k_posted s) (k_promise s) (k_log s).
Definition k_set_close (x : bool) (s : kj) : kj :=
  Kj (k_next s) (k_conns s) (k_fac s) (k_work s) (k_done s) (k_sn s) (k_thr_op s) (k_trunk s)
    x (k_trunk_op s) (k_streams s) (k_closed s) (k_later s) (k_posted s) (k_promise s) (k_log s).
Definition k_set_trunk_op (x : Z) (s : kj) : kj :=
  Kj (k_next s) (k_conns s) (k_fac s) (k_work s) (k_done s) (k_sn s) (k_thr_op s) (k_trunk s)
    (k_close s) x (k_streams s) (k_closed s) (k_later s) (k_posted s) (k_promise s) (k_log s).
Definition k_set_streams (x : gset (Z * Z)) (s : kj) : kj :=
  Kj (k_next s) (k_conns s) (k_fac s) (k_work s) (k_done s) (k_sn s) (k_thr_op s) (k_trunk s)
    (k_close s) (k_trunk_op s) x (k_closed s) (k_later s) (k_posted s) (k_promise s) (k_log s).
Definition k_set_closed (x : gset Z) (s : kj) : kj :=
  Kj (k_next s) (k_conns s) (k_fac s) (k_work s) (k_done s) (k_sn s) (k_thr_op s) (k_trunk s)
    (k_close s) (k_trunk_op s) (k_streams s) x (k_later s) (k_posted s) (k_promise s) (k_log s).
Definition k_set_later (x : list Z) (s : kj) : kj :=
  Kj (k_next s) (k_conns s) (k_fac s) (k_work s) (k_done s) (k_sn s) (k_thr_op s) (k_trunk s)
    (k_close s) (k_trunk_op s) (k_streams s) (k_closed s) x (k_posted s) (k_promise s) (k_log s).
Definition k_set_posted (x : gset Z) (s : kj) : kj :=
  Kj (k_next s) (k_conns s) (k_fac s) (k_work s) (k_done s) (k_sn s) (k_thr_op s) (k_trunk s)
    (k_close s) (k_trunk_op s) (k_streams s) (k_closed s) (k_later s) x (k_promise s) (k_log s).
Definition k_set_promise (x : option Z) (s : kj) : kj :=
  Kj (k_next s) (k_conns s) (k_fac s) (k_work s) (k_done s) (k_sn s) (k_thr_op s) (k_trunk s)
    (k_close s) (k_trunk_op s) (k_streams s) (k_closed s) (k_later s) (k_posted s) x (k_log s).
Definition k_set_log (x : list app_event) (s : kj) : kj :=
  Kj (k_next s) (k_conns s) (k_fac s) (k_work s) (k_done s) (k_sn s) (k_thr_op s) (k_trunk s)
    (k_close s) (k_trunk_op s) (k_streams s) (k_closed s) (k_later s) (k_posted s) (k_promise s) x.

End state.

(** The threads over this state ([Threads]). *)
Abbreviation th := (thread kj).

Section accesses.
Context {rw : RWQueue}.

(** ** Accesses *)

(** [p->field], [p->field = ..] *)
Definition with_conn {A} (p : Z) (f : conn → kj → A * kj) : th A :=
  act (λ s, if p =? 0 then Ub NullDeref else match k_conns s !! p with Some c => Ok (f c s) | None => Ub Dangling end).
Definition rd {A} (p : Z) (f : conn → A) : th A := with_conn p (λ c s, (f c, s)).
(** [p->field->..]: the field is a pointer. *)
Definition via (p : Z) (f : conn → Z) : th unit :=
  act (λ s, if p =? 0 then Ub NullDeref
            else match k_conns s !! p with
                 | Some c => if f c =? 0 then Ub NullDeref else Ok (tt, s)
                 | None => Ub Dangling
                 end).
Definition wr (p : Z) (f : conn → conn) : th unit :=
  with_conn p (λ c s, (tt, k_set_conns (<[p := f c]> (k_conns s)) s)).

Definition on_fac (f : factory → factory) : th unit := modify (λ s, k_set_fac (f (k_fac s)) s).
Definition note (e : app_event) : th unit := modify (λ s, k_set_log (k_log s ++ [e]) s).
Definition fresh : th Z := act (λ s, Ok (k_next s, k_set_next (k_next s + 1) s)).
End accesses.

(** The descriptor that kj's listener for a port has. *)
Class KjListen := { kj_listen : Z → Z }.

Definition RWQUEUE_CONSUME_WATERLINE : nat := Z.to_nat 2048.
Definition RWQUEUE_PRODUCE_WATERLINE : Z := 8192.

Section kj.
Context {rw : RWQueue} {ord : MapOrder} {li : KjListen}.

(** ** CCamelReaderWriterQueueWL: the queue of callbacks *)

Definition util_sleep (ms : Z) : th unit := mret tt.

Definition CallbackQueue_Add (workCb : trunk_cb) : th bool :=
  close ← gets k_close;
  if (close : bool) then mret false
  else
    (* Add work item. *)
    ok ← act (λ s, let '(q, ok) := enqueue (k_trunk s) workCb in Ok (ok, k_set_trunk q s));
    if negb (ok : bool) then mret false
    else
      (* decrease produce speed, wait main thread to consume *)
      n ← gets (λ s, size_approx (k_trunk s));
      (if RWQUEUE_PRODUCE_WATERLINE <=? n then util_sleep 15 else mret tt);;
      mret true.

Definition CallbackQueue_Close : th unit := modify (k_set_close true).

(** ** CConnFactoryTrunkQueue: callbacks to the front end *)

Definition Trunk_Add (workCb : trunk_cb) : th unit :=
  _ ← CallbackQueue_Add workCb;
  (* write opcode to pipe *)
  modify (λ s, k_set_trunk_op (s8 (k_trunk_op s + 1)) s).

Definition AddAcceptClientCb (srv streamptr : Z) (sPeerIp : string) : th unit :=
  Trunk_Add (TAcceptClient srv streamptr sPeerIp).
Definition kj_AddClientDisconnectCb (srv cl : Z) : th unit :=
  wr cl IncrBackEndProduceNum;; Trunk_Add (TClientDisconnect srv cl).
Definition kj_AddPacketCb (p uConnId uSerialNo : Z) (sTypeName sBody : string) : th unit :=
  wr p IncrBackEndProduceNum;; Trunk_Add (TPacket p uConnId uSerialNo sTypeName sBody).
Definition kj_AddInnerPacketCb (p uConnId uInnerUuid uSerialNo : Z) (sTypeName sBody : string) : th unit :=
  wr p IncrBackEndProduceNum;; Trunk_Add (TInnerPacket p uConnId uInnerUuid uSerialNo sTypeName sBody).
Definition kj_AddIsolatedConnectCb (p : Z) : th unit :=
  wr p IncrBackEndProduceNum;; Trunk_Add (TIsolatedConnect p).
Definition kj_AddIsolatedDisconnectCb (p : Z) : th unit :=
  wr p IncrBackEndProduceNum;; Trunk_Add (TIsolatedDisconnect p).

(** ** CKjConnFactoryWorkQueue: commands to the back end *)

Definition Work_Add (cmd : net_cmd) : th bool :=
  done ← gets k_done;
  if (done : bool) then mret false
  else
    (* Add work item. *)
    ok ← act (λ s, let '(q, ok) := enqueue (k_work s) cmd in Ok (ok, k_set_work q s));
    if negb (ok : bool) then mret false
    else
      (* write opcode to trunk pipe *)
      modify (λ s, k_set_thr_op (s8 (k_thr_op s + 1)) s);;
      mret true.

(** [++_nextSn] *)
Definition next_sn : th Z := act (λ s, let sn := s32 (k_sn s + 1) in Ok (sn, k_set_sn sn s)).

Definition Commit (eType : cmd_type) (pHandle : Z) (vTarget : list Z) (streamptr uInnerUuid uSerialNo : Z)
    (sTypeName sBody : string) (resultCb : result_cb) : th unit :=
  sn ← next_sn;
  _ ← Work_Add (NetCmd sn eType pHandle "" 0 vTarget streamptr uInnerUuid uSerialNo sTypeName sBody resultCb);
  mret tt.

Definition FlushTcpServerDownStream (srv streamptr : Z) : th unit :=
  Commit FLUSH_TCP_SERVER_DOWNSTREAM srv [] streamptr 0 0 "" "" RIgnore.
Definition Work_DisposeConnection (p : Z) : th unit :=
  (* reference and dereference *)
  wr p IncrFrontEndProduceNum;; Commit DISPOSE_CONNECTION p [] 0 0 0 "" "" (RConsume p).
Definition Work_PostPacket (p uInnerUuid uSerialNo : Z) (sTypeName sBody : string) : th unit :=
  wr p IncrFrontEndProduceNum;; Commit POST_PACKET p [] 0 uInnerUuid uSerialNo sTypeName sBody (RConsume p).
Definition Work_ConfirmClientIsReady (cl streamptr : Z) : th unit :=
  wr cl IncrFrontEndProduceNum;; Commit CONFIRM_CLIENT_IS_READY cl [] streamptr 0 0 "" "" (RConsume cl).
Definition PostBroadcastPacket (srv : Z) (vTarget : list Z) (sTypeName sBody : string) : th unit :=
  Commit POST_BROADCAST_PACKET srv vTarget 0 0 0 sTypeName sBody RIgnore.
Definition Work_IsolatedConnDelayReconnect (p nDelaySeconds : Z) : th unit :=
  wr p IncrFrontEndProduceNum;; Commit ISOLATED_DELAY_RECONNECT p [] nDelaySeconds 0 0 "" "" (RConsume p).

(** [ReleaseConnection] of the factory. *)
Definition kj_ReleaseConnection (p : Z) : th unit := Work_DisposeConnection p.

(** ** The connection manager, in the front end *)

Definition kj_OnAddClient (srv cl : Z) : th unit :=
  id ← rd cl cn_id; on_fac (add_client srv id cl).

Definition find_client (srv id : Z) (s : kj) : option Z :=
  match fa_entries (k_fac s) !! srv with Some m => m !! id | None => None end.

Definition kj_OnRemoveClient (srv cl : Z) : th unit :=
  id ← rd cl cn_id;
  e ← gets (find_client srv id);
  match e with
  | None => mret tt
  | Some pClient2 =>
      (* discard connection to backend through factory *)
      kj_ReleaseConnection pClient2;;
      on_fac (erase_client srv id);;
      (* recycle connection *)
      on_fac (λ f, set_recycler (fa_recycler f ++ [pClient2]) f);;
      on_fac decr_count
  end.

(** The condition of [RecyclerPop], read field by field. *)
Definition safe_to_release (p : Z) : th bool :=
  connected ← rd p cn_connected;
  if (connected : bool) then mret false
  else
    (* all back end requests are processed by front end now *)
    clean ← rd p IsBackEndClean;
    if negb (clean : bool) then mret false
    else
      clean ← rd p IsFrontEndClean;
      if negb (clean : bool) then mret false
      else
        disposed ← rd p cn_disposed;
        if negb (disposed : bool) then mret false else rd p cn_flushed.

(** The loop of [RecyclerPop]: what stays. *)
Fixpoint kj_recycler_loop (l : list Z) : th (list Z) :=
  match l with
  | [] => mret (@nil Z)
  | p :: l =>
      ok ← safe_to_release p;
      (if (ok : bool) then on_fac (λ f, set_safe (fa_safe f ++ [p]) f) else mret tt);;
      kept ← kj_recycler_loop l;
      mret (if (ok : bool) then kept else p :: kept)
  end.
Definition kj_RecyclerPop : th unit :=
  l ← gets (λ s, fa_recycler (k_fac s));
  kept ← kj_recycler_loop l;
  on_fac (set_recycler kept).

(** [SAFE_DELETE (pConn)] *)
Definition kj_delete (p : Z) : th unit :=
  act (λ s, match k_conns s !! p with Some _ => Ok (tt, k_set_conns (delete p (k_conns s)) s) | None => Ub Dangling end).
Fixpoint kj_delete_conns (l : list Z) : th unit :=
  match l with [] => mret tt | p :: l => (if p =? 0 then mret tt else kj_delete p);; kj_delete_conns l end.
Definition kj_SafeRelease : th unit :=
  l ← gets (λ s, fa_safe (k_fac s));
  kj_delete_conns l;;
  on_fac (set_safe []).
Definition kj_Recycle : th bool :=
  kj_RecyclerPop;;
  kj_SafeRelease;;
  gets (λ s, 0 <? zlen (fa_recycler (k_fac s))).

(** ** The client connection *)

Definition kj_OnConnect (p : Z) : th unit :=
  run ← rd p (λ c, cn_running c && negb (cn_connected c));
  if (run : bool) then wr p (SetConnected true);; note (AConnected p) else mret tt.
Definition kj_OnDisconnect (p : Z) : th unit :=
  connected ← rd p cn_connected;
  if (connected : bool) then wr p (SetConnected false);; note (ADisconnected p) else mret tt.

Definition kj_Disconnect (cl : Z) : th unit :=
  go ← rd cl (λ c, negb (cn_disposed c) && cn_running c);
  if (go : bool) then
    wr cl (set_running false);;
    kj_OnDisconnect cl;;
    (* remove and dispose conn *)
    srv ← rd cl cn_ref;
    kj_OnRemoveClient srv cl
  else mret tt.

(** In the back end. *)
Definition kj_FlushStream (p : Z) : th unit :=
  go ← rd p (λ c, negb (cn_clnt c =? 0) && negb (cn_flushed c));
  if (go : bool) then wr p (SetFlushed true) else mret tt.
Definition kj_DisposeConnection (p : Z) : th unit :=
  disposed ← rd p cn_disposed;
  if (disposed : bool) then mret tt
  else
    wr p (SetDisposed true);;
    (* dispose packet *)
    wr p (set_packet 0);;
    (* flush stream *)
    kj_FlushStream p;;
    (* dispose stream for thread, dispose base for thread *)
    wr p (set_clnt 0);;
    wr p (set_base 0).
Definition kj_PostPacket (p uInnerUuid uSerialNo : Z) (sTypeName sBody : string) : th unit :=
  packet ← rd p cn_packet;
  if packet =? 0 then mret tt else note (APosted p uInnerUuid uSerialNo sTypeName sBody).

(** [CKjServer::RemoveStream] *)
Definition kj_RemoveStream (srv streamptr : Z) : th Z :=
  act (λ s, if decide ((srv, streamptr) ∈ k_streams s)
            then Ok (streamptr, k_set_streams (k_streams s ∖ {[ (srv, streamptr) ]}) s) else Ok (0, s)).
Definition kj_ConfirmClientIsReady (cl base streamptr : Z) : th unit :=
  srv ← rd cl cn_ref;
  stream ← kj_RemoveStream srv streamptr;
  wr cl (set_clnt stream);;
  if stream =? 0 then mret tt
  else
    (* init base *)
    wr cl (set_base base);;
    (* init packet *)
    packet ← rd cl cn_packet;
    if packet =? 0 then packet ← fresh; wr cl (set_packet packet) else mret tt.

(** [OnGotPacket], which the read loop of the stream calls.  The class with the outer packet
    has no inner uuid. *)
Definition kj_OnGotPacket (p uInnerUuid uSerialNo : Z) (sTypeName sBody : string) : th unit :=
  id ← rd p cn_id;
  cls ← rd p cn_class;
  match packet_of cls with
  | Inner => kj_AddInnerPacketCb p id uInnerUuid uSerialNo sTypeName sBody
  | Outer => kj_AddPacketCb p id uSerialNo sTypeName sBody
  end.

(** [SendPacket] *)
Definition kj_SendPacket (p uInnerUuid uSerialNo : Z) (sTypeName sBody : string) : th unit :=
  Work_PostPacket p uInnerUuid uSerialNo sTypeName sBody.

(** [CKjServer::OnDisposeClient] *)
Definition kj_OnDisposeClient (srv cl : Z) : th unit :=
  if cl =? 0 then mret tt
  else
    (* dispose *)
    kj_DisposeConnection cl;;
    (* disconnect cb to front end *)
    kj_AddClientDisconnectCb srv cl.

(** ** The isolated connections *)

(** In the front end. *)
Definition kj_Disconnect_isolated (p : Z) : th unit :=
  go ← rd p (λ c, negb (cn_disposed c) && cn_running c);
  if (go : bool) then
    wr p (set_running false);;
    kj_OnDisconnect p;;
    (* release *)
    kj_ReleaseConnection p
  else mret tt.
Definition kj_Reopen (p nDelaySeconds : Z) : th unit :=
  disposed ← rd p cn_disposed;
  if (disposed : bool) then mret tt
  else
    connected ← rd p cn_connected;
    (if (connected : bool) then kj_Disconnect_isolated p else mret tt);;
    Work_IsolatedConnDelayReconnect p nDelaySeconds.

(** In the back end. *)
Definition SetConnectedEventPosted (p : Z) (x : bool) : th unit :=
  modify (λ s, k_set_posted (if x then {[ p ]} ∪ k_posted s else k_posted s ∖ {[ p ]}) s).
Definition kj_OnLowLevelConnect (p : Z) : th unit :=
  (* connect cb to front end *)
  connected ← rd p cn_connected;
  (if (connected : bool) then mret tt else kj_AddIsolatedConnectCb p;; SetConnectedEventPosted p true);;
  (* start read always *)
  via p cn_clnt;;
  via p cn_base.
Definition kj_OnLowLevelDisconnect (p : Z) : th unit :=
  (* disconnect cb to front end *)
  connected ← rd p cn_connected;
  cls ← rd p cn_class;
  posted ← gets (λ s, bool_decide (p ∈ k_posted s));
  if (connected : bool) || match packet_of cls with Inner => posted | Outer => false end then
    kj_AddIsolatedDisconnectCb p;;
    (* can post OnDisconnect() event again *)
    SetConnectedEventPosted p false
  else mret tt.

Definition kj_DelayReconnect (p nDelaySeconds : Z) : th unit :=
  go ← rd p (λ c, negb (cn_delay c) && negb (cn_disposed c));
  if (go : bool) then
    wr p (set_delay true);;
    (* reconnect delay *)
    via p cn_base;;
    note (ATimer p nDelaySeconds)
  else mret tt.
Definition kj_Reconnect (p : Z) : th unit :=
  (* recover running *)
  running ← rd p cn_running;
  (if (running : bool) then mret tt else wr p (set_running true));;
  (* check flushed *)
  flushed ← rd p cn_flushed;
  if (flushed : bool) then
    wr p (SetFlushed false);;
    stream ← rd p cn_clnt;
    (if stream =? 0 then (* create tcp connection *) via p cn_base;; stream ← fresh; wr p (set_clnt stream)
     else mret tt);;
    via p cn_base
  else mret tt.
(** What the timer runs. *)
Definition kj_delay_elapsed (p : Z) : th unit :=
  go ← rd p (λ c, cn_delay c && negb (cn_disposed c));
  if (go : bool) then wr p (set_delay false);; kj_Reconnect p else mret tt.

Definition kj_OnIsolatedError (p : Z) : th unit :=
  (* clear packet because isolated may be reused *)
  via p cn_packet;;
  note (ACleared p);;
  (* event -- disconnect *)
  stream ← rd p cn_clnt;
  (if stream =? 0 then mret tt else kj_OnLowLevelDisconnect p);;
  (* check running *)
  running ← rd p cn_running;
  if (running : bool) then kj_DelayReconnect p RECONNECT_DELAY_SECONDS else mret tt.

Definition kj_Connect (p base : Z) (sIp_or_Hostname : string) (nPort : Z) : th Z :=
  (* is ip or hostname ? *)
  is_ip ← act (λ s, match is_ip_address sIp_or_Hostname with Ok b => Ok (b, s) | Ub u => Ub u end);
  if negb (is_ip : bool) then mret (-1)
  else
    (* init ip and port *)
    wr p (set_target sIp_or_Hostname nPort);;
    (* init base *)
    wr p (set_base base);;
    (* create tcp connection *)
    stream ← fresh;
    wr p (set_clnt stream);;
    (* init packet *)
    packet ← rd p cn_packet;
    (if packet =? 0 then packet ← fresh; wr p (set_packet packet) else mret tt);;
    wr p (set_running true);;
    wr p (SetFlushed false);;
    mret 0.

(** *** Failed tasks *)

(** [taskFailed] only schedules [failed_later]. *)
Definition taskFailed (p : Z) : th unit := modify (λ s, k_set_later (k_later s ++ [p]) s).
Definition failed_later (p : Z) : th unit :=
  (* flush stream *)
  kj_FlushStream p;;
  cls ← rd p cn_class;
  match cls with
  | CClient _ => srv ← rd p cn_ref; kj_OnDisposeClient srv p
  | CIsolated _ _ => (* error *) kj_OnIsolatedError p
  end.
(** kj runs the first function that is scheduled. *)
Definition eval_later : th unit :=
  l ← gets k_later;
  match l with [] => mret tt | p :: l => modify (k_set_later l);; failed_later p end.

(** ** The server *)

Definition new_object (cls : conn_class) (ref : Z) : th Z :=
  id ← act (λ s, let '(id, f) := GetNextConnectionId (k_fac s) in Ok (id, k_set_fac f s));
  p ← fresh;
  modify (λ s, k_set_conns (<[p := new_conn cls id ref 0]> (k_conns s)) s);;
  mret p.
Definition kj_CreateTcpClientOnServer (srv : Z) : th Z :=
  cl ← new_object (CClient false) srv;
  kj_OnAddClient srv cl;;
  mret cl.
(** [CreateTcpIsolated], [CreateTcpIsolated2]; the factory is no object of this model. *)
Definition kj_CreateTcpIsolated (pc : packet_class) : th Z :=
  p ← new_object (CIsolated false pc) 0;
  id ← rd p cn_id;
  on_fac (λ f, set_isolated (<[id := p]> (fa_isolated f)) f);;
  mret p.

Definition kj_OnAcceptClient (srv streamptr : Z) : th unit :=
  cl ← kj_CreateTcpClientOnServer srv;
  if cl =? 0 then mret tt
  else
    (* connection is ready *)
    Work_ConfirmClientIsReady cl streamptr;;
    (* event *)
    kj_OnConnect cl.

(** [Open]: the listener's descriptor decides. *)
Definition kj_Open (port : Z) : Z := if kj_listen port =? -1 then -1 else 0.

(** The accept loop, with a new stream; [ready] is the flag of the event manager. *)
Definition kj_accepted (ready : bool) (srv streamptr : Z) (sPeerIp : string) : th unit :=
  closed ← gets (λ s, bool_decide (srv ∈ k_closed s));
  if (closed : bool) || negb ready then mret tt
  else
    modify (λ s, k_set_streams ({[ (srv, streamptr) ]} ∪ k_streams s) s);;
    AddAcceptClientCb srv streamptr sPeerIp.

Definition kj_FlushDownStream (srv streamptr : Z) : th unit := _ ← kj_RemoveStream srv streamptr; mret tt.

Fixpoint kj_dispose_down_streams (srv : Z) (l : list (Z * Z)) : th unit :=
  match l with
  | [] => mret tt
  | (uConnId, pClient) :: l =>
      (if pClient =? 0 then mret tt
       else
         id ← rd pClient cn_id;
         if id =? uConnId then kj_DisposeConnection pClient;; kj_AddClientDisconnectCb srv pClient else mret tt);;
      kj_dispose_down_streams srv l
  end.
Definition kj_DisposeDownStreams (srv : Z) : th unit :=
  e ← gets (λ s, fa_entries (k_fac s) !! srv);
  match e with None => mret tt | Some clients => kj_dispose_down_streams srv (entries clients) end.

Definition kj_Close (srv : Z) : th unit :=
  closed ← gets (λ s, bool_decide (srv ∈ k_closed s));
  if (closed : bool) then mret tt
  else
    modify (λ s, k_set_streams (filter (λ x, x.1 ≠ srv) (k_streams s)) s);;
    kj_DisposeDownStreams srv;;
    modify (λ s, k_set_closed ({[ srv ]} ∪ k_closed s) s).

(** ** The worker *)

(** The worker's context. *)
Definition endpointContext : Z := 1.

Definition exec_cmd (cmd : net_cmd) : th Z :=
  let p := nc_handle cmd in
  match nc_type cmd with
  | OPEN_TCP_SERVER => mret (kj_Open (nc_port cmd))
  | CLOSE_TCP_SERVER => kj_Close p;; mret 0
  | DISPOSE_CONNECTION => kj_DisposeConnection p;; mret 0
  | POST_PACKET =>
      kj_PostPacket p (nc_inner_uuid cmd) (nc_serial cmd) (nc_type_name cmd) (nc_body cmd);; mret 0
  | FLUSH_TCP_SERVER_DOWNSTREAM => kj_FlushDownStream p (nc_streamptr cmd);; mret 0
  | CONFIRM_CLIENT_IS_READY =>
      ready ← rd p IsReady;
      (if (ready : bool) then kj_ConfirmClientIsReady p endpointContext (nc_streamptr cmd) else mret tt);; mret 0
  | POST_BROADCAST_PACKET => mret 0
  | ISOLATED_CONN_CONNECT => _ ← kj_Connect p endpointContext (nc_ip cmd) (nc_port cmd); mret 0
  | ISOLATED_DELAY_RECONNECT => kj_DelayReconnect p (nc_streamptr cmd);; mret 0
  end.
Definition run_result (cb : result_cb) (r : Z) : th unit :=
  match cb with
  | RIgnore => mret tt
  | RConsume p => wr p IncrBackEndConsumeNum
  | RPromise => modify (k_set_promise (Some r))
  end.

(** The loop of [read_pipe_loop], for at most [fuel] commands. *)
Fixpoint work_loop (fuel : nat) : th unit :=
  match fuel with
  | O => mret tt
  | S fuel =>
      cmd ← act (λ s, let '(cmd, q) := try_dequeue (k_work s) in Ok (cmd, k_set_work q s));
      match cmd with
      | None => mret tt
      | Some cmd => r ← exec_cmd cmd; run_result (nc_result cmd) r;; work_loop fuel
      end
  end.

(** [BlockingCommit]: the caller waits while the worker works off the queue.  None when
    the promise is never kept. *)
Definition BlockingCommit (fuel : nat) (eType : cmd_type) (pHandle : Z) (sIp_or_Hostname : string) (nPort : Z) : th (option Z) :=
  modify (k_set_promise None);;
  sn ← next_sn;
  _ ← Work_Add (NetCmd sn eType pHandle sIp_or_Hostname nPort [] 0 0 0 "" "" RPromise);
  work_loop fuel;;
  gets k_promise.
Definition Work_OpenTcpServer (fuel : nat) (srv nPort : Z) : th (option Z) := BlockingCommit fuel OPEN_TCP_SERVER srv "" nPort.
Definition Work_CloseTcpServer (fuel : nat) (srv : Z) : th (option Z) := BlockingCommit fuel CLOSE_TCP_SERVER srv "" 0.
Definition Work_IsolatedConnConnect (fuel : nat) (p : Z) (sIp_or_Hostname : string) (nPort : Z) : th (option Z) :=
  BlockingCommit fuel ISOLATED_CONN_CONNECT p sIp_or_Hostname nPort.

(** [Finish] sets the flag; the worker ends its tasks. *)
Definition Finish : th unit := modify (k_set_done true).

(** ** The front end's callbacks *)

Definition run_cb (cb : trunk_cb) : th unit :=
  match cb with
  | TAcceptClient srv streamptr _ =>
      closed ← gets (λ s, bool_decide (srv ∈ k_closed s));
      if negb (closed : bool) then kj_OnAcceptClient srv streamptr
      else (* flush downstream to backend through factory *) FlushTcpServerDownStream srv streamptr
  | TClientDisconnect srv cl =>
      wr cl IncrFrontEndConsumeNum;;
      kj_OnDisconnect cl;;
      (* remove and dispose conn *)
      kj_OnRemoveClient srv cl
  | TPacket p _ uSerialNo sTypeName sBody =>
      wr p IncrFrontEndConsumeNum;; note (APacket p uSerialNo sTypeName sBody)
  | TInnerPacket p _ uInnerUuid uSerialNo sTypeName sBody =>
      wr p IncrFrontEndConsumeNum;; note (AInnerPacket p uInnerUuid uSerialNo sTypeName sBody)
  | TIsolatedConnect p => wr p IncrFrontEndConsumeNum;; kj_OnConnect p
  | TIsolatedDisconnect p => wr p IncrFrontEndConsumeNum;; kj_OnDisconnect p
  end.

(** [RunOnce]: at most [ncount] callbacks. *)
Fixpoint run_once (ncount : nat) : th unit :=
  match ncount with
  | O => mret tt
  | S ncount =>
      close ← gets k_close;
      if (close : bool) then mret tt
      else
        cb ← act (λ s, let '(cb, q) := try_dequeue (k_trunk s) in Ok (cb, k_set_trunk q s));
        match cb with
        | None => mret tt
        | Some cb => run_cb cb;; run_once ncount
        end
  end.
Definition RunOnce : th unit := run_once RWQUEUE_CONSUME_WATERLINE.

(** ** What the threads may start *)

(** The methods that a connection inherits. *)
Definition kj_ConnDisconnect (p : Z) : th unit :=
  cls ← rd p cn_class;
  match cls with CClient _ => kj_Disconnect p | CIsolated _ _ => kj_Disconnect_isolated p end.
Definition kj_CloseTcpServer (fuel : nat) (srv : Z) : th unit :=
  _ ← Work_CloseTcpServer fuel srv; on_fac (λ f, set_closed_servers (fa_closed f ++ [srv]) f).

(** Calls of the application and the pipe's reader (F), kj's callbacks (B).  A blocking call
    finds the work queue empty: what was in it, the worker has done before. *)
Inductive kop :=
  | FCreateIsolated (pc : packet_class)
  | FConnect (p : Z) (sIp_or_Hostname : string) (nPort : Z)
  | FOpen (srv nPort : Z)
  | FClose (srv : Z)
  | FSend (p uInnerUuid uSerialNo : Z) (sTypeName sBody : string)
  | FBroadcast (srv : Z) (vTarget : list Z) (sTypeName sBody : string)
  | FDisconnect (p : Z)
  | FReopen (p nDelaySeconds : Z)
  | FRunOnce
  | FRecycle
  | BCommands (n : nat)
  | BAccept (ready : bool) (srv streamptr : Z) (sPeerIp : string)
  | BPacket (p uInnerUuid uSerialNo : Z) (sTypeName sBody : string)
  | BFailed (p : Z)
  | BLowLevelConnect (p : Z)
  | BLowLevelDisconnect (p : Z)
  | BDelayElapsed (p : Z).

Definition run_op (o : kop) : th unit :=
  match o with
  | FCreateIsolated pc => _ ← kj_CreateTcpIsolated pc; mret tt
  | FConnect p ip port => _ ← Work_IsolatedConnConnect 1 p ip port; mret tt
  | FOpen srv port => _ ← Work_OpenTcpServer 1 srv port; mret tt
  | FClose srv => kj_CloseTcpServer 1 srv
  | FSend p uuid serial name body => kj_SendPacket p uuid serial name body
  | FBroadcast srv tgt name body => PostBroadcastPacket srv tgt name body
  | FDisconnect p => kj_ConnDisconnect p
  | FReopen p n => kj_Reopen p n
  | FRunOnce => RunOnce
  | FRecycle => _ ← kj_Recycle; mret tt
  | BCommands n => work_loop n
  | BAccept ready srv sp ip => kj_accepted ready srv sp ip
  | BPacket p uuid serial name body => kj_OnGotPacket p uuid serial name body
  | BFailed p => failed_later p
  | BLowLevelConnect p => kj_OnLowLevelConnect p
  | BLowLevelDisconnect p => kj_OnLowLevelDisconnect p
  | BDelayElapsed p => kj_delay_elapsed p
  end.

(** A factory that has started. *)
Definition kj_init : kj :=
  Kj 1 ∅ (Factory 0 TCP_CONNID_BASE ∅ ∅ 0 [] [] [] []) rwq_new false 0 0 rwq_new
    false 0 ∅ ∅ [] ∅ None [].
End kj.
