(* ===== verification/KjSafe.v ===== *)
(** * Counting messages is safe, and where it is not: the two threads of [KjQueues]

    [kinv] says that the counters of a connection count the messages about it.  Operations of
    both threads in any order keep it, as long as each one runs to its end before the next
    one starts ([counted_safe]); a recycling pass that nothing interrupts deletes only what
    no message names ([recycle_quiet]).  Both fail when the worker interrupts the recycler:
    [recycle_race] is such a schedule.  Behind that stand the histories where the scheme
    fails without an interleaving: [late_failure_dangles], [missed_disconnect],
    [blocking_hangs]. *)

From S2P Require Import Prelude Threads MapOrder Io UvConn UvIsolated ConnManager KjQueues.

#[local] Open Scope string_scope.
#[local] Open Scope list_scope.
#[local] Open Scope Z_scope.

(** ** Runs of one thread *)

Section runs.
Context {rw : RWQueue}.

Lemma twp_on_fac f (Q : unit → kj → Prop) s : Q tt (k_set_fac (f (k_fac s)) s) → twp (on_fac f) Q s.
Proof. done. Qed.
Lemma twp_note e (Q : unit → kj → Prop) s : Q tt (k_set_log (k_log s ++ [e]) s) → twp (note e) Q s.
Proof. done. Qed.
Lemma twp_fresh (Q : Z → kj → Prop) s : Q (k_next s) (k_set_next (k_next s + 1) s) → twp fresh Q s.
Proof. done. Qed.
Lemma twp_with {A} p c (f : conn → kj → A * kj) (Q : A → kj → Prop) s :
  p ≠ 0 → k_conns s !! p = Some c → Q (f c s).1 (f c s).2 → twp (with_conn p f) Q s.
Proof. intros Hp Hc HQ. unfold twp, with_conn, act. cbn. rewrite (proj2 (Z.eqb_neq p 0)), Hc by done. by destruct (f c s). Qed.
Lemma twp_rd {A} p c (f : conn → A) Q s : p ≠ 0 → k_conns s !! p = Some c → Q (f c) s → twp (rd p f) Q s.
Proof. intros. by eapply twp_with. Qed.
Lemma twp_wr p c f (Q : unit → kj → Prop) s :
  p ≠ 0 → k_conns s !! p = Some c → Q tt (k_set_conns (<[p := f c]> (k_conns s)) s) → twp (wr p f) Q s.
Proof. intros. by eapply twp_with. Qed.
End runs.

(** One rule per statement; the connection's record is looked up in the context. *)
Ltac conn_side :=
  cbn [k_conns k_set_conns k_set_fac k_set_work k_set_trunk k_set_sn k_set_thr_op k_set_trunk_op k_set_log k_set_next];
  first [eassumption | rewrite lookup_insert_eq; reflexivity | rewrite lookup_insert_ne by first [assumption|lia|congruence]; conn_side].
Ltac th_step :=
  cbn beta iota delta [negb];
  lazymatch goal with
  | |- twp (_ ≫= _) _ _ => apply twp_bind
  | |- twp (mret _) _ _ => apply twp_ret
  | |- twp (gets _) _ _ => apply twp_gets
  | |- twp (modify _) _ _ => apply twp_modify
  | |- twp (on_fac _) _ _ => apply twp_on_fac
  | |- twp (note _) _ _ => apply twp_note
  | |- twp fresh _ _ => apply twp_fresh
  | |- twp (rd _ _) _ _ => eapply twp_rd; [assumption || lia|conn_side|]
  | |- twp (wr _ _) _ _ => eapply twp_wr; [assumption || lia|conn_side|]
  end.

Section safe.
Context {rw : RWQueue} {ord : MapOrder} {li : KjListen}.

(** ** The invariant *)

(** The connection that a message is about, if it is counted. *)
Definition cmd_about (cmd : net_cmd) : option Z := match nc_result cmd with RConsume p => Some p | _ => None end.
Definition cb_about (cb : trunk_cb) : option Z :=
  match cb with
  | TAcceptClient _ _ _ => None
  | TClientDisconnect _ p | TPacket p _ _ _ _ | TInnerPacket p _ _ _ _ _ | TIsolatedConnect p | TIsolatedDisconnect p => Some p
  end.
(** A command about a connection's object counts it; the one that its sender waits for is
    not in the queue when an operation begins. *)
Definition cmd_ok (cmd : net_cmd) : Prop :=
  match nc_type cmd with
  | DISPOSE_CONNECTION | POST_PACKET | CONFIRM_CLIENT_IS_READY | ISOLATED_DELAY_RECONNECT => nc_result cmd = RConsume (nc_handle cmd)
  | ISOLATED_CONN_CONNECT => False
  | _ => cmd_about cmd = None
  end.

(** A connection with a stream has a context, one with a context has a packet, a disposed
    one has neither. *)
Record conn_wf (c : conn) : Prop := {
  wf_disposed : cn_disposed c = true → cn_clnt c = 0 ∧ cn_base c = 0;
  wf_clnt : cn_clnt c ≠ 0 → cn_base c ≠ 0;
  wf_base : cn_base c ≠ 0 → cn_packet c ≠ 0
}.
(** [DelayReconnect] finds its context. *)
Definition can_delay (c : conn) : Prop := cn_base c ≠ 0 ∨ cn_disposed c = true.

Definition counted {A} (about : A → option Z) (l : list A) (p : Z) : Z :=
  zlen (filter (λ x, about x = Some p) l).

(** [fw] and [ft] are the messages that the worker and the main thread are handling. *)
Record kinv (fw : list net_cmd) (ft : list trunk_cb) (s : kj) : Prop := {
  kv_live p : is_Some (k_conns s !! p) → 0 < p < k_next s;
  kv_next : 0 < k_next s;
  kv_open : k_done s = false ∧ k_close s = false;
  kv_cmds cmd : cmd ∈ fw ++ q_items (k_work s) → cmd_ok cmd ∧ ∀ p, cmd_about cmd = Some p → is_Some (k_conns s !! p);
  kv_cbs cb p : cb ∈ ft ++ q_items (k_trunk s) → cb_about cb = Some p → is_Some (k_conns s !! p);
  kv_front p c : k_conns s !! p = Some c →
    cn_fe_produce c = u32 (cn_be_consume c + counted cmd_about (fw ++ q_items (k_work s)) p);
  kv_back p c : k_conns s !! p = Some c →
    cn_be_produce c = u32 (cn_fe_consume c + counted cb_about (ft ++ q_items (k_trunk s)) p);
  kv_range p c : k_conns s !! p = Some c → 0 ≤ cn_be_consume c < 2 ^ 32 ∧ 0 ≤ cn_fe_consume c < 2 ^ 32;
  kv_wf p c : k_conns s !! p = Some c → conn_wf c;
  kv_delay cmd c : cmd ∈ fw ++ q_items (k_work s) → nc_type cmd = ISOLATED_DELAY_RECONNECT →
    k_conns s !! nc_handle cmd = Some c → can_delay c;
  kv_entries srv id cl : find_client srv id s = Some cl →
    (cl ∉ fa_recycler (k_fac s)) ∧ ∃ c, k_conns s !! cl = Some c ∧ cn_id c = id ∧ cn_ref c = srv;
  kv_recycler p : p ∈ fa_recycler (k_fac s) → is_Some (k_conns s !! p);
  kv_once : NoDup (fa_recycler (k_fac s));
  kv_safe : fa_safe (k_fac s) = []
}.

Lemma kinv_nz fw ft s p c : kinv fw ft s → k_conns s !! p = Some c → p ≠ 0.
Proof. intros Hi Hp. assert (0 < p < k_next s) by (apply (kv_live _ _ _ Hi); by eexists). lia. Qed.

(** Flags, pointers, but neither name nor counters, of a connection change. *)
Record same_core (c c' : conn) : Prop := {
  sc_id : cn_id c' = cn_id c; sc_ref : cn_ref c' = cn_ref c;
  sc_fep : cn_fe_produce c' = cn_fe_produce c; sc_bec : cn_be_consume c' = cn_be_consume c;
  sc_bep : cn_be_produce c' = cn_be_produce c; sc_fec : cn_fe_consume c' = cn_fe_consume c;
  sc_wf : conn_wf c → conn_wf c';
  sc_delay : conn_wf c → can_delay c → can_delay c'
}.

Lemma kinv_wr fw ft s p c c' : kinv fw ft s → k_conns s !! p = Some c → same_core c c' →
  kinv fw ft (k_set_conns (<[p := c']> (k_conns s)) s).
Proof.
  intros [H1 H2 H3 H4 H5 H6 H7 H8 H9 HD H10 H11 H12 H13] Hp [E1 E2 E3 E4 E5 E6 E7 E8].
  assert (∀ q, is_Some (<[p := c']> (k_conns s) !! q) ↔ is_Some (k_conns s !! q)) as Hsome.
  { intros q. destruct (decide (p = q)) as [<-|]; [rewrite lookup_insert_eq, Hp; split; by eexists|by rewrite lookup_insert_ne]. }
  split; cbn [k_conns k_set_conns k_next k_work k_trunk k_fac k_done k_close]; try done.
  - intros q Hq. by apply H1, Hsome.
  - intros cmd Hcmd. destruct (H4 _ Hcmd) as [? Ha]. split; [done|]. intros q Hq. by apply Hsome, Ha.
  - intros cb q Hcb Hq. by eapply Hsome, H5.
  - intros q d. destruct (decide (p = q)) as [<-|]; [rewrite lookup_insert_eq; intros [= <-]; rewrite E3, E4; by apply H6|].
    rewrite lookup_insert_ne by done. apply H6.
  - intros q d. destruct (decide (p = q)) as [<-|]; [rewrite lookup_insert_eq; intros [= <-]; rewrite E5, E6; by apply H7|].
    rewrite lookup_insert_ne by done. apply H7.
  - intros q d. destruct (decide (p = q)) as [<-|]; [rewrite lookup_insert_eq; intros [= <-]; rewrite E4, E6; by eapply H8|].
    rewrite lookup_insert_ne by done. apply H8.
  - intros q d. destruct (decide (p = q)) as [<-|]; [rewrite lookup_insert_eq; intros [= <-]; eauto|].
    rewrite lookup_insert_ne by done. apply H9.
  - intros cmd d Hcmd Hty. destruct (decide (p = nc_handle cmd)) as [->|]; [rewrite lookup_insert_eq; intros [= <-]; eauto|].
    rewrite lookup_insert_ne by done. by apply HD.
  - intros srv id cl Hcl. destruct (H10 srv id cl Hcl) as (? & d & Hd & F1 & F2). split; [done|].
    destruct (decide (p = cl)) as [<-|]; [|exists d; by rewrite lookup_insert_ne].
    exists c'. rewrite lookup_insert_eq. rewrite Hp in Hd. injection Hd as <-. by rewrite E1, E2.
  - intros q Hq. by apply Hsome, H11.
Qed.

(** Parts of the state that the invariant does not mention. *)
Lemma kinv_ext fw ft s s' : kinv fw ft s → k_conns s' = k_conns s → k_next s ≤ k_next s' → k_done s' = k_done s → k_close s' = k_close s →
  k_work s' = k_work s → k_trunk s' = k_trunk s → k_fac s' = k_fac s → kinv fw ft s'.
Proof.
  intros [H1 H2 H3 H4 H5 H6 H7 H8 H9 HD H10 H11 H12 H13] E1 E2 E3 E4 E5 E6 E7.
  split; rewrite ?E1, ?E3, ?E4, ?E5, ?E6, ?E7; try done; try lia.
  - intros p Hp%H1. lia.
  - intros srv id cl. unfold find_client. rewrite E7. apply H10.
Qed.

Lemma counted_app {A} (about : A → option Z) l1 l2 p : counted about (l1 ++ l2) p = counted about l1 p + counted about l2 p.
Proof. unfold counted. rewrite filter_app, length_app. lia. Qed.
Lemma counted_one {A} (about : A → option Z) x p : counted about [x] p = if decide (about x = Some p) then 1 else 0.
Proof. unfold counted. rewrite filter_cons. by case_decide. Qed.
Lemma counted_nonneg {A} (about : A → option Z) l p : 0 ≤ counted about l p ≤ zlen l.
Proof. unfold counted. pose proof (length_filter (λ x, about x = Some p) l). lia. Qed.
Lemma u32_S x n : u32 (u32 (x + n) + 1) = u32 (x + (n + 1)).
Proof. unfold wrapu. rewrite Zplus_mod_idemp_l. f_equal. lia. Qed.

(** ** Messages *)

Lemma range_incr x : 0 ≤ u32 (x + 1) < 2 ^ 32.
Proof. apply Z.mod_pos_bound. lia. Qed.

(** A connection whose counters move with the queues. *)
Lemma kinv_counter fw ft fw' ft' s s' p c c' : kinv fw ft s → k_conns s !! p = Some c →
  k_conns s' = <[p := c']> (k_conns s) → k_next s' = k_next s → k_done s' = k_done s → k_close s' = k_close s → k_fac s' = k_fac s →
  cn_id c' = cn_id c → cn_ref c' = cn_ref c → (conn_wf c → conn_wf c') → (can_delay c → can_delay c') →
  0 ≤ cn_be_consume c' < 2 ^ 32 ∧ 0 ≤ cn_fe_consume c' < 2 ^ 32 →
  (∀ cmd, cmd ∈ fw' ++ q_items (k_work s') → cmd ∈ fw ++ q_items (k_work s) ∨
    cmd_ok cmd ∧ cmd_about cmd = Some p ∧ (nc_type cmd = ISOLATED_DELAY_RECONNECT → can_delay c)) →
  (∀ cb, cb ∈ ft' ++ q_items (k_trunk s') → cb ∈ ft ++ q_items (k_trunk s) ∨ cb_about cb = Some p) →
  (∀ x, x ≠ p → counted cmd_about (fw' ++ q_items (k_work s')) x = counted cmd_about (fw ++ q_items (k_work s)) x) →
  (∀ x, x ≠ p → counted cb_about (ft' ++ q_items (k_trunk s')) x = counted cb_about (ft ++ q_items (k_trunk s)) x) →
  cn_fe_produce c' = u32 (cn_be_consume c' + counted cmd_about (fw' ++ q_items (k_work s')) p) →
  cn_be_produce c' = u32 (cn_fe_consume c' + counted cb_about (ft' ++ q_items (k_trunk s')) p) →
  kinv fw' ft' s'.
Proof.
  intros [H1 H2 H3 H4 H5 H6 H7 H8 H9 HD H10 H11 H12 H13] Hp Ec En Ed Ecl Ef Ei Er Edi Est Hr Hw Ht Cw Ct Cf Cb.
  assert (∀ x, is_Some (k_conns s' !! x) ↔ is_Some (k_conns s !! x)) as Hs.
  { intros x. rewrite Ec. destruct (decide (p = x)) as [<-|]; [rewrite lookup_insert_eq, Hp; split; by eexists|by rewrite lookup_insert_ne]. }
  assert (∀ x d, k_conns s' !! x = Some d → (x = p ∧ d = c') ∨ (x ≠ p ∧ k_conns s !! x = Some d)) as Hd.
  { intros x d. rewrite Ec. destruct (decide (p = x)) as [<-|Hne]; [rewrite lookup_insert_eq; intros [= <-]; by left|].
    rewrite lookup_insert_ne by done. by right. }
  split; rewrite ?En, ?Ed, ?Ecl, ?Ef; try done.
  - intros x Hx. by apply H1, Hs.
  - intros cmd [Hin|(Hok & Hab & _)]%Hw.
    + destruct (H4 _ Hin) as [? Ha]. split; [done|]. intros x Hx. by apply Hs, Ha.
    + split; [done|]. intros x. rewrite Hab. intros [= <-]. apply Hs. by eexists.
  - intros cb x [Hin|Hab]%Ht Hx; [by eapply Hs, H5|]. rewrite Hab in Hx. injection Hx as <-. apply Hs. by eexists.
  - intros x d [[-> ->]|[Hx Hdx]]%Hd; [done|]. rewrite Cw by done. by apply H6.
  - intros x d [[-> ->]|[Hx Hdx]]%Hd; [done|]. rewrite Ct by done. by apply H7.
  - intros x d [[-> ->]|[Hx Hdx]]%Hd; [done|by eapply H8].
  - intros x d [[-> ->]|[Hx Hdx]]%Hd; [by eapply Edi, H9|by eapply H9].
  - intros cmd d Hcmd Hty [[Ex ->]|[Hx Hdx]]%Hd.
    + apply Est. destruct (Hw _ Hcmd) as [Hin|(_ & _ & Hdl)]; [|by apply Hdl]. eapply HD; [done..|]. by rewrite Ex.
    + destruct (Hw _ Hcmd) as [Hin|(Hok & Hab & _)]; [by eapply HD|]. unfold cmd_ok in Hok. rewrite Hty in Hok.
      unfold cmd_about in Hab. rewrite Hok in Hab. congruence.
  - intros srv id cl. unfold find_client. rewrite Ef. intros Hcl. destruct (H10 srv id cl Hcl) as (? & e & He & F1 & F2).
    split; [done|]. rewrite Ec. destruct (decide (p = cl)) as [<-|]; [|exists e; by rewrite lookup_insert_ne].
    simplify_eq. exists c'. by rewrite lookup_insert_eq, Ei, Er.
  - intros x Hx. by apply Hs, H11.
Qed.

Lemma elem_of_snoc {A} (l1 l2 : list A) x y : y ∈ l1 ++ l2 ++ [x] → y ∈ l1 ++ l2 ∨ y = x.
Proof. rewrite app_assoc, elem_of_app, list_elem_of_singleton. done. Qed.
Lemma counted_snoc {A} (about : A → option Z) l1 l2 x p :
  counted about (l1 ++ l2 ++ [x]) p = counted about (l1 ++ l2) p + if decide (about x = Some p) then 1 else 0.
Proof. by rewrite app_assoc, counted_app, counted_one. Qed.

(** A queue that has one message more, and a counter that says so. *)
Lemma kinv_work_push fw ft s cmd p c s' : kinv fw ft s → cmd_ok cmd → cmd_about cmd = Some p → k_conns s !! p = Some c →
  (nc_type cmd = ISOLATED_DELAY_RECONNECT → can_delay c) → q_items (k_work s') = q_items (k_work s) ++ [cmd] → k_conns s' = <[p := IncrFrontEndProduceNum c]> (k_conns s) →
  k_next s' = k_next s → k_done s' = k_done s → k_close s' = k_close s → k_trunk s' = k_trunk s → k_fac s' = k_fac s →
  kinv fw ft s'.
Proof.
  intros Hi Hok Hab Hp Hdl Eq Ec En Ed Ecl Et Ef.
  eapply (kinv_counter fw ft fw ft s s' p c); try done; rewrite ?Eq, ?Et; try done; cbn; try by intros [].
  - by eapply (kv_range _ _ _ Hi).
  - intros cmd' [Hin| ->]%elem_of_snoc; [by left|by right].
  - intros cb Hin. by left.
  - intros x Hx. rewrite counted_snoc, Hab, decide_False by congruence. lia.
  - rewrite counted_snoc, Hab, decide_True by done. rewrite (kv_front _ _ _ Hi _ _ Hp). apply u32_S.
  - by apply (kv_back _ _ _ Hi).
Qed.
Lemma kinv_trunk_push fw ft s cb p c s' : kinv fw ft s → cb_about cb = Some p → k_conns s !! p = Some c →
  q_items (k_trunk s') = q_items (k_trunk s) ++ [cb] → k_conns s' = <[p := IncrBackEndProduceNum c]> (k_conns s) →
  k_next s' = k_next s → k_done s' = k_done s → k_close s' = k_close s → k_work s' = k_work s → k_fac s' = k_fac s →
  kinv fw ft s'.
Proof.
  intros Hi Hab Hp Eq Ec En Ed Ecl Ew Ef.
  eapply (kinv_counter fw ft fw ft s s' p c); try done; rewrite ?Eq, ?Ew; try done; cbn; try by intros [].
  - by eapply (kv_range _ _ _ Hi).
  - intros cmd Hin. by left.
  - intros cb' [Hin| ->]%elem_of_snoc; [by left|by right].
  - intros x Hx. rewrite counted_snoc, Hab, decide_False by congruence. lia.
  - by apply (kv_front _ _ _ Hi).
  - rewrite counted_snoc, Hab, decide_True by done. rewrite (kv_back _ _ _ Hi _ _ Hp). apply u32_S.
Qed.

(** The message in hand is done with. *)
Lemma counted_cons {A} (about : A → option Z) x l p :
  counted about (x :: l) p = (if decide (about x = Some p) then 1 else 0) + counted about l p.
Proof. change (x :: l) with ([x] ++ l). by rewrite counted_app, counted_one. Qed.
Lemma u32_shift x n : u32 (x + (1 + n)) = u32 (u32 (x + 1) + n).
Proof. unfold wrapu. rewrite Zplus_mod_idemp_l. f_equal. lia. Qed.

Lemma kinv_work_done cmd ft s p c : kinv [cmd] ft s → cmd_about cmd = Some p → k_conns s !! p = Some c →
  kinv [] ft (k_set_conns (<[p := IncrBackEndConsumeNum c]> (k_conns s)) s).
Proof.
  intros Hi Hab Hp. eapply (kinv_counter [cmd] ft [] ft s _ p c); try done; cbn; try by intros [].
  - split; [apply range_incr|by eapply (kv_range _ _ _ Hi)].
  - intros cmd' Hin. left. by right.
  - intros cb Hin. by left.
  - intros x Hx. rewrite counted_cons, Hab, decide_False by congruence. lia.
  - rewrite (kv_front _ _ _ Hi _ _ Hp). cbn. rewrite counted_cons, Hab, decide_True by done. apply u32_shift.
  - by apply (kv_back _ _ _ Hi).
Qed.
Lemma kinv_trunk_done fw cb s p c : kinv fw [cb] s → cb_about cb = Some p → k_conns s !! p = Some c →
  kinv fw [] (k_set_conns (<[p := IncrFrontEndConsumeNum c]> (k_conns s)) s).
Proof.
  intros Hi Hab Hp. eapply (kinv_counter fw [cb] fw [] s _ p c); try done; cbn; try by intros [].
  - split; [by eapply (kv_range _ _ _ Hi)|apply range_incr].
  - intros cmd Hin. by left.
  - intros cb' Hin. left. by right.
  - intros x Hx. rewrite counted_cons, Hab, decide_False by congruence. lia.
  - by apply (kv_front _ _ _ Hi).
  - rewrite (kv_back _ _ _ Hi _ _ Hp). cbn. rewrite counted_cons, Hab, decide_True by done. apply u32_shift.
Qed.

(** Messages that are not counted. *)
Lemma kinv_queues fw ft s s' : kinv fw ft s → k_conns s' = k_conns s → k_next s' = k_next s → k_done s' = k_done s → k_close s' = k_close s →
  k_fac s' = k_fac s →
  (∃ l, q_items (k_work s') = q_items (k_work s) ++ l ∧ Forall (λ cmd, cmd_ok cmd ∧ cmd_about cmd = None) l) →
  (∃ l, q_items (k_trunk s') = q_items (k_trunk s) ++ l ∧ Forall (λ cb, cb_about cb = None) l) → kinv fw ft s'.
Proof.
  intros [H1 H2 H3 H4 H5 H6 H7 H8 H9 HD H10 H11 H12 H13] E1 E2 E3 E4 E5 (lw & Ew & Hw) (lt & Et & Ht).
  rewrite Forall_forall in Hw. rewrite Forall_forall in Ht.
  assert (∀ A (about : A → option Z) l p, (∀ x, x ∈ l → about x = None) → counted about l p = 0) as Hz.
  { intros A about l p Hl. unfold counted. assert (filter (λ x, about x = Some p) l = []) as ->; [|done].
    apply elem_of_nil_inv. intros x [Hx1 Hx2]%list_elem_of_filter. rewrite Hl in Hx1; done. }
  split; rewrite ?E1, ?E2, ?E3, ?E4, ?E5; try done.
  - intros cmd. rewrite Ew, app_assoc, elem_of_app. intros [Hin|Hin]; [by apply H4|]. destruct (Hw _ Hin) as [? Hn].
    split; [done|]. intros p. by rewrite Hn.
  - intros cb p. rewrite Et, app_assoc, elem_of_app. intros [Hin|Hin]; [by eapply H5|]. by rewrite (Ht _ Hin).
  - intros p c Hp. rewrite Ew, app_assoc, counted_app, (Hz _ _ lw p), Z.add_0_r; [by apply H6|]. intros x Hx. by apply Hw.
  - intros p c Hp. rewrite Et, app_assoc, counted_app, (Hz _ _ lt p), Z.add_0_r; [by apply H7|]. intros x Hx. by apply Ht.
  - intros cmd c. rewrite Ew, app_assoc, elem_of_app. intros [Hin|Hin] Hty; [by eapply HD|]. destruct (Hw _ Hin) as [Hok Hn].
    unfold cmd_ok in Hok. rewrite Hty in Hok. unfold cmd_about in Hn. by rewrite Hok in Hn.
  - intros srv id cl. unfold find_client. rewrite E5. apply H10.
Qed.

Lemma kinv_pop_work fw ft s cmd q : kinv fw ft s → fw = [] → q_items (k_work s) = cmd :: q_items q → kinv [cmd] ft (k_set_work q s).
Proof.
  intros [H1 H2 H3 H4 H5 H6 H7 H8 H9 HD H10 H11 H12 H13] -> Eq. rewrite Eq in *. by split.
Qed.
Lemma kinv_pop_trunk fw ft s cb q : kinv fw ft s → ft = [] → q_items (k_trunk s) = cb :: q_items q → kinv fw [cb] (k_set_trunk q s).
Proof.
  intros [H1 H2 H3 H4 H5 H6 H7 H8 H9 HD H10 H11 H12 H13] -> Eq. rewrite Eq in *. by split.
Qed.
Lemma dequeue_cases {A} (q : rwq A) :
  (∃ x q', try_dequeue q = (Some x, q') ∧ q_items q = x :: q_items q') ∨
  (∃ q', try_dequeue q = (None, q') ∧ q_items q = [] ∧ q_items q' = []).
Proof.
  pose proof (try_dequeue_items _ q) as [H1 H2]. destruct (try_dequeue q) as [o q']. cbn in *.
  destruct (q_items q) as [|x l]; subst o; [right; by exists q'|left]. exists x, q'. by rewrite H2.
Qed.
(** A queue that was found empty. *)
Lemma kinv_empty_work fw ft s q : kinv fw ft s → q_items (k_work s) = [] → q_items q = [] → kinv fw ft (k_set_work q s).
Proof. intros Hi E1 E2. eapply (kinv_queues _ _ s); try done; exists []; cbn; by rewrite ?E1, ?E2, ?app_nil_r. Qed.
Lemma kinv_empty_trunk fw ft s q : kinv fw ft s → q_items (k_trunk s) = [] → q_items q = [] → kinv fw ft (k_set_trunk q s).
Proof. intros Hi E1 E2. eapply (kinv_queues _ _ s); try done; exists []; cbn; by rewrite ?E1, ?E2, ?app_nil_r. Qed.
Lemma kinv_work_drop cmd ft s : kinv [cmd] ft s → cmd_about cmd = None → kinv [] ft s.
Proof.
  intros [H1 H2 H3 H4 H5 H6 H7 H8 H9 HD H10 H11 H12 H13] Hn. split; try done.
  - intros cmd' Hin. apply H4. by right.
  - intros p c Hp. rewrite (H6 _ _ Hp). cbn [app]. by rewrite counted_cons, Hn, decide_False.
  - intros cmd' c Hin. apply HD. by right.
Qed.
Lemma kinv_trunk_drop fw cb s : kinv fw [cb] s → cb_about cb = None → kinv fw [] s.
Proof.
  intros [H1 H2 H3 H4 H5 H6 H7 H8 H9 HD H10 H11 H12 H13] Hn. split; try done.
  - intros cb' p Hin. apply H5. by right.
  - intros p c Hp. rewrite (H7 _ _ Hp). cbn [app]. by rewrite counted_cons, Hn, decide_False.
Qed.

(** *** Sending *)

Lemma twp_Work_Add cmd (Q : bool → kj → Prop) s : k_done s = false →
  (∀ s', q_items (k_work s') = q_items (k_work s) ++ [cmd] → k_conns s' = k_conns s → k_next s' = k_next s → k_done s' = k_done s →
    k_close s' = k_close s → k_trunk s' = k_trunk s → k_fac s' = k_fac s → Q true s') → twp (Work_Add cmd) Q s.
Proof.
  intros Hd HQ. unfold Work_Add. do 2 th_step. rewrite Hd. th_step.
  pose proof (enqueue_items _ (k_work s) cmd) as [Eq Ek]. destruct (enqueue (k_work s) cmd) as [q ok] eqn:E. cbn [fst snd] in *.
  eapply twp_act; [by rewrite E|]. subst ok. do 3 th_step. by apply HQ.
Qed.
Lemma twp_Trunk_Add cb (Q : unit → kj → Prop) s : k_close s = false →
  (∀ s', q_items (k_trunk s') = q_items (k_trunk s) ++ [cb] → k_conns s' = k_conns s → k_next s' = k_next s → k_done s' = k_done s →
    k_close s' = k_close s → k_work s' = k_work s → k_fac s' = k_fac s → Q tt s') → twp (Trunk_Add cb) Q s.
Proof.
  intros Hd HQ. unfold Trunk_Add. th_step. unfold CallbackQueue_Add. do 2 th_step. rewrite Hd. th_step.
  pose proof (enqueue_items _ (k_trunk s) cb) as [Eq Ek]. destruct (enqueue (k_trunk s) cb) as [q ok] eqn:E. cbn [fst snd] in *.
  eapply twp_act; [by rewrite E|]. subst ok. do 3 th_step. cbn beta.
  match goal with |- twp (if ?b then _ else _) _ _ => destruct b end; repeat th_step; by apply HQ.
Qed.

Lemma twp_Commit ty p tgt sp uu ser name body res (Q : unit → kj → Prop) s : k_done s = false →
  (∀ s' sn, q_items (k_work s') = q_items (k_work s) ++ [NetCmd sn ty p "" 0 tgt sp uu ser name body res] →
    k_conns s' = k_conns s → k_next s' = k_next s → k_done s' = k_done s →
    k_close s' = k_close s → k_trunk s' = k_trunk s → k_fac s' = k_fac s → Q tt s') →
  twp (Commit ty p tgt sp uu ser name body res) Q s.
Proof.
  intros Hd HQ. unfold Commit, next_sn. th_step. eapply twp_act; [done|]. th_step. eapply twp_Work_Add; [done|].
  intros s' E1 E2 E3 E4 E5 E6 E7. cbn beta. th_step. by eapply HQ.
Qed.

(** What a step of the front end leaves alone. *)
Definition front (s s' : kj) : Prop := k_fac s' = k_fac s ∧ k_next s' = k_next s.
(** Connections keep their name, their server, and a context until they are disposed of. *)
Definition names (s s' : kj) : Prop :=
  ∀ p c, k_conns s !! p = Some c → ∃ c', k_conns s' !! p = Some c' ∧
    (cn_id c' = cn_id c ∧ cn_ref c' = cn_ref c) ∧ (can_delay c → can_delay c').
Lemma names_refl s : names s s.
Proof. intros p c Hp. by exists c. Qed.
Lemma names_trans s1 s2 s3 : names s1 s2 → names s2 s3 → names s1 s3.
Proof.
  intros H12 H23 p c Hp. destruct (H12 _ _ Hp) as (c2 & Hc2 & [E1 E2] & D1). destruct (H23 _ _ Hc2) as (c3 & Hc3 & [F1 F2] & D2).
  exists c3. split; [done|]. split; [split; congruence|auto].
Qed.
Lemma names_eq s s' : k_conns s' = k_conns s → names s s'.
Proof. intros E p c Hp. exists c. by rewrite E. Qed.
Lemma names_insert s s' p c c' : k_conns s !! p = Some c → k_conns s' = <[p := c']> (k_conns s) → cn_id c' = cn_id c → cn_ref c' = cn_ref c →
  (can_delay c → can_delay c') → names s s'.
Proof.
  intros Hp E E1 E2 D q d Hq. rewrite E. destruct (decide (p = q)) as [<-|]; [|exists d; by rewrite lookup_insert_ne].
  simplify_eq. exists c'. by rewrite lookup_insert_eq.
Qed.

Lemma twp_command fw ft s p c ty tgt sp uu ser name body (Q : unit → kj → Prop) : kinv fw ft s → k_conns s !! p = Some c →
  (∀ sn, cmd_ok (NetCmd sn ty p "" 0 tgt sp uu ser name body (RConsume p))) → (ty = ISOLATED_DELAY_RECONNECT → can_delay c) →
  (∀ s', kinv fw ft s' → front s s' → names s s' → Q tt s') →
  twp (wr p IncrFrontEndProduceNum;; Commit ty p tgt sp uu ser name body (RConsume p)) Q s.
Proof.
  intros Hi Hp Hty Hdl HQ. pose proof (kinv_nz _ _ _ _ _ Hi Hp). do 2 th_step. cbn beta. apply twp_Commit; [apply Hi|].
  intros s' sn Ew Ec En Ed Ecl Et Ef. cbn [k_work k_trunk k_conns k_next k_done k_close k_fac k_set_conns] in *. apply HQ; [|done|].
  - eapply (kinv_work_push _ _ s _ p c); try done.
  - by eapply names_insert.
Qed.
Lemma twp_callback_conns fw ft s p c cb (Q : unit → kj → Prop) : kinv fw ft s → k_conns s !! p = Some c → cb_about cb = Some p →
  (∀ s', kinv fw ft s' → front s s' → k_conns s' = <[p := IncrBackEndProduceNum c]> (k_conns s) → Q tt s') →
  twp (wr p IncrBackEndProduceNum;; Trunk_Add cb) Q s.
Proof.
  intros Hi Hp Hab HQ. pose proof (kinv_nz _ _ _ _ _ Hi Hp). do 2 th_step. apply twp_Trunk_Add; [apply Hi|].
  intros s' Ew Ec En Ed Ecl Et Ef. cbn [k_work k_trunk k_conns k_next k_done k_close k_fac k_set_conns] in *. apply HQ; [|done|done].
  by eapply (kinv_trunk_push _ _ s _ p c).
Qed.
Lemma twp_callback fw ft s p c cb (Q : unit → kj → Prop) : kinv fw ft s → k_conns s !! p = Some c → cb_about cb = Some p →
  (∀ s', kinv fw ft s' → front s s' → names s s' → Q tt s') →
  twp (wr p IncrBackEndProduceNum;; Trunk_Add cb) Q s.
Proof.
  intros Hi Hp Hab HQ. eapply twp_callback_conns; [done..|]. intros s' Hi' Hf E. apply HQ; [done|done|]. by eapply names_insert.
Qed.

(** *** Connections *)

Lemma twp_wr_core fw ft s p c f (Q : unit → kj → Prop) : kinv fw ft s → k_conns s !! p = Some c → same_core c (f c) →
  (∀ s', kinv fw ft s' → front s s' → names s s' → k_conns s' = <[p := f c]> (k_conns s) → Q tt s') → twp (wr p f) Q s.
Proof.
  intros Hi Hp Hc HQ. pose proof (kinv_nz _ _ _ _ _ Hi Hp). th_step. apply HQ; [by eapply kinv_wr|done| |done].
  eapply names_insert; [done|reflexivity|apply Hc|apply Hc|]. by eapply sc_delay, kv_wf.
Qed.

Ltac core := split; try done; cbn; try by intros [].

Lemma twp_OnDisconnect fw ft s p c (Q : unit → kj → Prop) : kinv fw ft s → k_conns s !! p = Some c →
  (∀ s', kinv fw ft s' → front s s' → names s s' → Q tt s') → twp (kj_OnDisconnect p) Q s.
Proof.
  intros Hi Hp HQ. pose proof (kinv_nz _ _ _ _ _ Hi Hp). unfold kj_OnDisconnect. do 2 th_step. destruct (cn_connected c).
  - th_step. eapply twp_wr_core; [done..|core|]. intros s' Hi' Hf' Hn' _. cbn beta. th_step. apply HQ; [|done|done].
    by eapply kinv_ext; [exact Hi'|..].
  - th_step. apply HQ; [done|done|apply names_refl].
Qed.
Lemma twp_OnConnect fw ft s p c (Q : unit → kj → Prop) : kinv fw ft s → k_conns s !! p = Some c →
  (∀ s', kinv fw ft s' → front s s' → names s s' → Q tt s') → twp (kj_OnConnect p) Q s.
Proof.
  intros Hi Hp HQ. pose proof (kinv_nz _ _ _ _ _ Hi Hp). unfold kj_OnConnect. do 2 th_step.
  destruct (cn_running c && negb (cn_connected c)).
  - th_step. eapply twp_wr_core; [done..|core|]. intros s' Hi' Hf' Hn' _. cbn beta. th_step. apply HQ; [|done|done].
    by eapply kinv_ext; [exact Hi'|..].
  - th_step. apply HQ; [done|done|apply names_refl].
Qed.

(** What disposing makes of a connection. *)
Definition kj_disposed (c : conn) : conn :=
  if cn_disposed c then c
  else set_base 0 (set_clnt 0 (SetFlushed (cn_flushed c || negb (cn_clnt c =? 0)) (set_packet 0 (SetDisposed true c)))).

Lemma twp_FlushStream s p c (Q : unit → kj → Prop) : p ≠ 0 → k_conns s !! p = Some c →
  Q tt (k_set_conns (<[p := SetFlushed (cn_flushed c || negb (cn_clnt c =? 0)) c]> (k_conns s)) s) → twp (kj_FlushStream p) Q s.
Proof.
  intros Hp0 Hp HQ. unfold kj_FlushStream. do 2 th_step. destruct (negb (cn_clnt c =? 0)) eqn:E1, (cn_flushed c) eqn:E2; cbn [andb orb negb] in *.
  1, 3, 4: th_step; match type of HQ with context [k_set_conns (<[_ := ?d]> _) _] => assert (d = c) as Ed by (destruct c; cbn in *; by subst) end;
    rewrite Ed, insert_id in HQ by done; by destruct s.
  by th_step.
Qed.

Lemma twp_DisposeConnection fw ft s p c (Q : unit → kj → Prop) : kinv fw ft s → k_conns s !! p = Some c →
  (∀ s', kinv fw ft s' → front s s' → names s s' → k_conns s' = <[p := kj_disposed c]> (k_conns s) → Q tt s') →
  twp (kj_DisposeConnection p) Q s.
Proof.
  intros Hi Hp HQ. pose proof (kinv_nz _ _ _ _ _ Hi Hp). unfold kj_DisposeConnection. do 2 th_step. unfold kj_disposed in HQ.
  destruct (cn_disposed c) eqn:Ed.
  { th_step. apply HQ; [done|done|apply names_refl|]. by rewrite insert_id. }
  do 5 th_step. eapply twp_FlushStream; [done|conn_side|]. do 3 th_step.
  cbn [k_conns k_set_conns]. rewrite !insert_insert_eq. cbn [cn_flushed cn_clnt set_packet SetDisposed].
  match goal with |- Q _ ?s1 => assert (s1 = k_set_conns (<[p := set_base 0 (set_clnt 0 (SetFlushed (cn_flushed c || negb (cn_clnt c =? 0))
    (set_packet 0 (SetDisposed true c))))]> (k_conns s)) s) as E1 by done; rewrite E1 end.
  apply HQ; [|done| |done].
  - eapply kinv_wr; [done..|]. core; by right.
  - eapply names_insert; [done|done|done|done|by right].
Qed.

(** *** The front end *)

(** The manager changes. *)
Lemma kinv_fac fw ft s f : kinv fw ft s →
  (∀ srv id cl, find_client srv id (k_set_fac f s) = Some cl →
    (cl ∉ fa_recycler f) ∧ ∃ c, k_conns s !! cl = Some c ∧ cn_id c = id ∧ cn_ref c = srv) →
  (∀ p, p ∈ fa_recycler f → is_Some (k_conns s !! p)) → NoDup (fa_recycler f) → fa_safe f = [] →
  kinv fw ft (k_set_fac f s).
Proof. intros [] He Hr Hn Hs. by split. Qed.

(** A client leaves its server's map for the recycler. *)
Lemma kinv_removed fw ft s srv id p : kinv fw ft s → find_client srv id s = Some p →
  kinv fw ft (k_set_fac (decr_count (set_recycler (fa_recycler (k_fac s) ++ [p]) (erase_client srv id (k_fac s)))) s).
Proof.
  intros Hi Hp. destruct (kv_entries _ _ _ Hi _ _ _ Hp) as (Hr & c & Hc & Ei & Er). apply kinv_fac; [done|..]; cbn.
  - intros srv' id' cl. unfold find_client. cbn. intros Hcl.
    assert (find_client srv' id' s = Some cl ∧ (srv' = srv → id' ≠ id)) as [Hold Hne].
    { unfold find_client. revert Hcl. destruct (decide (srv = srv')) as [<-|]; [rewrite lookup_alter_eq|rewrite lookup_alter_ne by done].
      - destruct (fa_entries (k_fac s) !! srv) as [m|]; [|done]. cbn. intros [Hne ?]%lookup_delete_Some. by split; [|intros _ ?].
      - intros ?. split; [done|]. by intros ->. }
    destruct (kv_entries _ _ _ Hi _ _ _ Hold) as (Hr' & d & Hd & Ei' & Er'). split; [|by exists d].
    rewrite not_elem_of_app, list_elem_of_singleton. split; [done|]. intros ->. rewrite Hc in Hd. injection Hd as <-. apply Hne; congruence.
  - intros q [Hq|Hq%list_elem_of_singleton]%elem_of_app; [by eapply kv_recycler|]. subst q. by eexists.
  - apply NoDup_app. split; [apply Hi|]. split; [|apply NoDup_singleton]. intros q Hq ->%list_elem_of_singleton. done.
  - apply Hi.
Qed.

Lemma twp_OnRemoveClient fw ft s srv cl c (Q : unit → kj → Prop) : kinv fw ft s → k_conns s !! cl = Some c →
  (∀ s', kinv fw ft s' → names s s' → Q tt s') → twp (kj_OnRemoveClient srv cl) Q s.
Proof.
  intros Hi Hc HQ. pose proof (kinv_nz _ _ _ _ _ Hi Hc). unfold kj_OnRemoveClient. do 4 th_step.
  destruct (find_client srv (cn_id c) s) as [p|] eqn:Ef; [|th_step; apply HQ; [done|apply names_refl]].
  destruct (kv_entries _ _ _ Hi _ _ _ Ef) as (Hr & d & Hd & Ei & Er).
  th_step. eapply (twp_command _ _ s p d); [done..|]. intros s1 Hi1 [Ff En] Hn. do 5 th_step.
  apply HQ.
  - apply (kinv_removed _ _ s1); [done|]. unfold find_client. rewrite Ff. exact Ef.
  - eapply names_trans; [exact Hn|by apply names_eq].
Qed.

Lemma twp_Disconnect fw ft s cl c (Q : unit → kj → Prop) : kinv fw ft s → k_conns s !! cl = Some c →
  (∀ s', kinv fw ft s' → names s s' → Q tt s') → twp (kj_Disconnect cl) Q s.
Proof.
  intros Hi Hc HQ. pose proof (kinv_nz _ _ _ _ _ Hi Hc). unfold kj_Disconnect. do 2 th_step.
  destruct (negb (cn_disposed c) && cn_running c); [|th_step; apply HQ; [done|apply names_refl]].
  th_step. eapply twp_wr_core; [done..|core|]. intros s1 Hi1 Hf1 Hn1 E1. cbn beta.
  assert (k_conns s1 !! cl = Some (set_running false c)) as Hc1 by (rewrite E1; apply lookup_insert_eq).
  th_step. eapply twp_OnDisconnect; [done..|]. intros s2 Hi2 Hf2 Hn2. cbn beta. destruct (Hn2 _ _ Hc1) as (c2 & Hc2 & _).
  pose proof (kinv_nz _ _ _ _ _ Hi2 Hc2). do 2 th_step. eapply twp_OnRemoveClient; [done..|]. intros s3 Hi3 Hn3.
  apply HQ; [done|]. by eapply names_trans, names_trans.
Qed.

Lemma twp_Disconnect_isolated fw ft s p c (Q : unit → kj → Prop) : kinv fw ft s → k_conns s !! p = Some c →
  (∀ s', kinv fw ft s' → front s s' → names s s' → Q tt s') → twp (kj_Disconnect_isolated p) Q s.
Proof.
  intros Hi Hc HQ. pose proof (kinv_nz _ _ _ _ _ Hi Hc). unfold kj_Disconnect_isolated. do 2 th_step.
  destruct (negb (cn_disposed c) && cn_running c); [|th_step; apply HQ; [done|done|apply names_refl]].
  th_step. eapply twp_wr_core; [done..|core|]. intros s1 Hi1 Hf1 Hn1 E1. cbn beta.
  assert (k_conns s1 !! p = Some (set_running false c)) as Hc1 by (rewrite E1; apply lookup_insert_eq).
  th_step. eapply twp_OnDisconnect; [done..|]. intros s2 Hi2 Hf2 Hn2. cbn beta. destruct (Hn2 _ _ Hc1) as (c2 & Hc2 & _).
  eapply (twp_command _ _ s2 p c2); [done..|]. intros s3 Hi3 Hf3 Hn3. apply HQ; [done| |by eapply names_trans, names_trans].
  unfold front in *. destruct Hf1, Hf2, Hf3. split; congruence.
Qed.

(** A new object has a new address, which no message names. *)
Lemma twp_new_object fw ft s cls ref (Q : Z → kj → Prop) : kinv fw ft s →
  (∀ s' p id, kinv fw ft s' → names s s' → k_conns s' !! p = Some (new_conn cls id ref 0) →
    p ∉ fa_recycler (k_fac s') → p ≠ 0 → Q p s') → twp (new_object cls ref) Q s.
Proof.
  intros Hi HQ. unfold new_object, GetNextConnectionId. th_step. eapply twp_act; [reflexivity|]. cbn beta. do 5 th_step.
  set (id := if _ : bool then _ else _). cbn [k_next k_set_fac].
  pose proof Hi as [H1 H2 H3 H4 H5 H6 H7 H8 H9 HD H10 H11 H12 H13].
  assert (k_conns s !! k_next s = None) as Hn.
  { apply eq_None_not_Some. intros Hs%H1. lia. }
  assert (∀ p, is_Some (k_conns s !! p) → p ≠ k_next s) as Hne by (intros p Hp%H1; lia).
  assert (∀ p, is_Some (k_conns s !! p) → is_Some (<[k_next s := new_conn cls id ref 0]> (k_conns s) !! p)) as Hs.
  { intros p Hp. rewrite lookup_insert_ne; [done|]. by apply not_eq_sym, Hne. }
  apply (HQ _ _ id); cbn; [|intros p c Hp; exists c; cbn; rewrite lookup_insert_ne; [done|congruence]|apply lookup_insert_eq| |lia].
  2: intros Hr%H11; by rewrite Hn in Hr; destruct Hr.
  assert (∀ A (about : A → option Z) l, (∀ x p, x ∈ l → about x = Some p → is_Some (k_conns s !! p)) → counted about l (k_next s) = 0) as Hz.
  { intros A about l Hl. unfold counted. assert (filter (λ x, about x = Some (k_next s)) l = []) as ->; [|done].
    apply elem_of_nil_inv. intros x [Hx1 Hx2]%list_elem_of_filter. by destruct (Hne _ (Hl _ _ Hx2 Hx1)). }
  assert (∀ p c, <[k_next s := new_conn cls id ref 0]> (k_conns s) !! p = Some c →
    (p = k_next s ∧ c = new_conn cls id ref 0) ∨ k_conns s !! p = Some c) as Hback.
  { intros p c. rewrite lookup_insert. case_decide; [intros [= <-]; by left|by right]. }
  split; cbn; try done.
  - intros p. destruct (decide (k_next s = p)) as [<-|]; [lia|]. rewrite lookup_insert_ne by done. intros ?%H1. lia.
  - lia.
  - intros cmd [? Hc]%H4. split; [done|]. intros p Hp. by apply Hs, Hc.
  - intros cb p Hcb Hp. eapply Hs, H5; done.
  - intros p c [[-> ->]|Hp]%Hback; [|by apply H6]. rewrite Hz; [by destruct cls|]. intros x p Hx. by apply H4.
  - intros p c [[-> ->]|Hp]%Hback; [|by apply H7]. rewrite Hz; [by destruct cls|]. intros x p Hx. by apply H5.
  - intros p c [[-> ->]|Hp]%Hback; [by destruct cls|by eapply H8].
  - intros p c [[-> ->]|Hp]%Hback; [by destruct cls|by eapply H9].
  - intros cmd c Hcmd Hty. pose proof (H4 _ Hcmd) as [Hok Hl]. rewrite lookup_insert_ne; [by apply HD|].
    apply not_eq_sym, Hne, Hl. unfold cmd_ok in Hok. rewrite Hty in Hok. unfold cmd_about. by rewrite Hok.
  - intros srv id' cl Hcl. destruct (H10 srv id' cl Hcl) as (? & c & Hc & ? & ?). split; [done|]. exists c.
    rewrite lookup_insert_ne; [done|congruence].
  - intros p Hp. by apply Hs, H11.
Qed.

Lemma twp_OnAcceptClient fw ft s srv streamptr (Q : unit → kj → Prop) : kinv fw ft s →
  (∀ s', kinv fw ft s' → names s s' → Q tt s') → twp (kj_OnAcceptClient srv streamptr) Q s.
Proof.
  intros Hi HQ. unfold kj_OnAcceptClient, kj_CreateTcpClientOnServer. do 2 th_step. eapply twp_new_object; [done|].
  intros s1 cl id Hi1 Hn1 Hcl Hr Hcl0. cbn beta. unfold kj_OnAddClient. do 5 th_step. cbn [new_conn cn_id].
  set (s2 := k_set_fac _ _). cbn beta. rewrite (proj2 (Z.eqb_neq cl 0)) by done.
  assert (kinv fw ft s2) as Hi2.
  { apply kinv_fac; [done|..]; [|apply Hi1|apply Hi1|apply Hi1]. intros srv' id' cl' Hf.
    destruct (decide ((srv', id') = (srv, id))) as [[= -> ->]|Hne].
    - revert Hf. unfold find_client. cbn. rewrite !lookup_insert_eq. intros [= <-]. split; [done|]. by exists (new_conn (CClient false) id srv 0).
    - apply (kv_entries _ _ _ Hi1). revert Hf. unfold find_client. cbn.
      destruct (decide (srv = srv')) as [<-|]; [rewrite lookup_insert_eq|by rewrite lookup_insert_ne].
      rewrite lookup_insert_ne by congruence. by destruct (fa_entries (k_fac s1) !! srv). }
  th_step. eapply (twp_command _ _ s2 cl); [done|exact Hcl|done..|]. intros s3 Hi3 Hf3 Hn3. cbn beta.
  destruct (Hn3 _ _ Hcl) as (c3 & Hc3 & _). eapply twp_OnConnect; [done..|]. intros s4 Hi4 Hf4 Hn4. apply HQ; [done|].
  eapply names_trans, names_trans; [|exact Hn3|exact Hn4]. eapply names_trans; [exact Hn1|by apply names_eq].
Qed.

Lemma twp_CreateTcpIsolated fw ft s pc (Q : Z → kj → Prop) : kinv fw ft s →
  (∀ s' p, kinv fw ft s' → names s s' → Q p s') → twp (kj_CreateTcpIsolated pc) Q s.
Proof.
  intros Hi HQ. unfold kj_CreateTcpIsolated. th_step. eapply twp_new_object; [done|].
  intros s1 p id Hi1 Hn1 Hp Hr Hp0. do 5 th_step. apply HQ.
  - apply kinv_fac; [done|..]; [|apply Hi1|apply Hi1|apply Hi1]. apply (kv_entries _ _ _ Hi1).
  - eapply names_trans; [exact Hn1|by apply names_eq].
Qed.

(** *** Callbacks *)

Lemma twp_done fw cb s p c (Q : unit → kj → Prop) : kinv fw [cb] s → cb_about cb = Some p → k_conns s !! p = Some c →
  (∀ s', kinv fw [] s' → names s s' → k_conns s' = <[p := IncrFrontEndConsumeNum c]> (k_conns s) → Q tt s') →
  twp (wr p IncrFrontEndConsumeNum) Q s.
Proof.
  intros Hi Hab Hp HQ. pose proof (kinv_nz _ _ _ _ _ Hi Hp). th_step. apply HQ; [by eapply kinv_trunk_done| |done].
  by eapply names_insert.
Qed.

Lemma twp_run_cb fw cb s (Q : unit → kj → Prop) : kinv fw [cb] s → (∀ s', kinv fw [] s' → Q tt s') → twp (run_cb cb) Q s.
Proof.
  intros Hi HQ.
  assert (∀ p, cb_about cb = Some p → is_Some (k_conns s !! p)) as Hl.
  { intros p. eapply kv_cbs; [exact Hi|by left]. }
  destruct cb; cbn [run_cb cb_about] in *;
    try (destruct (Hl _ eq_refl) as [c Hc]; th_step; eapply twp_done; [exact Hi|reflexivity|exact Hc|]; intros s1 Hi1 Hn1 E1; cbn beta;
      destruct (Hn1 _ _ Hc) as (c1 & Hc1 & _)).
  - do 2 th_step. assert (kinv fw [] s) as Hi0 by (by eapply kinv_trunk_drop).
    case_bool_decide; cbn [negb].
    + unfold FlushTcpServerDownStream. apply twp_Commit; [apply Hi0|]. intros s' sn Ew Ec En Ed Ecl Et Ef. apply HQ.
      eapply (kinv_queues _ _ s); try done; [|by exists []; rewrite Et, app_nil_r]. eexists. split; [exact Ew|]. by repeat constructor.
    + apply (twp_OnAcceptClient fw []); [done|]. intros s' Hi' _. by apply HQ.
  - th_step. eapply twp_OnDisconnect; [done..|]. intros s2 Hi2 Hf2 Hn2. cbn beta. destruct (Hn2 _ _ Hc1) as (c2 & Hc2 & _).
    eapply twp_OnRemoveClient; [done..|]. intros s3 Hi3 _. by apply HQ.
  - th_step. apply HQ. by eapply kinv_ext; [exact Hi1|..].
  - th_step. apply HQ. by eapply kinv_ext; [exact Hi1|..].
  - eapply twp_OnConnect; [done..|]. intros s2 Hi2 _ _. by apply HQ.
  - eapply twp_OnDisconnect; [done..|]. intros s2 Hi2 _ _. by apply HQ.
Qed.

Lemma twp_run_once n s fw (Q : unit → kj → Prop) : kinv fw [] s → (∀ s', kinv fw [] s' → Q tt s') → twp (run_once n) Q s.
Proof.
  revert s. induction n as [|n IH]; intros s Hi HQ; cbn [run_once]; [apply twp_ret, HQ, Hi|].
  do 2 th_step. destruct (kv_open _ _ _ Hi) as [_ ->]. th_step.
  destruct (dequeue_cases (k_trunk s)) as [(cb & q & E & Hq)|(q & E & Hq & Hq')]; (eapply twp_act; [by rewrite E|]); cbn beta iota.
  - th_step. apply (twp_run_cb fw cb); [by eapply kinv_pop_trunk|]. intros s' Hi'. by apply IH.
  - th_step. by apply HQ, kinv_empty_trunk.
Qed.

(** *** The recycler *)

Lemma u32_same x n : 0 ≤ x < 2 ^ 32 → 0 ≤ n < 2 ^ 32 → x = u32 (x + n) → n = 0.
Proof. unfold wrapu. intros Hx Hn E. destruct (Z_lt_le_dec (x + n) (2 ^ 32)); [rewrite Z.mod_small in E; lia|].
  rewrite <- (Z.mod_unique (x + n) (2 ^ 32) 1 (x + n - 2 ^ 32)) in E; lia. Qed.
Lemma counted_0 {A} (about : A → option Z) l p x : counted about l p = 0 → x ∈ l → about x ≠ Some p.
Proof.
  unfold counted. intros E Hx Ha. assert (x ∈ filter (λ x, about x = Some p) l) as Hf by by apply list_elem_of_filter.
  destruct (filter (λ x, about x = Some p) l); [by apply not_elem_of_nil in Hf|]. cbn in E. lia.
Qed.

(** A releasable connection has no stream, and no message under way names it. *)
Lemma releasable_quiet s p c : kinv [] [] s → zlen (q_items (k_work s)) < 2 ^ 32 → zlen (q_items (k_trunk s)) < 2 ^ 32 →
  k_conns s !! p = Some c → releasable c = true →
  cn_clnt c = 0 ∧ (∀ cmd, cmd ∈ q_items (k_work s) → cmd_about cmd ≠ Some p) ∧ (∀ cb, cb ∈ q_items (k_trunk s) → cb_about cb ≠ Some p).
Proof.
  intros Hi Hw Ht Hp Hr. unfold releasable, IsBackEndClean, IsFrontEndClean in Hr.
  rewrite !andb_true_iff, !Z.eqb_eq in Hr. destruct Hr as [[[[_ Hb] Hf] Hd] _].
  destruct (kv_range _ _ _ Hi _ _ Hp) as [Hr1 Hr2]. pose proof (kv_front _ _ _ Hi _ _ Hp) as E1. pose proof (kv_back _ _ _ Hi _ _ Hp) as E2.
  cbn [app] in *. rewrite Hf in E1. rewrite Hb in E2. split; [by apply (wf_disposed _ (kv_wf _ _ _ Hi _ _ Hp))|].
  pose proof (counted_nonneg cmd_about (q_items (k_work s)) p). pose proof (counted_nonneg cb_about (q_items (k_trunk s)) p).
  split; intros x; apply counted_0; [eapply u32_same, E1|eapply u32_same, E2]; lia.
Qed.

Lemma twp_safe_to_release s p c (Q : bool → kj → Prop) : p ≠ 0 → k_conns s !! p = Some c → Q (releasable c) s →
  twp (safe_to_release p) Q s.
Proof.
  intros Hp Hc HQ. unfold releasable in HQ. unfold safe_to_release. do 2 th_step. destruct (cn_connected c); cbn [negb andb] in *; [by th_step|].
  do 2 th_step. destruct (IsBackEndClean c); cbn [negb andb] in *; [|by th_step].
  do 2 th_step. destruct (IsFrontEndClean c); cbn [negb andb] in *; [|by th_step].
  do 2 th_step. destruct (cn_disposed c); cbn [negb andb] in *; [|by th_step]. by th_step.
Qed.

Definition released (s : kj) (p : Z) : Prop := match k_conns s !! p with Some c => releasable c = true | None => False end.
#[local] Instance released_dec s p : Decision (released s p).
Proof. unfold released. destruct (k_conns s !! p); apply _. Defined.

Lemma twp_recycler_loop l s (Q : list Z → kj → Prop) : (∀ p, p ∈ l → p ≠ 0 ∧ is_Some (k_conns s !! p)) →
  Q (filter (λ p, ¬ released s p) l) (k_set_fac (set_safe (fa_safe (k_fac s) ++ filter (released s) l) (k_fac s)) s) →
  twp (kj_recycler_loop l) Q s.
Proof.
  revert s Q. induction l as [|p l IH]; intros s Q Hl HQ; cbn [kj_recycler_loop].
  { th_step. revert HQ. rewrite app_nil_r. destruct s as [? ? f]. by destruct f. }
  destruct (Hl p) as [Hp0 [c Hc]]; [by left|]. th_step. eapply twp_safe_to_release; [done..|].
  assert (released s p ↔ releasable c = true) as Hr by (unfold released; by rewrite Hc).
  rewrite !filter_cons in HQ. destruct (releasable c).
  - rewrite decide_False, decide_True in HQ by tauto. do 2 th_step. th_step. apply IH; [by intros q Hq; apply Hl; right|].
    cbn beta. th_step. revert HQ. cbn. by rewrite <- app_assoc.
  - rewrite decide_True, decide_False in HQ by (rewrite Hr; done). do 2 th_step. th_step. apply IH; [by intros q Hq; apply Hl; right|].
    cbn beta. by th_step.
Qed.

Definition delete_all (l : list Z) (m : gmap Z conn) : gmap Z conn := foldl (λ m p, delete p m) m l.
Lemma lookup_delete_all l m p : delete_all l m !! p = if decide (p ∈ l) then None else m !! p.
Proof.
  unfold delete_all. revert m. induction l as [|q l IH]; intros m; cbn [foldl]; [by rewrite decide_False by apply not_elem_of_nil|].
  rewrite IH. destruct (decide (p ∈ l)); [by rewrite decide_True by by right|]. rewrite lookup_delete.
  case_decide as E1; case_decide as E2; try done; [subst; destruct E2; by left|]. by apply elem_of_cons in E2 as [->|].
Qed.

Lemma twp_delete_conns l s (Q : unit → kj → Prop) : NoDup l → (∀ p, p ∈ l → p ≠ 0 ∧ is_Some (k_conns s !! p)) →
  Q tt (k_set_conns (delete_all l (k_conns s)) s) → twp (kj_delete_conns l) Q s.
Proof.
  revert s. induction l as [|p l IH]; intros s Hnd Hl HQ; cbn [kj_delete_conns]; [th_step; by destruct s|].
  apply NoDup_cons in Hnd as [Hp Hnd]. destruct (Hl p) as [Hp0 [c Hc]]; [by left|].
  th_step. rewrite (proj2 (Z.eqb_neq p 0)) by done. unfold kj_delete. eapply twp_act; [by rewrite Hc|]. cbn beta.
  apply IH; [done| |exact HQ]. intros q Hq. split; [by apply Hl; right|]. cbn. rewrite lookup_delete_ne by (by intros ->). by apply Hl; right.
Qed.

(** What a recycling pass leaves. *)
Lemma kinv_released s : kinv [] [] s → zlen (q_items (k_work s)) < 2 ^ 32 → zlen (q_items (k_trunk s)) < 2 ^ 32 →
  kinv [] [] (k_set_fac (set_safe [] (set_recycler (filter (λ p, ¬ released s p) (fa_recycler (k_fac s))) (k_fac s)))
    (k_set_conns (delete_all (filter (released s) (fa_recycler (k_fac s))) (k_conns s)) s)).
Proof.
  intros Hi Hw Ht. set (gone := filter (released s) (fa_recycler (k_fac s))).
  assert (∀ p c, delete_all gone (k_conns s) !! p = Some c → k_conns s !! p = Some c) as Hback.
  { intros p c. rewrite lookup_delete_all. by case_decide. }
  assert (∀ p c, p ∉ gone → k_conns s !! p = Some c → delete_all gone (k_conns s) !! p = Some c) as Hkeep.
  { intros p c Hp. by rewrite lookup_delete_all, decide_False. }
  assert (∀ p, p ∈ gone → (∀ cmd, cmd ∈ q_items (k_work s) → cmd_about cmd ≠ Some p) ∧ ∀ cb, cb ∈ q_items (k_trunk s) → cb_about cb ≠ Some p) as Hq.
  { intros p [Hr Hp]%list_elem_of_filter. unfold released in Hr. destruct (k_conns s !! p) as [c|] eqn:Hc; [|done].
    by destruct (releasable_quiet _ _ _ Hi Hw Ht Hc Hr) as (_ & ? & ?). }
  pose proof Hi as [H1 H2 H3 H4 H5 H6 H7 H8 H9 HD H10 H11 H12 H13].
  split; cbn; try done.
  - intros p [c Hc%Hback]. apply H1. by eexists.
  - intros cmd Hcmd. destruct (H4 _ Hcmd) as [? Ha]. split; [done|]. intros p Hp. destruct (Ha _ Hp) as [c Hc]. exists c.
    apply Hkeep; [|done]. intros Hg. by destruct (proj1 (Hq _ Hg) _ Hcmd).
  - intros cb p Hcb Hp. destruct (H5 _ _ Hcb Hp) as [c Hc]. exists c. apply Hkeep; [|done]. intros Hg. by destruct (proj2 (Hq _ Hg) _ Hcb).
  - intros p c Hc%Hback. by apply H6.
  - intros p c Hc%Hback. by apply H7.
  - intros p c Hc%Hback. by eapply H8.
  - intros p c Hc%Hback. by eapply H9.
  - intros cmd c Hcmd Hty Hc%Hback. by eapply HD.
  - intros srv id cl Hcl. destruct (H10 srv id cl Hcl) as (Hr & c & Hc & ? & ?). split.
    + by intros [_ ?]%list_elem_of_filter.
    + exists c. split; [|done]. apply Hkeep; [|done]. by intros [_ ?]%list_elem_of_filter.
  - intros p [Hr Hp]%list_elem_of_filter. destruct (H11 _ Hp) as [c Hc]. exists c. apply Hkeep; [|done]. by intros [? _]%list_elem_of_filter.
  - by apply NoDup_filter.
Qed.

Lemma twp_Recycle s (Q : bool → kj → Prop) : kinv [] [] s → zlen (q_items (k_work s)) < 2 ^ 32 → zlen (q_items (k_trunk s)) < 2 ^ 32 →
  (∀ b s', kinv [] [] s' → k_work s' = k_work s → k_trunk s' = k_trunk s →
    k_conns s' = delete_all (filter (released s) (fa_recycler (k_fac s))) (k_conns s) → Q b s') → twp kj_Recycle Q s.
Proof.
  intros Hi Hw Ht HQ.
  assert (∀ p, p ∈ fa_recycler (k_fac s) → p ≠ 0 ∧ is_Some (k_conns s !! p)) as Hl.
  { intros p Hp. pose proof (kv_recycler _ _ _ Hi _ Hp) as [c Hc]. split; [by eapply kinv_nz|by eexists]. }
  unfold kj_Recycle, kj_RecyclerPop, kj_SafeRelease. do 4 th_step. apply twp_recycler_loop; [exact Hl|]. cbn beta. th_step. do 4 th_step.
  cbn. rewrite (kv_safe _ _ _ Hi). cbn [app]. apply twp_delete_conns.
  - apply NoDup_filter, Hi.
  - intros p [_ Hp]%list_elem_of_filter. by apply Hl.
  - cbn beta. do 2 th_step. apply HQ; [|done..]. eapply kinv_ext; [by apply kinv_released|done..|].
    cbn. by destruct (k_fac s).
Qed.

(** *** The back end *)

(** What an operation of the back end may do: the invariant holds, the manager stays. *)
Definition worked (fw : list net_cmd) (ft : list trunk_cb) (s s' : kj) : Prop := kinv fw ft s' ∧ k_fac s' = k_fac s ∧ names s s'.
Lemma worked_refl fw ft s : kinv fw ft s → worked fw ft s s.
Proof. intros Hi. split; [done|]. split; [done|apply names_refl]. Qed.
Lemma worked_trans fw ft fw' ft' s1 s2 s3 : worked fw ft s1 s2 → worked fw' ft' s2 s3 → worked fw' ft' s1 s3.
Proof. intros (_ & F1 & N1) (Hi & F2 & N2). split; [done|]. split; [congruence|by eapply names_trans]. Qed.
Lemma worked_front fw ft s s' : kinv fw ft s' → front s s' → names s s' → worked fw ft s s'.
Proof. by intros ? [? _] ?. Qed.
Lemma worked_ext fw ft s s' : kinv fw ft s → k_conns s' = k_conns s → k_next s ≤ k_next s' → k_done s' = k_done s → k_close s' = k_close s →
  k_work s' = k_work s → k_trunk s' = k_trunk s → k_fac s' = k_fac s → worked fw ft s s'.
Proof. intros. split; [by eapply kinv_ext|]. split; [done|by apply names_eq]. Qed.
(** Several writes to one connection, as one. *)
Lemma worked_wr fw ft s p c c' s' : kinv fw ft s → k_conns s !! p = Some c → same_core c c' →
  k_conns s' = <[p := c']> (k_conns s) → k_next s ≤ k_next s' → k_done s' = k_done s → k_close s' = k_close s →
  k_work s' = k_work s → k_trunk s' = k_trunk s → k_fac s' = k_fac s → worked fw ft s s'.
Proof.
  intros Hi Hp Hc Ec En Ed Ecl Ew Et Ef. split; [|split; [done|eapply names_insert; [done|exact Ec|apply Hc|apply Hc|]; by eapply sc_delay, kv_wf]].
  eapply (kinv_ext _ _ (k_set_conns (<[p := c']> (k_conns s)) s)); [by eapply kinv_wr|done..].
Qed.

Lemma twp_OnDisposeClient fw ft s srv cl c (Q : unit → kj → Prop) : kinv fw ft s → k_conns s !! cl = Some c →
  (∀ s', worked fw ft s s' → Q tt s') → twp (kj_OnDisposeClient srv cl) Q s.
Proof.
  intros Hi Hc HQ. pose proof (kinv_nz _ _ _ _ _ Hi Hc). unfold kj_OnDisposeClient. rewrite (proj2 (Z.eqb_neq cl 0)) by done.
  th_step. eapply twp_DisposeConnection; [done..|]. intros s1 Hi1 Hf1 Hn1 _. cbn beta. destruct (Hn1 _ _ Hc) as (c1 & Hc1 & _).
  eapply twp_callback; [done..|]. intros s2 Hi2 Hf2 Hn2. apply HQ. apply (worked_trans fw ft fw ft s s1); by apply worked_front.
Qed.

Lemma twp_dispose_down_streams fw ft srv l s (Q : unit → kj → Prop) : kinv fw ft s → (∀ id cl, (id, cl) ∈ l → is_Some (k_conns s !! cl)) →
  (∀ s', worked fw ft s s' → Q tt s') → twp (kj_dispose_down_streams srv l) Q s.
Proof.
  revert s Q. induction l as [|[id cl] l IH]; intros s Q Hi Hl HQ; cbn [kj_dispose_down_streams].
  { th_step. by apply HQ, worked_refl. }
  destruct (Hl id cl) as [c Hc]; [by left|]. pose proof (kinv_nz _ _ _ _ _ Hi Hc). rewrite (proj2 (Z.eqb_neq cl 0)) by done.
  assert (∀ s', worked fw ft s s' → twp (kj_dispose_down_streams srv l) Q s') as Hrest.
  { intros s' Hs'. apply IH; [apply Hs'| |intros s2 Hs2; by eapply HQ, worked_trans].
    intros id' cl' Hin. destruct (Hl id' cl') as [d Hd]; [by right|]. destruct Hs' as (_ & _ & Hn). destruct (Hn _ _ Hd) as (d' & ? & _). by exists d'. }
  do 3 th_step. destruct (cn_id c =? id); [|th_step; by apply Hrest, worked_refl].
  th_step. eapply twp_DisposeConnection; [done..|]. intros s1 Hi1 Hf1 Hn1 _. cbn beta. destruct (Hn1 _ _ Hc) as (c1 & Hc1 & _).
  eapply twp_callback; [done..|]. intros s2 Hi2 Hf2 Hn2. apply Hrest. apply (worked_trans fw ft fw ft s s1); by apply worked_front.
Qed.

Lemma twp_Close fw ft s srv (Q : unit → kj → Prop) : kinv fw ft s → (∀ s', worked fw ft s s' → Q tt s') → twp (kj_Close srv) Q s.
Proof.
  intros Hi HQ. unfold kj_Close. do 2 th_step. case_bool_decide; [th_step; by apply HQ, worked_refl|].
  do 2 th_step. th_step. unfold kj_DisposeDownStreams. set (s1 := k_set_streams _ s).
  assert (worked fw ft s s1) as Hw1 by (by apply worked_ext).
  assert (∀ s2, worked fw ft s1 s2 → twp (modify (λ s, k_set_closed ({[srv]} ∪ k_closed s) s)) Q s2) as Hrest.
  { intros s2 Hs2. th_step. apply HQ. eapply worked_trans; [exact Hw1|]. eapply worked_trans; [exact Hs2|]. by apply worked_ext; [apply Hs2|..]. }
  do 2 th_step. destruct (fa_entries (k_fac s1) !! srv) as [m|] eqn:E; [|th_step; by apply Hrest, worked_refl, Hw1].
  apply (twp_dispose_down_streams fw ft); [apply Hw1| |done]. intros id cl Hin%elem_of_entries.
  destruct (kv_entries _ _ _ (proj1 Hw1) srv id cl) as (_ & c & Hc & _); [unfold find_client; by rewrite E|by exists c].
Qed.

Lemma twp_RemoveStream fw ft s srv sp (Q : Z → kj → Prop) : kinv fw ft s → (∀ s' r, worked fw ft s s' → k_conns s' = k_conns s → Q r s') →
  twp (kj_RemoveStream srv sp) Q s.
Proof.
  intros Hi HQ. unfold kj_RemoveStream. unfold twp, act. cbn. case_decide; (apply HQ; [by apply worked_ext|done]).
Qed.

Lemma twp_ConfirmClientIsReady fw ft s cl base sp c (Q : unit → kj → Prop) : kinv fw ft s → k_conns s !! cl = Some c →
  cn_disposed c = false → base ≠ 0 → (∀ s', worked fw ft s s' → Q tt s') → twp (kj_ConfirmClientIsReady cl base sp) Q s.
Proof.
  intros Hi Hc Hd Hb HQ. pose proof (kinv_nz _ _ _ _ _ Hi Hc). unfold kj_ConfirmClientIsReady. do 3 th_step.
  eapply twp_RemoveStream; [done|]. intros s1 r Hw E1. assert (k_conns s1 !! cl = Some c) as Hc1 by (by rewrite E1).
  assert (∀ s', worked fw ft s1 s' → Q tt s') as HQ1 by (intros s' Hs'; by eapply HQ, worked_trans).
  do 2 th_step. cbn beta. destruct (Z.eqb_spec r 0) as [->|Hr].
  - th_step. apply HQ1. eapply (worked_wr _ _ _ cl c (set_clnt 0 c)); [apply Hw|exact Hc1| |done..].
    core. intros [H1 H2 H3]; split; cbn; naive_solver.
  - do 4 th_step. cbn [cn_packet set_base set_clnt]. case_match eqn:Ep.
    + do 3 th_step. apply HQ1. eapply (worked_wr _ _ _ cl c (set_packet (k_next s1) (set_base base (set_clnt r c)))); [apply Hw|exact Hc1| |cbn; by rewrite !insert_insert_eq|cbn; lia|done..].
      core; [|by left]. intros [H1 H2 H3]. split; cbn; [congruence|done|]. pose proof (kv_next _ _ _ (proj1 Hw)). lia.
    + th_step. apply HQ1. eapply (worked_wr _ _ _ cl c (set_base base (set_clnt r c))); [apply Hw|exact Hc1| |cbn; by rewrite !insert_insert_eq|done..].
      core; [|by left]. intros [H1 H2 H3]. split; cbn; [congruence|done|]. lia.
Qed.

Lemma twp_via p c f (Q : unit → kj → Prop) s : p ≠ 0 → k_conns s !! p = Some c → f c ≠ 0 → Q tt s → twp (via p f) Q s.
Proof.
  intros Hp Hc Hf HQ. unfold twp, via, act. cbn. by rewrite (proj2 (Z.eqb_neq p 0)), Hc, (proj2 (Z.eqb_neq _ 0)) by done.
Qed.

Lemma twp_Connect fw ft s p base ip port b c (Q : Z → kj → Prop) : kinv fw ft s → k_conns s !! p = Some c → cn_disposed c = false →
  base ≠ 0 → is_ip_address ip = Ok b → (∀ s' r, worked fw ft s s' → Q r s') → twp (kj_Connect p base ip port) Q s.
Proof.
  intros Hi Hc Hd Hb Hip HQ. pose proof (kinv_nz _ _ _ _ _ Hi Hc). unfold kj_Connect. th_step. eapply twp_act; [by rewrite Hip|]. cbn beta iota.
  destruct b; cbn [negb]; [|th_step; by apply HQ, worked_refl].
  do 10 th_step. cbn beta iota. cbn [cn_packet set_clnt set_base set_target].
  pose proof (kv_next _ _ _ Hi).
  set (c1 := SetFlushed false (set_running true (set_clnt (k_next s) (set_base base (set_target ip port c))))).
  th_step. case_match eqn:Ep.
  - do 8 th_step. apply HQ. eapply (worked_wr _ _ _ p c (set_packet (k_next s + 1) c1)); [done|done| |cbn; by rewrite !insert_insert_eq|cbn; lia|done..].
    core; [|by left]. intros [H1 H2 H3]. split; cbn; [congruence|done|]. lia.
  - do 6 th_step. apply HQ. eapply (worked_wr _ _ _ p c c1); [done|done| |cbn; by rewrite !insert_insert_eq|cbn; lia|done..].
    core; [|by left]. intros [H1 H2 H3]. split; cbn; [congruence|done|]. lia.
Qed.

Lemma twp_DelayReconnect fw ft s p n c (Q : unit → kj → Prop) : kinv fw ft s → k_conns s !! p = Some c → can_delay c →
  (∀ s', worked fw ft s s' → Q tt s') → twp (kj_DelayReconnect p n) Q s.
Proof.
  intros Hi Hc Hd HQ. pose proof (kinv_nz _ _ _ _ _ Hi Hc). unfold kj_DelayReconnect. do 2 th_step.
  destruct (negb (cn_delay c) && negb (cn_disposed c)) eqn:Eg; [|th_step; by apply HQ, worked_refl].
  apply andb_true_iff in Eg as [_ Eg]. do 2 th_step. cbn beta. th_step.
  eapply twp_via; [done|conn_side| |]; [cbn; destruct Hd as [?|E]; [done|by rewrite E in Eg]|]. cbn beta. th_step.
  apply HQ. eapply (worked_wr _ _ _ p c (set_delay true c)); [done|done| |done..]. core.
Qed.

Lemma twp_Reconnect fw ft s p c (Q : unit → kj → Prop) : kinv fw ft s → k_conns s !! p = Some c → cn_base c ≠ 0 →
  (∀ s', worked fw ft s s' → Q tt s') → twp (kj_Reconnect p) Q s.
Proof.
  intros Hi Hc Hb HQ. pose proof (kinv_nz _ _ _ _ _ Hi Hc). unfold kj_Reconnect. do 2 th_step.
  assert (∀ s' c', worked fw ft s s' → k_conns s' !! p = Some c' → cn_base c' = cn_base c → twp (flushed ← rd p cn_flushed;
    if (flushed : bool) then
      wr p (SetFlushed false);;
      stream ← rd p cn_clnt;
      (if stream =? 0 then via p cn_base;; stream ← fresh; wr p (set_clnt stream) else mret tt);;
      via p cn_base
    else mret tt) Q s') as Hrest; cycle 1.
  { th_step. destruct (cn_running c) eqn:Er.
    - th_step. by eapply Hrest; [apply worked_refl|..].
    - th_step. eapply (Hrest _ (set_running true c)); [|apply lookup_insert_eq|done].
      eapply (worked_wr _ _ _ p c); [done|done| |done..]. core. }
  intros s1 c1 Hw Hc1 Eb. pose proof Hw as (Hi1 & _ & _). pose proof (kv_wf _ _ _ Hi1 _ _ Hc1) as Hwf.
  do 2 th_step. destruct (cn_flushed c1); [|th_step; by apply HQ].
  do 5 th_step. cbn [cn_clnt SetFlushed]. cbn beta. case_match eqn:Es.
  - th_step. eapply twp_via; [done|conn_side|cbn; congruence|]. cbn beta. do 3 th_step. cbn beta. 
    eapply twp_via; [done|conn_side|cbn; congruence|]. apply HQ. eapply worked_trans; [exact Hw|].
    eapply (worked_wr _ _ _ p c1 (set_clnt (k_next s1) (SetFlushed false c1))); [done|done| |cbn; by rewrite !insert_insert_eq|cbn; lia|done..].
    core. intros _. split; cbn; [|congruence|apply Hwf]. intros Hd. destruct (wf_disposed _ Hwf Hd). congruence.
  - th_step. eapply twp_via; [done|conn_side|cbn; congruence|]. apply HQ. eapply worked_trans; [exact Hw|].
    eapply (worked_wr _ _ _ p c1 (SetFlushed false c1)); [done|done| |done..]. core.
Qed.

Lemma twp_delay_elapsed fw ft s p c (Q : unit → kj → Prop) : kinv fw ft s → k_conns s !! p = Some c → cn_base c ≠ 0 →
  (∀ s', worked fw ft s s' → Q tt s') → twp (kj_delay_elapsed p) Q s.
Proof.
  intros Hi Hc Hb HQ. pose proof (kinv_nz _ _ _ _ _ Hi Hc). unfold kj_delay_elapsed. do 2 th_step.
  destruct (cn_delay c && negb (cn_disposed c)); [|th_step; by apply HQ, worked_refl].
  do 2 th_step. assert (worked fw ft s (k_set_conns (<[p := set_delay false c]> (k_conns s)) s)) as Hw.
  { eapply (worked_wr _ _ _ p c); [done|done| |done..]. core. }
  eapply (twp_Reconnect fw ft _ p (set_delay false c)); [apply Hw|apply lookup_insert_eq|done|].
  intros s' Hs'. by eapply HQ, worked_trans.
Qed.

Lemma twp_OnLowLevelDisconnect fw ft s p c (Q : unit → kj → Prop) : kinv fw ft s → k_conns s !! p = Some c →
  (∀ s', worked fw ft s s' → k_conns s' = k_conns s ∨ k_conns s' = <[p := IncrBackEndProduceNum c]> (k_conns s) → Q tt s') →
  twp (kj_OnLowLevelDisconnect p) Q s.
Proof.
  intros Hi Hc HQ. pose proof (kinv_nz _ _ _ _ _ Hi Hc). unfold kj_OnLowLevelDisconnect, SetConnectedEventPosted. do 6 th_step. cbn beta.
  match goal with |- twp (if ?b then _ else _) _ _ => destruct b end; [|th_step; apply HQ; [by apply worked_refl|by left]].
  th_step. eapply (twp_callback_conns fw ft); [done..|]. intros s1 Hi1 Hf1 E1. cbn beta. th_step. apply HQ; [|by right].
  apply (worked_trans fw ft fw ft s s1); [|by apply worked_ext]. apply worked_front; [done|done|by eapply names_insert].
Qed.

Lemma twp_OnLowLevelConnect fw ft s p c (Q : unit → kj → Prop) : kinv fw ft s → k_conns s !! p = Some c → cn_clnt c ≠ 0 →
  (∀ s', worked fw ft s s' → Q tt s') → twp (kj_OnLowLevelConnect p) Q s.
Proof.
  intros Hi Hc Hk HQ. pose proof (kinv_nz _ _ _ _ _ Hi Hc). unfold kj_OnLowLevelConnect, SetConnectedEventPosted. do 2 th_step.
  assert (∀ s' c', worked fw ft s s' → k_conns s' !! p = Some c' → cn_clnt c' = cn_clnt c → twp (via p cn_clnt;; via p cn_base) Q s') as Hrest.
  { intros s1 c1 Hw Hc1 Ek. th_step. eapply twp_via; [done..|congruence|]. eapply twp_via; [done|done| |by apply HQ].
    apply (wf_clnt _ (kv_wf _ _ _ (proj1 Hw) _ _ Hc1)). congruence. }
  th_step. destruct (cn_connected c); [th_step; by eapply Hrest; [apply worked_refl|..]|].
  th_step. eapply (twp_callback_conns fw ft); [done..|]. intros s1 Hi1 Hf1 E1. th_step. eapply Hrest; [|cbn; rewrite E1; apply lookup_insert_eq|done].
  apply (worked_trans fw ft fw ft s s1); [|by apply worked_ext]. apply worked_front; [done|done|by eapply names_insert].
Qed.

Lemma twp_OnIsolatedError fw ft s p c (Q : unit → kj → Prop) : kinv fw ft s → k_conns s !! p = Some c → cn_clnt c ≠ 0 →
  (∀ s', worked fw ft s s' → Q tt s') → twp (kj_OnIsolatedError p) Q s.
Proof.
  intros Hi Hc Hk HQ. pose proof (kinv_nz _ _ _ _ _ Hi Hc). pose proof (kv_wf _ _ _ Hi _ _ Hc) as Hwf.
  unfold kj_OnIsolatedError. th_step. eapply twp_via; [done..|by apply (wf_base _ Hwf), (wf_clnt _ Hwf)|]. cbn beta. do 4 th_step. set (s1 := k_set_log _ s).
  assert (worked fw ft s s1) as Hw1 by by apply worked_ext.
  th_step. rewrite (proj2 (Z.eqb_neq _ 0)) by done. eapply (twp_OnLowLevelDisconnect fw ft); [apply Hw1|done|].
  intros s2 Hw2 E2. cbn beta. assert (worked fw ft s s2) as Hw by exact (worked_trans _ _ _ _ _ _ _ Hw1 Hw2).
  assert (∃ c2, k_conns s2 !! p = Some c2 ∧ can_delay c2) as (c2 & Hc2 & Hd).
  { destruct E2 as [->| ->]; [exists c|exists (IncrBackEndProduceNum c); rewrite lookup_insert_eq]; (split; [done|]; left; by apply (wf_clnt _ Hwf)). }
  do 2 th_step. destruct (cn_running c2); [|th_step; by apply HQ].
  eapply (twp_DelayReconnect fw ft); [apply Hw|done..|]. intros s3 Hw3. by eapply HQ, worked_trans.
Qed.

(** *** Commands *)

Lemma twp_exec_cmd cmd ft s (Q : Z → kj → Prop) : kinv [cmd] ft s → (∀ s' r, worked [cmd] ft s s' → Q r s') → twp (exec_cmd cmd) Q s.
Proof.
  intros Hi HQ. destruct (kv_cmds _ _ _ Hi cmd) as [Hok Hl]; [by left|].
  assert (∀ s' r, worked [cmd] ft s s' → twp (mret r) Q s') as HQ1 by (intros; th_step; by apply HQ).
  pose proof (worked_refl _ _ _ Hi) as Hw0.
  unfold cmd_ok, cmd_about in *. unfold exec_cmd. destruct (nc_type cmd) eqn:Ety; try done;
    try (rewrite Hok in Hl; destruct (Hl _ eq_refl) as [c Hc]; pose proof (kinv_nz _ _ _ _ _ Hi Hc)); [by apply HQ1|th_step..|by apply HQ1|th_step].
  - eapply twp_Close; [done|]. intros s1 Hs1. by apply HQ1.
  - eapply twp_DisposeConnection; [done..|]. intros s1 Hi1 Hf1 Hn1 _. apply HQ1. by apply worked_front.
  - unfold kj_PostPacket. do 2 th_step. case_match; th_step; apply HQ1; [done|]. by apply worked_ext.
  - unfold kj_FlushDownStream. th_step. eapply twp_RemoveStream; [done|]. intros s1 r Hw _. cbn beta. th_step. by apply HQ1.
  - do 2 th_step. destruct (IsReady c) eqn:Er; [|th_step; by apply HQ1].
    unfold IsReady in Er. rewrite !andb_true_iff, !negb_true_iff in Er.
    eapply twp_ConfirmClientIsReady; [done..|by apply Er|done|]. intros s1 Hs1. by apply HQ1.
  - eapply twp_DelayReconnect; [done..| |intros s1 Hs1; by apply HQ1]. by eapply kv_delay; [exact Hi|by left|..].
Qed.

Lemma twp_work_loop n ft s (Q : unit → kj → Prop) : kinv [] ft s → (∀ s', kinv [] ft s' → Q tt s') → twp (work_loop n) Q s.
Proof.
  revert s. induction n as [|n IH]; intros s Hi HQ; cbn [work_loop]; [apply twp_ret, HQ, Hi|].
  th_step. destruct (dequeue_cases (k_work s)) as [(cmd & q & E & Hq)|(q & E & Hq & Hq')]; (eapply twp_act; [by rewrite E|]); cbn beta iota;
    [|th_step; by apply HQ, kinv_empty_work].
  th_step. eapply twp_exec_cmd; [by eapply kinv_pop_work|]. intros s1 r (Hi1 & _ & _). th_step. cbn beta.
  destruct (nc_result cmd) as [|p|] eqn:Er; cbn [run_result].
  - th_step. apply IH; [|done]. eapply kinv_work_drop; [exact Hi1|]. unfold cmd_about. by rewrite Er.
  - assert (cmd_about cmd = Some p) as Hab by (unfold cmd_about; by rewrite Er).
    destruct (proj2 (kv_cmds _ _ _ Hi1 cmd (list_elem_of_here _ _)) _ Hab) as [c Hc]. pose proof (kinv_nz _ _ _ _ _ Hi1 Hc).
    th_step. apply IH; [|done]. by eapply kinv_work_done.
  - th_step. apply IH; [|done]. eapply kinv_work_drop; [|unfold cmd_about; by rewrite Er]. by eapply kinv_ext; [exact Hi1|..].
Qed.

(** A blocking command is answered when the worker gets to it. *)
Lemma twp_BlockingCommit ft ty p ip port s (Q : option Z → kj → Prop) : kinv [] ft s → q_items (k_work s) = [] →
  (∀ s1 sn, kinv [] ft s1 → k_conns s1 = k_conns s →
    twp (exec_cmd (NetCmd sn ty p ip port [] 0 0 0 "" "" RPromise)) (λ r s2, kinv [] ft s2 ∧ ∀ s3, kinv [] ft s3 → Q (Some r) s3) s1) →
  twp (BlockingCommit 1 ty p ip port) Q s.
Proof.
  intros Hi Hq HQ. unfold BlockingCommit, next_sn. do 2 th_step. th_step. eapply twp_act; [reflexivity|]. cbn beta. th_step.
  apply twp_Work_Add; [apply Hi|]. intros s1 Ew Ec En Ed Ecl Et Ef. cbn beta. cbn [work_loop]. th_step. th_step.
  cbn in Ew, Ec, En, Ed, Ecl, Et, Ef. rewrite Hq in Ew. cbn [app] in Ew.
  destruct (dequeue_cases (k_work s1)) as [(cmd & q & E & Hd)|(q & E & Hd & _)]; (eapply twp_act; [by rewrite E|]); cbn beta iota; [|congruence].
  rewrite Ew in Hd. injection Hd as <- Hd.
  assert (kinv [] ft (k_set_work q s1)) as Hi1.
  { eapply (kinv_queues _ _ s); [done..| |]; cbn; exists []; rewrite ?Et, ?app_nil_r; (split; [congruence|constructor]). }
  th_step. eapply twp_mono; [by apply HQ|]. intros r s2 [Hi2 H2]. cbn beta. th_step. cbn [run_result nc_result]. th_step.
  cbn beta. th_step. cbn beta. th_step. apply H2. by eapply kinv_ext; [exact Hi2|..].
Qed.

Lemma twp_failed_later ft s p c (Q : unit → kj → Prop) : kinv [] ft s → k_conns s !! p = Some c → cn_clnt c ≠ 0 →
  (∀ s', kinv [] ft s' → Q tt s') → twp (failed_later p) Q s.
Proof.
  intros Hi Hc Hk HQ. pose proof (kinv_nz _ _ _ _ _ Hi Hc). unfold failed_later. th_step.
  set (c1 := SetFlushed (cn_flushed c || negb (cn_clnt c =? 0)) c). set (s1 := k_set_conns (<[p := c1]> (k_conns s)) s).
  assert (k_conns s1 !! p = Some c1) as Hc1 by apply lookup_insert_eq.
  assert (worked [] ft s s1) as Hw1 by (eapply (worked_wr _ _ _ p c c1); [done|done|core|done..]).
  eapply twp_FlushStream; [done..|]. do 2 th_step. fold c1 s1. cbn beta.
  destruct (cn_class c1).
  - do 2 th_step. eapply twp_OnDisposeClient; [apply Hw1|done..|]. intros s2 (Hi2 & _). by apply HQ.
  - eapply twp_OnIsolatedError; [apply Hw1|done..|]. intros s2 (Hi2 & _). by apply HQ.
Qed.

(** ** Reachable states *)

(** When an operation may start: what the application holds and what kj calls back for is
    there; a blocking call waits until the worker has worked off the queue. *)
Definition may (s : kj) (o : kop) : Prop :=
  match o with
  | FCreateIsolated _ | FBroadcast _ _ _ _ | FRunOnce | BCommands _ | BAccept _ _ _ _ => True
  | FConnect p ip _ =>
      q_items (k_work s) = [] ∧ (∃ c, k_conns s !! p = Some c ∧ cn_disposed c = false) ∧ ∃ b, is_ip_address ip = Ok b
  | FOpen _ _ | FClose _ => q_items (k_work s) = []
  | FSend p _ _ _ _ | FDisconnect p => is_Some (k_conns s !! p)
  | FReopen p _ => ∃ c, k_conns s !! p = Some c ∧ can_delay c
  | FRecycle => zlen (q_items (k_work s)) < 2 ^ 32 ∧ zlen (q_items (k_trunk s)) < 2 ^ 32
  | BPacket p _ _ _ _ | BFailed p | BLowLevelConnect p | BLowLevelDisconnect p => ∃ c, k_conns s !! p = Some c ∧ cn_clnt c ≠ 0
  | BDelayElapsed p => ∃ c, k_conns s !! p = Some c ∧ cn_base c ≠ 0
  end.

(** Reachable by operations of both threads, one after the other: nothing interrupts an
    operation. *)
Inductive kreach : kj → Prop :=
  | kreach_init : kreach kj_init
  | kreach_op s o s' : kreach s → may s o → run (run_op o) s = Ok (tt, s') → kreach s'.

Lemma kinv_init : kinv [] [] kj_init.
Proof.
  split; cbn; rewrite ?rwq_new_items; cbn [app]; try done.
  - intros p [c Hc]. by rewrite lookup_empty in Hc.
  - intros cmd Hc. by apply not_elem_of_nil in Hc.
  - intros cb p Hc. by apply not_elem_of_nil in Hc.
  - intros p Hc. by apply not_elem_of_nil in Hc.
  - constructor.
Qed.

Lemma twp_packet s p uuid serial name body (Q : unit → kj → Prop) : kinv [] [] s → is_Some (k_conns s !! p) →
  (∀ s', kinv [] [] s' → Q tt s') → twp (kj_OnGotPacket p uuid serial name body) Q s.
Proof.
  intros Hi [c Hc] HQ. pose proof (kinv_nz _ _ _ _ _ Hi Hc). unfold kj_OnGotPacket. do 4 th_step. cbn beta.
  destruct (packet_of (cn_class c)); (eapply (twp_callback [] []); [done..|]; intros s' Hi' _ _; by apply HQ).
Qed.

Lemma twp_Reopen s p n c (Q : unit → kj → Prop) : kinv [] [] s → k_conns s !! p = Some c → can_delay c →
  (∀ s', kinv [] [] s' → Q tt s') → twp (kj_Reopen p n) Q s.
Proof.
  intros Hi Hc Hd HQ. pose proof (kinv_nz _ _ _ _ _ Hi Hc). unfold kj_Reopen. do 2 th_step.
  destruct (cn_disposed c); [th_step; by apply HQ|].
  assert (∀ s', kinv [] [] s' → names s s' → twp (Work_IsolatedConnDelayReconnect p n) Q s') as Hrest.
  { intros s1 Hi1 Hn. destruct (Hn _ _ Hc) as (c1 & Hc1 & _ & Hd1). eapply twp_command; [done..|by intros _; apply Hd1|].
    intros s2 Hi2 _ _. by apply HQ. }
  do 2 th_step. cbn beta. th_step. destruct (cn_connected c); [|th_step; apply Hrest; [done|apply names_refl]].
  eapply twp_Disconnect_isolated; [done..|]. intros s1 Hi1 _ Hn1. by apply Hrest.
Qed.

Lemma kinv_op s o : kinv [] [] s → may s o → twp (run_op o) (λ _ s', kinv [] [] s') s.
Proof.
  intros Hi Ho. destruct o; cbn [run_op may] in *.
  - th_step. eapply twp_CreateTcpIsolated; [done|]. intros s' p Hi' _. by th_step.
  - destruct Ho as (Hq & (c & Hc & Hd) & b & Hb). th_step. eapply twp_BlockingCommit; [done..|]. intros s1 sn Hi1 E1.
    cbn [exec_cmd nc_type nc_handle nc_ip nc_port]. th_step. eapply twp_Connect; [done|by rewrite E1|done|done|done|].
    intros s2 r (Hi2 & _). th_step. split; [done|]. intros s3 Hi3. by th_step.
  - th_step. eapply twp_BlockingCommit; [done..|]. intros s1 sn Hi1 E1. cbn [exec_cmd nc_type nc_port]. th_step. split; [done|].
    intros s3 Hi3. by th_step.
  - unfold kj_CloseTcpServer. th_step. eapply twp_BlockingCommit; [done..|]. intros s1 sn Hi1 E1. cbn [exec_cmd nc_type nc_handle]. th_step.
    eapply twp_Close; [done|]. intros s2 (Hi2 & _). cbn beta. th_step. split; [done|]. intros s3 Hi3. th_step.
    apply kinv_fac; [done|..]; [|apply Hi3|apply Hi3|apply Hi3]. apply (kv_entries _ _ _ Hi3).
  - destruct Ho as [c Hc]. by eapply twp_command; [done..|].
  - unfold PostBroadcastPacket. apply twp_Commit; [apply Hi|]. intros s' sn Ew Ec En Ed Ecl Et Ef.
    eapply (kinv_queues _ _ s); try done; [|by exists []; rewrite Et, app_nil_r]. eexists. split; [exact Ew|]. by repeat constructor.
  - destruct Ho as [c Hc]. pose proof (kinv_nz _ _ _ _ _ Hi Hc). unfold kj_ConnDisconnect. do 2 th_step. destruct (cn_class c).
    + by eapply twp_Disconnect.
    + by eapply twp_Disconnect_isolated.
  - destruct Ho as (c & Hc & Hd). by eapply twp_Reopen.
  - by eapply twp_run_once.
  - destruct Ho as [Hw Ht]. th_step. apply twp_Recycle; [done..|]. intros b s' Hi' _ _ _. by th_step.
  - by eapply twp_work_loop.
  - unfold kj_accepted. do 2 th_step. match goal with |- twp (if ?b then _ else _) _ _ => destruct b end; [by th_step|].
    do 2 th_step. unfold AddAcceptClientCb. apply twp_Trunk_Add; [apply Hi|]. intros s' Et Ec En Ed Ecl Ew Ef.
    eapply (kinv_queues _ _ s); try done; [by exists []; rewrite Ew, app_nil_r|]. eexists. split; [exact Et|]. by repeat constructor.
  - destruct Ho as (c & Hc & _). eapply twp_packet; [done|by eexists|done].
  - destruct Ho as (c & Hc & Hk). by eapply twp_failed_later.
  - destruct Ho as (c & Hc & Hk). eapply (twp_OnLowLevelConnect [] []); [done..|]. by intros s' (Hi' & _).
  - destruct Ho as (c & Hc & Hk). eapply (twp_OnLowLevelDisconnect [] []); [done..|]. by intros s' (Hi' & _) _.
  - destruct Ho as (c & Hc & Hk). eapply (twp_delay_elapsed [] []); [done..|]. by intros s' (Hi' & _).
Qed.

Lemma kreach_kinv s : kreach s → kinv [] [] s.
Proof.
  induction 1 as [|s o s' _ IH Ho E]; [apply kinv_init|]. pose proof (kinv_op _ _ IH Ho) as H. unfold twp in H. by rewrite E in H.
Qed.


(** C11: A recycling pass that no other thread interrupts deletes exactly the released
    connections that are disconnected, disposed of, flushed and have equal counters; such a
    connection has no stream, and neither queue names it.  It says whether some are left. *)
Theorem recycle_quiet s : kreach s → zlen (q_items (k_work s)) < 2 ^ 32 → zlen (q_items (k_trunk s)) < 2 ^ 32 →
  ∃ more s', run kj_Recycle s = Ok (more, s') ∧ k_work s' = k_work s ∧ k_trunk s' = k_trunk s ∧
    ∀ p c, k_conns s !! p = Some c →
      if bool_decide (p ∈ fa_recycler (k_fac s)) && releasable c then
        k_conns s' !! p = None ∧ cn_clnt c = 0 ∧ (∀ cmd, cmd ∈ q_items (k_work s) → cmd_about cmd ≠ Some p) ∧
        (∀ cb, cb ∈ q_items (k_trunk s) → cb_about cb ≠ Some p)
      else k_conns s' !! p = Some c.
Proof.
  intros Hs%kreach_kinv Hw Ht.
  assert (twp kj_Recycle (λ _ s', k_work s' = k_work s ∧ k_trunk s' = k_trunk s ∧
    k_conns s' = delete_all (filter (released s) (fa_recycler (k_fac s))) (k_conns s)) s) as H by by apply twp_Recycle.
  unfold twp in H. destruct (run kj_Recycle s) as [[more s']|]; [|done]. destruct H as (E1 & E2 & E3).
  exists more, s'. split; [done|]. split; [done|]. split; [done|]. intros p c Hp. rewrite E3, lookup_delete_all.
  assert (released s p ↔ releasable c = true) as Hr by (unfold released; by rewrite Hp).
  destruct (bool_decide (p ∈ fa_recycler (k_fac s))) eqn:Eb; cbn [andb].
  - apply bool_decide_eq_true in Eb. destruct (releasable c) eqn:Er.
    + rewrite decide_True by (apply list_elem_of_filter; split; [by apply Hr|done]). split; [done|]. by eapply releasable_quiet.
    + rewrite decide_False; [done|]. intros [H%Hr _]%list_elem_of_filter. done.
  - apply bool_decide_eq_false in Eb. rewrite decide_False; [done|]. by intros [_ ?]%list_elem_of_filter.
Qed.

(** ** What goes wrong *)

(** After [Finish] no command is taken any more, but [BlockingCommit] waits for its
    promise all the same: opening a server, closing one or connecting never returns. *)
Lemma blocking_hangs fuel ty p ip port s : q_items (k_work s) = [] →
  ∃ s', run (Finish;; BlockingCommit fuel ty p ip port) s = Ok (None, s').
Proof.
  intros Hq. assert (twp (Finish;; BlockingCommit fuel ty p ip port) (λ r _, r = None) s) as H.
  { unfold Finish, BlockingCommit, next_sn, Work_Add. do 2 th_step. do 2 th_step. th_step. eapply twp_act; [reflexivity|]. cbn beta.
    do 3 th_step. cbn [k_done k_set_done k_set_promise k_set_sn]. do 2 th_step.
    assert (∀ (Q : unit → kj → Prop) s', q_items (k_work s') = [] → (∀ q, k_promise (k_set_work q s') = k_promise s' → Q tt (k_set_work q s')) → Q tt s' → twp (work_loop fuel) Q s') as Hl; [|apply Hl; [done|intros q _; by th_step|by th_step]].
    intros Q s' Hq' HQ HQ0. destruct fuel as [|n]; cbn [work_loop]; [by apply twp_ret|]. th_step.
    destruct (dequeue_cases (k_work s')) as [(cmd & q & E & Hd)|(q & E & Hd & Hq2)].
    - by rewrite Hq' in Hd.
    - eapply twp_act; [by rewrite E|]. cbn beta iota. th_step. by apply HQ. }
  unfold twp in H. destruct (run _ s) as [[r s']|]; [|done]. exists s'. by rewrite H.
Qed.

(** C31: A connection that fails before the front end has run its connect callback: for
    [CKjIsolatedConn] a disconnect callback follows, for its copy [CKjIsolatedConn2], which
    sets [_bConnectedEventPosted] but does not look at it, none does, and the front end
    takes the dead connection for connected. *)
Theorem missed_disconnect s p c pc : kreach s → k_conns s !! p = Some c → cn_class c = CIsolated false pc → cn_clnt c ≠ 0 →
  cn_connected c = false →
  ∃ s', run (kj_OnLowLevelConnect p;; kj_OnLowLevelDisconnect p) s = Ok (tt, s') ∧
    q_items (k_trunk s') = q_items (k_trunk s) ++ [TIsolatedConnect p] ++
      match pc with Inner => [TIsolatedDisconnect p] | Outer => [] end.
Proof.
  intros Hs%kreach_kinv Hp Hcl Hk Hc. pose proof (kinv_nz _ _ _ _ _ Hs Hp) as Hp0. pose proof (kv_wf _ _ _ Hs _ _ Hp) as Hwf.
  assert (twp (kj_OnLowLevelConnect p;; kj_OnLowLevelDisconnect p) (λ _ s', q_items (k_trunk s') = q_items (k_trunk s) ++ [TIsolatedConnect p] ++
      match pc with Inner => [TIsolatedDisconnect p] | Outer => [] end) s) as H.
  { unfold kj_OnLowLevelConnect, kj_OnLowLevelDisconnect, SetConnectedEventPosted, kj_AddIsolatedConnectCb, kj_AddIsolatedDisconnectCb.
    do 4 th_step. rewrite Hc. do 3 th_step. cbn beta. apply twp_Trunk_Add; [apply Hs|]. intros s1 Et Ec En Ed Ecl Ew Ef. cbn in Et, Ec, Ecl.
    assert (k_conns s1 !! p = Some (IncrBackEndProduceNum c)) as Hp1 by (rewrite Ec; apply lookup_insert_eq).
    cbn beta. do 2 th_step. eapply twp_via; [done|exact Hp1|done|]. cbn beta. eapply twp_via; [done|exact Hp1|by apply (wf_clnt _ Hwf)|].
    do 6 th_step. cbn [cn_class cn_connected IncrBackEndProduceNum k_posted k_set_posted]. rewrite Hc, Hcl. cbn [packet_of orb].
    rewrite bool_decide_true by set_solver. destruct pc; [|th_step; cbn; by rewrite Et].
    do 3 th_step. cbn beta. apply twp_Trunk_Add; [cbn; rewrite Ecl; apply Hs|]. intros s2 Et2 _ _ _ _ _ _. cbn beta. th_step. cbn. rewrite Et2. cbn.
    by rewrite Et, <- app_assoc. }
  unfold twp in H. destruct (run _ s) as [[[] s']|]; [|done]. by exists s'.
Qed.
End safe.

(** *** A schedule *)

#[refine] Definition ex_queue : RWQueue := {|
  rwq A := list A; rwq_new A := []; q_items A q := q; enqueue A q x := (q ++ [x], true);
  try_dequeue A q := (head q, tail q); size_approx A q := zlen q
|}.
Proof. - done. - done. - done. Defined.
Definition ex_listen : KjListen := {| kj_listen _ := 5 |}.
#[local] Existing Instances ex_queue ex_order ex_listen.

Definition after_op (o : kop) (s : kj) : kj := match run (run_op o) s with Ok (_, s) => s | Ub _ => s end.
Lemma kreach_after s o : kreach s → may s o → kreach (after_op o s).
Proof.
  intros Hs Ho. unfold after_op. destruct (run (run_op o) s) as [[[] s']|] eqn:E; [|done]. by eapply kreach_op.
Qed.

(** A client is accepted, and the worker starts to read. *)
Definition ex_open : kj := after_op (BCommands 2) (after_op FRunOnce (after_op (BAccept true 1000 77 "10.0.0.1") kj_init)).
(** The application disconnects it. *)
Definition ex_leaving : kj := after_op (FDisconnect 1) ex_open.
Lemma ex_open_reach : kreach ex_open.
Proof. apply kreach_after; [|exact I]. apply kreach_after; [|exact I]. apply kreach_after; [|exact I]. apply kreach_init. Qed.
Lemma ex_leaving_reach : kreach ex_leaving.
Proof. apply kreach_after; [apply ex_open_reach|]. vm_compute. by eexists. Qed.

(** The main thread is stopped in [RecyclerPop] after its third access. *)
Definition ex_schedule : list bool := replicate 3 true ++ replicate 40 false ++ replicate 20 true.
Definition ex_raced : kj :=
  match run_both ex_schedule kj_Recycle (failed_later 1;; work_loop 1) ex_leaving with Ok (_, s') => s' | Ub _ => ex_leaving end.

(** The recycler reads the counters of the back end before those of the front end.  When
    the peer of a connection that waits in the recycler hangs up in between, and the worker
    handles the pending commands, the object is deleted although a callback about it is
    queued: the next [RunOnce] uses a deleted object. *)
Lemma recycle_race : ∃ s sched more s',
  kreach s ∧ may s FRecycle ∧ may s (BFailed 1) ∧
  run_both sched kj_Recycle (failed_later 1;; work_loop 1) s = Ok (TRet more, TRet tt, s') ∧
  q_items (k_trunk s') = [TClientDisconnect 1000 1] ∧ run RunOnce s' = Ub Dangling.
Proof.
  exists ex_leaving, ex_schedule, false, ex_raced. split; [apply ex_leaving_reach|]. split; [by vm_compute|].
  split; [vm_compute; by eexists|]. split; [by vm_compute|]. by vm_compute.
Qed.

(** What [taskFailed] schedules runs later; in the meantime the front end disconnects the
    client, the worker disposes of it, and the recycler deletes it. *)
Definition ex_later : kj :=
  match run (taskFailed 1;; run_op (FDisconnect 1);; run_op (BCommands 1);; run_op FRecycle) ex_open with
  | Ok (_, s') => s' | Ub _ => ex_open end.

(** The function that [taskFailed] schedules holds a pointer to the connection that no
    counter accounts for: it may find the object deleted. *)
Lemma late_failure_dangles : ∃ s s',
  kreach s ∧ may s (BFailed 1) ∧
  run (taskFailed 1;; run_op (FDisconnect 1);; run_op (BCommands 1);; run_op FRecycle) s = Ok (tt, s') ∧
  k_conns s' !! 1 = None ∧ run eval_later s' = Ub Dangling.
Proof.
  exists ex_open, ex_later. split; [apply ex_open_reach|]. split; [vm_compute; by eexists|].
  split; [by vm_compute|]. split; by vm_compute.
Qed.

(** ** Witnesses *)


(** The client's disposal is done with, so the pass deletes it. *)
Definition ex_left : kj := after_op (BCommands 1) ex_leaving.
Lemma ex_left_reach : kreach ex_left.
Proof. apply kreach_after; [apply ex_leaving_reach|exact I]. Qed.
Definition ex_left_conn : conn := default (new_conn (CClient false) 0 0 0) (k_conns ex_left !! 1).

Lemma recycle_quiet_witness :
  bool_decide (1 ∈ fa_recycler (k_fac ex_left)) && releasable ex_left_conn = true ∧
  ∃ more s', run kj_Recycle ex_left = Ok (more, s') ∧ k_conns s' !! 1 = None.
Proof.
  split; [by vm_compute|].
  destruct (recycle_quiet ex_left ex_left_reach) as (more & s' & E & _ & _ & H); [by vm_compute|by vm_compute|].
  exists more, s'. split; [exact E|]. specialize (H 1 ex_left_conn).
  replace (bool_decide (1 ∈ fa_recycler (k_fac ex_left)) && releasable ex_left_conn) with true in H by by vm_compute.
  apply H. by vm_compute.
Defined.

Lemma blocking_hangs_witness : ∃ s', run (Finish;; BlockingCommit 1000 OPEN_TCP_SERVER 1000 "" 80) ex_open = Ok (None, s').
Proof. apply blocking_hangs. by vm_compute. Defined.

(** An isolated connection of the copied class, connecting. *)
Definition ex_dialing : kj := after_op (FConnect 1 "10.0.0.2" 80) (after_op (FCreateIsolated Outer) kj_init).
Lemma ex_dialing_reach : kreach ex_dialing.
Proof.
  apply kreach_after; [apply kreach_after; [apply kreach_init|exact I]|].
  split; [by vm_compute|]. split; [|by exists true]. vm_compute. by eexists.
Qed.
Definition ex_dialing_conn : conn := default (new_conn (CClient false) 0 0 0) (k_conns ex_dialing !! 1).

Lemma missed_disconnect_witness :
  ∃ s', run (kj_OnLowLevelConnect 1;; kj_OnLowLevelDisconnect 1) ex_dialing = Ok (tt, s') ∧
    q_items (k_trunk s') = q_items (k_trunk ex_dialing) ++ [TIsolatedConnect 1].
Proof. by apply (missed_disconnect ex_dialing 1 ex_dialing_conn Outer ex_dialing_reach); vm_compute. Defined.
