(* ===== verification/KjSpsc.v ===== *)
(** * The queues of the two-thread factory are lock-free

    [KjQueues] and [KjSafe] are proved against the class [RWQueue]; here the queue of
    [base/concurrent/readerwriterqueue.h], made for 256 elements as the factory makes it, is
    an instance of it.  An operation of the instance is a run of the method that nothing
    interrupts; what two interleaved methods do is in [SpscSpec]. *)

From stdpp Require Import gmap.
From S2P Require Import Prelude Threads SpscQueue SpscInv SpscThreads SpscSpec KjQueues.

#[local] Open Scope list_scope.
#[local] Open Scope Z_scope.

Section queue.
Context {T : Type}.

(** A queue with the elements that it holds. *)
Definition holds (q : SpscQueue.queue T) (c : list T) : Prop := ∃ n, queue_ok n q c.
Definition held : Type := { qc : SpscQueue.queue T * list T | holds qc.1 qc.2 }.
Definition mem (h : held) : SpscQueue.queue T := (`h).1.
Definition items (h : held) : list T := (`h).2.

(** The state after a run that is known to return. *)
Definition state_of {A} (o : outcome (A * SpscQueue.queue T)) (default : SpscQueue.queue T) : SpscQueue.queue T :=
  match o with Ok (_, q) => q | Ub _ => default end.

Lemma held_new_ok : holds (state_of (run (ReaderWriterQueue 256) no_queue) no_queue) ([] : list T).
Proof. destruct (ReaderWriterQueue_ok (T := T) 256) as (q & E & Hq & _); [lia|]. rewrite E. by eexists. Qed.
Definition held_new : held := exist _ (_, _) held_new_ok.

(** The methods on such a queue. *)
Lemma held_enqueue_eq (h : held) x : ∃ q, run (SpscQueue.enqueue x) (mem h) = Ok (true, q) ∧ holds q (items h ++ [x]).
Proof.
  destruct (proj2_sig h) as (n & Hq). destruct (enqueue_ok true n (mem h) (items h) x Hq) as (r & q & E & Hr & Hq' & _).
  destruct r; [|by destruct (Hr eq_refl)]. exists q. split; [exact E|]. by exists n.
Qed.
Lemma held_dequeue_eq (h : held) : ∃ q, run SpscQueue.try_dequeue (mem h) = Ok (head (items h), q) ∧ holds q (tail (items h)).
Proof. destruct (proj2_sig h) as (n & Hq). destruct (try_dequeue_ok n (mem h) (items h) Hq) as (q & E & Hq' & _). exists q. split; [exact E|]. by exists n. Qed.

Lemma held_enqueue_ok (h : held) x : holds (state_of (run (SpscQueue.enqueue x) (mem h)) (mem h)) (items h ++ [x]).
Proof. destruct (held_enqueue_eq h x) as (q & E & Hq). by rewrite E. Qed.
Definition held_enqueue (h : held) (x : T) : held := exist _ (_, _) (held_enqueue_ok h x).

Lemma held_dequeue_ok (h : held) : holds (state_of (run SpscQueue.try_dequeue (mem h)) (mem h)) (tail (items h)).
Proof. destruct (held_dequeue_eq h) as (q & E & Hq). by rewrite E. Qed.
Definition held_dequeue (h : held) : held := exist _ (_, _) (held_dequeue_ok h).

(** The results of the methods. *)
Definition held_enqueued (h : held) (x : T) : bool :=
  match run (SpscQueue.enqueue x) (mem h) with Ok (b, _) => b | Ub _ => false end.
Definition held_taken (h : held) : option T :=
  match run SpscQueue.try_dequeue (mem h) with Ok (r, _) => r | Ub _ => None end.
Definition held_size (h : held) : Z :=
  match run (SpscQueue.size_approx (size (q_blocks (mem h)))) (mem h) with Ok (n, _) => n | Ub _ => 0 end.

Lemma held_enqueued_true h x : held_enqueued h x = true.
Proof. unfold held_enqueued. by destruct (held_enqueue_eq h x) as (q & -> & _). Qed.
Lemma held_taken_head h : held_taken h = head (items h).
Proof. unfold held_taken. by destruct (held_dequeue_eq h) as (q & -> & _). Qed.
Lemma held_size_items h : held_size h = u64 (zlen (items h)).
Proof. unfold held_size. destruct (proj2_sig h) as (n & Hq). by rewrite (size_approx_ok n (mem h) (items h) _ Hq (le_n _)). Qed.

(** The memory of an instance's queue after an operation is that of the method's run. *)
Lemma held_enqueue_mem h x : run (SpscQueue.enqueue x) (mem h) = Ok (true, mem (held_enqueue h x)).
Proof.
  destruct (held_enqueue_eq h x) as (q & E & _).
  change (mem (held_enqueue h x)) with (state_of (run (SpscQueue.enqueue x) (mem h)) (mem h)). by rewrite E.
Qed.
Lemma held_dequeue_mem h : run SpscQueue.try_dequeue (mem h) = Ok (head (items h), mem (held_dequeue h)).
Proof.
  destruct (held_dequeue_eq h) as (q & E & _).
  change (mem (held_dequeue h)) with (state_of (run SpscQueue.try_dequeue (mem h)) (mem h)). by rewrite E.
Qed.
End queue.
Arguments held T : clear implicits.

#[refine] Definition lockfree_queue : RWQueue := {|
  rwq := held; rwq_new T := held_new; q_items T h := items h; enqueue T h x := (held_enqueue h x, held_enqueued h x);
  try_dequeue T h := (held_taken h, held_dequeue h); size_approx T h := held_size h
|}.
Proof.
  - done.
  - intros T h x. split; [done|apply held_enqueued_true].
  - intros T h. split; [apply held_taken_head|done].
Defined.
