(* ===== verification/TcpPacket.v ===== *)
(** * Packets and frame pages: [tcp/TcpInnerPacket.cpp] and [tcp/TcpOuterPacket.cpp]

    The two classes are the same program with another packet leading (16 bytes with a
    uuid, or 2 bytes); [packet_kind] says which one a definition is read as.  A packet
    (leading, name, body) travels as frame pages of at most [PER_FRAME_PAGE_SIZE_MAX]
    bytes; the receiver puts the pages of a packet together in a buffer taken from a
    free list that all connections of the class share.

    [pool] is that shared memory: the malloc'ed buffers and the two list heads.
    [packet] is the object of one connection.  Of the calls out of this code,
    [_refConn->SendRaw] is a parameter ([Conn]) that may also dispose the connection,
    [_gotPacketCb] is the list of byte strings it was given, and the texts for the
    console and the exception are left out.  Assertions are those of a release
    build. *)

From stdpp Require Export gmap.
From S2P Require Import Prelude CHeap BipBuf.

#[local] Open Scope Z_scope.

Inductive packet_kind := CTcpInnerPacket | CTcpOuterPacket.

(** ** [tcp_packet_def.h] *)

Definition PER_FRAME_PAGE_SIZE_MAX : Z := 8192.
Definition FULL_PACKET_MAX_SIZE_HINT : Z := 983040.
Definition SIZE_OF_FRAME_PAGE_LEADING : Z := 2.

Definition SIZE_OF_PACKET_LEADING (k : packet_kind) : Z :=
  match k with CTcpInnerPacket => 16 | CTcpOuterPacket => 2 end.

Inductive page_state :=
  | FRAME_PAGE_STATE_RECEIVE_LEADING
  | FRAME_PAGE_STATE_RECEIVE_BODY
  | FRAME_PAGE_STATE_SKIP.

(** [tcp_frame_page_leading_t]: bit-fields of 1, 1 and 14 bits of a [uint16_t], from
    the lowest bit up. *)
Record page_leading := PageLeading { page_start : Z; page_end : Z; data_size : Z }.

Definition page_leading_of (w : Z) : page_leading :=
  PageLeading (Z.land w 1) (Z.land (Z.shiftr w 1) 1) (Z.land (Z.shiftr w 2) 16383).

Definition page_word (l : page_leading) : Z :=
  page_start l + 2 * page_end l + 4 * data_size l.

Definition with_start (v : Z) (l : page_leading) : page_leading :=
  PageLeading (wrapu 1 v) (page_end l) (data_size l).
Definition with_end (v : Z) (l : page_leading) : page_leading :=
  PageLeading (page_start l) (wrapu 1 v) (data_size l).
Definition with_size (v : Z) (l : page_leading) : page_leading :=
  PageLeading (page_start l) (page_end l) (wrapu 14 v).

(** Reading the leading at offset [off], and assigning a member of the one at the
    start of a buffer. *)
Definition get_leading (off : Z) (m : bytes) : outcome page_leading :=
  b0 ← load1 off m; b1 ← load1 (off + 1) m; Ok (page_leading_of (b0 + 256 * b1)).

Definition page_leading_bytes (l : page_leading) : bytes :=
  [page_word l `mod` 256; page_word l `div` 256].

Definition put_leading (f : page_leading → page_leading) (m : bytes) : outcome bytes :=
  l ← get_leading 0 m; store 0 (page_leading_bytes (f l)) m.

(** Assigning the members of the packet leading at offset [off]: the name's length
    and the serial number are one byte each, the inner leading has six unused bytes
    and then the uuid. *)
Definition put_packet_leading (k : packet_kind) (off name_len serial uuid : Z) (m : bytes) :
    outcome bytes :=
  m ← store off [u8 name_len; u8 serial] m;
  match k with
  | CTcpInnerPacket => store (off + 8) (le_bytes 8 (u64 uuid)) m
  | CTcpOuterPacket => Ok m
  end.

(** [packet_leading->inner_name_len], [packet_leading->name_len]. *)
Definition get_name_len (off : Z) (m : bytes) : outcome Z := load1 off m.

(** ** The shared buffers *)

(** [packet_buffer_t]; [pb_data] is the memory behind the header. *)
Record packet_buffer := PacketBuffer {
  pb_data : bytes;
  pb_size : Z;
  pb_cap_size : Z;
  pb_next : Z
}.

Definition sizeof_packet_buffer : Z := 32.

Definition set_data (d : bytes) (x : packet_buffer) : packet_buffer :=
  PacketBuffer d (pb_size x) (pb_cap_size x) (pb_next x).
Definition set_size (n : Z) (x : packet_buffer) : packet_buffer :=
  PacketBuffer (pb_data x) n (pb_cap_size x) (pb_next x).
Definition set_next (n : Z) (x : packet_buffer) : packet_buffer :=
  PacketBuffer (pb_data x) (pb_size x) (pb_cap_size x) n.

(** The two free lists of a class. *)
Inductive free_list := recv_buffer_free_list | send_buffer_free_list.

#[export] Instance free_list_eq_dec : EqDecision free_list.
Proof. solve_decision. Defined.

Definition s_RECV_PACKET_BUFFER_CAPACITY_HINT : Z := FULL_PACKET_MAX_SIZE_HINT.
Definition s_SEND_PACKET_BUFFER_CAPACITY_HINT : Z := PER_FRAME_PAGE_SIZE_MAX * 2.

Definition capacity_hint_of (l : free_list) : Z :=
  match l with
  | recv_buffer_free_list => s_RECV_PACKET_BUFFER_CAPACITY_HINT
  | send_buffer_free_list => s_SEND_PACKET_BUFFER_CAPACITY_HINT
  end.

(** How many receive buffers are malloc'ed when the list is empty. *)
Definition recv_num_hint (k : packet_kind) : nat :=
  match k with CTcpInnerPacket => 1 | CTcpOuterPacket => 64 end.

Record pool := Pool {
  p_next : Z;                      (* the next address malloc returns *)
  p_bufs : gmap Z packet_buffer;
  p_recv : Z;                      (* the list heads, 0 is NULL *)
  p_send : Z
}.

Definition empty_pool : pool := Pool 1 ∅ 0 0.

Definition list_head (l : free_list) (s : pool) : Z :=
  match l with recv_buffer_free_list => p_recv s | send_buffer_free_list => p_send s end.
Definition set_list_head (l : free_list) (b : Z) (s : pool) : pool :=
  match l with
  | recv_buffer_free_list => Pool (p_next s) (p_bufs s) b (p_send s)
  | send_buffer_free_list => Pool (p_next s) (p_bufs s) (p_recv s) b
  end.
Definition set_bufs (m : gmap Z packet_buffer) (s : pool) : pool :=
  Pool (p_next s) m (p_recv s) (p_send s).

Definition get_buf (b : Z) (s : pool) : outcome packet_buffer :=
  check (negb (b =? 0)) NullDeref (from_option_ub Dangling (p_bufs s !! b)).
Definition put_buf (b : Z) (x : packet_buffer) (s : pool) : pool :=
  set_bufs (<[b := x]> (p_bufs s)) s.

Section buffers.
Context {mal : Malloc}.

(** One round of the loop that fills the list. *)
Definition new_packet_buffer (l : free_list) (capacity_hint : Z) (s : pool) : outcome pool :=
  let tmp := p_next s in
  check (sizeof_packet_buffer <=? capacity_hint) OobWrite
    (let cap := u64 (capacity_hint - sizeof_packet_buffer) in
     let x := PacketBuffer (junk tmp (Z.to_nat cap)) 0 cap (list_head l s) in
     Ok (set_list_head l tmp (Pool (tmp + 1) (<[tmp := x]> (p_bufs s)) (p_recv s) (p_send s)))).

Fixpoint grow_list (l : free_list) (capacity_hint : Z) (num_hint : nat) (s : pool) :
    outcome pool :=
  match num_hint with
  | O => Ok s
  | S num_hint => s ← new_packet_buffer l capacity_hint s; grow_list l capacity_hint num_hint s
  end.

(** The function calls itself after it has filled the list. *)
Fixpoint alloc_rec (fuel : nat) (l : free_list) (capacity_hint : Z) (num_hint : nat)
    (s : pool) : outcome (pool * Z) :=
  match fuel with
  | O => Ub NoFuel
  | S fuel =>
      let entry := list_head l s in
      if negb (entry =? 0) then
        x ← get_buf entry s;
        Ok (put_buf entry (set_size 0 x) (set_list_head l (pb_next x) s), entry)
      else
        s ← grow_list l capacity_hint num_hint s;
        alloc_rec fuel l capacity_hint num_hint s
  end.

Definition packet_buffer_alloc : free_list → Z → nat → pool → outcome (pool * Z) :=
  alloc_rec 2.

Definition packet_buffer_free (l : free_list) (entry : Z) (s : pool) : outcome pool :=
  x ← get_buf entry s;
  Ok (set_list_head l entry (put_buf entry (set_next (list_head l s) x) s)).

Fixpoint real_free_loop (fuel : nat) (l : free_list) (s : pool) : outcome pool :=
  if list_head l s =? 0 then Ok s
  else match fuel with
  | O => Ub NoFuel
  | S fuel =>
      let tmp := list_head l s in
      x ← get_buf tmp s;
      let s := set_list_head l (pb_next x) s in
      _ ← get_buf tmp s;
      real_free_loop fuel l (set_bufs (delete tmp (p_bufs s)) s)
  end.

Definition packet_buffer_real_free (l : free_list) (s : pool) : outcome pool :=
  real_free_loop (size (p_bufs s)) l s.

(** [InitPacketBuffer] and [DestroyPacketBuffer]. *)
Definition InitPacketBuffer (k : packet_kind) (s : pool) : outcome pool :=
  '(s, tmp) ← packet_buffer_alloc recv_buffer_free_list s_RECV_PACKET_BUFFER_CAPACITY_HINT
                (recv_num_hint k) s;
  s ← packet_buffer_free recv_buffer_free_list tmp s;
  '(s, tmp) ← packet_buffer_alloc send_buffer_free_list s_SEND_PACKET_BUFFER_CAPACITY_HINT 1 s;
  packet_buffer_free send_buffer_free_list tmp s.

Definition DestroyPacketBuffer (s : pool) : outcome pool :=
  s ← packet_buffer_real_free recv_buffer_free_list s;
  packet_buffer_real_free send_buffer_free_list s.
End buffers.

(** ** The object *)

Record packet := Packet {
  _eRecvPageState : page_state;
  _recv_page_leading : page_leading;
  _ref_recv_buf : Z;
  _ref_send_buf : Z
}.

Definition set_state (e : page_state) (o : packet) : packet :=
  Packet e (_recv_page_leading o) (_ref_recv_buf o) (_ref_send_buf o).
Definition set_leading (l : page_leading) (o : packet) : packet :=
  Packet (_eRecvPageState o) l (_ref_recv_buf o) (_ref_send_buf o).
Definition set_recv (b : Z) (o : packet) : packet :=
  Packet (_eRecvPageState o) (_recv_page_leading o) b (_ref_send_buf o).
Definition set_send (b : Z) (o : packet) : packet :=
  Packet (_eRecvPageState o) (_recv_page_leading o) (_ref_recv_buf o) b.

(** The constructor, and [Clear], which is also what the destructor does. *)
Definition new_packet : packet :=
  Packet FRAME_PAGE_STATE_RECEIVE_LEADING (page_leading_of 0) 0 0.

Definition Clear (s : pool) (o : packet) : outcome (pool * packet) :=
  let o := set_state FRAME_PAGE_STATE_RECEIVE_LEADING o in
  '(s, o) ←
    (if negb (_ref_recv_buf o =? 0) then
       s ← packet_buffer_free recv_buffer_free_list (_ref_recv_buf o) s; Ok (s, set_recv 0 o)
     else Ok (s, o));
  if negb (_ref_send_buf o =? 0) then
    s ← packet_buffer_free send_buffer_free_list (_ref_send_buf o) s; Ok (s, set_send 0 o)
  else Ok (s, o).

(** ** Sending *)

(** What the connection does with a page: [SendRaw] returns a size, or its write fails
    and it disposes the connection, which deletes the packet object. *)
Inductive send_result := Sent (n : Z) | Disposed.

Class Conn := {
  IsReady : bool;
  SendRaw : list bytes → bytes → send_result   (* of the pages before *)
}.

Section send.
Context {mal : Malloc} {conn : Conn} (k : packet_kind).

Definition EncodeStream (uInnerUuid uSerialNo : Z) (sTypeName : bytes) (szBodyLen : Z)
    (s : pool) (o : packet) : outcome (pool * Z) :=
  let szTypeNameLen := zlen sTypeName in
  let nDataSize := s32 (SIZE_OF_PACKET_LEADING k + szTypeNameLen + szBodyLen) in
  let nOutBodyOffset :=
    s32 (SIZE_OF_FRAME_PAGE_LEADING + SIZE_OF_PACKET_LEADING k + szTypeNameLen) in
  x ← get_buf (_ref_send_buf o) s;
  m ← put_leading (with_start 1) (pb_data x);
  m ← put_leading (with_end 0) m;
  m ← put_leading (with_size nDataSize) m;
  m ← put_packet_leading k SIZE_OF_FRAME_PAGE_LEADING szTypeNameLen uSerialNo uInnerUuid m;
  m ← store (SIZE_OF_FRAME_PAGE_LEADING + SIZE_OF_PACKET_LEADING k) sTypeName m;
  let x := set_size (u64 (nOutBodyOffset + szBodyLen)) (set_data m x) in
  Ok (put_buf (_ref_send_buf o) x s, nOutBodyOffset).

(** The loop of [Post]; [ptr] is the offset in the body, [szSend] the sum so far. *)
Fixpoint post_pages (fuel : nat) (sBody : bytes) (o : packet) (s : pool)
    (ptr nOffset nremains : Z) (sent : list bytes) (szSend : Z) :
    outcome (pool * list bytes * Z) :=
  match fuel with
  | O => Ub NoFuel
  | S fuel =>
      x ← get_buf (_ref_send_buf o) s;
      l ← get_leading 0 (pb_data x);
      if negb (0 =? page_end l) then Ok (s, sent, szSend)
      else
        let nsends := Z.min (PER_FRAME_PAGE_SIZE_MAX - nOffset) nremains in
        let nremains := nremains - nsends in
        d ← load ptr nsends sBody;
        m ← store nOffset d (pb_data x);
        let size := u64 (nOffset + nsends) in
        m ← put_leading (with_end (if nremains <=? 0 then 1 else 0)) m;
        m ← put_leading (with_size (u64 (size - SIZE_OF_FRAME_PAGE_LEADING))) m;
        page ← load 0 size m;
        match SendRaw sent page with
        | Disposed => Ub Dangling  (* [this] is used after it was deleted *)
        | Sent n =>
            (* for next page, page_start must be 0, and offset contains only page leading *)
            m ← put_leading (with_start 0) m;
            let s := put_buf (_ref_send_buf o) (set_size size (set_data m x)) s in
            post_pages fuel sBody o s (ptr + nsends) SIZE_OF_FRAME_PAGE_LEADING nremains
              (sent ++ [page]) (u64 (szSend + n))
        end
  end.

(** Every page but the first sends at least one byte of the body. *)
Definition post_fuel (sBody : bytes) : nat := length sBody + 3.

(** The result is the pages that were sent and the sum of what [SendRaw] returned. *)
Definition Post (uInnerUuid uSerialNo : Z) (sTypeName sBody : bytes)
    (s : pool) (o : packet) : outcome (pool * packet * list bytes * Z) :=
  if IsReady then
    '(s, b) ← packet_buffer_alloc send_buffer_free_list s_SEND_PACKET_BUFFER_CAPACITY_HINT 1 s;
    let o := set_send b o in
    '(s, nOffset) ← EncodeStream uInnerUuid uSerialNo sTypeName (zlen sBody) s o;
    '(s, sent, szSend) ←
      post_pages (post_fuel sBody) sBody o s 0 nOffset (s32 (zlen sBody)) [] 0;
    s ← packet_buffer_free send_buffer_free_list (_ref_send_buf o) s;
    Ok (s, set_send 0 o, sent, szSend)
  else Ok (s, o, [], 0).
End send.

(** ** Receiving *)

Section receive.
Context {mal : Malloc} (k : packet_kind).

(** [memcpy (_ref_recv_buf->data + _ref_recv_buf->size, pBuf, nLen)] and the new size. *)
Definition recv_append (d : bytes) (x : packet_buffer) : outcome packet_buffer :=
  m ← store (pb_size x) d (pb_data x);
  Ok (set_size (u64 (pb_size x + zlen d)) (set_data m x)).

Definition recv_fits (nLen : Z) (x : packet_buffer) : bool :=
  u64 (pb_size x + nLen) <=? pb_cap_size x.

(** Whether the [n] bytes of a packet at [off] hold the name that its leading announces. *)
Definition packet_complete (off n : Z) (m : bytes) : outcome bool :=
  name_len ← get_name_len off m;
  Ok ((0 <? name_len) && (SIZE_OF_PACKET_LEADING k + name_len <=? n)).

(** [packet_buffer_free (&..., _ref_recv_buf); _ref_recv_buf = nullptr;] *)
Definition recv_release (s : pool) (o : packet) : outcome (pool * packet) :=
  s ← packet_buffer_free recv_buffer_free_list (_ref_recv_buf o) s; Ok (s, set_recv 0 o).

(** A whole packet in one page. *)
Definition consume_single (m : bytes) (pBuf nLen : Z) (s : pool) (o : packet) :
    outcome (pool * packet * list bytes * Z) :=
  c ← packet_complete pBuf nLen m;
  if (c : bool) then d ← load pBuf nLen m; Ok (s, o, [d], 0)
  else Ok (s, o, [], -1).

(** The first page of several. *)
Definition consume_first (m : bytes) (pBuf nLen : Z) (s : pool) (o : packet) :
    outcome (pool * packet * list bytes * Z) :=
  '(s, b) ← packet_buffer_alloc recv_buffer_free_list s_RECV_PACKET_BUFFER_CAPACITY_HINT
              (recv_num_hint k) s;
  let o := set_recv b o in
  x ← get_buf b s;
  if recv_fits nLen x then
    d ← load pBuf nLen m;
    x ← recv_append d x;
    Ok (put_buf b x s, o, [], 0)
  else
    '(s, o) ← recv_release s o; Ok (s, o, [], -2).

(** The last page. *)
Definition consume_last (m : bytes) (pBuf nLen : Z) (s : pool) (o : packet) :
    outcome (pool * packet * list bytes * Z) :=
  x ← get_buf (_ref_recv_buf o) s;
  if recv_fits nLen x then
    d ← load pBuf nLen m;
    x ← recv_append d x;
    let s := put_buf (_ref_recv_buf o) x s in
    c ← packet_complete 0 (pb_size x) (pb_data x);
    '(got, rc) ←
      (if (c : bool) then p ← load 0 (pb_size x) (pb_data x); Ok ([p], 0) else Ok ([], -3));
    '(s, o) ← recv_release s o; Ok (s, o, got, rc)
  else
    '(s, o) ← recv_release s o; Ok (s, o, [], -4).

(** A page between the first and the last. *)
Definition consume_middle (m : bytes) (pBuf nLen : Z) (s : pool) (o : packet) :
    outcome (pool * packet * list bytes * Z) :=
  x ← get_buf (_ref_recv_buf o) s;
  if recv_fits nLen x then
    d ← load pBuf nLen m;
    x ← recv_append d x;
    Ok (put_buf (_ref_recv_buf o) x s, o, [], 0)
  else
    '(s, o) ← recv_release s o; Ok (s, o, [], -5).

(** [pBuf] is an offset into the memory [m] of the stream buffer.  The result is what
    the callback was given and the return code. *)
Definition ConsumePacket (m : bytes) (pBuf nLen : Z) (s : pool) (o : packet) :
    outcome (pool * packet * list bytes * Z) :=
  let l := _recv_page_leading o in
  if (0 <? page_start l) && (0 <? page_end l) then consume_single m pBuf nLen s o
  else if 0 <? page_start l then consume_first m pBuf nLen s o
  else if negb (_ref_recv_buf o =? 0) then
    if 0 <? page_end l then consume_last m pBuf nLen s o else consume_middle m pBuf nLen s o
  else Ok (s, o, [], -6).

Definition consume_failed (rc : Z) : bool :=
  match k with CTcpInnerPacket => rc <? 0 | CTcpOuterPacket => negb (0 =? rc) end.

(** The loop over the pages; [got] is what the callback was given so far. *)
Fixpoint page_loop (fuel : nat) (m : bytes) (nCapacity ptr nremains nconsumed : Z)
    (s : pool) (o : packet) (got : list bytes) : outcome (pool * packet * list bytes * Z) :=
  match fuel with
  | O => Ub NoFuel
  | S fuel =>
      match _eRecvPageState o with
      | FRAME_PAGE_STATE_RECEIVE_LEADING =>
          let nwants := SIZE_OF_FRAME_PAGE_LEADING in
          (* hungry for leading *)
          if nremains <? nwants then Ok (s, o, got, nconsumed)
          else
            l ← get_leading ptr m;
            let o := set_leading l o in
            (* treat empty page as error -99 *)
            if 0 =? data_size l then Ok (s, o, got, -99)
            else if nwants + data_size l <=? nCapacity then
              page_loop fuel m nCapacity ptr nremains nconsumed s
                (set_state FRAME_PAGE_STATE_RECEIVE_BODY o) got
            else
              (* page overflow *)
              let nskip := nremains in
              let o := set_leading (with_size (data_size l - (nskip - nwants)) l) o in
              Ok (s, set_state FRAME_PAGE_STATE_SKIP o, got, nconsumed + nskip)
      | FRAME_PAGE_STATE_RECEIVE_BODY =>
          let nwants := SIZE_OF_FRAME_PAGE_LEADING + data_size (_recv_page_leading o) in
          (* hungry for body *)
          if nremains <? nwants then Ok (s, o, got, nconsumed)
          else
            '(s, o, g, rc) ← ConsumePacket m (ptr + SIZE_OF_FRAME_PAGE_LEADING)
                               (data_size (_recv_page_leading o)) s o;
            if consume_failed rc then Ok (s, o, got ++ g, rc)
            else
              page_loop fuel m nCapacity (ptr + nwants) (nremains - nwants) (nconsumed + nwants)
                s (set_state FRAME_PAGE_STATE_RECEIVE_LEADING o) (got ++ g)
      | FRAME_PAGE_STATE_SKIP =>
          let l := _recv_page_leading o in
          let nskip := Z.min nremains (data_size l) in
          let l := with_size (data_size l - nskip) l in
          let o := set_leading l o in
          let o := if 0 >=? data_size l then set_state FRAME_PAGE_STATE_RECEIVE_LEADING o else o in
          Ok (s, o, got, nconsumed + nskip)
      end
  end.

(** A page takes two rounds and at least three bytes. *)
Definition page_fuel (nLen : Z) : nat := Z.to_nat nLen + 2.

Definition ConsumeFramePage (m : bytes) (pBuf nLen nCapacity : Z) (s : pool) (o : packet) :
    outcome (pool * packet * list bytes * Z) :=
  page_loop (page_fuel nLen) m nCapacity pBuf nLen 0 s o [].

(** Returning a count, or throwing [std::exception]. *)
Inductive decode_result := Consumed (n : Z) | Thrown (errno : Z).

Definition DecodeStream (h : heap) (bb : bip_buf) (s : pool) (o : packet) :
    outcome (bip_buf * pool * packet * list bytes * decode_result) :=
  m ← block h (_buffer bb);
  '(s, o, got, nConsumed) ←
    ConsumeFramePage m (bip_buf_get_contiguous_block bb)
      (s32 (bip_buf_get_committed_size bb)) (s32 (bip_buf_get_capacity bb)) s o;
  if 0 <? nConsumed then
    Ok ((bip_buf_decommit bb nConsumed).1, s, o, got, Consumed nConsumed)
  else if 0 =? nConsumed then Ok (bb, s, o, got, Consumed nConsumed)
  else Ok (bb, s, o, got, Thrown nConsumed).
End receive.

(** ** The packet as its handler reads it *)

(** [OnGotPacket]: the uuid (of the inner packet), the serial number, the name and the
    body that the connection hands on. *)
Record message := Message { m_uuid : Z; m_serial : Z; m_name : bytes; m_body : bytes }.

Definition OnGotPacket (k : packet_kind) (buf_in : bytes) : outcome message :=
  let szHeaderLen := SIZE_OF_PACKET_LEADING k in
  szTypeNameLen ← get_name_len 0 buf_in;
  sTypeName ← load szHeaderLen szTypeNameLen buf_in;
  let szBodyLen := u64 (zlen buf_in - szTypeNameLen - szHeaderLen) in
  sBody ← load (szHeaderLen + szTypeNameLen) szBodyLen buf_in;
  serial ← load1 1 buf_in;
  uuid ← match k with
         | CTcpInnerPacket => d ← load 8 8 buf_in; Ok (le_val d)
         | CTcpOuterPacket => Ok 0
         end;
  Ok (Message uuid serial sTypeName sBody).

(** ** Reading from libuv: [alloc_cb] of [tcp/uv/uv_server.c] and [on_client_read] of
    [tcp/uv/UvServer.cpp] for a client that has its connection object *)

Record endpoint := Endpoint {
  ep_heap : heap;       (* of the stream buffer *)
  ep_bb : bip_buf;      (* [clnt->_bb] *)
  ep_pool : pool;
  ep_obj : packet;      (* the packet object of [clnt->_connimpl] *)
  ep_got : list bytes   (* what the callback was given *)
}.

Definition set_bb (bb : bip_buf) (st : endpoint) : endpoint :=
  Endpoint (ep_heap st) bb (ep_pool st) (ep_obj st) (ep_got st).

Definition UV_EOF : Z := -4095.
Definition UV_ECONNRESET : Z := -4077.

(** [buf->base] and [buf->len]. *)
Definition alloc_cb (st : endpoint) : outcome (endpoint * option Z * Z) :=
  '(h, bb, base, len) ← bip_buf_reserve (ep_heap st) (ep_bb st);
  Ok (Endpoint h bb (ep_pool st) (ep_obj st) (ep_got st), base, len).

(** What the callback did: nothing, [pConn->Disconnect ()], or [OnRawData]. *)
Inductive read_result := Waiting | Disconnected | Decoded (r : decode_result).

Definition OnRawData {mal : Malloc} (k : packet_kind) (st : endpoint) :
    outcome (endpoint * decode_result) :=
  '(bb, s, o, got, r) ← DecodeStream k (ep_heap st) (ep_bb st) (ep_pool st) (ep_obj st);
  Ok (Endpoint (ep_heap st) bb s o (ep_got st ++ got), r).

Definition on_client_read {mal : Malloc} (k : packet_kind) (nread : Z) (st : endpoint) :
    outcome (endpoint * read_result) :=
  if nread <? 0 then
    if (nread =? UV_EOF) || (nread =? UV_ECONNRESET) then
      Ok (set_bb (bip_buf_commit (ep_bb st) 0) st, Disconnected)
    else Ok (st, Waiting)
  else if nread =? 0 then Ok (set_bb (bip_buf_commit (ep_bb st) 0) st, Waiting)
  else
    let st := set_bb (bip_buf_commit (ep_bb st) nread) st in
    '(st, r) ← OnRawData k st; Ok (st, Decoded r).

(** ** The outer class

    [tcp/TcpOuterPacket.cpp] repeats the functions above for its own leading, free lists
    and hints; they are the instances at [CTcpOuterPacket]. *)

Section outer.
Context {mal : Malloc} {conn : Conn}.

Definition Outer_packet_buffer_alloc := packet_buffer_alloc.
Definition Outer_packet_buffer_free := packet_buffer_free.
Definition Outer_packet_buffer_real_free := packet_buffer_real_free.
Definition Outer_Clear := Clear.
Definition Outer_EncodeStream := EncodeStream CTcpOuterPacket.
Definition Outer_DecodeStream := DecodeStream CTcpOuterPacket.
Definition Outer_Post := Post CTcpOuterPacket.
Definition Outer_ConsumeFramePage := ConsumeFramePage CTcpOuterPacket.
Definition Outer_ConsumePacket := ConsumePacket CTcpOuterPacket.
Definition Outer_InitPacketBuffer := InitPacketBuffer CTcpOuterPacket.
Definition Outer_DestroyPacketBuffer := DestroyPacketBuffer.
Definition Outer_OnGotPacket := OnGotPacket CTcpOuterPacket.
End outer.
