(* ===== verification/TcpPool.v ===== *)
(** * The shared packet buffers: invariant and lemmas

    [pool_ok s ch held] says that the two free lists of [s] are the lists [ch], and that
    every other malloc'ed buffer is in [held], with the list it belongs to and, for a
    receive buffer, the bytes put together in it.  The connections own disjoint parts
    of [held], so what one of them does to its own buffer leaves the others' bytes
    alone. *)

From S2P Require Import Prelude CHeap BipBuf TcpPacket.

#[local] Open Scope Z_scope.

Definition cap_of (l : free_list) : Z := capacity_hint_of l - sizeof_packet_buffer.

Lemma cap_of_bounds l : 16352 ≤ cap_of l ≤ 983008.
Proof. destruct l; vm_compute; split; discriminate. Qed.

(** A buffer of list [l] that holds the bytes [a]. *)
Record holds (l : free_list) (a : bytes) (x : packet_buffer) : Prop := {
  hd_cap : pb_cap_size x = cap_of l;
  hd_len : zlen (pb_data x) = cap_of l;
  hd_recv : l = recv_buffer_free_list → pb_size x = zlen a ∧ take (length a) (pb_data x) = a
}.

(** The buffers of a free list, from its head. *)
Fixpoint chain (m : gmap Z packet_buffer) (h : Z) (l : list Z) : Prop :=
  match l with
  | [] => h = 0
  | b :: l => h = b ∧ b ≠ 0 ∧ ∃ x, m !! b = Some x ∧ chain m (pb_next x) l
  end.

Record pool_ok (s : pool) (ch : free_list → list Z) (held : gmap Z (free_list * bytes)) :
    Prop := {
  pk_chain l : chain (p_bufs s) (list_head l s) (ch l);
  pk_nodup l : NoDup (ch l);
  pk_disjoint l l' b : b ∈ ch l → b ∈ ch l' → l = l';
  pk_free l b : b ∈ ch l → held !! b = None ∧ ∃ x, p_bufs s !! b = Some x ∧
    pb_cap_size x = cap_of l ∧ zlen (pb_data x) = cap_of l;
  pk_held b l a : held !! b = Some (l, a) → ∃ x, p_bufs s !! b = Some x ∧ holds l a x;
  pk_all b x : p_bufs s !! b = Some x → is_Some (held !! b) ∨ ∃ l, b ∈ ch l;
  pk_next b : is_Some (p_bufs s !! b) → 0 < b < p_next s;
  pk_pos : 0 < p_next s
}.

Definition pool_inv (s : pool) (held : gmap Z (free_list * bytes)) : Prop :=
  ∃ ch, pool_ok s ch held.

Lemma empty_pool_inv : pool_inv empty_pool ∅.
Proof.
  exists (λ _, []). split; cbn.
  - by intros [].
  - constructor.
  - by intros ? ? ? ?%elem_of_nil.
  - by intros ? ? ?%elem_of_nil.
  - intros ? ? ?. by rewrite lookup_empty.
  - intros ? ?. by rewrite lookup_empty.
  - intros ? [? ?]. by rewrite lookup_empty in *.
  - lia.
Qed.

(** ** Free lists *)

Lemma chain_insert m h l b x : b ∉ l → chain m h l → chain (<[b := x]> m) h l.
Proof.
  revert h. induction l as [|c l IH]; cbn; [done|].
  intros h [Hne Hl]%not_elem_of_cons (-> & ? & y & Hy & Hc).
  split; [done|]. split; [done|]. exists y. rewrite lookup_insert_ne by done. auto.
Qed.

Lemma chain_delete m h l b : b ∉ l → chain m h l → chain (delete b m) h l.
Proof.
  revert h. induction l as [|c l IH]; cbn; [done|].
  intros h [Hne Hl]%not_elem_of_cons (-> & ? & y & Hy & Hc).
  split; [done|]. split; [done|]. exists y. rewrite lookup_delete_ne by done. auto.
Qed.

(** Changing a buffer but not its link. *)
Lemma chain_update m h l b x x' :
  m !! b = Some x → pb_next x' = pb_next x → chain m h l → chain (<[b := x']> m) h l.
Proof.
  intros Hb Hn. revert h. induction l as [|c l IH]; cbn; [done|].
  intros h (-> & ? & y & Hy & Hc). split; [done|]. split; [done|].
  destruct (decide (b = c)) as [->|].
  - exists x'. rewrite lookup_insert_eq, Hn. simplify_eq. auto.
  - exists y. rewrite lookup_insert_ne by done. auto.
Qed.

Lemma chain_nil_head m h l : chain m h l → h = 0 ↔ l = [].
Proof. destruct l; cbn; [naive_solver|]. intros (-> & ? & _). naive_solver. Qed.

(** The two lists as a function, with that of [l] replaced. *)
Definition upd_chain (l : free_list) (c : list Z) (ch : free_list → list Z) :
    free_list → list Z := λ l', if decide (l' = l) then c else ch l'.

Lemma upd_chain_eq l c ch : upd_chain l c ch l = c.
Proof. unfold upd_chain. by rewrite decide_True. Qed.
Lemma upd_chain_ne l l' c ch : l' ≠ l → upd_chain l c ch l' = ch l'.
Proof. intros. unfold upd_chain. by rewrite decide_False. Qed.

Lemma list_head_set l b s : list_head l (set_list_head l b s) = b.
Proof. by destruct l. Qed.
Lemma list_head_set_ne l l' b s : l' ≠ l → list_head l' (set_list_head l b s) = list_head l' s.
Proof. by destruct l, l'. Qed.
Lemma p_bufs_set_list_head l b s : p_bufs (set_list_head l b s) = p_bufs s.
Proof. by destruct l. Qed.
Lemma p_next_set_list_head l b s : p_next (set_list_head l b s) = p_next s.
Proof. by destruct l. Qed.
Lemma list_head_put_buf l b x s : list_head l (put_buf b x s) = list_head l s.
Proof. by destruct l. Qed.

Create Rewrite HintDb pool.
#[export] Hint Rewrite upd_chain_eq list_head_set p_bufs_set_list_head p_next_set_list_head
  list_head_put_buf : pool.

Lemma get_buf_Ok b s x : b ≠ 0 → p_bufs s !! b = Some x → get_buf b s = Ok x.
Proof.
  intros Hb Hx. unfold get_buf. rewrite check_true, Hx; [done|].
  by apply negb_true_iff, Z.eqb_neq.
Qed.

Section pool.
Context {mal : Malloc}.

(** ** Held buffers *)

Lemma pool_get s held b l a :
  pool_inv s held → held !! b = Some (l, a) →
  ∃ x, get_buf b s = Ok x ∧ holds l a x ∧ 0 < b.
Proof.
  intros [ch Hok] Hb. destruct (pk_held _ _ _ Hok _ _ _ Hb) as (x & Hx & Hh).
  destruct (pk_next _ _ _ Hok b) as [? _]; [eauto|].
  exists x. split; [|done]. apply get_buf_Ok; [lia|done].
Qed.

Lemma pool_put s held b l a x x' a' :
  pool_inv s held → held !! b = Some (l, a) → get_buf b s = Ok x →
  pb_next x' = pb_next x → holds l a' x' →
  pool_inv (put_buf b x' s) (<[b := (l, a')]> held).
Proof.
  intros [ch [Hc Hnd Hdj Hf Hh Ha Hn Hp]] Hb Hx Hnx Hx'. exists ch.
  destruct (Hh _ _ _ Hb) as (x0 & Hx0 & _).
  destruct (Hn b) as [? ?]; [eauto|]. rewrite (get_buf_Ok _ _ x0) in Hx by (lia || done).
  simplify_eq. split; cbn; try done.
  - intros l0. rewrite list_head_put_buf. by apply (chain_update _ _ _ _ x).
  - intros l0 c Hin. destruct (Hf _ _ Hin) as [Hcn ?].
    assert (b ≠ c) by congruence. by rewrite !lookup_insert_ne.
  - intros c l0 a0. rewrite !lookup_insert. case_decide; [|by apply Hh].
    intros [= <- <-]. eauto.
  - intros c y. rewrite !lookup_insert. case_decide; [|by apply Ha].
    intros _. left. eauto.
  - intros c. rewrite lookup_insert. case_decide; [|by apply Hn]. subst. intros _. lia.
Qed.

(** ** Freeing *)

Lemma pool_free s held b l a :
  pool_inv s held → held !! b = Some (l, a) →
  ∃ s', packet_buffer_free l b s = Ok s' ∧ pool_inv s' (delete b held).
Proof.
  intros Hinv Hb. destruct (pool_get _ _ _ _ _ Hinv Hb) as (x & Hx & Hhx & Hpos).
  unfold packet_buffer_free. rewrite Hx. cbn [mbind outcome_bind]. eexists. split; [done|].
  destruct Hinv as [ch [Hc Hnd Hdj Hf Hh Ha Hn Hp]].
  destruct (Hh _ _ _ Hb) as (x0 & Hx0 & [Hx1 Hx2 _]).
  rewrite (get_buf_Ok _ _ x0) in Hx by (lia || done). simplify_eq.
  assert (∀ l', b ∉ ch l') as Hnot.
  { intros l' [Hcn _]%Hf. congruence. }
  exists (upd_chain l (b :: ch l) ch). split; autorewrite with pool; cbn.
  - intros l'. autorewrite with pool. destruct (decide (l' = l)) as [->|].
    + autorewrite with pool. cbn. split; [done|]. split; [lia|]. eexists.
      rewrite lookup_insert_eq. split; [done|]. cbn. by apply chain_insert.
    + rewrite upd_chain_ne, list_head_set_ne, list_head_put_buf by done. by apply chain_insert.
  - intros l'. unfold upd_chain. case_decide; [|done]. apply NoDup_cons. auto.
  - intros l1 l2 c. unfold upd_chain.
    repeat case_decide; rewrite ?elem_of_cons; subst; try done; eauto.
    + intros [->|?]; [|eauto]. by intros ?%Hnot.
    + intros Hc1 [->|?]; [|eauto]. by apply Hnot in Hc1.
  - intros l' c. rewrite lookup_delete, lookup_insert.
    assert (∀ c, c ∈ ch l' → b ≠ c) as Hbc by (intros ? H ->; by apply (Hnot l')).
    unfold upd_chain. case_decide; [subst|]; rewrite ?elem_of_cons.
    + intros [->|Hin]; [rewrite !decide_True by done; split; [done|]; eexists; split; [done|]; done|].
      pose proof (Hbc _ Hin). rewrite !decide_False by done. by apply Hf.
    + intros Hin. pose proof (Hbc _ Hin). rewrite !decide_False by done. by apply Hf.
  - intros c l0 a0 [? Hc0]%lookup_delete_Some. rewrite lookup_insert_ne by done. eauto.
  - intros c y. rewrite lookup_insert, lookup_delete. case_decide.
    + subst. intros _. right. exists l. rewrite upd_chain_eq. constructor.
    + intros [?|[l' ?]]%Ha; [by left|]. right. exists l'. unfold upd_chain.
      case_decide; [subst; by constructor|done].
  - intros c. rewrite lookup_insert. case_decide; [|by apply Hn]. subst. intros _. apply Hn. eauto.
  - done.
Qed.

(** ** Allocating *)

Lemma pool_pop s ch held l b c :
  pool_ok s ch held → ch l = b :: c →
  ∃ x, get_buf b s = Ok x ∧ list_head l s = b ∧
    pool_ok (put_buf b (set_size 0 x) (set_list_head l (pb_next x) s)) (upd_chain l c ch)
      (<[b := (l, [])]> held).
Proof.
  intros [Hc Hnd Hdj Hf Hh Ha Hn Hp] Hl.
  pose proof (Hc l) as Hcl. pose proof (Hnd l) as Hndl. rewrite Hl in Hcl, Hndl.
  destruct Hcl as (Hhd & Hb0 & x & Hx & Hcx). apply NoDup_cons in Hndl as [Hbc Hndc].
  assert (b ∈ ch l) as Hbl by (rewrite Hl; constructor).
  destruct (Hf _ _ Hbl) as [Hbn (x2 & Hx2 & Hx1 & Hxl)]. simplify_eq.
  exists x. split; [by apply get_buf_Ok|]. split; [done|].
  assert (∀ l' c0, c0 ∈ upd_chain l c ch l' → c0 ∈ ch l' ∧ c0 ≠ list_head l s) as Hin.
  { intros l' c0. unfold upd_chain. case_decide.
    - subst. rewrite Hl. intros Hc0. split; [by constructor|]. by intros ->.
    - intros Hc0. split; [done|]. intros ->. by apply (Hdj l' l) in Hc0. }
  split; autorewrite with pool; cbn; autorewrite with pool.
  - intros l'. autorewrite with pool. apply (chain_update _ _ _ _ x); [done..|].
    destruct (decide (l' = l)) as [->|]; autorewrite with pool; [done|].
    by rewrite upd_chain_ne, list_head_set_ne by done.
  - intros l'. unfold upd_chain. by case_decide.
  - intros l1 l2 c0 [? _]%Hin [? _]%Hin. eauto.
  - intros l' c0 [Hc0 ?]%Hin. rewrite !lookup_insert_ne by done. by apply Hf.
  - intros c0 l0 a0. rewrite !lookup_insert. case_decide; [|by apply Hh].
    intros [= <- <-]. eexists. split; [done|]. split; [done..|]. intros _. cbn. by rewrite take_0.
  - intros c0 y. rewrite !lookup_insert. case_decide; [intros _; left; eauto|].
    intros [?|[l' Hc0]]%Ha; [by left|]. right. exists l'. unfold upd_chain.
    case_decide; [|done]. subst. rewrite Hl in Hc0. by apply elem_of_cons in Hc0 as [->|].
  - intros c0. rewrite lookup_insert. case_decide; [|by apply Hn]. subst. intros _. apply Hn. eauto.
  - done.
Qed.

Lemma pool_new s ch held l :
  pool_ok s ch held →
  ∃ s', new_packet_buffer l (capacity_hint_of l) s = Ok s' ∧
    pool_ok s' (upd_chain l (p_next s :: ch l) ch) held.
Proof.
  intros [Hc Hnd Hdj Hf Hh Ha Hn Hp]. pose proof (cap_of_bounds l) as Hcb.
  unfold new_packet_buffer. rewrite check_true by (apply Z.leb_le; unfold cap_of in Hcb; lia).
  eexists. split; [done|]. fold (cap_of l). rewrite u64_small by lia.
  assert (p_bufs s !! p_next s = None) as Hfresh.
  { apply eq_None_not_Some. intros ?%Hn. lia. }
  assert (∀ l', p_next s ∉ ch l') as Hnot.
  { intros l' (_ & y & ? & _)%Hf. congruence. }
  split; autorewrite with pool; cbn.
  - intros l'. destruct (decide (l' = l)) as [->|]; autorewrite with pool.
    + cbn. split; [done|]. split; [lia|]. eexists. rewrite lookup_insert_eq.
      split; [done|]. cbn. by apply chain_insert.
    + rewrite upd_chain_ne, list_head_set_ne by done. apply chain_insert; [done|]. pose proof (Hc l') as Hcl. by destruct l'.
  - intros l'. unfold upd_chain. case_decide; [|done]. apply NoDup_cons. auto.
  - intros l1 l2 c. unfold upd_chain.
    repeat case_decide; rewrite ?elem_of_cons; subst; try done; eauto.
    + intros [->|?]; [|eauto]. by intros ?%Hnot.
    + intros Hc1 [->|?]; [|eauto]. by apply Hnot in Hc1.
  - intros l' c. rewrite lookup_insert.
    assert (∀ c, c ∈ ch l' → p_next s ≠ c) as Hbc by (intros ? Hi <-; by apply (Hnot l')).
    unfold upd_chain. case_decide; [subst|]; rewrite ?elem_of_cons.
    + intros [->|Hin].
      * rewrite decide_True by done. split; [apply eq_None_not_Some; intros [[l0 a0] H0];
          destruct (Hh _ _ _ H0) as (? & ? & _); congruence|].
        eexists. split; [done|]. cbn. rewrite junk_length. split; [done|lia].
      * pose proof (Hbc _ Hin). rewrite !decide_False by done. by apply Hf.
    + intros Hin. pose proof (Hbc _ Hin). rewrite !decide_False by done. by apply Hf.
  - intros c l0 a0 (y & Hy & ?)%Hh. exists y. rewrite lookup_insert_ne by congruence. done.
  - intros c y. rewrite lookup_insert. case_decide.
    + subst. intros _. right. exists l. rewrite upd_chain_eq. constructor.
    + intros [?|[l' ?]]%Ha; [by left|]. right. exists l'. unfold upd_chain.
      case_decide; [subst; by constructor|done].
  - intros c. rewrite lookup_insert. case_decide; [subst; intros _; lia|].
    intros ?%Hn. lia.
  - lia.
Qed.

Lemma pool_grow s ch held l n :
  pool_ok s ch held → ∃ s' c, grow_list l (capacity_hint_of l) n s = Ok s' ∧
    length c = n ∧ pool_ok s' (upd_chain l (c ++ ch l) ch) held.
Proof.
  revert s ch. induction n as [|n IH]; intros s ch Hok; cbn [grow_list].
  { exists s, []. split; [done|]. split; [done|]. cbn.
    destruct Hok as [Hc Hnd Hdj Hf Hh Ha Hn Hp].
    assert (∀ l', upd_chain l (ch l) ch l' = ch l') as E.
    { intros l'. unfold upd_chain. case_decide; by subst. }
    split; try done; intros; rewrite ?E in *; eauto.
    destruct (Ha b x) as [?|[l' ?]]; [done|by left|]. right. exists l'. by rewrite E. }
  destruct (pool_new _ _ _ l Hok) as (s1 & -> & Hok1). cbn [mbind outcome_bind].
  destruct (IH _ _ Hok1) as (s2 & c & -> & Hl & Hok2).
  exists s2, (c ++ [p_next s]). split; [done|]. split; [rewrite length_app; cbn; lia|].
  rewrite upd_chain_eq in Hok2. rewrite <- app_assoc. cbn [app].
  destruct Hok2 as [Hc Hnd Hdj Hf Hh Ha Hn Hp].
  assert (∀ l', upd_chain l (c ++ p_next s :: ch l) (upd_chain l (p_next s :: ch l) ch) l' =
    upd_chain l (c ++ p_next s :: ch l) ch l') as E.
  { intros l'. unfold upd_chain. by case_decide. }
  split; try done; intros; rewrite <- ?E in *; eauto.
  destruct (Ha b x) as [?|[l' ?]]; [done|by left|]. right. exists l'. by rewrite <- E.
Qed.

Lemma pool_alloc s held l n :
  pool_inv s held → (0 < n)%nat →
  ∃ s' b, packet_buffer_alloc l (capacity_hint_of l) n s = Ok (s', b) ∧
    b ≠ 0 ∧ held !! b = None ∧ pool_inv s' (<[b := (l, [])]> held).
Proof.
  intros [ch Hok] Hn. unfold packet_buffer_alloc. remember 1%nat as one. cbn [alloc_rec].
  destruct (ch l) as [|b c] eqn:Hl.
  - rewrite (proj2 (chain_nil_head _ _ _ (pk_chain _ _ _ Hok l)) Hl). cbn [Z.eqb negb].
    destruct (pool_grow _ _ _ l n Hok) as (s1 & [|b c] & -> & Hlen & Hok1);
      [cbn in Hlen; lia|]. cbn [mbind outcome_bind]. subst one. cbn [alloc_rec].
    destruct (pool_pop _ _ _ l b (c ++ ch l) Hok1) as (x & Hx & Hhd & Hok2).
    { by rewrite upd_chain_eq. }
    pose proof (pk_chain _ _ _ Hok1 l) as Hc. rewrite upd_chain_eq in Hc. cbn in Hc.
    destruct Hc as (_ & Hb0 & _).
    rewrite Hhd, (proj2 (Z.eqb_neq _ _)) by done. cbn [negb]. rewrite Hx. cbn [mbind outcome_bind].
    do 2 eexists. split; [done|]. split; [done|]. split; [|eexists; exact Hok2].
    apply (pk_free _ _ _ Hok1 l). rewrite upd_chain_eq. constructor.
  - destruct (pool_pop _ _ _ l b c Hok Hl) as (x & Hx & Hhd & Hok2).
    pose proof (pk_chain _ _ _ Hok l) as Hc. rewrite Hl in Hc. destruct Hc as (_ & Hb0 & _).
    rewrite Hhd, (proj2 (Z.eqb_neq _ _)) by done. cbn [negb]. rewrite Hx. cbn [mbind outcome_bind].
    do 2 eexists. split; [done|]. split; [done|]. split; [|eexists; exact Hok2].
    apply (pk_free _ _ _ Hok l). rewrite Hl. constructor.
Qed.

(** ** Giving the buffers back to malloc *)

Lemma pool_drop s ch held l b c :
  pool_ok s ch held → ch l = b :: c →
  ∃ x, get_buf b s = Ok x ∧ list_head l s = b ∧ b ≠ 0 ∧
    pool_ok (set_bufs (delete b (p_bufs s)) (set_list_head l (pb_next x) s))
      (upd_chain l c ch) held.
Proof.
  intros [Hc Hnd Hdj Hf Hh Ha Hn Hp] Hl.
  pose proof (Hc l) as Hcl. pose proof (Hnd l) as Hndl. rewrite Hl in Hcl, Hndl.
  destruct Hcl as (Hhd & Hb0 & x & Hx & Hcx). apply NoDup_cons in Hndl as [Hbc Hndc].
  exists x. split; [by apply get_buf_Ok|]. split; [done|]. split; [done|].
  assert (b ∈ ch l) as Hbl by (rewrite Hl; constructor).
  destruct (Hf _ _ Hbl) as [Hbn _].
  assert (∀ l' c0, c0 ∈ upd_chain l c ch l' → c0 ∈ ch l' ∧ c0 ≠ b) as Hin.
  { intros l' c0. unfold upd_chain. case_decide.
    - subst. rewrite Hl. intros Hc0. split; [by constructor|]. by intros ->.
    - intros Hc0. split; [done|]. intros ->. by apply (Hdj l' l) in Hc0. }
  split; cbn; rewrite ?p_next_set_list_head.
  - intros l'. apply chain_delete; [by intros [_ ?]%Hin|].
    destruct (decide (l' = l)) as [->|].
    + rewrite upd_chain_eq. by destruct l.
    + rewrite upd_chain_ne by done. pose proof (Hc l'). by destruct l, l'.
  - intros l'. unfold upd_chain. by case_decide.
  - intros l1 l2 c0 [? _]%Hin [? _]%Hin. eauto.
  - intros l' c0 [Hc0 ?]%Hin. rewrite lookup_delete_ne by done. by apply Hf.
  - intros c0 l0 a0 Hc0. rewrite lookup_delete_ne by congruence. by apply Hh.
  - intros c0 y [? Hy]%lookup_delete_Some. destruct (Ha _ _ Hy) as [?|[l' Hc0]]; [by left|].
    right. exists l'. unfold upd_chain. case_decide; [|done]. subst. rewrite Hl in Hc0.
    by apply elem_of_cons in Hc0 as [->|].
  - intros c0 [y [_ Hy]%lookup_delete_Some]. eauto.
  - done.
Qed.

Lemma real_free_ok fuel l : ∀ s ch held,
  pool_ok s ch held → (length (ch l) ≤ fuel)%nat →
  ∃ s', real_free_loop fuel l s = Ok s' ∧ pool_ok s' (upd_chain l [] ch) held.
Proof.
  induction fuel as [|fuel IH]; intros s ch held Hok Hlen; cbn [real_free_loop];
    destruct (ch l) as [|b c] eqn:Hl; cbn in Hlen; try lia.
  1,2: rewrite (proj2 (chain_nil_head _ _ _ (pk_chain _ _ _ Hok l)) Hl); cbn [Z.eqb];
    exists s; split; [done|]; assert (∀ l', upd_chain l [] ch l' = ch l') as E
      by (intros l'; unfold upd_chain; case_decide; by subst);
    destruct Hok as [Hc Hnd Hdj Hf Hh Ha Hn Hp]; split; try done; intros *; rewrite ?E; eauto;
    intros [?|[l' ?]]%Ha; [by left|]; right; exists l'; by rewrite E.
  destruct (pool_drop _ _ _ l b c Hok Hl) as (x & Hx & Hhd & Hb0 & Hok2).
  rewrite Hhd, (proj2 (Z.eqb_neq _ _)), Hx by done. cbn [mbind outcome_bind].
  replace (get_buf b (set_list_head l (pb_next x) s)) with (get_buf b s) by (by destruct l).
  rewrite Hx. cbn [mbind outcome_bind].
  destruct (IH _ _ _ Hok2) as (s' & E & Hok'); [rewrite upd_chain_eq; lia|].
  exists s'. split; [by destruct l|].
  destruct Hok' as [Hc Hnd Hdj Hf Hh Ha Hn Hp].
  assert (∀ l', upd_chain l [] (upd_chain l c ch) l' = upd_chain l [] ch l') as E2
    by (intros l'; unfold upd_chain; by case_decide).
  split; try done; intros *; rewrite <- ?E2; eauto.
  intros [?|[l' ?]]%Ha; [by left|]. right. exists l'. by rewrite <- E2.
Qed.

Lemma chain_size s ch held l : pool_ok s ch held → (length (ch l) ≤ size (p_bufs s))%nat.
Proof.
  intros [_ Hnd _ Hf _ _ _ _]. rewrite <- (size_dom (D := gset Z)).
  rewrite <- (size_list_to_set (C := gset Z) (ch l)) by apply Hnd.
  apply subseteq_size. intros b Hb. apply elem_of_list_to_set in Hb.
  destruct (Hf _ _ Hb) as (_ & x & Hx & _). by apply elem_of_dom_2 in Hx.
Qed.

(** What is left are the buffers that somebody holds. *)
Lemma destroy_ok s held :
  pool_inv s held → ∃ s', DestroyPacketBuffer s = Ok s' ∧ pool_inv s' held ∧
    p_recv s' = 0 ∧ p_send s' = 0 ∧ ∀ b, is_Some (p_bufs s' !! b) ↔ is_Some (held !! b).
Proof.
  intros [ch Hok]. unfold DestroyPacketBuffer, packet_buffer_real_free.
  destruct (real_free_ok _ recv_buffer_free_list _ _ _ Hok (chain_size _ _ _ _ Hok))
    as (s1 & -> & Hok1). cbn [mbind outcome_bind].
  destruct (real_free_ok _ send_buffer_free_list _ _ _ Hok1 (chain_size _ _ _ _ Hok1))
    as (s2 & -> & Hok2). exists s2. split; [done|]. split; [by eexists|].
  destruct Hok2 as [Hc _ _ _ Hh Ha _ _].
  split; [exact (Hc recv_buffer_free_list)|]. split; [exact (Hc send_buffer_free_list)|].
  intros b. split.
  - intros [x Hx]. destruct (Ha _ _ Hx) as [?|[[] ?%elem_of_nil]]; done.
  - intros [[l a] Hb]. destruct (Hh _ _ _ Hb) as (x & ? & _). eauto.
Qed.

Lemma init_ok (k : packet_kind) s held :
  pool_inv s held → ∃ s', InitPacketBuffer k s = Ok s' ∧ pool_inv s' held.
Proof.
  intros Hinv. unfold InitPacketBuffer.
  destruct (pool_alloc s held recv_buffer_free_list (recv_num_hint k) Hinv)
    as (s1 & b1 & E1 & _ & Hb1 & Hinv1); [destruct k; cbn; lia|].
  change s_RECV_PACKET_BUFFER_CAPACITY_HINT with (capacity_hint_of recv_buffer_free_list).
  rewrite E1. cbn [mbind outcome_bind].
  destruct (pool_free _ _ _ _ _ Hinv1 (lookup_insert_eq _ _ _)) as (s2 & -> & Hinv2).
  cbn [mbind outcome_bind]. rewrite delete_insert_id in Hinv2 by done.
  destruct (pool_alloc s2 held send_buffer_free_list 1 Hinv2)
    as (s3 & b3 & E3 & _ & Hb3 & Hinv3); [lia|].
  change s_SEND_PACKET_BUFFER_CAPACITY_HINT with (capacity_hint_of send_buffer_free_list).
  rewrite E3. cbn [mbind outcome_bind].
  destruct (pool_free _ _ _ _ _ Hinv3 (lookup_insert_eq _ _ _)) as (s4 & -> & Hinv4).
  rewrite delete_insert_id in Hinv4 by done. eauto.
Qed.
End pool.
