(* ===== verification/TcpPost.v ===== *)
(** * Sending a packet

    The frame format as a specification ([page], [page_bytes], [frames], [packet_text])
    and the theorem that [Post] sends exactly a framing of the packet. *)

From S2P Require Import Prelude CHeap BipBuf TcpPacket TcpPool.

#[local] Open Scope Z_scope.

(** ** The frame format *)

(** A frame page: whether it is the first and the last of its packet, and its data. *)
Record page := Page { pg_start : bool; pg_end : bool; pg_data : bytes }.

Definition leading_of (p : page) : page_leading :=
  PageLeading (Z.b2z (pg_start p)) (Z.b2z (pg_end p)) (zlen (pg_data p)).

Definition page_bytes (p : page) : bytes := page_leading_bytes (leading_of p) ++ pg_data p.

Definition wire (ps : list page) : bytes := concat (page_bytes <$> ps).

(** The data of a page: not empty, and at most a stream buffer together with the
    leading. *)
Definition payload_ok (d : bytes) : Prop :=
  0 < zlen d ≤ PER_FRAME_PAGE_SIZE_MAX - SIZE_OF_FRAME_PAGE_LEADING.

(** [frames st t ps]: the pages [ps] carry the text [t]; the first of them has the
    start flag [st], only the last one has the end flag. *)
Inductive frames : bool → bytes → list page → Prop :=
  | frames_last st d : payload_ok d → frames st d [Page st true d]
  | frames_more st d t ps :
      payload_ok d → frames false t ps → frames st (d ++ t) (Page st false d :: ps).

(** The bytes of a packet: its leading (with unused bytes in the inner one), the name
    and the body. *)
Definition unused_bytes (k : packet_kind) : Z :=
  match k with CTcpInnerPacket => 6 | CTcpOuterPacket => 0 end.

Definition leading_text (k : packet_kind) (name_len serial uuid : Z) (unused : bytes) : bytes :=
  [u8 name_len; u8 serial] ++ unused ++
  match k with CTcpInnerPacket => le_bytes 8 (u64 uuid) | CTcpOuterPacket => [] end.

Definition packet_text (k : packet_kind) (m : message) (unused : bytes) : bytes :=
  leading_text k (zlen (m_name m)) (m_serial m) (m_uuid m) unused ++ m_name m ++ m_body m.

(** ** Leadings *)

Definition leading_ok (l : page_leading) : Prop :=
  0 ≤ page_start l < 2 ∧ 0 ≤ page_end l < 2 ∧ 0 ≤ data_size l < 16384.

Lemma page_leading_of_eq w :
  page_leading_of w = PageLeading (w `mod` 2) ((w `div` 2) `mod` 2) ((w `div` 4) `mod` 16384).
Proof.
  unfold page_leading_of. rewrite !Z.shiftr_div_pow2 by lia.
  change 1 with (Z.ones 1) at 1 3. change 16383 with (Z.ones 14).
  by rewrite !Z.land_ones by lia.
Qed.

Lemma page_leading_of_ok w : leading_ok (page_leading_of w).
Proof.
  rewrite page_leading_of_eq. unfold leading_ok. cbn [page_start page_end data_size].
  repeat split; apply Z.mod_pos_bound; lia.
Qed.

Lemma page_leading_word l : leading_ok l → page_leading_of (page_word l) = l.
Proof.
  intros (H1 & H2 & H3). rewrite page_leading_of_eq. unfold page_word.
  destruct l as [a b c]. cbn in *.
  f_equal; Z.to_euclidean_division_equations; lia.
Qed.

Lemma with_start_ok v l : leading_ok l → leading_ok (with_start v l).
Proof.
  intros (H1 & H2 & H3). repeat split; try apply H2; try apply H3;
    apply (wrapu_bound 1); lia.
Qed.

Lemma with_end_ok v l : leading_ok l → leading_ok (with_end v l).
Proof.
  intros (H1 & H2 & H3). repeat split; try apply H1; try apply H3;
    apply (wrapu_bound 1); lia.
Qed.

Lemma with_size_ok v l : leading_ok l → leading_ok (with_size v l).
Proof.
  intros (H1 & H2 & H3). repeat split; try apply H1; try apply H2;
    apply (wrapu_bound 14); lia.
Qed.

Lemma leading_of_ok p : payload_ok (pg_data p) → leading_ok (leading_of p).
Proof.
  intros [? ?]. unfold PER_FRAME_PAGE_SIZE_MAX, SIZE_OF_FRAME_PAGE_LEADING in *.
  destruct p as [[] [] d]; unfold leading_ok; cbn in *; lia.
Qed.

#[export] Hint Resolve page_leading_of_ok with_start_ok with_end_ok with_size_ok : csem.

Lemma get_leading_cons off m b0 b1 r :
  0 ≤ off → drop (Z.to_nat off) m = b0 :: b1 :: r →
  get_leading off m = Ok (page_leading_of (b0 + 256 * b1)).
Proof.
  intros Hoff Hd.
  assert (∀ i c, (b0 :: b1 :: r) !! i = Some c → load1 (off + Z.of_nat i) m = Ok c) as Hl.
  { intros i c Hc. rewrite <- Hd, lookup_drop in Hc. apply load1_Ok; [lia|].
    by replace (Z.to_nat (off + Z.of_nat i)) with (Z.to_nat off + i)%nat by lia. }
  unfold get_leading. pose proof (Hl 0%nat b0 eq_refl) as H0. rewrite Z.add_0_r in H0.
  pose proof (Hl 1%nat b1 eq_refl) as H1. change (Z.of_nat 1) with 1 in H1.
  rewrite H0. cbn [mbind outcome_bind]. by rewrite H1.
Qed.

Lemma get_leading_bytes off m l r :
  0 ≤ off → leading_ok l → drop (Z.to_nat off) m = page_leading_bytes l ++ r →
  get_leading off m = Ok l.
Proof.
  intros ? Hl Hd. rewrite (get_leading_cons _ _ _ _ _ ltac:(done) Hd).
  rewrite Z.add_comm, <- (Z.div_mod (page_word l) 256) by lia. by rewrite page_leading_word.
Qed.

Lemma length_leading_bytes l : length (page_leading_bytes l) = 2%nat.
Proof. reflexivity. Qed.

Lemma store_front b0 b1 l r :
  store 0 (page_leading_bytes l) (b0 :: b1 :: r) = Ok (page_leading_bytes l ++ r).
Proof. unfold store. rewrite check_true; [done|]. apply in_range_true. cbn. lia. Qed.

Lemma put_leading_bytes f l r :
  leading_ok l → put_leading f (page_leading_bytes l ++ r) = Ok (page_leading_bytes (f l) ++ r).
Proof.
  intros. unfold put_leading. rewrite (get_leading_bytes _ _ l r) by done.
  apply store_front.
Qed.

(** The first assignment meets whatever malloc or the last packet left. *)
Lemma put_leading_any f m :
  2 ≤ zlen m → ∃ l, leading_ok l ∧
    put_leading f m = Ok (page_leading_bytes (f l) ++ drop 2 m).
Proof.
  destruct m as [|b0 [|b1 r]]; cbn [length]; [lia..|]. intros _.
  exists (page_leading_of (b0 + 256 * b1)). split; [apply page_leading_of_ok|].
  unfold put_leading. rewrite (get_leading_cons 0 _ b0 b1 r) by done.
  apply store_front.
Qed.

(** Storing behind the leading. *)
Lemma store_behind l r off' off d :
  off' = SIZE_OF_FRAME_PAGE_LEADING + off → 0 ≤ off → off + zlen d ≤ zlen r →
  store off' d (page_leading_bytes l ++ r) = Ok (page_leading_bytes l ++ put_at off d r).
Proof.
  intros -> ? ?. rewrite store_Ok.
  - f_equal. unfold put_at, SIZE_OF_FRAME_PAGE_LEADING.
    replace (Z.to_nat (2 + off)) with (S (S (Z.to_nat off))) by lia. cbn. by rewrite <- ?app_assoc.
  - unfold SIZE_OF_FRAME_PAGE_LEADING. lia.
  - rewrite length_app, length_leading_bytes. unfold SIZE_OF_FRAME_PAGE_LEADING. lia.
Qed.

(** ** The send buffer while a packet is sent *)

Record send_buf (s : pool) (held : gmap Z (free_list * bytes)) (b : Z) (l : page_leading)
    (r : bytes) : Prop := {
  sb_inv : pool_inv s held;
  sb_held : held !! b = Some (send_buffer_free_list, []);
  sb_leading : leading_ok l;
  sb_len : zlen r = 16350;
  sb_buf : ∃ x, get_buf b s = Ok x ∧ pb_data x = page_leading_bytes l ++ r
}.

Lemma cap_of_send : cap_of send_buffer_free_list = 16352.
Proof. reflexivity. Qed.

Lemma send_buf_put s held b x l r n :
  pool_inv s held → held !! b = Some (send_buffer_free_list, []) → get_buf b s = Ok x →
  pb_cap_size x = 16352 → leading_ok l → zlen r = 16350 →
  send_buf (put_buf b (set_size n (set_data (page_leading_bytes l ++ r) x)) s) held b l r.
Proof.
  intros Hinv Hb Hx Hc Hl Hr.
  assert (pool_inv (put_buf b (set_size n (set_data (page_leading_bytes l ++ r) x)) s) held) as Hinv'.
  { rewrite <- (insert_id held b (send_buffer_free_list, [])) by done.
    apply (pool_put _ _ _ _ [] x); [done..|]. split; cbn; [done| |done].
    rewrite cap_of_send. lia. }
  split; try done. destruct (pool_get _ _ _ _ _ Hinv' Hb) as (x' & Hx' & _ & Hpos).
  eexists. split; [apply get_buf_Ok; [lia|apply lookup_insert_eq]|done].
Qed.

Lemma send_buf_cap s held b l r x :
  send_buf s held b l r → get_buf b s = Ok x → pb_cap_size x = 16352.
Proof.
  intros [Hinv Hb _ _ _] Hx. destruct (pool_get _ _ _ _ _ Hinv Hb) as (x' & Hx' & [Hc _ _] & _). rewrite Hx in Hx'.
  injection Hx' as <-. rewrite Hc. apply cap_of_send.
Qed.

Section post.
Context {mal : Malloc} {conn : Conn} (k : packet_kind).

(** The packet leading and the name behind the page leading. *)
Definition head_len (name : bytes) : Z := SIZE_OF_PACKET_LEADING k + zlen name.

Lemma put_packet_leading_ok l r name_len serial uuid :
  zlen r = 16350 →
  ∃ unused r', zlen unused = unused_bytes k ∧
    put_packet_leading k SIZE_OF_FRAME_PAGE_LEADING name_len serial uuid
      (page_leading_bytes l ++ r) = Ok (page_leading_bytes l ++ r') ∧
    zlen r' = 16350 ∧
    take (Z.to_nat (SIZE_OF_PACKET_LEADING k)) r' =
      leading_text k name_len serial uuid unused.
Proof.
  intros Hr. unfold put_packet_leading.
  rewrite (store_behind _ _ _ 0) by (cbn; lia). cbn [mbind outcome_bind].
  assert (zlen (put_at 0 [u8 name_len; u8 serial] r) = 16350) as Hr'.
  { rewrite length_put_at; cbn; lia. }
  assert (take 2 (put_at 0 [u8 name_len; u8 serial] r) = [u8 name_len; u8 serial]) as Ht.
  { apply (take_put_at 0 [u8 name_len; u8 serial]). lia. }
  destruct k.
  - set (r1 := put_at 0 _ r) in *. pose proof (length_le_bytes 8 (u64 uuid)) as H8.
    rewrite (store_behind _ _ _ 8) by (done || lia).
    exists (drop 2 (take 8 r1)), (put_at 8 (le_bytes 8 (u64 uuid)) r1).
    split; [rewrite length_drop, length_take; cbn [unused_bytes]; lia|]. split; [done|].
    split; [rewrite length_put_at; lia|].
    pose proof (take_put_at 8 (le_bytes 8 (u64 uuid)) r1 ltac:(lia)) as Hp.
    rewrite H8 in Hp. change (Z.to_nat 8 + 8)%nat with 16%nat in Hp.
    cbn [SIZE_OF_PACKET_LEADING]. change (Z.to_nat 16) with 16%nat. rewrite Hp.
    unfold leading_text. rewrite <- Ht, app_assoc. f_equal.
  - exists [], (put_at 0 [u8 name_len; u8 serial] r). split; [done|]. split; [done|].
    split; [done|]. exact Ht.
Qed.

Lemma encode_ok s o held uuid serial name body_len x :
  pool_inv s held → held !! _ref_send_buf o = Some (send_buffer_free_list, []) →
  get_buf (_ref_send_buf o) s = Ok x →
  SIZE_OF_FRAME_PAGE_LEADING + head_len name ≤ cap_of send_buffer_free_list →
  ∃ s' sz unused r,
    EncodeStream k uuid serial name body_len s o =
      Ok (s', SIZE_OF_FRAME_PAGE_LEADING + head_len name) ∧
    zlen unused = unused_bytes k ∧
    send_buf s' held (_ref_send_buf o) (PageLeading 1 0 sz) r ∧
    take (Z.to_nat (head_len name)) r =
      leading_text k (zlen name) serial uuid unused ++ name.
Proof.
  intros Hinv Hb Hx Hn. rewrite cap_of_send in Hn.
  unfold head_len, SIZE_OF_FRAME_PAGE_LEADING, PER_FRAME_PAGE_SIZE_MAX in *.
  destruct (pool_get _ _ _ _ _ Hinv Hb) as (x2 & Hx2 & [Hc Hd _] & _). rewrite Hx in Hx2. injection Hx2 as <-.
  rewrite cap_of_send in Hc, Hd.
  assert (2 ≤ SIZE_OF_PACKET_LEADING k ≤ 16) as Hk by (destruct k; cbn; lia).
  unfold EncodeStream. rewrite Hx. cbn [mbind outcome_bind].
  destruct (put_leading_any (with_start 1) (pb_data x)) as (l & Hl & ->); [lia|].
  cbn [mbind outcome_bind]. rewrite put_leading_bytes by auto with csem. cbn [mbind outcome_bind].
  rewrite put_leading_bytes by auto with csem. cbn [mbind outcome_bind].
  destruct (put_packet_leading_ok
    (with_size (s32 (SIZE_OF_PACKET_LEADING k + zlen name + body_len)) (with_end 0 (with_start 1 l)))
    (drop 2 (pb_data x)) (zlen name) serial uuid) as (unused & r & Hu & -> & Hr & Ht).
  { rewrite length_drop. lia. }
  cbn [mbind outcome_bind]. rewrite (store_behind _ _ _ (SIZE_OF_PACKET_LEADING k)) by (done || lia).
  cbn [mbind outcome_bind]. rewrite s32_small by (unfold SIZE_OF_FRAME_PAGE_LEADING; lia).
  do 2 eexists. exists unused. eexists.
  rewrite (Z.add_assoc 2). split; [done|].
  split; [done|]. split.
  - apply send_buf_put; try done; [exact (with_size_ok _ _ (with_end_ok 0 _ (with_start_ok 1 _ Hl)))|].
    rewrite length_put_at; lia.
  - replace (Z.to_nat (SIZE_OF_PACKET_LEADING k + zlen name))
      with (Z.to_nat (SIZE_OF_PACKET_LEADING k) + length name)%nat by lia.
    rewrite take_put_at by lia. by rewrite Ht.
Qed.

(** ** The loop *)

Lemma wrapu_add_l w a b : 0 ≤ w → wrapu w (wrapu w a + b) = wrapu w (a + b).
Proof. intros. unfold wrapu. apply Z.add_mod_idemp_l. lia. Qed.

(** The connection writes every page as a whole, as all implementations of [SendRaw]
    that succeed report. *)
Definition sends_all : Prop := ∀ sent p, SendRaw sent p = Sent (zlen p).

Lemma load_page l r n :
  0 ≤ n ≤ zlen r →
  load 0 (SIZE_OF_FRAME_PAGE_LEADING + n) (page_leading_bytes l ++ r) =
  Ok (page_leading_bytes l ++ take (Z.to_nat n) r).
Proof.
  intros. rewrite load_Ok.
  - unfold sub_at, SIZE_OF_FRAME_PAGE_LEADING. rewrite drop_0.
    by replace (Z.to_nat (2 + n)) with (S (S (Z.to_nat n))) by lia.
  - lia.
  - unfold SIZE_OF_FRAME_PAGE_LEADING. lia.
  - rewrite length_app, length_leading_bytes. unfold SIZE_OF_FRAME_PAGE_LEADING. lia.
Qed.

(** The page that one round sends, from the start flag, the bytes that are already
    behind the leading and the rest of the body. *)
Definition next_page (st : bool) (head body : bytes) (ptr n nremains : Z) : page :=
  Page st (nremains - n <=? 0) (head ++ sub_at ptr n body).

Lemma post_step fuel body o s held st sz r ptr off nremains sent szSend :
  let b := _ref_send_buf o in
  let n := Z.min (PER_FRAME_PAGE_SIZE_MAX - off) nremains in
  let p := next_page st (take (Z.to_nat (off - 2)) r) body ptr n nremains in
  send_buf s held b (PageLeading (Z.b2z st) 0 sz) r →
  2 ≤ off ≤ 8192 → 0 ≤ ptr → 0 ≤ nremains → ptr + nremains = zlen body →
  0 < off - 2 + n →
  ∃ s' r', send_buf s' held b (PageLeading 0 (Z.b2z (pg_end p)) (zlen (pg_data p))) r' ∧
    payload_ok (pg_data p) ∧
    post_pages (S fuel) body o s ptr off nremains sent szSend =
    match SendRaw sent (page_bytes p) with
    | Disposed => Ub Dangling
    | Sent c => post_pages fuel body o s' (ptr + n) 2 (nremains - n) (sent ++ [page_bytes p])
                  (u64 (szSend + c))
    end.
Proof.
  intros b n p Hs Hoff Hptr Hrem Hbody Hpos.
  unfold PER_FRAME_PAGE_SIZE_MAX in *.
  destruct Hs as [Hinv Hb Hl Hr (x & Hx & Hdata)].
  assert (zlen (sub_at ptr n body) = n) as Hd by (apply length_sub_at; lia).
  assert (zlen (pg_data p) = off - 2 + n) as Hlp.
  { unfold p, next_page. cbn. rewrite length_app, length_take. lia. }
  assert (send_buf s held b (PageLeading (Z.b2z st) 0 sz) r) as Hs by (split; eauto).
  pose proof (send_buf_cap _ _ _ _ _ _ Hs Hx) as Hcap.
  cbn [post_pages]. fold b. rewrite Hx. cbn [mbind outcome_bind].
  rewrite (get_leading_bytes 0 _ (PageLeading (Z.b2z st) 0 sz) r)
    by (done || by rewrite Hdata).
  cbn [mbind outcome_bind page_end]. change (negb (0 =? 0)) with false. cbv iota.
  unfold PER_FRAME_PAGE_SIZE_MAX. fold n.
  rewrite load_Ok by lia. cbn [mbind outcome_bind].
  rewrite Hdata, (store_behind _ _ _ (off - 2)) by (unfold SIZE_OF_FRAME_PAGE_LEADING; lia).
  cbn [mbind outcome_bind]. set (r1 := put_at _ _ r).
  assert (zlen r1 = 16350) as Hr1 by (unfold r1; rewrite length_put_at; lia).
  rewrite put_leading_bytes by done. cbn [mbind outcome_bind].
  rewrite put_leading_bytes by auto with csem. cbn [mbind outcome_bind].
  assert (u64 (off + n) = SIZE_OF_FRAME_PAGE_LEADING + zlen (pg_data p)) as ->.
  { rewrite u64_small; unfold SIZE_OF_FRAME_PAGE_LEADING; lia. }
  rewrite (u64_small (_ - _)) by (unfold SIZE_OF_FRAME_PAGE_LEADING; lia).
  rewrite Z.add_simpl_l.
  assert (with_size (zlen (pg_data p)) (with_end (if nremains - n <=? 0 then 1 else 0)
    (PageLeading (Z.b2z st) 0 sz)) = leading_of p) as El.
  { unfold leading_of, with_size, with_end. cbn [page_start page_end].
    f_equal; [|by rewrite wrapu_small by lia]. cbn. by destruct (_ <=? _). }
  rewrite El, load_page by lia. cbn [mbind outcome_bind].
  assert (take (Z.to_nat (zlen (pg_data p))) r1 = pg_data p) as ->.
  { rewrite Hlp. replace (Z.to_nat (off - 2 + n))
      with (Z.to_nat (off - 2) + length (sub_at ptr n body))%nat by lia.
    unfold r1. by rewrite take_put_at by lia. }
  change (page_leading_bytes (leading_of p) ++ pg_data p) with (page_bytes p).
  assert (payload_ok (pg_data p)) as Hpay.
  { unfold payload_ok, PER_FRAME_PAGE_SIZE_MAX, SIZE_OF_FRAME_PAGE_LEADING. lia. }
  rewrite put_leading_bytes by (by apply leading_of_ok). cbn [mbind outcome_bind].
  do 2 eexists. split; [|split; [done|by destruct (SendRaw _ _)]].
  apply (send_buf_put _ _ _ _ (PageLeading 0 (Z.b2z (pg_end p)) (zlen (pg_data p)))); try done.
  apply (with_start_ok 0 (leading_of p)), leading_of_ok. done.
Qed.

Lemma sub_at_split ptr n (body : bytes) :
  0 ≤ ptr → 0 ≤ n →
  drop (Z.to_nat ptr) body = sub_at ptr n body ++ drop (Z.to_nat (ptr + n)) body.
Proof.
  intros. unfold sub_at. rewrite Z2Nat.inj_add, <- drop_drop by done. by rewrite take_drop.
Qed.

Lemma post_pages_ok fuel : sends_all → ∀ body o s held st sz r ptr off nremains sent,
  let b := _ref_send_buf o in
  send_buf s held b (PageLeading (Z.b2z st) 0 sz) r →
  2 ≤ off ≤ 8192 → 0 ≤ ptr → 0 ≤ nremains → ptr + nremains = zlen body →
  0 < off - 2 + nremains →
  nremains + (if off =? 8192 then 3 else 2) ≤ Z.of_nat fuel →
  ∃ s' ps l r',
    post_pages fuel body o s ptr off nremains sent (u64 (zlen (concat sent))) =
      Ok (s', sent ++ (page_bytes <$> ps), u64 (zlen (concat (sent ++ (page_bytes <$> ps))))) ∧
    send_buf s' held b l r' ∧
    frames st (take (Z.to_nat (off - 2)) r ++ drop (Z.to_nat ptr) body) ps.
Proof.
  intros Hall. induction fuel as [|fuel IH]; intros body o s held st sz r ptr off nremains sent b
    Hs Hoff Hptr Hrem Hbody Hpos Hfuel; [destruct (off =? 8192); lia|].
  set (n := Z.min (PER_FRAME_PAGE_SIZE_MAX - off) nremains).
  set (p := next_page st (take (Z.to_nat (off - 2)) r) body ptr n nremains).
  assert (0 ≤ n ≤ nremains) as Hn by (unfold n, PER_FRAME_PAGE_SIZE_MAX; lia).
  assert (0 < off - 2 + n) as Hn2 by (unfold n, PER_FRAME_PAGE_SIZE_MAX; lia).
  destruct (post_step fuel body o s held st sz r ptr off nremains sent (u64 (zlen (concat sent)))
    Hs Hoff Hptr Hrem Hbody Hn2) as (s1 & r1 & Hs1 & Hpay & E).
  fold n p in E, Hs1, Hpay. rewrite E, (Hall _ _), wrapu_add_l, <- Nat2Z.inj_add by done.
  replace (length (concat sent) + length (page_bytes p))%nat
    with (length (concat (sent ++ [page_bytes p]))) by (rewrite concat_app, length_app; cbn;
      by rewrite app_nil_r).
  assert (drop (Z.to_nat ptr) body = sub_at ptr n body ++ drop (Z.to_nat (ptr + n)) body) as Hdrop
    by (apply sub_at_split; lia).
  destruct (Z.leb_spec (nremains - n) 0) as [Hz|Hz].
  - assert (pg_end p = true) as Hend by (apply Z.leb_le; done).
    destruct fuel as [|fuel]; [destruct (off =? 8192); lia|].
    rewrite Hend in Hs1. destruct (sb_buf _ _ _ _ _ Hs1) as (x & Hx & Hdata).
    exists s1, [p], (PageLeading 0 1 (zlen (pg_data p))), r1.
    split; [|split; [done|]].
    + cbn [post_pages]. rewrite Hx. cbn [mbind outcome_bind].
      rewrite (get_leading_bytes 0 _ (PageLeading 0 1 (zlen (pg_data p))) r1)
        by (done || exact (sb_leading _ _ _ _ _ Hs1) || by rewrite Hdata). done.
    + rewrite Hdrop, (drop_ge body) by lia. rewrite app_nil_r.
      change (take (Z.to_nat (off - 2)) r ++ sub_at ptr n body) with (pg_data p).
      replace p with (Page st true (pg_data p)) at 2 by (unfold p, next_page in *; cbn in *; by rewrite <- Hend).
      by constructor.
  - assert (pg_end p = false) as Hend by (apply Z.leb_gt; done). rewrite Hend in Hs1.
    destruct (IH body o s1 held false (zlen (pg_data p)) r1 (ptr + n) 2 (nremains - n)
      (sent ++ [page_bytes p]) Hs1) as (s' & ps & l & r' & E' & Hs' & Hf); try lia.
    { change (2 =? 8192) with false. cbv iota.
      destruct (Z.eqb_spec off 8192); unfold n, PER_FRAME_PAGE_SIZE_MAX in *; lia. }
    exists s', (p :: ps), l, r'. rewrite E', <- !app_assoc. cbn. split; [done|]. split; [done|].
    rewrite Hdrop, app_assoc. cbn in Hf.
    change (take (Z.to_nat (off - 2)) r ++ sub_at ptr n body) with (pg_data p).
    replace p with (Page st false (pg_data p)) at 2 by (unfold p, next_page in *; cbn in *; by rewrite <- Hend).
    by constructor.
Qed.

(** ** Properties *)

(** Taking the send buffer and encoding: what [Post] does before its loop. *)
Lemma post_begin s o held uuid serial name body_len :
  pool_inv s held → SIZE_OF_FRAME_PAGE_LEADING + head_len name ≤ cap_of send_buffer_free_list →
  ∃ s1 b s2 sz unused r,
    packet_buffer_alloc send_buffer_free_list s_SEND_PACKET_BUFFER_CAPACITY_HINT 1 s =
      Ok (s1, b) ∧
    EncodeStream k uuid serial name body_len s1 (set_send b o) =
      Ok (s2, SIZE_OF_FRAME_PAGE_LEADING + head_len name) ∧
    held !! b = None ∧ zlen unused = unused_bytes k ∧
    send_buf s2 (<[b := (send_buffer_free_list, [])]> held) b (PageLeading 1 0 sz) r ∧
    take (Z.to_nat (head_len name)) r =
      leading_text k (zlen name) serial uuid unused ++ name.
Proof.
  intros Hinv Hn.
  destruct (pool_alloc s held send_buffer_free_list 1) as (s1 & b & Ea & Hb0 & Hb & Hinv1);
    [done|lia|].
  destruct (pool_get _ _ b send_buffer_free_list [] Hinv1) as (x & Hx & _);
    [apply lookup_insert_eq|].
  destruct (encode_ok s1 (set_send b o) _ uuid serial name body_len x Hinv1)
    as (s2 & sz & unused & r & Ee & Hu & Hs & Ht); [apply lookup_insert_eq|done..|].
  exists s1, b, s2, sz, unused, r. by split_and!.
Qed.

Lemma post_ok (s : pool) (held : gmap Z (free_list * bytes)) (o : packet)
    (uuid serial : Z) (name body : bytes)
    (Hinv : pool_inv s held) (Hready : IsReady = true) (Hsend : sends_all)
    (Hname : SIZE_OF_FRAME_PAGE_LEADING + head_len name ≤ PER_FRAME_PAGE_SIZE_MAX)
    (Hbody : zlen body < 2 ^ 31) :
  ∃ s' ps unused,
    Post k uuid serial name body s o =
      Ok (s', set_send 0 o, page_bytes <$> ps, u64 (zlen (wire ps))) ∧
    frames true (packet_text k (Message uuid serial name body) unused) ps ∧
    zlen unused = unused_bytes k ∧ pool_inv s' held.
Proof.
  destruct (post_begin s o held uuid serial name (zlen body) Hinv)
    as (s1 & b & s2 & sz & unused & r & Ea & Ee & Hb & Hu & Hs & Ht).
  { rewrite cap_of_send. unfold PER_FRAME_PAGE_SIZE_MAX in Hname. lia. }
  unfold Post. rewrite Hready, Ea. cbn [mbind outcome_bind].
  rewrite Ee. cbn [mbind outcome_bind]. rewrite s32_small by lia.
  unfold SIZE_OF_FRAME_PAGE_LEADING, PER_FRAME_PAGE_SIZE_MAX, post_fuel in *.
  assert (2 ≤ head_len name) as Hh.
  { unfold head_len. destruct k; cbn [SIZE_OF_PACKET_LEADING]; lia. }
  destruct (post_pages_ok (length body + 3) Hsend body (set_send b o) s2 _ true sz r 0
    (2 + head_len name) (zlen body) [] Hs) as (s3 & ps & l & r' & Ep & Hs3 & Hf); try lia.
  { destruct (Z.eqb_spec (2 + head_len name) 8192); lia. }
  change (u64 (zlen (concat (A := Z) []))) with 0 in Ep. rewrite Ep. cbn [mbind outcome_bind].
  destruct (pool_free s3 _ b send_buffer_free_list [] (sb_inv _ _ _ _ _ Hs3))
    as (s4 & Efr & Hinv4); [apply lookup_insert_eq|]. cbn [_ref_send_buf set_send].
  rewrite Efr. cbn [mbind outcome_bind].
  exists s4, ps, unused. split; [done|]. split; [|split; [done|by rewrite delete_insert_id in Hinv4]].
  rewrite Z.add_simpl_l in Hf. rewrite Ht in Hf. unfold packet_text. cbn.
  by rewrite app_assoc.
Qed.

(** C18: a packet whose leading and name fit in one page is sent, whatever malloc or the
    last packet left in the buffer, as a framing of its text: pages of at most
    [PER_FRAME_PAGE_SIZE_MAX] bytes, none of them empty, the first and the last one
    flagged.  [Post] returns their total size, and the shared buffers are as before.
    Only the six unused bytes of the inner leading are not determined: they are sent as
    they were in the buffer. *)
Theorem post_frames (s : pool) (held : gmap Z (free_list * bytes)) (o : packet)
    (uuid serial : Z) (name body : bytes)
    (Hinv : pool_inv s held) (Hready : IsReady = true) (Hsend : sends_all)
    (Hname : SIZE_OF_FRAME_PAGE_LEADING + head_len name ≤ PER_FRAME_PAGE_SIZE_MAX)
    (Hbody : zlen body < 2 ^ 31) :
  ∃ s' ps unused,
    Post k uuid serial name body s o =
      Ok (s', set_send 0 o, page_bytes <$> ps, u64 (zlen (wire ps))) ∧
    frames true (packet_text k (Message uuid serial name body) unused) ps ∧
    zlen unused = unused_bytes k ∧ pool_inv s' held.
Proof. by apply post_ok. Qed.

(** when [SendRaw] fails it disposes the connection and with it the packet object
    whose [Post] is running: [Post] goes on to use the deleted object.  And a name that
    leaves no room in the first page makes the size of the next [memcpy] negative. *)
Theorem post_faults (s : pool) (held : gmap Z (free_list * bytes)) (o : packet)
    (uuid serial : Z) (name body : bytes)
    (Hinv : pool_inv s held) (Hready : IsReady = true) (Hbody : zlen body < 2 ^ 31) :
  (SIZE_OF_FRAME_PAGE_LEADING + head_len name ≤ PER_FRAME_PAGE_SIZE_MAX →
   (∀ p, SendRaw [] p = Disposed) → Post k uuid serial name body s o = Ub Dangling) ∧
  (PER_FRAME_PAGE_SIZE_MAX < SIZE_OF_FRAME_PAGE_LEADING + head_len name →
   SIZE_OF_FRAME_PAGE_LEADING + head_len name ≤ 16352 →
   Post k uuid serial name body s o = Ub OobRead).
Proof.
  assert (2 ≤ head_len name) as Hh.
  { unfold head_len. destruct k; cbn [SIZE_OF_PACKET_LEADING]; lia. }
  split; intros Hlen Hcase; unfold PER_FRAME_PAGE_SIZE_MAX in Hlen.
  all: destruct (post_begin s o held uuid serial name (zlen body) Hinv)
    as (s1 & b & s2 & sz & unused & r & Ea & Ee & _ & _ & Hs & _);
    [rewrite cap_of_send; lia|].
  all: unfold Post; rewrite Hready, Ea; cbn [mbind outcome_bind];
    rewrite Ee; cbn [mbind outcome_bind]; rewrite s32_small by lia.
  all: unfold SIZE_OF_FRAME_PAGE_LEADING in *.
  - unfold post_fuel. rewrite Nat.add_comm. cbn [Nat.add].
    destruct (post_step (S (S (length body))) body (set_send b o) s2 _ true sz r 0
      (2 + head_len name) (zlen body) [] 0 Hs) as (s3 & r3 & _ & _ & ->); unfold PER_FRAME_PAGE_SIZE_MAX; try lia.
    by rewrite Hcase.
  - destruct Hs as [_ _ Hl _ (x & Hx & Hdata)].
    unfold post_fuel. rewrite Nat.add_comm. cbn [Nat.add post_pages].
    cbn [_ref_send_buf set_send]. rewrite Hx. cbn [mbind outcome_bind].
    rewrite (get_leading_bytes 0 _ (PageLeading 1 0 sz) r) by (done || by rewrite Hdata).
    cbn [mbind outcome_bind page_end]. change (negb (0 =? 0)) with false. cbv iota.
    unfold PER_FRAME_PAGE_SIZE_MAX, load, check, in_range.
    by rewrite (proj2 (Z.leb_gt 0 (Z.min (8192 - (2 + head_len name)) (zlen body)))) by lia.
Qed.
End post.

(** A connection whose writes succeed, and one whose writes fail. *)
Definition ex_conn : Conn := {| IsReady := true; SendRaw _ p := Sent (zlen p) |}.
Definition ex_broken : Conn := {| IsReady := true; SendRaw _ _ := Disposed |}.

Lemma post_frames_witness :
  ∃ s' ps unused,
    Post (mal := malloc_fill 205) (conn := ex_conn) CTcpInnerPacket 7 1 (txt "Echo") (txt "hi")
      empty_pool new_packet =
      Ok (s', set_send 0 new_packet, page_bytes <$> ps, u64 (zlen (wire ps))) ∧
    frames true (packet_text CTcpInnerPacket (Message 7 1 (txt "Echo") (txt "hi")) unused) ps ∧
    zlen unused = unused_bytes CTcpInnerPacket ∧ pool_inv s' ∅.
Proof.
  apply (post_frames (mal := malloc_fill 205) (conn := ex_conn)).
  - exact empty_pool_inv.
  - reflexivity.
  - intros ? ?. reflexivity.
  - vm_compute. discriminate.
  - vm_compute. reflexivity.
Defined.

Lemma post_faults_witness :
  Post (mal := malloc_fill 205) (conn := ex_broken) CTcpOuterPacket 0 1 (txt "Echo") (txt "hi")
    empty_pool new_packet = Ub Dangling ∧
  Post (mal := malloc_fill 205) (conn := ex_broken) CTcpOuterPacket 0 1 (replicate (Z.to_nat 9000) 65) []
    empty_pool new_packet = Ub OobRead.
Proof.
  split.
  - apply (post_faults (mal := malloc_fill 205) (conn := ex_broken) CTcpOuterPacket empty_pool ∅).
    + exact empty_pool_inv.
    + reflexivity.
    + vm_compute. reflexivity.
    + vm_compute. discriminate.
    + reflexivity.
  - apply (post_faults (mal := malloc_fill 205) (conn := ex_broken) CTcpOuterPacket empty_pool ∅).
    + exact empty_pool_inv.
    + reflexivity.
    + reflexivity.
    + unfold head_len. rewrite length_replicate, Z2Nat.id by done. vm_compute. reflexivity.
    + unfold head_len. rewrite length_replicate, Z2Nat.id by done. vm_compute. discriminate.
Defined.
