(* ===== verification/TcpDecode.v ===== *)
(** * Receiving pages

    What the receiver computes from a stream of bytes, as a relation without pool,
    offsets or fuel ([rx_run], big-step, with the bytes handed to the callback and how it
    ends), and the theorems that [ConsumePacket], [ConsumeFramePage] and [DecodeStream]
    follow it on every input. *)

From S2P Require Import Prelude CHeap BipBuf Fifo TcpPacket TcpPool TcpPost.

#[local] Open Scope Z_scope.

(** ** Specification *)

(** [acc] is the packet that is being put together. *)
Section spec.
Context (k : packet_kind).

Definition complete (d : bytes) : bool :=
  match d with
  | [] => false
  | n :: _ => (0 <? n) && (SIZE_OF_PACKET_LEADING k + n <=? zlen d)
  end.

(** One page: the new [acc], the packets handed out and the return code. *)
Definition rx_page (acc : option bytes) (l : page_leading) (d : bytes) :
    option bytes * list bytes * Z :=
  if (0 <? page_start l) && (0 <? page_end l) then
    if complete d then (acc, [d], 0) else (acc, [], -1)
  else if 0 <? page_start l then (Some d, [], 0)
  else match acc with
  | None => (None, [], -6)
  | Some a =>
      if zlen a + zlen d <=? cap_of recv_buffer_free_list then
        if 0 <? page_end l then
          if complete (a ++ d) then (None, [a ++ d], 0) else (None, [], -3)
        else (Some (a ++ d), [], 0)
      else (None, [], if 0 <? page_end l then -4 else -5)
  end.

(** A first page that comes while a packet is being put together: the buffer of that
    packet is never given back. *)
Definition rx_leak (acc : option bytes) (l : page_leading) : nat :=
  match acc with
  | Some _ => if (0 <? page_start l) && negb (0 <? page_end l) then 1 else 0
  | None => 0
  end.

(** How the work on the received bytes ends: waiting with the last bytes, skipping [n]
    bytes of a page that is larger than the stream buffer, or an error. *)
Inductive rx_end :=
  | Wait (acc : option bytes) (rest : bytes)
  | Skip (acc : option bytes) (n : Z)
  | Broken (rc : Z).

(** The leading and the data of the page at the front of the received bytes, in a
    stream buffer of capacity [c]. *)
Definition page_at (b0 b1 : Z) : page_leading := page_leading_of (b0 + 256 * b1).
Definition fitting (c : Z) (l : page_leading) : Prop :=
  0 < data_size l ∧ SIZE_OF_FRAME_PAGE_LEADING + data_size l ≤ c.

Inductive rx_run (c : Z) : option bytes → bytes → list bytes → nat → rx_end → Prop :=
  | run_short acc D : zlen D < 2 → rx_run c acc D [] 0 (Wait acc D)
  | run_wait acc b0 b1 D :
      fitting c (page_at b0 b1) → zlen D < data_size (page_at b0 b1) →
      rx_run c acc (b0 :: b1 :: D) [] 0 (Wait acc (b0 :: b1 :: D))
  | run_empty acc b0 b1 D :
      data_size (page_at b0 b1) = 0 → rx_run c acc (b0 :: b1 :: D) [] 0 (Broken (-99))
  | run_over acc b0 b1 D :
      c < SIZE_OF_FRAME_PAGE_LEADING + data_size (page_at b0 b1) →
      0 < data_size (page_at b0 b1) →
      rx_run c acc (b0 :: b1 :: D) [] 0 (Skip acc (data_size (page_at b0 b1) - zlen D))
  | run_page acc b0 b1 d D acc' out out' n e :
      fitting c (page_at b0 b1) → data_size (page_at b0 b1) = zlen d →
      rx_page acc (page_at b0 b1) d = (acc', out, 0) → rx_run c acc' D out' n e →
      rx_run c acc (b0 :: b1 :: d ++ D) (out ++ out') (rx_leak acc (page_at b0 b1) + n) e
  | run_error acc b0 b1 d D acc' out rc :
      fitting c (page_at b0 b1) → data_size (page_at b0 b1) = zlen d →
      rx_page acc (page_at b0 b1) d = (acc', out, rc) → rc ≠ 0 →
      rx_run c acc (b0 :: b1 :: d ++ D) out 0 (Broken rc).
End spec.

(** ** The packet that is being put together *)

(** The buffers of one connection on top of those of the others. *)
Definition own (b : Z) (acc : option bytes) (base : gmap Z (free_list * bytes)) :
    gmap Z (free_list * bytes) :=
  match acc with Some a => <[b := (recv_buffer_free_list, a)]> base | None => base end.

Record rx_ok (s : pool) (o : packet) (acc : option bytes)
    (base : gmap Z (free_list * bytes)) : Prop := {
  rx_inv : pool_inv s (own (_ref_recv_buf o) acc base);
  rx_ref : match acc with
           | None => _ref_recv_buf o = 0
           | Some _ => _ref_recv_buf o ≠ 0 ∧ base !! _ref_recv_buf o = None
           end
}.

(** [o'] differs from [o] in its receive buffer only. *)
Definition same_but_recv (o o' : packet) : Prop := o' = set_recv (_ref_recv_buf o') o.

Lemma cap_of_recv : cap_of recv_buffer_free_list = 983008.
Proof. reflexivity. Qed.

Section consume.
Context {mal : Malloc} (k : packet_kind).

Lemma packet_complete_Ok off n d m :
  0 ≤ off → 0 < n → off + n ≤ zlen m → sub_at off n m = d →
  packet_complete k off n m = Ok (complete k d).
Proof.
  intros ? ? ? <-. unfold packet_complete, get_name_len.
  destruct (m !! Z.to_nat off) as [c|] eqn:Hc; [|apply lookup_ge_None in Hc; lia].
  rewrite (load1_Ok _ _ c) by done. cbn [mbind outcome_bind]. f_equal.
  pose proof (length_sub_at off n m) as Hl.
  rewrite (sub_at_cons _ _ _ c) in * by done. unfold complete. by rewrite Hl by lia.
Qed.

(** A held receive buffer and appending to it. *)
Lemma recv_get s o a base :
  rx_ok s o (Some a) base →
  ∃ x, get_buf (_ref_recv_buf o) s = Ok x ∧ holds recv_buffer_free_list a x.
Proof.
  intros [Hinv _]. destruct (pool_get _ _ _ _ _ Hinv (lookup_insert_eq _ _ _)) as (x & ? & ? & _).
  eauto.
Qed.

Lemma holds_size a x : holds recv_buffer_free_list a x →
  pb_size x = zlen a ∧ zlen a ≤ 983008 ∧ pb_cap_size x = 983008 ∧ zlen (pb_data x) = 983008.
Proof.
  intros [Hc Hd Hr]. rewrite cap_of_recv in *. destruct (Hr eq_refl) as [Hs Ht].
  split; [done|]. split; [|done]. rewrite <- Ht, length_take. lia.
Qed.

Lemma recv_fits_eq a x n :
  holds recv_buffer_free_list a x → 0 ≤ n < 16384 →
  recv_fits n x = (zlen a + n <=? cap_of recv_buffer_free_list).
Proof.
  intros Hx ?. pose proof (holds_size a x Hx) as (Hs & ? & Hc & ?).
  unfold recv_fits. rewrite Hs, Hc, u64_small by lia. done.
Qed.

Lemma recv_append_Ok a d x :
  holds recv_buffer_free_list a x → zlen a + zlen d ≤ cap_of recv_buffer_free_list →
  ∃ x', recv_append d x = Ok x' ∧ holds recv_buffer_free_list (a ++ d) x' ∧
    pb_next x' = pb_next x ∧ pb_size x' = zlen (a ++ d) ∧
    sub_at 0 (zlen (a ++ d)) (pb_data x') = a ++ d ∧ zlen (pb_data x') = 983008.
Proof.
  intros Hx Hfit. pose proof (holds_size a x Hx) as (Hs & ? & Hc & Hl).
  rewrite cap_of_recv in Hfit. destruct Hx as [_ _ Hr]. destruct (Hr eq_refl) as [_ Ht].
  unfold recv_append. rewrite store_Ok by lia. cbn [mbind outcome_bind].
  assert (take (length (a ++ d)) (put_at (pb_size x) d (pb_data x)) = a ++ d) as Hta.
  { rewrite length_app, Hs. rewrite <- (Nat2Z.id (length a)) at 1.
    rewrite take_put_at by lia. by rewrite Nat2Z.id, Ht. }
  assert (zlen (put_at (pb_size x) d (pb_data x)) = 983008) as Hlp by (rewrite length_put_at; lia).
  eexists. split; [done|]. cbn. rewrite Hs in *.
  rewrite u64_small by lia. split; [|split; [done|]].
  - split; cbn; [rewrite Hc; done|done|]. intros _. split; [rewrite length_app; lia|done].
  - split; [rewrite length_app; lia|]. split; [|done].
    unfold sub_at. by rewrite drop_0, Nat2Z.id.
Qed.

Lemma rx_put s o a d base x x' :
  rx_ok s o (Some a) base → get_buf (_ref_recv_buf o) s = Ok x →
  pb_next x' = pb_next x → holds recv_buffer_free_list (a ++ d) x' →
  rx_ok (put_buf (_ref_recv_buf o) x' s) o (Some (a ++ d)) base.
Proof.
  intros [Hinv Hr] Hx ? ?. split; [|done]. cbn.
  rewrite <- (insert_insert_eq base _ (recv_buffer_free_list, a ++ d) (recv_buffer_free_list, a)).
  by apply (pool_put _ _ _ _ a x); [done|apply lookup_insert_eq| | |].
Qed.

Lemma rx_release s o a base :
  rx_ok s o (Some a) base →
  ∃ s', recv_release s o = Ok (s', set_recv 0 o) ∧ rx_ok s' (set_recv 0 o) None base.
Proof.
  intros [Hinv [Hb Hn]]. unfold recv_release.
  destruct (pool_free _ _ _ _ _ Hinv (lookup_insert_eq _ _ _)) as (s' & -> & Hinv').
  exists s'. split; [done|]. split; [|done]. cbn.
  cbn [own] in Hinv'. by rewrite delete_insert_id in Hinv' by done.
Qed.

(** ** Consuming one page *)

Section page.
Context (m : bytes) (pBuf : Z) (d : bytes).
Context (Hoff : 0 ≤ pBuf) (Hin : pBuf + zlen d ≤ zlen m) (Hd : sub_at pBuf (zlen d) m = d).
Context (Hlen : 0 < zlen d < 16384).

Let load_d : load pBuf (zlen d) m = Ok d.
Proof. rewrite load_Ok by lia. by rewrite Hd. Qed.

(** The result of one page: the code's and the specification's agree. *)
Definition page_result (acc : option bytes) (o : packet) (base : gmap Z (free_list * bytes))
    (spec : option bytes * list bytes * Z) (r : outcome (pool * packet * list bytes * Z)) :
    Prop :=
  ∃ s' o' base', r = Ok (s', o', spec.1.2, spec.2) ∧ rx_ok s' o' spec.1.1 base' ∧
    same_but_recv o o' ∧ base ⊆ base' ∧
    size base' = (size base + rx_leak acc (_recv_page_leading o))%nat.

Lemma consume_single_ok s o acc base :
  rx_ok s o acc base → rx_leak acc (_recv_page_leading o) = 0%nat →
  page_result acc o base
    (if complete k d then (acc, [d], 0) else (acc, [], -1))
    (consume_single k m pBuf (zlen d) s o).
Proof.
  intros Hs Hlk. unfold consume_single, page_result. rewrite Hlk, Nat.add_0_r.
  rewrite (packet_complete_Ok _ _ d) by (done || lia). cbn [mbind outcome_bind].
  exists s, o, base. assert (same_but_recv o o) by (by destruct o).
  destruct (complete k d); rewrite ?load_d; cbn [mbind outcome_bind fst snd]; auto.
Qed.

Lemma own_None b base : own b None base = base.
Proof. done. Qed.

(** A first page goes to a new buffer; that of the packet before, if any, stays. *)
Lemma consume_first_exact s o acc base :
  rx_ok s o acc base →
  ∃ s' b, consume_first k m pBuf (zlen d) s o = Ok (s', set_recv b o, [], 0) ∧
    rx_ok s' (set_recv b o) (Some d) (own (_ref_recv_buf o) acc base).
Proof.
  intros [Hinv Hr]. unfold consume_first.
  destruct (pool_alloc s _ recv_buffer_free_list (recv_num_hint k) Hinv)
    as (s1 & b & Ea & Hb0 & Hb & Hinv1); [destruct k; cbn; lia|].
  change (capacity_hint_of recv_buffer_free_list) with s_RECV_PACKET_BUFFER_CAPACITY_HINT in Ea.
  rewrite Ea. cbn [mbind outcome_bind].
  set (base' := own (_ref_recv_buf o) acc base) in *.
  assert (rx_ok s1 (set_recv b o) (Some []) base') as Hs1 by (split; done).
  destruct (recv_get _ _ _ _ Hs1) as (x & Hx & Hh). cbn [_ref_recv_buf set_recv] in Hx.
  rewrite Hx. cbn [mbind outcome_bind].
  rewrite (recv_fits_eq []) by (done || lia). cbn [length].
  rewrite cap_of_recv, (proj2 (Z.leb_le _ _)), load_d by lia. cbn [mbind outcome_bind].
  destruct (recv_append_Ok [] d x Hh) as (x' & -> & Hh' & Hn & _); [rewrite cap_of_recv; cbn; lia|].
  cbn [mbind outcome_bind]. do 2 eexists. split; [done|].
  exact (rx_put s1 (set_recv b o) [] d base' x x' Hs1 Hx Hn Hh').
Qed.

Lemma consume_first_ok s o acc base :
  rx_ok s o acc base → 0 < page_start (_recv_page_leading o) →
  page_end (_recv_page_leading o) ≤ 0 →
  page_result acc o base (Some d, [], 0) (consume_first k m pBuf (zlen d) s o).
Proof.
  intros Hrx Hst Hend. destruct (consume_first_exact s o acc base Hrx) as (s' & b & -> & Hrx').
  do 3 eexists. split; [done|]. split; [exact Hrx'|]. split; [done|].
  unfold rx_leak. rewrite (proj2 (Z.ltb_lt _ _) Hst), (proj2 (Z.ltb_ge _ _) Hend).
  pose proof (rx_ref _ _ _ _ Hrx) as Hr. destruct acc as [a|]; cbn [own andb negb].
  - destruct Hr as [_ Hn']. split; [by apply insert_subseteq|].
    rewrite map_size_insert_None by done. lia.
  - split; [done|lia].
Qed.

Lemma consume_next_ok s o a base (last : bool) :
  rx_ok s o (Some a) base → page_start (_recv_page_leading o) ≤ 0 →
  last = (0 <? page_end (_recv_page_leading o)) →
  page_result (Some a) o base (rx_page k (Some a) (_recv_page_leading o) d)
    (if last then consume_last k m pBuf (zlen d) s o else consume_middle m pBuf (zlen d) s o).
Proof.
  intros Hs Hst Hlast. unfold rx_page, page_result, rx_leak.
  rewrite (proj2 (Z.ltb_ge _ _) Hst), <- Hlast. cbn [andb]. cbv iota. rewrite Nat.add_0_r.
  destruct (recv_get _ _ _ _ Hs) as (x & Hx & Hh).
  unfold consume_last, consume_middle. rewrite Hx. cbn [mbind outcome_bind].
  rewrite (recv_fits_eq a) by (done || lia).
  destruct (rx_release _ _ _ _ Hs) as (s1 & Er & Hs1).
  destruct (Z.leb_spec (zlen a + zlen d) (cap_of recv_buffer_free_list)) as [Hfit|Hfit].
  2:{ destruct last; rewrite Er; cbn [mbind outcome_bind fst snd]; by do 3 eexists. }
  rewrite load_d. cbn [mbind outcome_bind].
  destruct (recv_append_Ok a d x Hh Hfit) as (x' & -> & Hh' & Hn & Hsz & Hsub & Hl).
  cbn [mbind outcome_bind]. pose proof (rx_put _ _ _ d _ _ _ Hs Hx Hn Hh') as Hs'.
  destruct last.
  2:{ cbn [fst snd]. exists (put_buf (_ref_recv_buf o) x' s), o, base.
      assert (same_but_recv o o) by (by destruct o). by split_and!. }
  rewrite cap_of_recv in Hfit. rewrite length_app in Hsub, Hsz.
  rewrite Hsz, (packet_complete_Ok _ _ (a ++ d)) by (done || lia). cbn [mbind outcome_bind].
  destruct (rx_release _ _ _ _ Hs') as (s2 & Er' & Hs2).
  destruct (complete k (a ++ d)); cbn [mbind outcome_bind fst snd].
  - rewrite load_Ok, Hsub by lia. cbn [mbind outcome_bind]. rewrite Er'. cbn [mbind outcome_bind].
    by do 3 eexists.
  - rewrite Er'. cbn [mbind outcome_bind]. by do 3 eexists.
Qed.

(** [ConsumePacket] is [rx_page], on every page and in every state. *)
Lemma consume_ok s o acc base :
  rx_ok s o acc base →
  page_result acc o base (rx_page k acc (_recv_page_leading o) d)
    (ConsumePacket k m pBuf (zlen d) s o).
Proof.
  intros Hs. unfold ConsumePacket.
  destruct (Z.ltb_spec 0 (page_start (_recv_page_leading o))) as [Hst|Hst].
  - destruct (Z.ltb_spec 0 (page_end (_recv_page_leading o))) as [Hend|Hend].
    + unfold rx_page. rewrite !(proj2 (Z.ltb_lt _ _)) by done. apply consume_single_ok; [done|].
      unfold rx_leak. rewrite !(proj2 (Z.ltb_lt _ _)) by done. by destruct acc.
    + unfold rx_page. rewrite (proj2 (Z.ltb_lt _ _) Hst), (proj2 (Z.ltb_ge _ _) Hend).
      by apply consume_first_ok.
  - cbn [andb]. destruct acc as [a|].
    + pose proof (rx_ref _ _ _ _ Hs) as [Hb _]. rewrite (proj2 (Z.eqb_neq _ _)) by done.
      cbn [negb]. by apply consume_next_ok.
    + rewrite (rx_ref _ _ _ _ Hs). cbn [Z.eqb negb].
      unfold rx_page, page_result, rx_leak. rewrite (proj2 (Z.ltb_ge _ _) Hst). cbn.
      exists s, o, base. assert (same_but_recv o o) by (by destruct o).
      by rewrite Nat.add_0_r.
Qed.
End page.

(** ** The loop over the pages *)

(** The object has read the leading of the page at the front of [D], or has yet to. *)
Definition in_body (c : Z) (o : packet) (D : bytes) : Prop :=
  _eRecvPageState o = FRAME_PAGE_STATE_RECEIVE_BODY ∧
  ∃ b0 b1 D', D = b0 :: b1 :: D' ∧ _recv_page_leading o = page_at b0 b1 ∧
    fitting c (page_at b0 b1).

Definition ready_for (c : Z) (o : packet) (D : bytes) : Prop :=
  _eRecvPageState o = FRAME_PAGE_STATE_RECEIVE_LEADING ∨ in_body c o D.

(** How the state at the end of the loop shows the end of the run; [n] is the loop's
    result when [n0] bytes were consumed before. *)
Definition shows (c : Z) (D : bytes) (e : rx_end) (n0 n : Z) (s : pool) (o : packet)
    (base : gmap Z (free_list * bytes)) : Prop :=
  match e with
  | Wait acc rest =>
      n = n0 + (zlen D - zlen rest) ∧ rest = drop (length D - length rest) D ∧
      rx_ok s o acc base ∧ ready_for c o rest
  | Skip acc j =>
      n = n0 + zlen D ∧ rx_ok s o acc base ∧ _eRecvPageState o = FRAME_PAGE_STATE_SKIP ∧
      data_size (_recv_page_leading o) = j
  | Broken rc => n = rc ∧ rc < 0 ∧ ∃ acc, rx_ok s o acc base
  end.

Lemma rx_ok_same s o o' acc base :
  rx_ok s o acc base → _ref_recv_buf o' = _ref_recv_buf o → rx_ok s o' acc base.
Proof. intros [? ?] E. split; by rewrite E. Qed.

Lemma rx_page_rc acc l d : (rx_page k acc l d).2 ≤ 0.
Proof.
  unfold rx_page. destruct (_ && _); [by destruct (complete _ _)|].
  destruct (_ <? _); [done|]. destruct acc as [a|]; [|done].
  destruct (_ <=? _); [|by destruct (_ <? _)]. destruct (_ <? _); [|done].
  by destruct (complete _ _).
Qed.

Lemma rx_leak_error acc l d : (rx_page k acc l d).2 ≠ 0 → rx_leak acc l = 0%nat.
Proof.
  unfold rx_page, rx_leak. destruct acc; [|done].
  by destruct (0 <? page_start l), (0 <? page_end l).
Qed.

Lemma consume_failed_eq rc : rc ≤ 0 → consume_failed k rc = negb (rc =? 0).
Proof. intros. destruct k; cbn; [|by rewrite Z.eqb_sym]. ztest; destruct (Z.eqb_spec rc 0); done || lia. Qed.

Lemma page_at_bounds b0 b1 : 0 ≤ data_size (page_at b0 b1) < 16384.
Proof. apply page_leading_of_ok. Qed.

Lemma set_state_id o : set_state (_eRecvPageState o) o = o.
Proof. by destruct o. Qed.

(** The memory of the stream buffer at [ptr] holds the bytes [D]. *)
Definition at_ptr (m : bytes) (ptr : Z) (D : bytes) : Prop :=
  0 ≤ ptr ∧ ptr + zlen D ≤ zlen m ∧ sub_at ptr (zlen D) m = D.

Lemma at_ptr_app m ptr d D :
  at_ptr m ptr (d ++ D) → at_ptr m ptr d ∧ at_ptr m (ptr + zlen d) D.
Proof.
  intros (H1 & H2 & H3). rewrite length_app, Nat2Z.inj_add in *.
  rewrite sub_at_app in H3 by lia.
  assert (length (sub_at ptr (zlen d) m) = length d) as Hl.
  { pose proof (length_sub_at ptr (zlen d) m). lia. }
  apply app_inj_1 in H3 as [H3 H4]; [|done]. unfold at_ptr. by split_and!; try lia.
Qed.

Lemma at_ptr_leading m ptr b0 b1 D :
  at_ptr m ptr (b0 :: b1 :: D) → get_leading ptr m = Ok (page_at b0 b1).
Proof.
  intros (H1 & H2 & H3). cbn [length] in *.
  destruct (drop (Z.to_nat ptr) m) as [|c0 [|c1 r]] eqn:E.
  1,2: apply (f_equal length) in E; rewrite length_drop in E; cbn in E; lia.
  rewrite (get_leading_cons _ _ _ _ _ H1 E). unfold sub_at in H3. rewrite E in H3.
  replace (Z.to_nat _) with (S (S (length D))) in H3 by lia. cbn in H3.
  by simplify_eq.
Qed.

(** What one call of the loop computes. *)
Definition loop_result (c : Z) (acc : option bytes) (D : bytes) (n0 : Z) (got : list bytes)
    (base : gmap Z (free_list * bytes)) (r : outcome (pool * packet * list bytes * Z)) : Prop :=
  ∃ out lk e s' o' base' n,
    rx_run k c acc D out lk e ∧ r = Ok (s', o', got ++ out, n) ∧
    shows c D e n0 n s' o' base' ∧ base ⊆ base' ∧
    size base' = (size base + lk)%nat.

Lemma loop_done c acc D n0 got base e s o n :
  rx_run k c acc D [] 0 e → shows c D e n0 n s o base →
  loop_result c acc D n0 got base (Ok (s, o, got, n)).
Proof.
  intros. exists [], 0%nat, e, s, o, base, n. rewrite app_nil_r, Nat.add_0_r. auto.
Qed.

(** One page was consumed: what follows it is computed from the new state. *)
Lemma loop_next c acc b0 b1 d D n0 got base acc' out s' o' base' r :
  fitting c (page_at b0 b1) → data_size (page_at b0 b1) = zlen d →
  rx_page k acc (page_at b0 b1) d = (acc', out, 0) →
  base ⊆ base' → size base' = (size base + rx_leak acc (page_at b0 b1))%nat →
  rx_ok s' o' acc' base' →
  loop_result c acc' D (n0 + (2 + zlen d)) (got ++ out) base' r →
  loop_result c acc (b0 :: b1 :: d ++ D) n0 got base r.
Proof.
  intros Hfit Hl Hp Hsub Hsz Hrx (out2 & lk & e & s2 & o2 & base2 & n & Hrun & -> & Hsh & Hsub2 & Hsz2).
  exists (out ++ out2), (rx_leak acc (page_at b0 b1) + lk)%nat, e, s2, o2, base2, n.
  split; [by eapply run_page|]. rewrite app_assoc. split; [done|].
  split; [|split; [by etrans|lia]].
  destruct e as [acc2 rest|acc2 j|rc]; cbn [shows] in *.
  - destruct Hsh as (Hn & Hr & ? & ?). cbn [length]. rewrite length_app.
    assert (length rest ≤ length D)%nat as Hle.
    { rewrite Hr, length_drop. lia. }
    split; [lia|]. split; [|done]. rewrite Hr at 1.
    replace (S (S (length d + length D)) - length rest)%nat
      with (S (S (length d + (length D - length rest)))) by lia.
    cbn. by rewrite drop_app_add.
  - destruct Hsh as (? & ? & ?). cbn [length]. rewrite length_app. split; [lia|done].
  - done.
Qed.

Lemma page_loop_ok fuel : ∀ m c ptr D n0 s o got acc base,
  at_ptr m ptr D → rx_ok s o acc base → ready_for c o D → zlen D ≤ c →
  zlen D + match _eRecvPageState o with FRAME_PAGE_STATE_RECEIVE_LEADING => 2 | _ => 1 end ≤
    Z.of_nat fuel →
  loop_result c acc D n0 got base (page_loop k fuel m c ptr (zlen D) n0 s o got).
Proof.
  induction fuel as [|fuel IH]; intros m c ptr D n0 s o got acc base Hm Hrx Hst Hc Hf;
    [destruct (_eRecvPageState o); lia|]. cbn [page_loop].
  unfold SIZE_OF_FRAME_PAGE_LEADING. destruct Hst as [Hst|(Hst & b0 & b1 & D' & -> & Hl & Hfit)];
    rewrite Hst in *; cbv iota.
  - destruct (Z.ltb_spec (zlen D) 2) as [Hshort|Hlong].
    { apply (loop_done _ _ _ _ _ _ (Wait acc D)); [by constructor|].
      cbn. rewrite Nat.sub_diag. split; [lia|]. by repeat split; [apply Hrx..|left]. }
    destruct D as [|b0 [|b1 D']]; [cbn in Hlong; lia..|].
    rewrite (at_ptr_leading _ _ b0 b1 D') by done. cbn [mbind outcome_bind].
    pose proof (page_at_bounds b0 b1) as Hb. set (l := page_at b0 b1) in *.
    destruct (Z.eqb_spec 0 (data_size l)) as [H0|H0].
    { apply (loop_done _ _ _ _ _ _ (Broken (-99))); [by apply run_empty|].
      cbn. split; [done|]. split; [done|]. exists acc. by eapply rx_ok_same. }
    destruct (Z.leb_spec (2 + data_size l) c) as [Hfit|Hover].
    { apply IH; try done.
      - by eapply rx_ok_same.
      - right. split; [done|]. exists b0, b1, D'. split; [done|]. split; [done|].
        split; [fold l; lia|done].
      - cbn [_eRecvPageState set_state]. lia. }
    apply (loop_done _ _ _ _ _ _ (Skip acc (data_size l - zlen D'))).
    { apply run_over; unfold SIZE_OF_FRAME_PAGE_LEADING; [done|fold l; lia]. }
    cbn [shows length] in *. split; [lia|]. split; [by eapply rx_ok_same|]. split; [done|].
    cbn [data_size with_size set_leading set_state _recv_page_leading]. cbn [length] in *. rewrite wrapu_small by lia. lia.
  - rewrite Hl. pose proof (page_at_bounds b0 b1) as Hb. set (l := page_at b0 b1) in *.
    destruct (Z.ltb_spec (zlen (b0 :: b1 :: D')) (2 + data_size l)) as [Hshort|Hlong].
    { apply (loop_done _ _ _ _ _ _ (Wait acc (b0 :: b1 :: D'))).
      { apply run_wait; [done|]. cbn [length] in Hshort. fold l. lia. }
      cbn [shows]. rewrite Nat.sub_diag. split; [lia|]. split; [done|]. split; [done|].
      right. split; [done|]. by exists b0, b1, D'. }
    cbn [length] in Hlong.
    assert (∃ d D2, D' = d ++ D2 ∧ data_size l = zlen d) as (d & D2 & -> & Hld).
    { exists (take (Z.to_nat (data_size l)) D'), (drop (Z.to_nat (data_size l)) D').
      split; [by rewrite take_drop|]. rewrite length_take. lia. }
    destruct (at_ptr_app m ptr (b0 :: b1 :: d) D2 Hm) as [Hm1 Hm2].
    destruct (at_ptr_app m ptr [b0; b1] d Hm1) as [_ (Hd1 & Hd2 & Hd3)].
    change (zlen [b0; b1]) with 2 in *.
    assert (0 < zlen d < 16384) as Hdl by (destruct Hfit; lia).
    destruct (consume_ok m (ptr + 2) d Hd1 Hd2 Hd3 Hdl s o acc base Hrx)
      as (s' & o' & base' & E & Hrx' & Hsame & Hsub & Hsz).
    rewrite Hl in *. fold l in E, Hrx', Hsz. rewrite Hld, E. cbn [mbind outcome_bind].
    pose proof (rx_page_rc acc l d) as Hrc.
    destruct (rx_page k acc l d) as [[acc' out] rc] eqn:Hp. cbn [fst snd] in *.
    rewrite consume_failed_eq by done. destruct (Z.eqb_spec rc 0) as [->|Hne]; cbn [negb].
    + apply (loop_next c acc b0 b1 d D2 n0 got base acc' out s' o' base'); try done.
      replace (zlen (b0 :: b1 :: d ++ D2) - (2 + zlen d)) with (zlen D2)
        by (cbn [length]; rewrite length_app; lia).
      cbn [length] in Hc, Hf. rewrite length_app in Hc, Hf.
      apply IH; [|by eapply rx_ok_same|by left|lia|cbn [_eRecvPageState set_state]; lia].
      cbn [length] in Hm2. by replace (ptr + (2 + zlen d)) with (ptr + Z.of_nat (S (S (length d)))) by lia.
    + exists out, 0%nat, (Broken rc), s', o', base', rc.
      split; [by eapply run_error|]. split; [done|]. split; [cbn; split; [done|]; split; [lia|eauto]|].
      split; [done|]. pose proof (rx_leak_error acc l d) as Hlk. rewrite Hp in Hlk.
      by rewrite Hsz, Hlk.
Qed.

(** ** A call of [DecodeStream] *)

Lemma rx_run_wait_rest c acc D out lk acc' rest :
  rx_run k c acc D out lk (Wait acc' rest) →
  (length rest ≤ length D)%nat ∧ (2 ≤ c → zlen rest < c).
Proof.
  intros Hr. remember (Wait acc' rest) as e eqn:He. induction Hr; simplify_eq.
  - split; [done|lia].
  - unfold fitting, SIZE_OF_FRAME_PAGE_LEADING in *. cbn [length]. split; [done|lia].
  - cbn [length]. rewrite length_app. destruct IHHr; [done|]. split; [lia|done].
Qed.

(** Where the call leaves the stream buffer, the object and the shared buffers. *)
Definition decoded (c : Z) (D : bytes) (h : heap) (bb bb' : bip_buf) (s : pool) (o : packet)
    (base : gmap Z (free_list * bytes)) (e : rx_end) (r : decode_result) : Prop :=
  match e with
  | Wait acc rest =>
      r = Consumed (zlen D - zlen rest) ∧ bip_rep h bb' (AQ c rest None) ∧
      rx_ok s o acc base ∧ ready_for c o rest
  | Skip acc n =>
      r = Consumed (zlen D) ∧ bip_rep h bb' (AQ c [] None) ∧ rx_ok s o acc base ∧
      _eRecvPageState o = FRAME_PAGE_STATE_SKIP ∧ data_size (_recv_page_leading o) = n
  | Broken rc => r = Thrown rc ∧ rc < 0 ∧ bb' = bb ∧ ∃ acc, rx_ok s o acc base
  end.

Lemma decode_ok h bb s o acc base c D :
  bip_rep h bb (AQ c D None) → c < 2 ^ 31 → rx_ok s o acc base → ready_for c o D →
  ∃ out lk e bb' s' o' r base',
    DecodeStream k h bb s o = Ok (bb', s', o', out, r) ∧ rx_run k c acc D out lk e ∧
    decoded c D h bb bb' s' o' base' e r ∧ base ⊆ base' ∧ size base' = (size base + lk)%nat.
Proof.
  intros Hrep Hc Hrx Hst.
  destruct (bip_view _ _ _ _ _ Hrep) as (m & Hm & H1 & H2 & H3 & Hcs & Hcap & Hle).
  unfold DecodeStream. rewrite Hm, Hcs, Hcap. cbn [mbind outcome_bind].
  rewrite !s32_small by lia. unfold ConsumeFramePage, page_fuel. rewrite Nat2Z.id.
  destruct (page_loop_ok (length D + 2) m c (bip_buf_get_contiguous_block bb) D 0 s o [] acc base)
    as (out & lk & e & s' & o' & base' & n & Hrun & -> & Hsh & Hsub & Hsz); try done.
  { destruct (_eRecvPageState o); lia. }
  cbn [mbind outcome_bind app]. exists out, lk, e.
  destruct e as [acc' rest|acc' j|rc]; cbn [shows decoded] in *.
  - destruct Hsh as (-> & Hrest & Hrx' & Hst'). rewrite Z.add_0_l.
    destruct (rx_run_wait_rest _ _ _ _ _ _ _ Hrun) as [Hlr _].
    destruct (Z.ltb_spec 0 (zlen D - zlen rest)) as [Hpos|Hz].
    + pose proof (bip_decommit_ok _ _ _ _ _ (zlen D - zlen rest) Hrep ltac:(lia)) as Hrep'.
      replace (Z.to_nat (zlen D - zlen rest)) with (length D - length rest)%nat in Hrep' by lia.
      rewrite <- Hrest in Hrep'. do 5 eexists. split; [done|]. by split_and!.
    + destruct (Z.eqb_spec 0 (zlen D - zlen rest)) as [_|]; [|lia].
      replace (length D - length rest)%nat with 0%nat in Hrest by lia. rewrite drop_0 in Hrest.
      subst rest. do 5 eexists. split; [done|]. by split_and!.
  - destruct Hsh as (-> & Hrx' & Hst' & Hj). rewrite Z.add_0_l.
    assert (2 ≤ zlen D) as HD by (inversion Hrun; subst; cbn [length]; lia).
    rewrite (proj2 (Z.ltb_lt _ _)) by lia.
    pose proof (bip_decommit_ok _ _ _ _ _ (zlen D) Hrep ltac:(lia)) as Hrep'.
    rewrite drop_ge in Hrep' by lia. do 5 eexists. split; [done|]. by split_and!.
  - destruct Hsh as (-> & Hneg & Hacc). rewrite (proj2 (Z.ltb_ge _ _)) by lia.
    destruct (Z.eqb_spec 0 rc); [lia|]. do 5 eexists. split; [done|]. by split_and!.
Qed.

(** A call while a page that is too large is being skipped. *)
Lemma decode_skip_ok h bb s o acc base c D :
  bip_rep h bb (AQ c D None) → c < 2 ^ 31 → rx_ok s o acc base →
  _eRecvPageState o = FRAME_PAGE_STATE_SKIP →
  let n := data_size (_recv_page_leading o) in
  0 < n < 16384 →
  ∃ bb' o',
    DecodeStream k h bb s o = Ok (bb', s, o', [], Consumed (Z.min (zlen D) n)) ∧
    bip_rep h bb' (AQ c (drop (Z.to_nat n) D) None) ∧ rx_ok s o' acc base ∧
    if decide (n ≤ zlen D) then _eRecvPageState o' = FRAME_PAGE_STATE_RECEIVE_LEADING
    else _eRecvPageState o' = FRAME_PAGE_STATE_SKIP ∧
      data_size (_recv_page_leading o') = n - zlen D.
Proof.
  intros Hrep Hc Hrx Hst n Hn.
  destruct (bip_view _ _ _ _ _ Hrep) as (m & Hm & H1 & H2 & H3 & Hcs & Hcap & Hle).
  unfold DecodeStream. rewrite Hm, Hcs, Hcap. cbn [mbind outcome_bind].
  rewrite !s32_small by lia. unfold ConsumeFramePage, page_fuel.
  rewrite Nat.add_comm. cbn [Nat.add page_loop]. rewrite Hst. cbv iota. fold n.
  cbn [mbind outcome_bind data_size with_size set_leading].
  rewrite wrapu_small, Z.add_0_l by lia. set (o1 := set_leading _ o).
  set (o' := if 0 >=? _ then _ else o1).
  assert (rx_ok s o' acc base) as Hrx'.
  { unfold o'. destruct (_ >=? _); by eapply rx_ok_same. }
  assert (if decide (n ≤ zlen D) then _eRecvPageState o' = FRAME_PAGE_STATE_RECEIVE_LEADING
    else _eRecvPageState o' = FRAME_PAGE_STATE_SKIP ∧
      data_size (_recv_page_leading o') = n - zlen D) as Hst'.
  { unfold o'. rewrite Z.geb_leb. case_decide.
    - by rewrite (proj2 (Z.leb_le _ _)) by lia.
    - rewrite (proj2 (Z.leb_gt _ _)) by lia. split; [done|]. cbn. rewrite wrapu_small; lia. }
  destruct (Z.ltb_spec 0 (Z.min (zlen D) n)).
  - exists (bip_buf_decommit bb (Z.min (zlen D) n)).1, o'. split; [done|].
    pose proof (bip_decommit_ok _ _ _ _ _ (Z.min (zlen D) n) Hrep ltac:(lia)) as Hrep'.
    split; [|done]. destruct (decide (n ≤ zlen D)).
    + by rewrite Z.min_r in Hrep' |- * by lia.
    + rewrite Z.min_l in Hrep' |- * by lia. rewrite drop_ge in Hrep' |- * by lia. done.
  - assert (D = []) as -> by (destruct D; [done|cbn [length] in *; lia]).
    exists bb, o'. rewrite (proj2 (Z.eqb_eq _ _)) by (cbn [length] in *; lia).
    split; [done|]. by rewrite drop_nil.
Qed.
End consume.
