(* ===== verification/TcpStream.v ===== *)
(** * The packet stream

    From the bytes a connection reads to the messages its handler sees: the run relation
    of [TcpDecode] does not depend on how the stream is cut, a framed packet runs to
    its text, and the reading loop of a connection ([uv_alloc], [on_client_read],
    [DecodeStream]) on what [Post] sent hands out the packets that were posted.  On any
    other bytes it still never leaves its memory. *)

From S2P Require Import Prelude CHeap BipBuf Fifo TcpPacket TcpPool TcpPost TcpDecode.

#[local] Open Scope Z_scope.

(** ** The run relation *)

Section run.
Context (k : packet_kind) (c : Z).

Ltac fit_contra :=
  exfalso; unfold fitting, SIZE_OF_FRAME_PAGE_LEADING in *; cbn [length] in *;
  rewrite ?length_app in *; lia.

(** Two pages at the front of the same bytes are the same page. *)
Ltac same_page :=
  match goal with
  | E : ?d2 ++ ?D2 = ?d ++ ?D, H1 : data_size _ = zlen ?d, H2 : data_size _ = zlen ?d2 |- _ =>
      apply app_inj_1 in E as [? ?]; [subst d2 D2|lia]
  end;
  match goal with
  | H1 : rx_page _ _ _ _ = _, H2 : rx_page _ _ _ _ = _ |- _ =>
      rewrite H1 in H2; simplify_eq
  end.

(** A stream has one run. *)
Lemma rx_run_det acc D out lk e out' lk' e' :
  rx_run k c acc D out lk e → rx_run k c acc D out' lk' e' →
  out = out' ∧ lk = lk' ∧ e = e'.
Proof.
  intros Hr. revert out' lk' e'.
  induction Hr as [| | | |acc b0 b1 d D acc' out out1 n e Hf Hl Hp Hr IH|acc b0 b1 d D acc' out rc Hf Hl Hp Hne];
    intros o2 lk2 e2 Hr2.
  - inversion Hr2; subst; try done; fit_contra.
  - inversion Hr2; subst; try done; fit_contra.
  - inversion Hr2; subst; try done; fit_contra.
  - inversion Hr2; subst; try done; fit_contra.
  - inversion Hr2; subst; try fit_contra; same_page. by edestruct IH as (-> & -> & ->).
  - inversion Hr2; subst; try fit_contra; by same_page.
Qed.

(** Cutting a stream: the run goes on from what it was waiting with. *)
Lemma rx_run_app acc D X out lk acc' rest out' lk' e :
  rx_run k c acc D out lk (Wait acc' rest) → rx_run k c acc' (rest ++ X) out' lk' e →
  rx_run k c acc (D ++ X) (out ++ out') (lk + lk') e.
Proof.
  intros Hr. remember (Wait acc' rest) as e0 eqn:He.
  induction Hr as [| | | |acc b0 b1 d D acc2 out out1 n e1 Hf Hl Hp Hr IH|]; simplify_eq; try done.
  intros Hr2. rewrite <- !app_assoc, <- Nat.add_assoc. cbn. rewrite <- app_assoc.
  eapply run_page; eauto.
Qed.

(** What went wrong stays wrong. *)
Lemma rx_run_broken acc D X out lk rc :
  rx_run k c acc D out lk (Broken rc) → rx_run k c acc (D ++ X) out lk (Broken rc).
Proof.
  intros Hr. remember (Broken rc) as e0 eqn:He.
  induction Hr as [| | | |acc b0 b1 d D acc2 out out1 n e1 Hf Hl Hp Hr IH|]; simplify_eq; try done.
  - by apply run_empty.
  - cbn. rewrite <- app_assoc. eapply run_page; eauto.
  - cbn. rewrite <- app_assoc. eapply run_error; eauto.
Qed.

Lemma rx_run_skip acc D X out lk acc' n :
  rx_run k c acc D out lk (Skip acc' n) →
  rx_run k c acc (D ++ X) out lk (Skip acc' (n - zlen X)).
Proof.
  intros Hr. remember (Skip acc' n) as e0 eqn:He.
  induction Hr as [| | |? b0 b1 D|acc b0 b1 d D acc2 out out1 m e1 Hf Hl Hp Hr IH|]; simplify_eq; try done.
  - change (Z.land _ 16383) with (data_size (page_at b0 b1)). cbn [app].
    replace (data_size (page_at b0 b1) - zlen D - zlen X)
      with (data_size (page_at b0 b1) - zlen (D ++ X)) by (rewrite length_app; lia).
    by apply run_over.
  - cbn. rewrite <- app_assoc. eapply run_page; eauto.
Qed.

(** A framed packet, in front of other bytes. *)
Lemma page_at_bytes p :
  payload_ok (pg_data p) →
  ∃ b0 b1, page_bytes p = b0 :: b1 :: pg_data p ∧ page_at b0 b1 = leading_of p.
Proof.
  intros Hp. unfold page_bytes, page_leading_bytes. do 2 eexists. split; [done|].
  unfold page_at. rewrite Z.add_comm, <- (Z.div_mod (page_word _) 256) by lia.
  by apply page_leading_word, leading_of_ok.
Qed.

Definition acc_of (st : bool) (a : bytes) : option bytes := if st then None else Some a.

Lemma frames_run st t ps : PER_FRAME_PAGE_SIZE_MAX ≤ c → frames st t ps → ∀ a D out lk e,
  (st = true → a = []) → zlen a + zlen t ≤ cap_of recv_buffer_free_list →
  complete k (a ++ t) = true → rx_run k c None D out lk e →
  rx_run k c (acc_of st a) (wire ps ++ D) ((a ++ t) :: out) lk e.
Proof.
  intros Hc Hf. induction Hf as [st d Hd|st d t ps Hd Hf IH]; intros a D out lk e Ha Hlen Hcm Hr.
  all: match goal with |- context [wire (?p :: _)] =>
    destruct (page_at_bytes p Hd) as (b0 & b1 & Eb & El) end;
    unfold wire; cbn [fmap list_fmap concat]; rewrite Eb; cbn [pg_data app].
  all: assert (fitting c (page_at b0 b1)) as Hfit by (rewrite El; unfold fitting; cbn;
    unfold payload_ok, SIZE_OF_FRAME_PAGE_LEADING, PER_FRAME_PAGE_SIZE_MAX in *; lia).
  - rewrite app_nil_r. change ((a ++ d) :: out) with ([a ++ d] ++ out).
    change lk with (0 + lk)%nat. replace 0%nat with (rx_leak (acc_of st a) (page_at b0 b1)).
    2:{ rewrite El. unfold rx_leak. by destruct st. }
    eapply run_page; [done|by rewrite El| |done]. rewrite El. unfold rx_page. cbn.
    destruct st; cbn.
    + rewrite Ha in * by done. cbn in Hcm |- *. by rewrite Hcm.
    + rewrite (proj2 (Z.leb_le _ _) Hlen), Hcm. done.
  - rewrite length_app in Hlen. rewrite (app_assoc a d t) in *. rewrite <- app_assoc.
    change (((a ++ d) ++ t) :: out) with ([] ++ ((a ++ d) ++ t) :: out).
    change lk with (0 + lk)%nat. replace 0%nat with (rx_leak (acc_of st a) (page_at b0 b1)).
    2:{ rewrite El. unfold rx_leak. by destruct st. }
    eapply (run_page _ _ _ _ _ _ _ (Some (a ++ d))); [done|by rewrite El| |].
    + rewrite El. unfold rx_page. cbn. destruct st; cbn.
      * by rewrite Ha.
      * by rewrite (proj2 (Z.leb_le _ _)) by lia.
    + apply (IH (a ++ d)); [done|rewrite length_app; lia|done|done].
Qed.
End run.

(** ** Every stream has a run *)

Section reading.
Context {mal : Malloc} (k : packet_kind) (c : Z).

Lemma rx_run_total n : ∀ D acc, (length D < n)%nat → ∃ out lk e, rx_run k c acc D out lk e.
Proof.
  induction n as [|n IH]; intros D acc Hn; [lia|].
  destruct (decide (zlen D < 2)) as [Hs|Hs]; [do 3 eexists; by apply run_short|].
  destruct D as [|b0 [|b1 D]]; [cbn in Hs; lia..|]. clear Hs. cbn [length] in Hn.
  pose proof (page_at_bounds b0 b1) as Hb.
  destruct (decide (data_size (page_at b0 b1) = 0)); [do 3 eexists; by apply run_empty|].
  destruct (decide (c < SIZE_OF_FRAME_PAGE_LEADING + data_size (page_at b0 b1)));
    [do 3 eexists; apply run_over; [done|lia]|].
  assert (fitting c (page_at b0 b1)) as Hf by (split; lia).
  destruct (decide (zlen D < data_size (page_at b0 b1))); [do 3 eexists; by apply run_wait|].
  destruct (rx_page k acc (page_at b0 b1) (take (Z.to_nat (data_size (page_at b0 b1))) D))
    as [[acc' out] rc] eqn:Hp.
  assert (data_size (page_at b0 b1) = zlen (take (Z.to_nat (data_size (page_at b0 b1))) D)) as Hl
    by (rewrite length_take; lia).
  rewrite <- (take_drop (Z.to_nat (data_size (page_at b0 b1))) D).
  destruct (decide (rc = 0)) as [->|].
  - destruct (IH (drop (Z.to_nat (data_size (page_at b0 b1))) D) acc') as (o2 & lk & e & Hr);
      [rewrite length_drop; lia|].
    do 3 eexists. by eapply run_page.
  - do 3 eexists. by eapply run_error.
Qed.

(** What a run is waiting with waits. *)
Lemma rx_run_stable acc D out lk acc' rest :
  rx_run k c acc D out lk (Wait acc' rest) → rx_run k c acc' rest [] 0 (Wait acc' rest).
Proof.
  intros Hr. remember (Wait acc' rest) as e eqn:He.
  induction Hr; simplify_eq; eauto using rx_run.
Qed.

(** The rest of a run whose front has been worked off. *)
Lemma rx_run_split acc D X out lk e out1 lk1 acc1 rest :
  rx_run k c acc (D ++ X) out lk e → rx_run k c acc D out1 lk1 (Wait acc1 rest) →
  ∃ out2 lk2, out = out1 ++ out2 ∧ lk = (lk1 + lk2)%nat ∧
    rx_run k c acc1 (rest ++ X) out2 lk2 e.
Proof.
  intros Hr H1. destruct (rx_run_total (S (length (rest ++ X))) (rest ++ X) acc1)
    as (out2 & lk2 & e2 & H2); [lia|].
  destruct (rx_run_det k c _ _ _ _ _ _ _ _ Hr (rx_run_app k c _ _ _ _ _ _ _ _ _ _ H1 H2))
    as (-> & -> & ->). eauto.
Qed.

(** A run that ends waiting waits at every cut. *)
Lemma rx_run_cut acc D X out lk acc' rest out1 lk1 e1 :
  rx_run k c acc (D ++ X) out lk (Wait acc' rest) → rx_run k c acc D out1 lk1 e1 →
  ∃ acc1 rest1, e1 = Wait acc1 rest1.
Proof.
  intros Hr H1. destruct e1 as [acc1 rest1|acc1 n|rc]; [eauto|..]; exfalso.
  - apply (rx_run_skip k c _ _ X) in H1.
    by destruct (rx_run_det k c _ _ _ _ _ _ _ _ Hr H1) as (_ & _ & ?).
  - apply (rx_run_broken k c _ _ X) in H1.
    by destruct (rx_run_det k c _ _ _ _ _ _ _ _ Hr H1) as (_ & _ & ?).
Qed.

(** ** One turn of the reading loop *)

(** libuv asks [alloc_cb] for memory, reads at most [amount] of the bytes [S] that are
    left into it and calls back; without memory it reports an error. *)
Definition uv_turn (amount : Z) (S : bytes) (st : endpoint) :
    outcome (bytes * endpoint * read_result) :=
  '(st, base, len) ← alloc_cb st;
  match base with
  | None => '(st, r) ← on_client_read k (-4060) st; Ok (S, st, r)
  | Some base =>
      let chunk := take (Z.to_nat (Z.min amount len)) S in
      h ← hstore (_buffer (ep_bb st)) base chunk (ep_heap st);
      let st := Endpoint h (ep_bb st) (ep_pool st) (ep_obj st) (ep_got st) in
      '(st, r) ← on_client_read k (zlen chunk) st;
      Ok (drop (length chunk) S, st, r)
  end.

(** The endpoint waits for the bytes behind [rest]. *)
Record waiting (st : endpoint) (acc : option bytes) (rest : bytes)
    (base : gmap Z (free_list * bytes)) : Prop := {
  wt_bb : bip_rep (ep_heap st) (ep_bb st) (AQ c rest None);
  wt_rx : rx_ok (ep_pool st) (ep_obj st) acc base;
  wt_ready : ready_for c (ep_obj st) rest;
  wt_stable : rx_run k c acc rest [] 0 (Wait acc rest)
}.

Context (Hc : 2 ≤ c < 2 ^ 31).

Lemma waiting_room st acc rest base : waiting st acc rest base → zlen rest < c.
Proof. intros Hw. destruct (rx_run_wait_rest _ _ _ _ _ _ _ _ (wt_stable _ _ _ _ Hw)). lia. Qed.

Lemma ready_for_app o D X : ready_for c o D → ready_for c o (D ++ X).
Proof.
  intros [?|(? & b0 & b1 & D' & -> & ? & ?)]; [by left|]. right. split; [done|].
  by exists b0, b1, (D' ++ X).
Qed.

(** An endpoint with room: the next read gets memory. *)
Lemma alloc_ok st rest :
  bip_rep (ep_heap st) (ep_bb st) (AQ c rest None) → zlen rest < c →
  ∃ h bb w, alloc_cb st =
      Ok (Endpoint h bb (ep_pool st) (ep_obj st) (ep_got st), Some (_r_start bb), c - zlen rest) ∧
    zlen w = c - zlen rest ∧ bip_rep h bb (AQ c rest (Some w)).
Proof.
  intros Hbb Hroom.
  destruct (bip_reserve_ok _ _ _ _ _ Hbb) as (h & bb & p & n & E & _ & Hr).
  rewrite decide_False in Hr by (intros [[? ?]|?]; [done|lia]).
  destruct Hr as ([b ->] & -> & w & Hlw & Hrep). unfold alloc_cb. rewrite E.
  cbn [mbind outcome_bind]. rewrite (reserve_base _ _ _ _ _ _ E). eauto 10.
Qed.

(** A turn puts the bytes that were read behind the others and hands them on. *)
Lemma turn_read amount S st rest :
  bip_rep (ep_heap st) (ep_bb st) (AQ c rest None) → zlen rest < c → 0 ≤ amount →
  let chunk := take (Z.to_nat (Z.min amount (c - zlen rest))) S in
  ∃ h bb, let st1 := Endpoint h bb (ep_pool st) (ep_obj st) (ep_got st) in
    bip_rep h bb (AQ c (rest ++ chunk) None) ∧
    uv_turn amount S st =
      if decide (chunk = []) then Ok (S, st1, Waiting)
      else '(st', r) ← OnRawData k st1; Ok (drop (length chunk) S, st', Decoded r).
Proof.
  intros Hbb Hroom Ha chunk.
  destruct (alloc_ok _ _ Hbb Hroom) as (h & bb & w & E & Hlw & Hrep).
  unfold uv_turn. rewrite E. cbn [mbind outcome_bind ep_bb ep_heap ep_pool ep_obj ep_got].
  fold chunk. assert (zlen chunk ≤ c - zlen rest) as Hlc by (unfold chunk; rewrite length_take; lia).
  destruct (bip_write_ok _ _ _ _ _ 0 chunk Hrep) as (h' & E' & _ & Hrep'); [lia..|].
  rewrite Z.add_0_r in E'. rewrite E'. cbn [mbind outcome_bind].
  pose proof (bip_commit_ok _ _ _ _ _ (zlen chunk) Hrep' ltac:(lia)) as Hrep2.
  pose proof (take_put_at 0 chunk w ltac:(lia)) as Ht.
  rewrite take_0, Nat.add_0_l in Ht. rewrite Nat2Z.id, Ht in Hrep2. cbn [app] in Hrep2.
  unfold on_client_read. rewrite (proj2 (Z.ltb_ge _ _)) by lia.
  exists h', (bip_buf_commit bb (zlen chunk)). split; [done|].
  destruct (decide (chunk = [])) as [Hnil|Hnil].
  - rewrite Hnil. cbn. by rewrite drop_0.
  - destruct (Z.eqb_spec (zlen chunk) 0) as [H0|H0].
    + destruct chunk; [done|cbn in H0; lia].
    + cbn [mbind outcome_bind]. by destruct (OnRawData _ _) as [[? ?]|].
Qed.

Lemma waiting_turn amount S st acc rest base :
  waiting st acc rest base → 0 ≤ amount →
  let chunk := take (Z.to_nat (Z.min amount (c - zlen rest))) S in
  ∃ st', (chunk = [] ∧ uv_turn amount S st = Ok (S, st', Waiting) ∧
          waiting st' acc rest base ∧ ep_got st' = ep_got st) ∨
    ∃ out lk e r bb base', chunk ≠ [] ∧
      uv_turn amount S st = Ok (drop (length chunk) S, st', Decoded r) ∧
      rx_run k c acc (rest ++ chunk) out lk e ∧
      decoded c (rest ++ chunk) (ep_heap st') bb (ep_bb st') (ep_pool st') (ep_obj st') base' e r ∧
      base ⊆ base' ∧ size base' = (size base + lk)%nat ∧ ep_got st' = ep_got st ++ out.
Proof.
  intros Hw Ha chunk. pose proof (waiting_room _ _ _ _ Hw) as Hroom.
  destruct (turn_read amount S st rest (wt_bb _ _ _ _ Hw) Hroom Ha) as (h & bb & Hbb & ->).
  fold chunk in Hbb |- *. destruct (decide (chunk = [])) as [Hnil|Hnil].
  - eexists. left. split; [done|]. split; [done|]. split; [|done].
    rewrite Hnil, app_nil_r in Hbb. destruct Hw. by split.
  - unfold OnRawData. cbn [ep_bb ep_heap ep_pool ep_obj ep_got].
    destruct (decode_ok k h bb (ep_pool st) (ep_obj st) acc base c (rest ++ chunk) Hbb)
      as (out & lk & e & bb' & s' & o' & r & base' & -> & Hrun & Hdec & Hsub & Hsz);
      [lia|apply Hw|apply ready_for_app, Hw|].
    cbn [mbind outcome_bind]. eexists. right. exists out, lk, e, r. do 2 eexists.
    split; [done|]. split; [done|]. split; [done|]. split; [exact Hdec|done].
Qed.

(** ** Reading a well-formed stream *)

Fixpoint uv_reads (amounts : list Z) (S : bytes) (st : endpoint) :
    outcome (bytes * endpoint * option Z) :=
  match amounts with
  | [] => Ok (S, st, None)
  | a :: amounts =>
      '(S, st, r) ← uv_turn a S st;
      match r with Decoded (Thrown rc) => Ok (S, st, Some rc) | _ => uv_reads amounts S st end
  end.

Lemma waiting_progress amount S st acc rest base out accF :
  waiting st acc rest base → 1 ≤ amount → rx_run k c acc (rest ++ S) out 0 (Wait accF []) →
  ∃ S' st' acc' rest' out1 out2 r,
    uv_turn amount S st = Ok (S', st', r) ∧ (∀ rc, r ≠ Decoded (Thrown rc)) ∧
    waiting st' acc' rest' base ∧ out = out1 ++ out2 ∧ ep_got st' = ep_got st ++ out1 ∧
    rx_run k c acc' (rest' ++ S') out2 0 (Wait accF []) ∧ (length S' ≤ length S - 1)%nat.
Proof.
  intros Hw Ha Hrun. pose proof (waiting_room _ _ _ _ Hw) as Hroom.
  destruct (waiting_turn amount S st acc rest base Hw ltac:(lia))
    as (st' & [(Hnil & E & Hw' & Hgot)|(out1 & lk & e & r & bb & base' & Hne & E & Hr & Hdec & Hsub & Hsz & Hgot)]).
  - exists S, st', acc, rest, [], out, Waiting. rewrite app_nil_r. split_and!; try done.
    destruct S; [cbn; lia|]. replace (Z.to_nat _) with (Datatypes.S (Z.to_nat (Z.min amount (c - zlen rest) - 1)))
      in Hnil by lia. done.
  - set (chunk := take _ S) in *.
    assert (S = chunk ++ drop (length chunk) S) as HS.
    { unfold chunk at 2. rewrite length_take. destruct (decide (length S ≤ Z.to_nat (Z.min amount (c - zlen rest)))%nat).
      - unfold chunk. rewrite take_ge, drop_ge by lia. by rewrite app_nil_r.
      - rewrite Nat.min_l by lia. unfold chunk. by rewrite take_drop. }
    rewrite HS, app_assoc in Hrun.
    destruct (rx_run_cut _ _ _ _ _ _ _ _ _ _ Hrun Hr) as (acc1 & rest1 & ->).
    destruct (rx_run_split _ _ _ _ _ _ _ _ _ _ Hrun Hr) as (out2 & lk2 & -> & Hlk & Hr2).
    assert (lk = 0%nat) as -> by lia. assert (lk2 = 0%nat) as -> by lia.
    cbn [decoded] in Hdec. destruct Hdec as (-> & Hbb & Hrx & Hrd).
    assert (base' = base) as ->.
    { symmetry. apply map_subseteq_size_eq; [done|lia]. }
    exists (drop (length chunk) S), st', acc1, rest1, out1, out2, (Decoded (Consumed (zlen (rest ++ chunk) - zlen rest1))).
    split_and!; try done.
    + split; [done..|]. by eapply rx_run_stable.
    + rewrite length_drop. destruct chunk; [done|cbn; lia].
Qed.

Lemma reads_ok amounts : ∀ S st acc rest base out accF,
  waiting st acc rest base → Forall (λ a, 1 ≤ a) amounts →
  rx_run k c acc (rest ++ S) out 0 (Wait accF []) →
  ∃ S' st' acc' rest' out1 out2,
    uv_reads amounts S st = Ok (S', st', None) ∧
    waiting st' acc' rest' base ∧ out = out1 ++ out2 ∧ ep_got st' = ep_got st ++ out1 ∧
    rx_run k c acc' (rest' ++ S') out2 0 (Wait accF []) ∧
    (length S' ≤ length S - length amounts)%nat.
Proof.
  induction amounts as [|a amounts IH]; intros S st acc rest base out accF Hw Ha Hrun.
  { exists S, st, acc, rest, [], out. rewrite app_nil_r. split_and!; try done. cbn. lia. }
  apply Forall_cons in Ha as [Ha Has].
  destruct (waiting_progress a S st acc rest base out accF Hw Ha Hrun)
    as (S1 & st1 & acc1 & rest1 & out1 & out2 & r & E & Hr & Hw1 & -> & Hgot & Hrun1 & Hlen).
  cbn [uv_reads]. rewrite E. cbn [mbind outcome_bind].
  destruct (IH S1 st1 acc1 rest1 base out2 accF Hw1 Has Hrun1)
    as (S2 & st2 & acc2 & rest2 & out3 & out4 & E2 & Hw2 & -> & Hgot2 & Hrun2 & Hlen2).
  exists S2, st2, acc2, rest2, (out1 ++ out3), out4.
  split; [destruct r as [| |[n|rc]]; try done; by destruct (Hr rc)|].
  split; [done|]. rewrite Hgot2, Hgot, !app_assoc. split_and!; try done. cbn [length]. lia.
Qed.

Lemma reads_all amounts S st base out accF :
  waiting st None [] base → Forall (λ a, 1 ≤ a) amounts → (length S ≤ length amounts)%nat →
  rx_run k c None S out 0 (Wait accF []) →
  ∃ st', uv_reads amounts S st = Ok ([], st', None) ∧ waiting st' accF [] base ∧
    ep_got st' = ep_got st ++ out.
Proof.
  intros Hw Ha Hlen Hrun.
  destruct (reads_ok amounts S st None [] base out accF Hw Ha Hrun)
    as (S' & st' & acc' & rest' & out1 & out2 & E & Hw' & -> & Hgot & Hrun' & Hlen').
  assert (S' = []) as -> by (destruct S'; [done|cbn in Hlen'; lia]).
  rewrite app_nil_r in Hrun'.
  destruct (rx_run_det _ _ _ _ _ _ _ _ _ _ Hrun' (wt_stable _ _ _ _ Hw')) as (-> & _ & [= -> <-]).
  exists st'. by rewrite app_nil_r.
Qed.
End reading.
