(* ===== verification/TcpRoundtrip.v ===== *)
(** * From [Post] to [OnGotPacket]

    The end-to-end properties of the packet code: what one side posts is what the other
    side's handler gets, whatever the sizes of the reads; arbitrary bytes do no harm;
    a connection never runs out of room to read; and where the shared buffers go. *)

From S2P Require Import Prelude CHeap BipBuf Fifo TcpPacket TcpPool TcpPost TcpDecode TcpStream.

#[local] Open Scope Z_scope.

(** ** Posting several packets *)

Section post_all.
Context {mal : Malloc} {conn : Conn} (k : packet_kind).

Fixpoint post_all (ms : list message) (s : pool) (o : packet) : outcome (pool * packet * bytes) :=
  match ms with
  | [] => Ok (s, o, [])
  | m :: ms =>
      '(s, o, sent, _) ← Post k (m_uuid m) (m_serial m) (m_name m) (m_body m) s o;
      '(s, o, T) ← post_all ms s o;
      Ok (s, o, concat sent ++ T)
  end.

(** A packet that fits in a receive buffer and whose name's length fits in its byte. *)
Record message_ok (m : message) : Prop := {
  mo_name : 1 ≤ zlen (m_name m) ≤ 255;
  mo_size : SIZE_OF_PACKET_LEADING k + zlen (m_name m) + zlen (m_body m) ≤
    cap_of recv_buffer_free_list;
  mo_serial : byte_ok (m_serial m);
  mo_uuid : 0 ≤ m_uuid m < 2 ^ 64
}.

(** [t] is the text of [m], with some unused bytes. *)
Definition text_of (m : message) (t : bytes) : Prop :=
  ∃ unused, zlen unused = unused_bytes k ∧ t = packet_text k m unused.

Lemma length_leading_text n serial uuid unused :
  zlen unused = unused_bytes k →
  zlen (leading_text k n serial uuid unused) = SIZE_OF_PACKET_LEADING k.
Proof.
  intros Hu. unfold leading_text. rewrite !length_app, !Nat2Z.inj_add, Hu.
  by destruct k; rewrite ?length_le_bytes.
Qed.

Lemma text_complete m t : message_ok m → text_of m t →
  complete k t = true ∧ zlen t ≤ cap_of recv_buffer_free_list.
Proof.
  intros [Hn Hs _ _] (unused & Hu & ->).
  pose proof (length_leading_text (zlen (m_name m)) (m_serial m) (m_uuid m) unused Hu) as Hl.
  unfold packet_text. split.
  - unfold complete, leading_text. cbn [app]. rewrite wrapu_small by lia.
    apply andb_true_iff. split; [apply Z.ltb_lt; lia|]. apply Z.leb_le.
    unfold leading_text in Hl. cbn [app] in Hl. cbn [length] in Hl |- *.
    rewrite !length_app in *. lia.
  - rewrite !length_app, !Nat2Z.inj_add, Hl. lia.
Qed.

Lemma post_all_ok ms : ∀ s o held,
  pool_inv s held → IsReady = true → sends_all → Forall message_ok ms →
  ∃ s' o' T texts,
    post_all ms s o = Ok (s', o', T) ∧ pool_inv s' held ∧ Forall2 text_of ms texts ∧
    ∀ c, PER_FRAME_PAGE_SIZE_MAX ≤ c → rx_run k c None T texts 0 (Wait None []).
Proof.
  induction ms as [|m ms IH]; intros s o held Hinv Hready Hsend Hms.
  { exists s, o, [], []. split_and!; try done. intros c _. by apply run_short. }
  apply Forall_cons in Hms as [Hm Hms]. destruct m as [uuid serial name body].
  assert (2 ≤ SIZE_OF_PACKET_LEADING k ≤ 16) as Hk by (destruct k; cbn; lia).
  pose proof Hm as [Hn Hs _ _]. cbn [m_name m_body] in *.
  destruct (post_ok k s held o uuid serial name body Hinv Hready Hsend)
    as (s1 & ps & unused & E & Hf & Hu & Hinv1).
  { unfold head_len, SIZE_OF_FRAME_PAGE_LEADING, PER_FRAME_PAGE_SIZE_MAX. lia. }
  { rewrite cap_of_recv in Hs. lia. }
  cbn [post_all m_uuid m_serial m_name m_body]. rewrite E. cbn [mbind outcome_bind].
  destruct (IH s1 (set_send 0 o) held Hinv1 Hready Hsend Hms)
    as (s2 & o2 & T & texts & -> & Hinv2 & Ht & Hrun).
  cbn [mbind outcome_bind].
  set (t := packet_text k (Message uuid serial name body) unused) in *.
  assert (text_of (Message uuid serial name body) t) as Htx by (by exists unused).
  destruct (text_complete _ _ Hm Htx) as [Hcm Hlen].
  do 2 eexists. exists (concat (page_bytes <$> ps) ++ T), (t :: texts).
  split; [done|]. split; [done|]. split; [by constructor|].
  intros c Hc. by apply (frames_run k c true t ps Hc Hf []); auto.
Qed.

(** ** The handler *)

(** What the handler sees: the outer leading has no uuid. *)
Definition seen (m : message) : message :=
  match k with
  | CTcpInnerPacket => m
  | CTcpOuterPacket => Message 0 (m_serial m) (m_name m) (m_body m)
  end.

Lemma load_mid (a d b : bytes) off n :
  off = zlen a → n = zlen d → load off n (a ++ d ++ b) = Ok d.
Proof.
  intros -> ->. rewrite load_Ok by (rewrite ?length_app; lia). unfold sub_at.
  by rewrite !Nat2Z.id, drop_app_length, take_app_length.
Qed.

Lemma got_packet_ok m t : message_ok m → text_of m t → OnGotPacket k t = Ok (seen m).
Proof.
  intros [Hn Hs Hser Huuid] (unused & Hu & ->). destruct m as [uuid serial name body].
  cbn [m_name m_body m_serial m_uuid] in *. unfold byte_ok in Hser.
  pose proof (length_leading_text (zlen name) serial uuid unused Hu) as Hl.
  unfold OnGotPacket, get_name_len, packet_text. cbn [m_name m_body m_serial m_uuid].
  assert (2 ≤ SIZE_OF_PACKET_LEADING k ≤ 16) as Hk by (destruct k; cbn; lia).
  set (L := leading_text k (zlen name) serial uuid unused) in *.
  assert (load1 0 (L ++ name ++ body) = Ok (zlen name)) as ->.
  { apply load1_Ok; [done|]. cbn. by rewrite wrapu_small by lia. }
  cbn [mbind outcome_bind]. rewrite (load_mid L name body (SIZE_OF_PACKET_LEADING k)) by (done || lia). cbn [mbind outcome_bind].
  assert (zlen (L ++ name ++ body) = SIZE_OF_PACKET_LEADING k + zlen name + zlen body) as Hlt
    by (rewrite !length_app; lia).
  rewrite cap_of_recv in Hs. rewrite Hlt, u64_small by lia.
  assert (load (SIZE_OF_PACKET_LEADING k + zlen name)
    (SIZE_OF_PACKET_LEADING k + zlen name + zlen body - zlen name - SIZE_OF_PACKET_LEADING k)
    (L ++ name ++ body) = Ok body) as ->.
  { pose proof (load_mid (L ++ name) body []) as Hb. rewrite app_nil_r, <- app_assoc in Hb.
    apply Hb; rewrite ?length_app; lia. }
  cbn [mbind outcome_bind].
  assert (load1 1 (L ++ name ++ body) = Ok serial) as ->.
  { apply load1_Ok; [done|]. change (Z.to_nat 1) with 1%nat. cbn. by rewrite wrapu_small by lia. }
  cbn [mbind outcome_bind]. unfold seen. destruct k; cbn [mbind outcome_bind]; [|done].
  assert (load 8 8 (L ++ name ++ body) = Ok (le_bytes 8 uuid)) as ->.
  { unfold L, leading_text. rewrite u64_small by lia. rewrite (app_assoc _ unused), <- !app_assoc.
    rewrite (app_assoc [_; _]). apply load_mid; [|by rewrite length_le_bytes].
    rewrite length_app, Nat2Z.inj_add, Hu. done. }
  cbn [mbind outcome_bind]. rewrite le_val_bytes by lia. done.
Qed.

Lemma handler_ok ms texts :
  Forall message_ok ms → Forall2 text_of ms texts →
  mapM (OnGotPacket k) texts = Ok (seen <$> ms).
Proof.
  intros Hms Ht. induction Ht as [|m t ms texts Hmt _ IH]; [done|].
  apply Forall_cons in Hms as [Hm Hms]. cbn [mapM]. rewrite (got_packet_ok m t Hm Hmt).
  cbn [mbind outcome_bind]. rewrite IH by done. done.
Qed.
End post_all.

(** ** Any bytes *)

Section any.
Context {mal : Malloc} (k : packet_kind) (c : Z).

(** A connection that reads: it waits for a page or skips one, and its stream buffer
    is not full.  [base] is what the other connections have in the shared buffers. *)
Definition live (st : endpoint) (base : gmap Z (free_list * bytes)) : Prop :=
  ∃ acc rest, bip_rep (ep_heap st) (ep_bb st) (AQ c rest None) ∧
    rx_ok (ep_pool st) (ep_obj st) acc base ∧ zlen rest < c ∧
    (ready_for c (ep_obj st) rest ∨
     _eRecvPageState (ep_obj st) = FRAME_PAGE_STATE_SKIP ∧
     0 < data_size (_recv_page_leading (ep_obj st)) < 16384).

Definition decode_errors : list Z := [-1; -3; -4; -5; -6; -99].

Lemma rx_page_errors acc l d :
  (rx_page k acc l d).2 ≠ 0 → (rx_page k acc l d).2 ∈ decode_errors.
Proof.
  assert (∀ rc, rc ∈ decode_errors ↔ rc = -1 ∨ rc = -3 ∨ rc = -4 ∨ rc = -5 ∨ rc = -6 ∨ rc = -99) as Hin.
  { intros rc. unfold decode_errors. rewrite !elem_of_cons, elem_of_nil. tauto. }
  rewrite Hin. unfold rx_page. destruct (_ && _); [destruct (complete _ _); cbn; lia|].
  destruct (_ <? _); [cbn; lia|]. destruct acc as [a|]; [|cbn; lia].
  destruct (_ <=? _); [|destruct (_ <? _); cbn; lia]. destruct (_ <? _); [|cbn; lia].
  destruct (complete _ _); cbn; lia.
Qed.

Lemma rx_run_errors acc D out lk rc :
  rx_run k c acc D out lk (Broken rc) → rc ∈ decode_errors.
Proof.
  intros Hr. remember (Broken rc) as e eqn:He.
  induction Hr as [| | | |?|acc b0 b1 d D acc' out rc' Hf Hl Hp Hne]; simplify_eq; auto.
  - unfold decode_errors. set_solver.
  - pose proof (rx_page_errors acc (page_at b0 b1) d) as He. rewrite Hp in He. by apply He.
Qed.

Lemma rx_run_skip_size acc D out lk acc' n :
  rx_run k c acc D out lk (Skip acc' n) → zlen D ≤ c → 0 < n < 16384.
Proof.
  intros Hr. remember (Skip acc' n) as e eqn:He.
  induction Hr as [| | |acc b0 b1 D Hov Hpos|?|]; try done; intros Hlen.
  - assert (n = data_size (page_at b0 b1) - zlen D) as -> by congruence. pose proof (page_at_bounds b0 b1). cbn [length] in Hlen.
    unfold SIZE_OF_FRAME_PAGE_LEADING in *. lia.
  - apply IHHr; [done|]. cbn [length] in Hlen. rewrite length_app in Hlen. lia.
Qed.

Context (Hc : 2 ≤ c < 2 ^ 31).

(** [OnRawData] on a stream buffer that has just been filled. *)
Lemma raw_data_ok st acc D base :
  bip_rep (ep_heap st) (ep_bb st) (AQ c D None) → D ≠ [] → zlen D ≤ c →
  rx_ok (ep_pool st) (ep_obj st) acc base →
  (ready_for c (ep_obj st) D ∨ _eRecvPageState (ep_obj st) = FRAME_PAGE_STATE_SKIP ∧
     0 < data_size (_recv_page_leading (ep_obj st)) < 16384) →
  ∃ st' r base', OnRawData k st = Ok (st', r) ∧ base ⊆ base' ∧
    match r with
    | Consumed _ => live st' base'
    | Thrown rc => rc ∈ decode_errors ∧ ∃ acc, rx_ok (ep_pool st') (ep_obj st') acc base'
    end.
Proof.
  intros Hbb Hne Hlen Hrx [Hrd|[Hsk Hsz]]; unfold OnRawData.
  - destruct (decode_ok k _ _ _ _ acc base c D Hbb ltac:(lia) Hrx Hrd)
      as (out & lk & e & bb' & s' & o' & r & base' & -> & Hrun & Hdec & Hsub & _).
    cbn [mbind outcome_bind]. do 3 eexists. split; [done|]. split; [exact Hsub|].
    destruct e as [acc' rest|acc' n|rc]; cbn [decoded] in Hdec.
    + destruct Hdec as (-> & Hbb' & Hrx' & Hrd'). exists acc', rest. split_and!; try done; [|by left].
      apply (rx_run_wait_rest _ _ _ _ _ _ _ _ Hrun). lia.
    + destruct Hdec as (-> & Hbb' & Hrx' & Hst & Hn). exists acc', []. split_and!; try done; [cbn; lia|].
      right. split; [done|]. cbn [ep_obj]. rewrite Hn. by eapply rx_run_skip_size.
    + destruct Hdec as (-> & _ & _ & Hacc). split; [by eapply rx_run_errors|done].
  - destruct (decode_skip_ok k _ _ _ _ acc base c D Hbb ltac:(lia) Hrx Hsk Hsz)
      as (bb' & o' & -> & Hbb' & Hrx' & Hst).
    cbn [mbind outcome_bind]. do 3 eexists. split; [done|]. split; [done|]. cbv iota beta.
    exists acc, (drop (Z.to_nat (data_size (_recv_page_leading (ep_obj st)))) D).
    split; [done|]. split; [done|]. rewrite length_drop.
    assert (0 < zlen D) by (destruct D; [done|cbn [length]; lia]).
    split; [lia|]. case_decide.
    + left. by left.
    + right. destruct Hst as [? Hds]. split; [done|]. cbn [ep_obj]. rewrite Hds. lia.
Qed.

Lemma live_turn amount S st base :
  live st base → 0 ≤ amount →
  ∃ S' st' r base', uv_turn k amount S st = Ok (S', st', r) ∧ base ⊆ base' ∧
    match r with
    | Decoded (Thrown rc) => rc ∈ decode_errors ∧ ∃ acc, rx_ok (ep_pool st') (ep_obj st') acc base'
    | _ => live st' base'
    end ∧
    (1 ≤ amount → S ≠ [] → (length S' < length S)%nat).
Proof.
  intros (acc & rest & Hbb & Hrx & Hroom & Hst) Ha.
  destruct (turn_read k c Hc amount S st rest Hbb Hroom Ha) as (h & bb & Hbb1 & ->).
  set (chunk := take _ S) in *.
  assert (1 ≤ amount → S ≠ [] → chunk ≠ []) as Hne.
  { intros ? ?. destruct S as [|x S]; [done|]. unfold chunk.
    by replace (Z.to_nat _) with (Datatypes.S (Z.to_nat (Z.min amount (c - zlen rest) - 1))) by lia. }
  destruct (decide (chunk = [])) as [Hnil|Hnil].
  - do 4 eexists. split; [done|]. split; [done|]. split; [|intros ? ?; by destruct Hne].
    rewrite Hnil, app_nil_r in Hbb1. by exists acc, rest.
  - assert (zlen (rest ++ chunk) ≤ c) as Hlen.
    { rewrite length_app. unfold chunk. rewrite length_take. lia. }
    destruct (raw_data_ok (Endpoint h bb (ep_pool st) (ep_obj st) (ep_got st)) acc (rest ++ chunk) base)
      as (st' & r & base' & -> & Hsub & Hr); try done.
    { by intros [_ ?]%app_eq_nil. }
    { destruct Hst as [Hrd|?]; [left; by apply (ready_for_app c)|by right]. }
    cbn [mbind outcome_bind]. do 4 eexists. split; [done|]. split; [exact Hsub|].
    split; [by destruct r|]. intros _ _. rewrite length_drop.
    assert (0 < length chunk)%nat by (destruct chunk; [done|cbn; lia]).
    assert (length chunk ≤ length S)%nat by (unfold chunk; rewrite length_take; lia). lia.
Qed.
End any.

(** ** New connections, and closing them *)

(** A client right after it was accepted: its stream buffer is new, and so is its
    packet object. *)
Definition new_endpoint {mal : Malloc} (c : Z) (h : heap) (s : pool) : endpoint :=
  let '(h, bb) := bip_buf_create c h in Endpoint h bb s new_packet [].

Section closing.
Context {mal : Malloc} (k : packet_kind).

Lemma new_endpoint_waiting c h s base :
  heap_ok h → pool_inv s base → 0 ≤ c < 2 ^ 63 →
  waiting k c (new_endpoint c h s) None [] base ∧ ep_got (new_endpoint c h s) = [] ∧
  ep_pool (new_endpoint c h s) = s.
Proof.
  intros Hh Hs Hc. destruct (bip_create_ok h c Hh Hc) as (_ & Hbb & _). unfold new_endpoint.
  destruct (bip_buf_create c h) as [h' bb]. split; [|done]. split; cbn; try done.
  - by left.
  - by apply run_short.
Qed.

Lemma new_endpoint_live c h s base :
  heap_ok h → pool_inv s base → 2 ≤ c < 2 ^ 31 → live c (new_endpoint c h s) base.
Proof.
  intros Hh Hs Hc. destruct (new_endpoint_waiting c h s base Hh Hs) as ([? ? ? _] & _); [lia|].
  exists None, []. split; [done|]. split; [done|]. split; [cbn; lia|by left].
Qed.

Lemma clear_ok s o acc base :
  rx_ok s o acc base → _ref_send_buf o = 0 →
  ∃ s' o', Clear s o = Ok (s', o') ∧ pool_inv s' base ∧
    _eRecvPageState o' = FRAME_PAGE_STATE_RECEIVE_LEADING ∧
    _ref_recv_buf o' = 0 ∧ _ref_send_buf o' = 0.
Proof.
  intros Hrx Hsend. unfold Clear. cbn [_ref_recv_buf set_state].
  destruct acc as [a|].
  - destruct (rx_release s (set_state FRAME_PAGE_STATE_RECEIVE_LEADING o) a base)
      as (s' & Er & Hrx'); [by eapply rx_ok_same|].
    pose proof (rx_ref _ _ _ _ Hrx) as [Hb _]. rewrite (proj2 (Z.eqb_neq _ _)) by done.
    unfold recv_release in Er. cbn [_ref_recv_buf set_state] in Er. cbn [negb]. rewrite Er.
    cbn [mbind outcome_bind _ref_send_buf set_recv set_state]. rewrite Hsend. cbn [Z.eqb negb].
    do 2 eexists. split; [done|]. destruct Hrx' as [Hinv _]. by split_and!.
  - pose proof (rx_ref _ _ _ _ Hrx) as Hr. cbn in Hr. rewrite Hr. cbn [Z.eqb negb mbind outcome_bind].
    cbn [_ref_send_buf set_state]. rewrite Hsend. cbn [Z.eqb negb].
    do 2 eexists. split; [done|]. destruct Hrx as [Hinv _]. by split_and!.
Qed.
End closing.

(** ** Properties *)

(** C6: packets that a receiver can take ([message_ok]: a name of 1 to 255 bytes, and header,
    name and body together no longer than the receive buffer of 983008 bytes), posted one
    after the other on a ready connection whose writes all succeed: however the reads of the
    other side cut the bytes, its handler gets exactly these packets, in order ([seen]: the
    outer class does not send the uuid), and when the stream has been read nothing is left
    in its buffers. *)
Theorem tcp_roundtrip {mal : Malloc} {conn : Conn} (k : packet_kind) (ms : list message)
    (s : pool) (held : gmap Z (free_list * bytes)) (o : packet)
    (c : Z) (h : heap) (sr : pool) (base : gmap Z (free_list * bytes))
    (Hs : pool_inv s held) (Hready : IsReady = true) (Hsend : sends_all)
    (Hms : Forall (message_ok k) ms)
    (Hc : PER_FRAME_PAGE_SIZE_MAX ≤ c < 2 ^ 31) (Hh : heap_ok h) (Hr : pool_inv sr base) :
  ∃ s' o' T, post_all k ms s o = Ok (s', o', T) ∧ pool_inv s' held ∧
    ∀ amounts, Forall (λ a, 1 ≤ a) amounts → (length T ≤ length amounts)%nat →
    ∃ st', uv_reads k amounts T (new_endpoint c h sr) = Ok ([], st', None) ∧
      mapM (OnGotPacket k) (ep_got st') = Ok (seen k <$> ms) ∧
      bip_rep (ep_heap st') (ep_bb st') (AQ c [] None) ∧ pool_inv (ep_pool st') base.
Proof.
  destruct (post_all_ok k ms s o held Hs Hready Hsend Hms)
    as (s' & o' & T & texts & E & Hinv & Ht & Hrun).
  unfold PER_FRAME_PAGE_SIZE_MAX in *.
  exists s', o', T. split; [done|]. split; [done|]. intros amounts Ha Hlen.
  destruct (new_endpoint_waiting k c h sr base Hh Hr) as (Hw & Hgot & _); [lia|].
  destruct (reads_all k c ltac:(lia) amounts T _ base texts None Hw Ha Hlen (Hrun c ltac:(lia)))
    as (st' & E' & Hw' & Hgot').
  exists st'. split; [done|]. rewrite Hgot', Hgot.
  split; [by apply handler_ok|]. split; [apply Hw'|apply Hw'].
Qed.

Definition ex_messages : list message :=
  [Message 7 1 (txt "Echo") (txt "hi"); Message (2 ^ 63) 255 (txt "Quit") []].

Lemma ex_messages_ok k : Forall (message_ok k) ex_messages.
Proof.
  repeat apply List.Forall_cons; [..|apply List.Forall_nil];
    (split; destruct k; vm_compute; split; discriminate) ||
    (split; destruct k; try (vm_compute; split; done); vm_compute; discriminate).
Qed.

Lemma tcp_roundtrip_witness :
  ∃ s' o' T,
    post_all (mal := malloc_fill 205) (conn := ex_conn) CTcpInnerPacket ex_messages
      empty_pool new_packet = Ok (s', o', T) ∧ pool_inv s' ∅ ∧
    ∀ amounts, Forall (λ a, 1 ≤ a) amounts → (length T ≤ length amounts)%nat →
    ∃ st', uv_reads (mal := malloc_fill 205) CTcpInnerPacket amounts T
        (new_endpoint (mal := malloc_fill 205) 8192 empty_heap empty_pool) = Ok ([], st', None) ∧
      mapM (OnGotPacket CTcpInnerPacket) (ep_got st') = Ok ex_messages ∧
      bip_rep (ep_heap st') (ep_bb st') (AQ 8192 [] None) ∧ pool_inv (ep_pool st') ∅.
Proof.
  apply (tcp_roundtrip (mal := malloc_fill 205) (conn := ex_conn) CTcpInnerPacket ex_messages).
  - exact empty_pool_inv.
  - reflexivity.
  - intros ? ?. reflexivity.
  - exact (ex_messages_ok CTcpInnerPacket).
  - vm_compute. split; [discriminate|reflexivity].
  - exact empty_heap_ok.
  - exact empty_pool_inv.
Defined.

(** C7: whatever bytes arrive, a turn of the reading loop ends without undefined
    behaviour.  It leaves the other connections' packets as they are, and either keeps
    the connection in a state in which this holds again, or throws one of the documented
    error codes. *)
Theorem receive_safe {mal : Malloc} (k : packet_kind) (c amount : Z) (S : bytes) (st : endpoint)
    (base : gmap Z (free_list * bytes))
    (Hc : 2 ≤ c < 2 ^ 31) (Hst : live c st base) (Ha : 0 ≤ amount) :
  ∃ S' st' r base', uv_turn k amount S st = Ok (S', st', r) ∧ base ⊆ base' ∧
    match r with
    | Decoded (Thrown rc) => rc ∈ decode_errors ∧ ∃ acc, rx_ok (ep_pool st') (ep_obj st') acc base'
    | _ => live c st' base'
    end.
Proof.
  destruct (live_turn k c Hc amount S st base Hst Ha) as (S' & st' & r & base' & ? & ? & ? & _).
  eauto 10.
Qed.

Lemma receive_safe_witness :
  ∃ S' st' r base',
    uv_turn (mal := malloc_fill 205) CTcpOuterPacket 3 [255; 255; 1; 0]
      (new_endpoint (mal := malloc_fill 205) 8192 empty_heap empty_pool) = Ok (S', st', r) ∧
    ∅ ⊆ base' ∧
    match r with
    | Decoded (Thrown rc) => rc ∈ decode_errors ∧ ∃ acc, rx_ok (ep_pool st') (ep_obj st') acc base'
    | _ => live 8192 st' base'
    end.
Proof.
  apply (receive_safe (mal := malloc_fill 205) CTcpOuterPacket 8192 3); [lia| |lia].
  apply (new_endpoint_live CTcpOuterPacket); [exact empty_heap_ok|exact empty_pool_inv|lia].
Defined.



(** C9: one call of [DecodeStream] computes the run of the received bytes: it hands out
    the packets that are complete, keeps the rest for the next call, starts skipping a
    page that is larger than the stream buffer, or throws without consuming anything. *)
Theorem decode_refines {mal : Malloc} (k : packet_kind) (h : heap) (bb : bip_buf) (s : pool)
    (o : packet) (acc : option bytes) (base : gmap Z (free_list * bytes)) (c : Z) (D : bytes)
    (Hbb : bip_rep h bb (AQ c D None)) (Hc : c < 2 ^ 31) (Hrx : rx_ok s o acc base)
    (Hst : ready_for c o D) :
  ∃ out lk e bb' s' o' r base',
    DecodeStream k h bb s o = Ok (bb', s', o', out, r) ∧ rx_run k c acc D out lk e ∧
    decoded c D h bb bb' s' o' base' e r ∧ base ⊆ base' ∧ size base' = (size base + lk)%nat.
Proof. by apply decode_ok. Qed.

Definition ex_endpoint : endpoint :=
  new_endpoint (mal := malloc_fill 205) 8192 empty_heap empty_pool.

Lemma decode_refines_witness :
  ∃ out lk e bb' s' o' r base',
    DecodeStream (mal := malloc_fill 205) CTcpInnerPacket (ep_heap ex_endpoint) (ep_bb ex_endpoint)
      (ep_pool ex_endpoint) (ep_obj ex_endpoint) = Ok (bb', s', o', out, r) ∧
    rx_run CTcpInnerPacket 8192 None [] out lk e ∧
    decoded 8192 [] (ep_heap ex_endpoint) (ep_bb ex_endpoint) bb' s' o' base' e r ∧
    ∅ ⊆ base' ∧ size base' = (size (∅ : gmap Z (free_list * bytes)) + lk)%nat.
Proof.
  destruct (new_endpoint_waiting (mal := malloc_fill 205) CTcpInnerPacket 8192 empty_heap
    empty_pool ∅ empty_heap_ok empty_pool_inv) as ([Hbb Hrx Hst _] & _); [lia|].
  apply (decode_refines (mal := malloc_fill 205) CTcpInnerPacket); [exact Hbb|lia|exact Hrx|exact Hst].
Defined.

(** [Clear] gives a connection's buffer back, and [DestroyPacketBuffer] frees every
    buffer that no connection is using: after the last [Clear] none is left. *)
Theorem buffers_returned {mal : Malloc} (s : pool) (o : packet) (acc : option bytes)
    (base : gmap Z (free_list * bytes)) (Hrx : rx_ok s o acc base) (Hsend : _ref_send_buf o = 0) :
  ∃ s1 o1 s2, Clear s o = Ok (s1, o1) ∧ _ref_recv_buf o1 = 0 ∧
    _eRecvPageState o1 = FRAME_PAGE_STATE_RECEIVE_LEADING ∧
    DestroyPacketBuffer s1 = Ok s2 ∧ ∀ b, is_Some (p_bufs s2 !! b) ↔ is_Some (base !! b).
Proof.
  destruct (clear_ok s o acc base Hrx Hsend) as (s1 & o1 & E1 & Hinv & Hst & Hr & _).
  destruct (destroy_ok s1 base Hinv) as (s2 & E2 & _ & _ & _ & Hb). by exists s1, o1, s2.
Qed.

Lemma buffers_returned_witness :
  ∃ s s1 o1 s2, InitPacketBuffer (mal := malloc_fill 205) CTcpOuterPacket empty_pool = Ok s ∧
    Clear s new_packet = Ok (s1, o1) ∧ _ref_recv_buf o1 = 0 ∧
    _eRecvPageState o1 = FRAME_PAGE_STATE_RECEIVE_LEADING ∧
    DestroyPacketBuffer s1 = Ok s2 ∧
    ∀ b, is_Some (p_bufs s2 !! b) ↔ is_Some ((∅ : gmap Z (free_list * bytes)) !! b).
Proof.
  destruct (init_ok (mal := malloc_fill 205) CTcpOuterPacket empty_pool ∅ empty_pool_inv)
    as (s & E & Hinv).
  destruct (buffers_returned (mal := malloc_fill 205) s new_packet None ∅)
    as (s1 & o1 & s2 & H1); [by split|reflexivity|].
  exists s, s1, o1, s2. exact (conj E H1).
Defined.

(** a first page that arrives while a packet is being put together drops that
    packet's buffer: no connection refers to it any more, and it is still allocated
    after [Clear] and [DestroyPacketBuffer].  A peer can do this with every page. *)
Theorem first_page_leaks {mal : Malloc} (k : packet_kind) (m : bytes) (pBuf : Z) (d a : bytes)
    (s : pool) (o : packet) (base : gmap Z (free_list * bytes))
    (Hm : at_ptr m pBuf d) (Hd : 0 < zlen d < 16384) (Hrx : rx_ok s o (Some a) base)
    (Hsend : _ref_send_buf o = 0)
    (Hl : 0 < page_start (_recv_page_leading o)) (Hl' : page_end (_recv_page_leading o) = 0) :
  ∃ s1 o1 s2 o2 s3,
    ConsumePacket k m pBuf (zlen d) s o = Ok (s1, o1, [], 0) ∧
    _ref_recv_buf o1 ≠ _ref_recv_buf o ∧ Clear s1 o1 = Ok (s2, o2) ∧
    DestroyPacketBuffer s2 = Ok s3 ∧ is_Some (p_bufs s3 !! _ref_recv_buf o).
Proof.
  destruct Hm as (H1 & H2 & H3).
  destruct (consume_first_exact k m pBuf d H1 H2 H3 Hd s o (Some a) base Hrx)
    as (s1 & b & E & Hrx1).
  assert (_ref_recv_buf o ≠ b) as Hne.
  { intros Eb. destruct (rx_ref _ _ _ _ Hrx1) as [_ Hn]. cbn in Hn.
    by rewrite Eb, lookup_insert_eq in Hn. }
  destruct (clear_ok s1 (set_recv b o) (Some d) _ Hrx1 Hsend) as (s2 & o2 & E2 & Hinv2 & _).
  destruct (destroy_ok s2 _ Hinv2) as (s3 & E3 & _ & _ & _ & Hb).
  exists s1, (set_recv b o), s2, o2, s3. split; [|split; [done|]].
  - unfold ConsumePacket. rewrite Hl', (proj2 (Z.ltb_lt _ _) Hl). done.
  - split; [done|]. split; [done|]. apply Hb. cbn. rewrite lookup_insert_eq. eauto.
Qed.

(** A connection with the byte 1 of a packet, in front of a page that starts another. *)
Definition ex_partial : pool :=
  Pool 2 {[1 := PacketBuffer (1 :: replicate (Z.to_nat 983007) 0) 1 983008 0]} 0 0.
Definition ex_object : packet :=
  Packet FRAME_PAGE_STATE_RECEIVE_BODY (PageLeading 1 0 3) 1 0.

Lemma ex_partial_ok : rx_ok ex_partial ex_object (Some [1]) ∅.
Proof.
  split; [|done]. exists (λ _, []). cbn [own ex_object _ref_recv_buf]. split; cbn.
  - by intros [].
  - constructor.
  - by intros ? ? ? ?%elem_of_nil.
  - by intros ? ? ?%elem_of_nil.
  - intros b l a [[<- [= <- <-]]|[_ ?]]%lookup_insert_Some; [|by rewrite lookup_empty in *].
    eexists. split; [apply lookup_singleton_eq|]. split; [done| |].
    + cbn [pb_data length]. rewrite length_replicate, Nat2Z.inj_succ, Z2Nat.id; done.
    + intros _. split; [done|]. cbn. by rewrite take_0.
  - intros b x [<- _]%lookup_singleton_Some. left. rewrite lookup_insert_eq. eauto.
  - intros b [x [<- _]%lookup_singleton_Some]. lia.
  - lia.
Qed.

Lemma first_page_leaks_witness :
  ∃ s1 o1 s2 o2 s3,
    ConsumePacket (mal := malloc_fill 205) CTcpInnerPacket [13; 0; 7; 8; 9] 2 3
      ex_partial ex_object = Ok (s1, o1, [], 0) ∧
    _ref_recv_buf o1 ≠ 1 ∧ Clear s1 o1 = Ok (s2, o2) ∧
    DestroyPacketBuffer s2 = Ok s3 ∧ is_Some (p_bufs s3 !! 1).
Proof.
  apply (first_page_leaks (mal := malloc_fill 205) CTcpInnerPacket [13; 0; 7; 8; 9] 2 [7; 8; 9] [1]
    ex_partial ex_object ∅).
  - split; [discriminate|]. split; [discriminate|reflexivity].
  - split; reflexivity.
  - exact ex_partial_ok.
  - reflexivity.
  - reflexivity.
  - reflexivity.
Defined.
